(** * The glTF writer ([GLTFWriter.write]) as a shallow embedding

    The writer of [src/scripts/create-package.js] (the TypeScript part that
    declares [class GLTFWriter]) turns a property graph into a native
    document: a root JSON object and a map from resource URIs to byte blobs.
    This file embeds the writer as executable definitions and states its
    properties.

    Conventions of the embedding:
    - a JavaScript object is an association list in insertion order;
    - a [Map] keyed by object identity is a [gmap] keyed by the handle
      (a number) of the property, so a well-formed graph gives distinct
      handles to distinct properties of one kind;
    - the lookup tables, the JSON arrays under construction, the resource map,
      the URI counters and the logger output are the fields of one writer
      state, threaded by a state-and-error monad;
    - a typed array is a view on an [ArrayBuffer]: the bytes of the whole
      buffer, the byte offset of the view and its number of elements; bytes
      are numbers, and an element is what its bytes hold, least significant
      byte first;
    - a [throw] is the [Throw] result; nothing is returned besides it. *)

From Stdlib Require Import ZArith QArith Lia Ascii String.
From stdpp Require Import base list gmap strings pretty.

Local Close Scope Q_scope.
Local Open Scope string_scope.
Local Open Scope list_scope.
Local Open Scope nat_scope.

(** ** JSON values and JavaScript objects *)

(** Numbers the writer computes with (indices, offsets, lengths, enum codes)
    are [JInt]; floating-point data that is only passed through (factors,
    transforms, bounds) is [JReal]. *)
#[warnings="-register-all"]
Inductive json : Type :=
| JUndefined
| JNull
| JBool (b : bool)
| JInt (z : Z)
| JReal (q : Q)
| JStr (s : string)
| JArr (l : list json)
| JObj (o : list (string * json)).

Abbreviation object := (list (string * json)).

Definition JNat (n : nat) : json := JInt (Z.of_nat n).

(** [object[key]] *)
Fixpoint oget (key : string) (o : object) : option json :=
  match o with
  | [] => None
  | (k, v) :: o' => if decide (k = key) then Some v else oget key o'
  end.

(** [object[key] = value]: an existing key keeps its place. *)
Fixpoint oset (key : string) (value : json) (o : object) : object :=
  match o with
  | [] => [(key, value)]
  | (k, v) :: o' =>
      if decide (k = key) then (k, value) :: o' else (k, v) :: oset key value o'
  end.

(** [delete object[key]] *)
Fixpoint odelete (key : string) (o : object) : object :=
  match o with
  | [] => []
  | (k, v) :: o' =>
      if decide (k = key) then odelete key o' else (k, v) :: odelete key o'
  end.

(** [Object.keys(o).length > 0] *)
Definition nonEmptyObject (o : object) : bool :=
  match o with [] => false | _ => true end.

(** Truthiness of a string. *)
Definition truthy (s : string) : bool :=
  match s with EmptyString => false | _ => true end.

(** The array stored under [key], empty when the key is absent. *)
Definition jarray (key : string) (o : object) : list json :=
  match oget key o with
  | Some (JArr l) => l
  | _ => []
  end.

(** The property key a value is converted to when it indexes an object. *)
Definition toPropertyKey (v : json) : string :=
  match v with
  | JStr s => s
  | JNull => "null"
  | JUndefined => "undefined"
  | JBool true => "true"
  | JBool false => "false"
  | JInt z => pretty z
  | _ => "[object Object]"
  end.

(** ** [clean] *)

Definition cleanUnused (obj : object) : list json :=
  foldl (fun unused kv =>
           match kv.2 with
           | JArr [] => unused ++ [JStr kv.1]
           | JNull => unused ++ [kv.2]
           | JStr EmptyString => unused ++ [kv.2]
           | _ => unused
           end) [] obj.

Definition clean (obj : object) : object :=
  foldl (fun o key => odelete (toPropertyKey key) o) obj (cleanUnused obj).

(** ** Bytes and [BufferUtils] *)

Abbreviation bytes := (list Z).

Module BufferUtils.

(** Modelled from the spec: [BufferUtils.padNumber] is imported from
    [../utils], which is not part of the source; the spec calls it
    [padTo4], the next multiple of 4. *)
Definition padNumber (v : nat) : nat := (v + 3) / 4 * 4.

(** Modelled from the spec: [BufferUtils.pad] is imported from [../utils];
    the spec has it pad the length to the next multiple of 4 with zero
    bytes. *)
Definition pad (data : bytes) : bytes :=
  data ++ replicate (padNumber (length data) - length data) 0%Z.

(** Modelled from the spec: [BufferUtils.concat] is imported from
    [../utils]; the spec uses it as the concatenation of the segments. *)
Definition concat (buffers : list bytes) : bytes := mjoin buffers.

Definition alphabet : list ascii :=
  list_ascii_of_string
    "ABCDEFGHIJKLMNOPQRSTUVWXYZabcdefghijklmnopqrstuvwxyz0123456789+/".

Definition sextet (n : Z) : string :=
  String (nth (Z.to_nat (Z.land n 63)) alphabet "="%char) EmptyString.

(** Modelled from the spec: [BufferUtils.encodeBufferToBase64] is imported
    from [../utils]; the spec calls it [base64], taken here as the standard
    alphabet with [=] padding. *)
Fixpoint encodeBufferToBase64 (data : bytes) : string :=
  match data with
  | [] => EmptyString
  | [a] =>
      sextet (Z.shiftr a 2) +:+ sextet (Z.shiftl a 4) +:+ "=="
  | [a; b] =>
      sextet (Z.shiftr a 2)
      +:+ sextet (Z.lor (Z.shiftl a 4) (Z.shiftr b 4))
      +:+ sextet (Z.shiftl b 2) +:+ "="
  | a :: b :: c :: rest =>
      sextet (Z.shiftr a 2)
      +:+ sextet (Z.lor (Z.shiftl a 4) (Z.shiftr b 4))
      +:+ sextet (Z.lor (Z.shiftl b 2) (Z.shiftr c 6))
      +:+ sextet c
      +:+ encodeBufferToBase64 rest
  end.

End BufferUtils.

(** ** The property graph *)

(** What every property carries: [getName], [getExtras], [getExtensions]. *)
Record Property : Type := {
  getName : string;
  getExtras : object;
  getExtensions : object;
}.

Inductive ComponentType : Type :=
| BYTE | UNSIGNED_BYTE | SHORT | UNSIGNED_SHORT | UNSIGNED_INT | FLOAT.

(** The codes of [GLTF.AccessorComponentType]. *)
Definition componentTypeCode (t : ComponentType) : Z :=
  match t with
  | BYTE => 5120 | UNSIGNED_BYTE => 5121
  | SHORT => 5122 | UNSIGNED_SHORT => 5123
  | UNSIGNED_INT => 5125 | FLOAT => 5126
  end%Z.

Inductive AccessorType : Type :=
| SCALAR | VEC2 | VEC3 | VEC4 | MAT2 | MAT3 | MAT4.

Definition accessorTypeName (t : AccessorType) : string :=
  match t with
  | SCALAR => "SCALAR" | VEC2 => "VEC2" | VEC3 => "VEC3" | VEC4 => "VEC4"
  | MAT2 => "MAT2" | MAT3 => "MAT3" | MAT4 => "MAT4"
  end.

(** A typed array: a view of [ta_length] elements on the [ArrayBuffer]
    [ta_buffer], starting at byte [ta_byteOffset] of it. The buffer can be
    larger than the view, and shared with other views. *)
Record TypedArray : Type := {
  ta_buffer : list Z;
  ta_byteOffset : nat;
  ta_length : nat;
}.

(** An accessor. [getArray] is its typed array, whose element type is the
    component type of the accessor. [acc_max] and [acc_min] are what [getMax]
    and [getMin] put in their target. *)
Record Accessor : Type := {
  acc_id : nat;
  acc_property : Property;
  acc_type : AccessorType;
  acc_componentType : ComponentType;
  acc_count : nat;
  getArray : TypedArray;
  acc_max : list Q;
  acc_min : list Q;
  acc_normalized : bool;
}.

(** Modelled from the spec: [Accessor.getElementSize] belongs to the property
    classes, which are not part of the source; the spec's data model gives the
    element sizes scalar, vec2, vec3, vec4, mat2, mat3, mat4. *)
Definition getElementSize (a : Accessor) : nat :=
  match acc_type a with
  | SCALAR => 1 | VEC2 => 2 | VEC3 => 3 | VEC4 => 4
  | MAT2 => 4 | MAT3 => 9 | MAT4 => 16
  end.

Definition componentSize (t : ComponentType) : nat :=
  match t with
  | BYTE | UNSIGNED_BYTE => 1
  | SHORT | UNSIGNED_SHORT => 2
  | UNSIGNED_INT | FLOAT => 4
  end.

(** Modelled from the spec: [Accessor.getComponentSize] belongs to the
    property classes; the spec's data model gives the component types i8, u8,
    i16, u16, u32, f32, hence 1, 1, 2, 2, 4, 4 bytes. *)
Definition getComponentSize (a : Accessor) : nat :=
  componentSize (acc_componentType a).

(** [view.slice(byteOffset, byteOffset + n)] *)
Definition slice (byteOffset n : nat) (view : list Z) : list Z :=
  take n (drop byteOffset view).

(** The number that a sequence of bytes holds, least significant byte
    first. *)
Fixpoint littleEndian (data : list Z) : Z :=
  match data with
  | [] => 0
  | b :: rest => b + 256 * littleEndian rest
  end.

(** [array[k]] for the typed array of an accessor: [None] stands for
    [undefined], outside the array. An element is read from the bytes of the
    underlying buffer in the byte order of the platform, which is
    little-endian; an element of an integer array is given by its bits, read
    as an unsigned number, and an element of a [Float32Array] by its IEEE-754
    binary32 bit pattern. *)
Definition acc_array (a : Accessor) : list Z :=
  (fun k => littleEndian
              (slice (ta_byteOffset (getArray a) + k * getComponentSize a)
                 (getComponentSize a) (ta_buffer (getArray a))))
  <$> seq 0 (ta_length (getArray a)).

Inductive PropertyType : Type :=
| TRoot | TAccessor | TBuffer | TPrimitive | TPrimitiveTarget | TSkin
| TAnimationSampler | TOtherProperty.

Global Instance PropertyType_eq_dec : EqDecision PropertyType.
Proof. solve_decision. Defined.

(** A reference to a property of the graph: its class and its handle. *)
Record Ref : Type := { ref_type : PropertyType; ref_id : nat }.

Global Instance Ref_eq_dec : EqDecision Ref.
Proof. solve_decision. Defined.

Definition rootRef : Ref := {| ref_type := TRoot; ref_id := 0 |}.

Inductive LinkKind : Type := AttributeLink | IndexLink | PlainLink.

Record Link : Type := {
  link_kind : LinkKind;
  getParent : Ref;
  getChild : Ref;
}.

(** An entry of [buffer.listParents()]. *)
Inductive Parent : Type :=
| ParentRoot
| ParentAccessor (a : Accessor)
| ParentOther (shown : string).

Record Buffer : Type := {
  buf_property : Property;
  buf_uri : string;
  buf_listParents : list Parent;
}.

Record Texture : Type := {
  tex_id : nat;
  tex_property : Property;
  tex_mimeType : string;
  tex_image : list Z;
  tex_uri : string;
}.

Record TextureInfo : Type := { getTexCoord : Z }.

(** [getMagFilter] and [getMinFilter] may return [null]. *)
Record TextureSampler : Type := {
  getMagFilter : option Z;
  getMinFilter : option Z;
  getWrapS : Z;
  getWrapT : Z;
}.

(** A texture slot of a material: the texture (by handle), its info and its
    sampler, which exist together. *)
Record TextureSlot : Type := {
  slot_texture : nat;
  slot_info : TextureInfo;
  slot_sampler : TextureSampler;
}.

Record Material : Type := {
  mat_id : nat;
  mat_property : Property;
  getAlphaMode : string;
  getAlphaCutoff : Q;
  getDoubleSided : bool;
  getBaseColorFactor : list Q;
  getEmissiveFactor : list Q;
  getRoughnessFactor : Q;
  getMetallicFactor : Q;
  baseColorTexture : option TextureSlot;
  emissiveTexture : option TextureSlot;
  normalTexture : option TextureSlot;
  getNormalScale : Q;
  occlusionTexture : option TextureSlot;
  getOcclusionStrength : Q;
  metallicRoughnessTexture : option TextureSlot;
}.

Record PrimitiveTarget : Type := {
  target_name : string;
  target_attributes : list (string * nat);
}.

Record Primitive : Type := {
  prim_material : option nat;
  prim_mode : Z;
  prim_indices : option nat;
  prim_attributes : list (string * nat);
  prim_targets : list PrimitiveTarget;
}.

Record Mesh : Type := {
  mesh_id : nat;
  mesh_property : Property;
  listPrimitives : list Primitive;
  mesh_weights : list Q;
}.

Record Camera : Type := {
  cam_id : nat;
  cam_property : Property;
  cam_type : string;
  getZNear : Q;
  getZFar : Q;
  getYFov : Q;
  getAspectRatio : Q;
  getXMag : Q;
  getYMag : Q;
}.

Record Node : Type := {
  node_id : nat;
  node_property : Property;
  getTranslation : list Q;
  getRotation : list Q;
  getScale : list Q;
  node_weights : list Q;
  node_mesh : option nat;
  node_camera : option nat;
  node_skin : option nat;
  node_children : list nat;
}.

Record Skin : Type := {
  skin_id : nat;
  skin_property : Property;
  getInverseBindMatrices : option nat;
  getSkeleton : option nat;
  listJoints : list nat;
}.

Record AnimationSampler : Type := {
  sampler_id : nat;
  sampler_property : Property;
  getInput : option nat;
  getOutput : option nat;
  getInterpolation : string;
}.

Record AnimationChannel : Type := {
  channel_property : Property;
  getSampler : option nat;
  getTargetNode : option nat;
  getTargetPath : string;
}.

Record Animation : Type := {
  anim_property : Property;
  listSamplers : list AnimationSampler;
  listChannels : list AnimationChannel;
}.

Record Scene : Type := {
  scene_property : Property;
  scene_nodes : list nat;
}.

Record Root : Type := {
  getAsset : object;
  listBuffers : list Buffer;
  listTextures : list Texture;
  listMaterials : list Material;
  listMeshes : list Mesh;
  listCameras : list Camera;
  listNodes : list Node;
  listSkins : list Skin;
  listAnimations : list Animation;
  listScenes : list Scene;
}.

Record Document : Type := {
  getRoot : Root;
  getLinks : list Link;
}.

Record WriterOptions : Type := {
  basename : string;
  isGLB : bool;
  embedded : bool;
}.

Record NativeDocument : Type := {
  json_of : object;
  resources_of : gmap string (list Z);
}.

(** ** Results, the writer state and its monad *)

Inductive result (A : Type) : Type :=
| Ok (a : A)
| Throw (message : string).

Arguments Ok {A} a.
Arguments Throw {A} message.

Global Instance result_ret : MRet result := fun A a => Ok a.

Global Instance result_bind : MBind result := fun A B f m =>
  match m with
  | Ok a => f a
  | Throw e => Throw e
  end.

(** The local state of one [write] call: the arrays of the root JSON that the
    stages share, [nativeDoc.resources], the lookup tables, the recorded image
    bytes, the counters of the two URI generators and the logger output. *)
Record Writer : Type := {
  w_accessors : list json;
  w_bufferViews : list json;
  w_samplers : list json;
  w_textures : list json;
  w_images : list json;
  w_buffers : list json;
  w_resources : gmap string (list Z);
  accessorIndexMap : gmap nat nat;
  imageIndexMap : gmap nat nat;
  textureIndexMap : gmap string nat;
  samplerIndexMap : gmap string nat;
  imageData : list (list Z);
  bufferURICounter : nat;
  imageURICounter : nat;
  w_warnings : list string;
}.

Definition set_w_accessors (v : list json) (w : Writer) : Writer :=
  {| w_accessors := v;
     w_bufferViews := w_bufferViews w;
     w_samplers := w_samplers w;
     w_textures := w_textures w;
     w_images := w_images w;
     w_buffers := w_buffers w;
     w_resources := w_resources w;
     accessorIndexMap := accessorIndexMap w;
     imageIndexMap := imageIndexMap w;
     textureIndexMap := textureIndexMap w;
     samplerIndexMap := samplerIndexMap w;
     imageData := imageData w;
     bufferURICounter := bufferURICounter w;
     imageURICounter := imageURICounter w;
     w_warnings := w_warnings w |}.

Definition set_w_bufferViews (v : list json) (w : Writer) : Writer :=
  {| w_accessors := w_accessors w;
     w_bufferViews := v;
     w_samplers := w_samplers w;
     w_textures := w_textures w;
     w_images := w_images w;
     w_buffers := w_buffers w;
     w_resources := w_resources w;
     accessorIndexMap := accessorIndexMap w;
     imageIndexMap := imageIndexMap w;
     textureIndexMap := textureIndexMap w;
     samplerIndexMap := samplerIndexMap w;
     imageData := imageData w;
     bufferURICounter := bufferURICounter w;
     imageURICounter := imageURICounter w;
     w_warnings := w_warnings w |}.

Definition set_w_samplers (v : list json) (w : Writer) : Writer :=
  {| w_accessors := w_accessors w;
     w_bufferViews := w_bufferViews w;
     w_samplers := v;
     w_textures := w_textures w;
     w_images := w_images w;
     w_buffers := w_buffers w;
     w_resources := w_resources w;
     accessorIndexMap := accessorIndexMap w;
     imageIndexMap := imageIndexMap w;
     textureIndexMap := textureIndexMap w;
     samplerIndexMap := samplerIndexMap w;
     imageData := imageData w;
     bufferURICounter := bufferURICounter w;
     imageURICounter := imageURICounter w;
     w_warnings := w_warnings w |}.

Definition set_w_textures (v : list json) (w : Writer) : Writer :=
  {| w_accessors := w_accessors w;
     w_bufferViews := w_bufferViews w;
     w_samplers := w_samplers w;
     w_textures := v;
     w_images := w_images w;
     w_buffers := w_buffers w;
     w_resources := w_resources w;
     accessorIndexMap := accessorIndexMap w;
     imageIndexMap := imageIndexMap w;
     textureIndexMap := textureIndexMap w;
     samplerIndexMap := samplerIndexMap w;
     imageData := imageData w;
     bufferURICounter := bufferURICounter w;
     imageURICounter := imageURICounter w;
     w_warnings := w_warnings w |}.

Definition set_w_images (v : list json) (w : Writer) : Writer :=
  {| w_accessors := w_accessors w;
     w_bufferViews := w_bufferViews w;
     w_samplers := w_samplers w;
     w_textures := w_textures w;
     w_images := v;
     w_buffers := w_buffers w;
     w_resources := w_resources w;
     accessorIndexMap := accessorIndexMap w;
     imageIndexMap := imageIndexMap w;
     textureIndexMap := textureIndexMap w;
     samplerIndexMap := samplerIndexMap w;
     imageData := imageData w;
     bufferURICounter := bufferURICounter w;
     imageURICounter := imageURICounter w;
     w_warnings := w_warnings w |}.

Definition set_w_buffers (v : list json) (w : Writer) : Writer :=
  {| w_accessors := w_accessors w;
     w_bufferViews := w_bufferViews w;
     w_samplers := w_samplers w;
     w_textures := w_textures w;
     w_images := w_images w;
     w_buffers := v;
     w_resources := w_resources w;
     accessorIndexMap := accessorIndexMap w;
     imageIndexMap := imageIndexMap w;
     textureIndexMap := textureIndexMap w;
     samplerIndexMap := samplerIndexMap w;
     imageData := imageData w;
     bufferURICounter := bufferURICounter w;
     imageURICounter := imageURICounter w;
     w_warnings := w_warnings w |}.

Definition set_w_resources (v : gmap string (list Z)) (w : Writer) : Writer :=
  {| w_accessors := w_accessors w;
     w_bufferViews := w_bufferViews w;
     w_samplers := w_samplers w;
     w_textures := w_textures w;
     w_images := w_images w;
     w_buffers := w_buffers w;
     w_resources := v;
     accessorIndexMap := accessorIndexMap w;
     imageIndexMap := imageIndexMap w;
     textureIndexMap := textureIndexMap w;
     samplerIndexMap := samplerIndexMap w;
     imageData := imageData w;
     bufferURICounter := bufferURICounter w;
     imageURICounter := imageURICounter w;
     w_warnings := w_warnings w |}.

Definition set_accessorIndexMap (v : gmap nat nat) (w : Writer) : Writer :=
  {| w_accessors := w_accessors w;
     w_bufferViews := w_bufferViews w;
     w_samplers := w_samplers w;
     w_textures := w_textures w;
     w_images := w_images w;
     w_buffers := w_buffers w;
     w_resources := w_resources w;
     accessorIndexMap := v;
     imageIndexMap := imageIndexMap w;
     textureIndexMap := textureIndexMap w;
     samplerIndexMap := samplerIndexMap w;
     imageData := imageData w;
     bufferURICounter := bufferURICounter w;
     imageURICounter := imageURICounter w;
     w_warnings := w_warnings w |}.

Definition set_imageIndexMap (v : gmap nat nat) (w : Writer) : Writer :=
  {| w_accessors := w_accessors w;
     w_bufferViews := w_bufferViews w;
     w_samplers := w_samplers w;
     w_textures := w_textures w;
     w_images := w_images w;
     w_buffers := w_buffers w;
     w_resources := w_resources w;
     accessorIndexMap := accessorIndexMap w;
     imageIndexMap := v;
     textureIndexMap := textureIndexMap w;
     samplerIndexMap := samplerIndexMap w;
     imageData := imageData w;
     bufferURICounter := bufferURICounter w;
     imageURICounter := imageURICounter w;
     w_warnings := w_warnings w |}.

Definition set_textureIndexMap (v : gmap string nat) (w : Writer) : Writer :=
  {| w_accessors := w_accessors w;
     w_bufferViews := w_bufferViews w;
     w_samplers := w_samplers w;
     w_textures := w_textures w;
     w_images := w_images w;
     w_buffers := w_buffers w;
     w_resources := w_resources w;
     accessorIndexMap := accessorIndexMap w;
     imageIndexMap := imageIndexMap w;
     textureIndexMap := v;
     samplerIndexMap := samplerIndexMap w;
     imageData := imageData w;
     bufferURICounter := bufferURICounter w;
     imageURICounter := imageURICounter w;
     w_warnings := w_warnings w |}.

Definition set_samplerIndexMap (v : gmap string nat) (w : Writer) : Writer :=
  {| w_accessors := w_accessors w;
     w_bufferViews := w_bufferViews w;
     w_samplers := w_samplers w;
     w_textures := w_textures w;
     w_images := w_images w;
     w_buffers := w_buffers w;
     w_resources := w_resources w;
     accessorIndexMap := accessorIndexMap w;
     imageIndexMap := imageIndexMap w;
     textureIndexMap := textureIndexMap w;
     samplerIndexMap := v;
     imageData := imageData w;
     bufferURICounter := bufferURICounter w;
     imageURICounter := imageURICounter w;
     w_warnings := w_warnings w |}.

Definition set_imageData (v : list (list Z)) (w : Writer) : Writer :=
  {| w_accessors := w_accessors w;
     w_bufferViews := w_bufferViews w;
     w_samplers := w_samplers w;
     w_textures := w_textures w;
     w_images := w_images w;
     w_buffers := w_buffers w;
     w_resources := w_resources w;
     accessorIndexMap := accessorIndexMap w;
     imageIndexMap := imageIndexMap w;
     textureIndexMap := textureIndexMap w;
     samplerIndexMap := samplerIndexMap w;
     imageData := v;
     bufferURICounter := bufferURICounter w;
     imageURICounter := imageURICounter w;
     w_warnings := w_warnings w |}.

Definition set_bufferURICounter (v : nat) (w : Writer) : Writer :=
  {| w_accessors := w_accessors w;
     w_bufferViews := w_bufferViews w;
     w_samplers := w_samplers w;
     w_textures := w_textures w;
     w_images := w_images w;
     w_buffers := w_buffers w;
     w_resources := w_resources w;
     accessorIndexMap := accessorIndexMap w;
     imageIndexMap := imageIndexMap w;
     textureIndexMap := textureIndexMap w;
     samplerIndexMap := samplerIndexMap w;
     imageData := imageData w;
     bufferURICounter := v;
     imageURICounter := imageURICounter w;
     w_warnings := w_warnings w |}.

Definition set_imageURICounter (v : nat) (w : Writer) : Writer :=
  {| w_accessors := w_accessors w;
     w_bufferViews := w_bufferViews w;
     w_samplers := w_samplers w;
     w_textures := w_textures w;
     w_images := w_images w;
     w_buffers := w_buffers w;
     w_resources := w_resources w;
     accessorIndexMap := accessorIndexMap w;
     imageIndexMap := imageIndexMap w;
     textureIndexMap := textureIndexMap w;
     samplerIndexMap := samplerIndexMap w;
     imageData := imageData w;
     bufferURICounter := bufferURICounter w;
     imageURICounter := v;
     w_warnings := w_warnings w |}.

Definition set_w_warnings (v : list string) (w : Writer) : Writer :=
  {| w_accessors := w_accessors w;
     w_bufferViews := w_bufferViews w;
     w_samplers := w_samplers w;
     w_textures := w_textures w;
     w_images := w_images w;
     w_buffers := w_buffers w;
     w_resources := w_resources w;
     accessorIndexMap := accessorIndexMap w;
     imageIndexMap := imageIndexMap w;
     textureIndexMap := textureIndexMap w;
     samplerIndexMap := samplerIndexMap w;
     imageData := imageData w;
     bufferURICounter := bufferURICounter w;
     imageURICounter := imageURICounter w;
     w_warnings := v |}.

Definition initialWriter : Writer :=
  {| w_accessors := []; w_bufferViews := []; w_samplers := [];
     w_textures := []; w_images := []; w_buffers := [];
     w_resources := ∅; accessorIndexMap := ∅; imageIndexMap := ∅;
     textureIndexMap := ∅; samplerIndexMap := ∅; imageData := [];
     bufferURICounter := 1; imageURICounter := 1; w_warnings := [] |}.

Definition M (A : Type) : Type := Writer -> result (A * Writer).

Global Instance M_ret : MRet M := fun A a w => Ok (a, w).

Global Instance M_bind : MBind M := fun A B f m w =>
  match m w with
  | Ok (a, w') => f a w'
  | Throw e => Throw e
  end.

Definition gets {A : Type} (f : Writer -> A) : M A := fun w => Ok (f w, w).

Definition modify (f : Writer -> Writer) : M unit := fun w => Ok (tt, f w).

Definition throw {A : Type} (message : string) : M A := fun _ => Throw message.

Definition liftResult {A : Type} (r : result A) : M A := fun w =>
  match r with
  | Ok a => Ok (a, w)
  | Throw e => Throw e
  end.

(** [for (const x of l) body] with an accumulator, in the state monad. *)
Fixpoint foldM {A B : Type} (body : B -> A -> M B) (acc : B) (l : list A) : M B :=
  match l with
  | [] => mret acc
  | x :: l' => acc' ← body acc x; foldM body acc' l'
  end.

(** [l.forEach(body)] *)
Definition forEach {A : Type} (l : list A) (body : A -> M unit) : M unit :=
  foldM (fun _ x => body x) tt l.

(** [l.map((x, index) => body)] with effects, [index] counted from [i]. *)
Fixpoint mapM {A B : Type} (body : nat -> A -> M B) (i : nat) (l : list A)
  : M (list B) :=
  match l with
  | [] => mret []
  | x :: l' => y ← body i x; ys ← mapM body (S i) l'; mret (y :: ys)
  end.

(** The same loop for code that can only throw. *)
Fixpoint foldR {A B : Type} (body : B -> A -> result B) (acc : B) (l : list A)
  : result B :=
  match l with
  | [] => Ok acc
  | x :: l' => acc' ← body acc x; foldR body acc' l'
  end.

(** ** Constants *)

(** Modelled from the spec: [GLB_BUFFER] is imported from [../constants],
    which is not part of the source; the spec gives the sentinel. *)
Definition GLB_BUFFER : string := "@glb.bin".

(** Modelled from the spec: [NAME] is imported from [../constants]; it only
    prefixes the logger's messages, and is taken to be the package name that
    the tests of the source print. *)
Definition NAME : string := "@gltf-transform/core".

Module BufferViewTarget.
Definition ARRAY_BUFFER : Z := 34962.
Definition ELEMENT_ARRAY_BUFFER : Z := 34963.
End BufferViewTarget.

(** ** [UniqueURIGenerator] *)

(** [createURI]: the generator is its [multiple] flag, its [basename] and its
    counter, which is returned updated; [uri] is [object.getURI()]. *)
Definition createURI (multiple : bool) (basename : string) (counter : nat)
    (uri : string) (extension : string) : string * nat :=
  if truthy uri then (uri, counter)
  else if negb multiple then (basename +:+ "." +:+ extension, counter)
  else (basename +:+ "_" +:+ pretty counter +:+ "." +:+ extension, S counter).

(** ** Property and accessor definitions *)

Definition createPropertyDef (property : Property) : object :=
  let def : object := [] in
  let def :=
    if truthy (getName property) then oset "name" (JStr (getName property)) def
    else def in
  let def :=
    if nonEmptyObject (getExtras property)
    then oset "extras" (JObj (getExtras property)) def
    else def in
  let def :=
    if nonEmptyObject (getExtensions property)
    then oset "extras" (JObj (getExtensions property)) def
    else def in
  def.

Definition createAccessorDef (accessor : Accessor) : object :=
  let accessorDef := createPropertyDef (acc_property accessor) in
  let accessorDef := oset "type" (JStr (accessorTypeName (acc_type accessor))) accessorDef in
  let accessorDef :=
    oset "componentType" (JInt (componentTypeCode (acc_componentType accessor)))
      accessorDef in
  let accessorDef := oset "count" (JNat (acc_count accessor)) accessorDef in
  let accessorDef := oset "max" (JArr (JReal <$> acc_max accessor)) accessorDef in
  let accessorDef := oset "min" (JArr (JReal <$> acc_min accessor)) accessorDef in
  oset "normalized" (JBool (acc_normalized accessor)) accessorDef.

(** ** Typed arrays and [DataView] *)

(** The [size] low bytes of [value], least significant first. *)
Definition encodeLE (size : nat) (value : Z) : list Z :=
  (fun k => Z.land (Z.shiftr value (8 * Z.of_nat k)) 255) <$> seq 0 size.

(** The quiet NaN that [setFloat32] stores for [undefined]. *)
Definition float32NaN : Z := 2143289344.

(** A binary32 bit pattern is a NaN when its exponent is all ones and its
    fraction is not zero. *)
Definition isNaN32 (bits : Z) : bool :=
  bool_decide (Z.land (Z.shiftr bits 23) 255 = 255%Z)
  && negb (bool_decide (Z.land bits 8388607 = 0%Z)).

(** [setFloat32] of the Number read from a [Float32Array]: a number is
    stored with the bits it had; a NaN is stored as some NaN, whose fraction
    the engine chooses. The engine modelled here makes a signalling NaN quiet
    and keeps the rest of its bits. *)
Definition float32Store (bits : Z) : Z :=
  if isNaN32 bits then Z.lor bits 4194304 else bits.

(** The bytes a [DataView] setter of component type [t] stores for
    [array[k]], little-endian; an index outside the array reads
    [undefined], which converts to NaN for [setFloat32] and to 0 for the
    integer setters. *)
Definition scalarBytes (t : ComponentType) (value : option Z) : list Z :=
  match value with
  | Some v =>
      match t with
      | FLOAT => encodeLE 4 (float32Store v)
      | _ => encodeLE (componentSize t) v
      end
  | None =>
      match t with
      | FLOAT => encodeLE 4 float32NaN
      | _ => encodeLE (componentSize t) 0
      end
  end.

(** [accessor.getArray().buffer]: the whole [ArrayBuffer] under the typed
    array, also where the array is a view of a part of it. *)
Definition arrayBuffer (accessor : Accessor) : list Z :=
  ta_buffer (getArray accessor).

(** A [DataView] store of [data] at [byteOffset]. *)
Definition setBytes (byteOffset : nat) (data : list Z) (view : list Z)
  : result (list Z) :=
  if decide (byteOffset + length data <= length view)
  then Ok (take byteOffset view ++ data ++ drop (byteOffset + length data) view)
  else Throw "RangeError: Offset is outside the bounds of the DataView".

(** ** The buffer-view packers *)

Record BufferViewResult : Type := {
  res_byteLength : nat;
  res_buffers : list (list Z);
}.

Definition pushAccessor (accessor : Accessor) (accessorDef : object) : M unit :=
  modify (fun w =>
    set_w_accessors (w_accessors w ++ [JObj accessorDef])
      (set_accessorIndexMap
         (<[acc_id accessor := length (w_accessors w)]> (accessorIndexMap w)) w)).

Definition pushBufferView (bufferViewDef : object) : M unit :=
  modify (fun w => set_w_bufferViews (w_bufferViews w ++ [JObj bufferViewDef]) w).

(** The first loop of [concatAccessors]: the accessor definition, its padded
    bytes and the running [byteLength]. *)
Definition concatStep (acc : list (list Z) * nat) (accessor : Accessor)
  : M (list (list Z) * nat) :=
  bufferView ← gets (fun w => length (w_bufferViews w));
  let accessorDef := createAccessorDef accessor in
  let accessorDef := oset "bufferView" (JNat bufferView) accessorDef in
  let data := BufferUtils.pad (arrayBuffer accessor) in
  let accessorDef := oset "byteOffset" (JNat acc.2) accessorDef in
  pushAccessor accessor accessorDef;;
  mret (acc.1 ++ [data], acc.2 + length data).

(** [concatAccessors]: a sequential buffer view. *)
Definition concatAccessors (accessors : list Accessor)
    (bufferIndex bufferByteOffset : nat) (bufferViewTarget : option Z)
  : M BufferViewResult :=
  r ← foldM concatStep ([], 0) accessors;
  let bufferViewData := BufferUtils.concat r.1 in
  let bufferViewDef : object :=
    [("buffer", JNat bufferIndex);
     ("byteOffset", JNat bufferByteOffset);
     ("byteLength", JNat (length bufferViewData))] in
  let bufferViewDef :=
    match bufferViewTarget with
    | Some t => if decide (t = 0%Z) then bufferViewDef
                else oset "target" (JInt t) bufferViewDef
    | None => bufferViewDef
    end in
  pushBufferView bufferViewDef;;
  mret {| res_byteLength := r.2; res_buffers := r.1 |}.

(** The padded size of one element of [accessor] inside a vertex. *)
Definition paddedElementSize (accessor : Accessor) : nat :=
  BufferUtils.padNumber (getElementSize accessor * getComponentSize accessor).

(** The loop over [j]: the components of element [i] of one accessor. The
    [switch] is over the six members of [ComponentType], each of which stores
    the scalar with its own width; its [default] branch has no input. *)
Definition writeComponents (accessor : Accessor)
    (i byteStride vertexByteOffset : nat) (view : list Z) : result (list Z) :=
  foldR (fun view j =>
           let viewByteOffset :=
             i * byteStride + vertexByteOffset + j * getComponentSize accessor in
           let value := acc_array accessor !! (i * getElementSize accessor + j) in
           setBytes viewByteOffset
             (scalarBytes (acc_componentType accessor) value) view)
        view (seq 0 (getElementSize accessor)).

(** The loop over the accessors for vertex [i]. *)
Definition writeVertex (accessors : list Accessor) (i byteStride : nat)
    (view : list Z) : result (list Z * nat) :=
  foldR (fun (st : list Z * nat) accessor =>
           view' ← writeComponents accessor i byteStride st.2 st.1;
           Ok (view', st.2 + paddedElementSize accessor))
        (view, 0) accessors.

(** The loop over [i], on a fresh zero-filled [ArrayBuffer]. *)
Definition interleave (accessors : list Accessor) (vertexCount byteStride : nat)
  : result (list Z) :=
  foldR (fun view i => r ← writeVertex accessors i byteStride view; Ok r.1)
        (replicate (vertexCount * byteStride) 0%Z) (seq 0 vertexCount).

(** The first loop of [interleaveAccessors]: the accessor definition and the
    running [byteStride]. *)
Definition strideStep (byteStride : nat) (accessor : Accessor) : M nat :=
  bufferView ← gets (fun w => length (w_bufferViews w));
  let accessorDef := createAccessorDef accessor in
  let accessorDef := oset "bufferView" (JNat bufferView) accessorDef in
  let accessorDef := oset "byteOffset" (JNat byteStride) accessorDef in
  pushAccessor accessor accessorDef;;
  mret (byteStride + paddedElementSize accessor).

(** [interleaveAccessors]: an interleaved buffer view. *)
Definition interleaveAccessors (accessors : list Accessor)
    (bufferIndex bufferByteOffset : nat) : M BufferViewResult :=
  match accessors with
  | [] => throw "TypeError: Cannot read properties of undefined"
  | first :: _ =>
      let vertexCount := acc_count first in
      byteStride ← foldM strideStep 0 accessors;
      let byteLength := vertexCount * byteStride in
      buffer ← liftResult (interleave accessors vertexCount byteStride);
      let bufferViewDef : object :=
        [("buffer", JNat bufferIndex);
         ("byteOffset", JNat bufferByteOffset);
         ("byteLength", JNat byteLength);
         ("byteStride", JNat byteStride);
         ("target", JInt BufferViewTarget.ARRAY_BUFFER)] in
      pushBufferView bufferViewDef;;
      mret {| res_byteLength := byteLength; res_buffers := [buffer] |}
  end.

(** ** Data use pre-processing *)

(** [accessorLinks]: the links into each accessor from a parent other than
    the root, in graph order. *)
Definition gatherAccessorLinks (links : list Link) : gmap nat (list Link) :=
  foldl (fun accessorLinks link =>
           if decide (ref_type (getParent link) = TRoot) then accessorLinks
           else
             let child := getChild link in
             if decide (ref_type child = TAccessor) then
               let uses := default [] (accessorLinks !! ref_id child) in
               <[ref_id child := uses ++ [link]]> accessorLinks
             else accessorLinks)
        ∅ links.

(** ** The accessor partitioner *)

(** A [Set<Accessor>] in insertion order. *)
Definition setAdd (accessor : Accessor) (s : list Accessor) : list Accessor :=
  if decide (acc_id accessor ∈ acc_id <$> s) then s else s ++ [accessor].

(** [attributeAccessors.get(primitive) || new Set()], [add], [set]: a
    [Map<Primitive, Set<Accessor>>] in insertion order. *)
Fixpoint mapAdd (primitive : Ref) (accessor : Accessor)
    (m : list (Ref * list Accessor)) : list (Ref * list Accessor) :=
  match m with
  | [] => [(primitive, setAdd accessor [])]
  | (p, s) :: m' =>
      if decide (p = primitive) then (p, setAdd accessor s) :: m'
      else (p, s) :: mapAdd primitive accessor m'
  end.

Record Partition : Type := {
  attributeAccessors : list (Ref * list Accessor);
  indexAccessors : list Accessor;
  otherAccessors : list Accessor;
}.

Definition emptyPartition : Partition :=
  {| attributeAccessors := []; indexAccessors := []; otherAccessors := [] |}.

Definition isAttributeLink (link : Link) : bool :=
  match link_kind link with AttributeLink => true | _ => false end.

Definition isIndexLink (link : Link) : bool :=
  match link_kind link with IndexLink => true | _ => false end.

Definition isPlainLink (link : Link) : bool :=
  match link_kind link with PlainLink => true | _ => false end.

Definition roleError : string :=
  "Attribute or index accessors must be used only for that purpose.".

(** The body of the loop "Categorize accessors by use". *)
Definition categorize (accessorLinks : gmap nat (list Link))
    (groups : Partition) (parent : Parent) : result Partition :=
  match parent with
  | ParentRoot => Throw ("Unimplemented buffer reference: " +:+ "[object Object]")
  | ParentOther shown => Throw ("Unimplemented buffer reference: " +:+ shown)
  | ParentAccessor parent =>
      let accessorRefs := default [] (accessorLinks !! acc_id parent) in
      let isAttribute := existsb isAttributeLink accessorRefs in
      let isIndex := existsb isIndexLink accessorRefs in
      let isOther := existsb isPlainLink accessorRefs in
      let isOther :=
        if negb isAttribute && negb isIndex && negb isOther then true
        else isOther in
      if isAttribute && negb isIndex && negb isOther then
        match accessorRefs with
        | link :: _ =>
            Ok {| attributeAccessors :=
                    mapAdd (getParent link) parent (attributeAccessors groups);
                  indexAccessors := indexAccessors groups;
                  otherAccessors := otherAccessors groups |}
        | [] => Throw "TypeError: Cannot read properties of undefined"
        end
      else if isIndex && negb isAttribute && negb isOther then
        Ok {| attributeAccessors := attributeAccessors groups;
              indexAccessors := setAdd parent (indexAccessors groups);
              otherAccessors := otherAccessors groups |}
      else if isOther && negb isAttribute && negb isIndex then
        Ok {| attributeAccessors := attributeAccessors groups;
              indexAccessors := indexAccessors groups;
              otherAccessors := setAdd parent (otherAccessors groups) |}
      else Throw roleError
  end.

Definition isRootParent (parent : Parent) : bool :=
  match parent with ParentRoot => true | _ => false end.

(** [bufferParents], then the categorizing loop. *)
Definition partitionAccessors (accessorLinks : gmap nat (list Link))
    (buffer : Buffer) : result Partition :=
  let bufferParents :=
    filter (fun parent => isRootParent parent = false) (buf_listParents buffer) in
  foldR (categorize accessorLinks) emptyPartition bufferParents.

(** ** Textures *)

Definition embedsImages (options : WriterOptions) : bool :=
  isGLB options || embedded options.

(** The callback of [root.listTextures().map]; [multiple] is the flag of
    [imageURIGenerator]. *)
Definition writeImage (options : WriterOptions) (multiple : bool)
    (textureIndex : nat) (texture : Texture) : M json :=
  let imageDef := createPropertyDef (tex_property texture) in
  let imageDef :=
    if truthy (tex_mimeType texture)
    then oset "mimeType" (JStr (tex_mimeType texture)) imageDef
    else imageDef in
  imageDef ←
    (if embedsImages options then
       modify (fun w => set_imageData (imageData w ++ [tex_image texture]) w);;
       bufferView ← gets (fun w => length (w_bufferViews w));
       pushBufferView
         [("buffer", JInt 0);
          ("byteOffset", JInt (-1));
          ("byteLength", JNat (length (tex_image texture)))];;
       mret (oset "bufferView" (JNat bufferView) imageDef)
     else
       let extension :=
         if decide (tex_mimeType texture = "image/png") then "png" else "jpeg" in
       counter ← gets imageURICounter;
       let r := createURI multiple (basename options) counter
                  (tex_uri texture) extension in
       modify (set_imageURICounter r.2);;
       modify (fun w =>
         set_w_resources (<[r.1 := tex_image texture]> (w_resources w)) w);;
       mret (oset "uri" (JStr r.1) imageDef));
  modify (fun w =>
    set_imageIndexMap (<[tex_id texture := textureIndex]> (imageIndexMap w)) w);;
  mret (JObj imageDef).

Definition writeImages (options : WriterOptions) (root : Root) : M unit :=
  let numImages := length (listTextures root) in
  images ← mapM (writeImage options (bool_decide (1 < numImages))) 0
             (listTextures root);
  modify (set_w_images images).

(** ** Buffers, buffer views, and accessors *)

Definition typeError : string :=
  "TypeError: Cannot set properties of undefined".

(** One turn of the loop over [imageData]:
    [json.bufferViews[json.images[i].bufferView].byteOffset = bufferByteLength]. *)
Definition placeImage (i bufferByteLength : nat) : M unit :=
  imageDef ← gets (fun w => w_images w !! i);
  match imageDef with
  | Some (JObj imageDef) =>
      match oget "bufferView" imageDef with
      | Some (JInt k) =>
          bufferViewDef ← gets (fun w =>
            if decide (0 <= k)%Z then w_bufferViews w !! Z.to_nat k else None);
          match bufferViewDef with
          | Some (JObj bufferViewDef) =>
              modify (fun w =>
                set_w_bufferViews
                  (<[Z.to_nat k :=
                       JObj (oset "byteOffset" (JNat bufferByteLength) bufferViewDef)]>
                     (w_bufferViews w)) w)
          | _ => throw typeError
          end
      | _ => throw typeError
      end
  | _ => throw typeError
  end.

(** The packing state of one buffer: the running [bufferByteLength] and the
    segments [buffers]. *)
Record Packed : Type := {
  bufferByteLength : nat;
  packedBuffers : list (list Z);
}.

Definition addResult (p : Packed) (r : BufferViewResult) : Packed :=
  {| bufferByteLength := bufferByteLength p + res_byteLength r;
     packedBuffers := packedBuffers p ++ res_buffers r |}.

(** The packing of one primitive's attribute accessors. *)
Definition packPrimitive (bufferIndex : nat) (p : Packed)
    (entry : Ref * list Accessor) : M Packed :=
  match entry.2 with
  | [] => mret p
  | _ =>
      primitiveResult ← interleaveAccessors entry.2 bufferIndex
                          (bufferByteLength p);
      mret (addResult p primitiveResult)
  end.

(** One turn of the loop over [imageData]; [st.1] is [i]. *)
Definition appendImage (st : nat * Packed) (data : list Z) : M (nat * Packed) :=
  placeImage st.1 (bufferByteLength st.2);;
  mret (S st.1,
        {| bufferByteLength := bufferByteLength st.2 + length data;
           packedBuffers := packedBuffers st.2 ++ [data] |}).

(** "Write accessor groups to buffer views". *)
Definition packGroups (groups : Partition) (bufferIndex : nat) : M Packed :=
  let p := {| bufferByteLength := 0; packedBuffers := [] |} in
  p ← (match indexAccessors groups with
       | [] => mret p
       | _ =>
           indexResult ← concatAccessors (indexAccessors groups) bufferIndex
                           (bufferByteLength p)
                           (Some BufferViewTarget.ELEMENT_ARRAY_BUFFER);
           mret (addResult p indexResult)
       end);
  p ← foldM (packPrimitive bufferIndex) p (attributeAccessors groups);
  match otherAccessors groups with
  | [] => mret p
  | _ =>
      otherResult ← concatAccessors (otherAccessors groups) bufferIndex
                      (bufferByteLength p) None;
      mret (addResult p otherResult)
  end.

(** The accessor groups, then the loop over [imageData]. *)
Definition packBuffer (groups : Partition) (bufferIndex : nat) : M Packed :=
  p ← packGroups groups bufferIndex;
  images ← gets imageData;
  r ← foldM appendImage (0, p) images;
  mret r.2.

Definition emptyBufferWarning (buffer : Buffer) : string :=
  NAME +:+ ": Skipping empty buffer, " +:+ String (ascii_of_nat 34) EmptyString
       +:+ getName (buf_property buffer)
       +:+ String (ascii_of_nat 34) EmptyString +:+ ".".

Definition dataURIPrefix : string := "data:application/octet-stream;base64,".

(** "Assign buffer URI" and "Write buffer views to buffer". *)
Definition emitBuffer (options : WriterOptions) (multiple : bool)
    (buffer : Buffer) (bufferDef : object) (p : Packed) : M unit :=
  r ← (if isGLB options then mret (GLB_BUFFER, bufferDef)
       else
         counter ← gets bufferURICounter;
         let r := createURI multiple (basename options) counter
                    (buf_uri buffer) "bin" in
         modify (set_bufferURICounter r.2);;
         mret (r.1, oset "uri" (JStr r.1) bufferDef));
  let uri := r.1 in
  let bufferDef := oset "byteLength" (JNat (bufferByteLength p)) r.2 in
  bufferDef ←
    (if embedded options then
       mret (oset "uri"
               (JStr (dataURIPrefix +:+
                      BufferUtils.encodeBufferToBase64
                        (BufferUtils.concat (packedBuffers p))))
               bufferDef)
     else
       modify (fun w =>
         set_w_resources
           (<[uri := BufferUtils.concat (packedBuffers p)]> (w_resources w)) w);;
       mret bufferDef);
  modify (fun w => set_w_buffers (w_buffers w ++ [JObj bufferDef]) w).

(** The callback of [root.listBuffers().forEach]; [multiple] is the flag of
    [bufferURIGenerator]. *)
Definition writeBuffer (options : WriterOptions) (multiple : bool)
    (accessorLinks : gmap nat (list Link)) (buffer : Buffer) : M unit :=
  let bufferDef := createPropertyDef (buf_property buffer) in
  groups ← liftResult (partitionAccessors accessorLinks buffer);
  bufferIndex ← gets (fun w => length (w_buffers w));
  p ← packBuffer groups bufferIndex;
  if decide (bufferByteLength p = 0) then
    modify (fun w => set_w_warnings (w_warnings w ++ [emptyBufferWarning buffer]) w)
  else emitBuffer options multiple buffer bufferDef p.

Definition writeBuffers (options : WriterOptions) (doc : Document) : M unit :=
  let root := getRoot doc in
  let numBuffers := length (listBuffers root) in
  forEach (listBuffers root)
    (writeBuffer options (bool_decide (1 < numBuffers))
       (gatherAccessorLinks (getLinks doc))).

(** ** Materials and their textures *)

Definition quote : string := String (ascii_of_nat 34) EmptyString.

(** [JSON.stringify] of a member value. The writer stringifies sampler and
    texture definitions only, whose members are integers or [undefined];
    strings are printed without escapes and nested values are not needed. *)
Definition stringifyValue (v : json) : option string :=
  match v with
  | JInt z => Some (pretty z)
  | JNull => Some "null"
  | JBool true => Some "true"
  | JBool false => Some "false"
  | JStr s => Some (quote +:+ s +:+ quote)
  | _ => None
  end.

Definition stringifyMember (kv : string * json) : option string :=
  v ← stringifyValue kv.2; Some (quote +:+ kv.1 +:+ quote +:+ ":" +:+ v).

(** [JSON.stringify(def)]: members in insertion order, [undefined] members
    left out. *)
Definition stringify (def : object) : string :=
  "{" +:+ String.concat "," (omap stringifyMember def) +:+ "}".

(** [x || undefined] for a filter code. *)
Definition orUndefined (x : option Z) : json :=
  match x with
  | Some z => if decide (z = 0%Z) then JUndefined else JInt z
  | None => JUndefined
  end.

(** [map.get(key)] as a JSON value. *)
Definition getIndex `{Countable K} (m : gmap K nat) (key : K) : json :=
  match m !! key with
  | Some i => JNat i
  | None => JUndefined
  end.

(** [map.get(property)] where the property may be [null]. *)
Definition getIndexOf (m : gmap nat nat) (property : option nat) : json :=
  match property with
  | Some id => getIndex m id
  | None => JUndefined
  end.

Definition samplerDefOf (textureSampler : TextureSampler) : object :=
  [("magFilter", orUndefined (getMagFilter textureSampler));
   ("minFilter", orUndefined (getMinFilter textureSampler));
   ("wrapS", JInt (getWrapS textureSampler));
   ("wrapT", JInt (getWrapT textureSampler))].

(** [createTextureInfoDef] *)
Definition createTextureInfoDef (texture : nat) (textureInfo : TextureInfo)
    (textureSampler : TextureSampler) : M object :=
  let samplerDef := samplerDefOf textureSampler in
  let samplerKey := stringify samplerDef in
  modify (fun w =>
    match samplerIndexMap w !! samplerKey with
    | Some _ => w
    | None =>
        set_w_samplers (w_samplers w ++ [JObj samplerDef])
          (set_samplerIndexMap
             (<[samplerKey := length (w_samplers w)]> (samplerIndexMap w)) w)
    end);;
  textureDef ← gets (fun w =>
    [("source", getIndex (imageIndexMap w) texture);
     ("sampler", getIndex (samplerIndexMap w) samplerKey)]);
  let textureKey := stringify textureDef in
  modify (fun w =>
    match textureIndexMap w !! textureKey with
    | Some _ => w
    | None =>
        set_w_textures (w_textures w ++ [JObj textureDef])
          (set_textureIndexMap
             (<[textureKey := length (w_textures w)]> (textureIndexMap w)) w)
    end);;
  index ← gets (fun w => getIndex (textureIndexMap w) textureKey);
  mret [("index", index); ("texCoord", JInt (getTexCoord textureInfo))].

Definition slotDef (slot : TextureSlot) : M object :=
  createTextureInfoDef (slot_texture slot) (slot_info slot) (slot_sampler slot).

Definition JReals (l : list Q) : json := JArr (JReal <$> l).

(** The callback of [root.listMaterials().map]. The object under
    [pbrMetallicRoughness] is filled while the definition grows, and is
    stored at the key's place once complete. *)
Definition writeMaterial (material : Material) : M json :=
  let materialDef := createPropertyDef (mat_property material) in
  let materialDef := oset "alphaMode" (JStr (getAlphaMode material)) materialDef in
  let materialDef :=
    if decide (getAlphaMode material = "MASK")
    then oset "alphaCutoff" (JReal (getAlphaCutoff material)) materialDef
    else materialDef in
  let materialDef := oset "doubleSided" (JBool (getDoubleSided material)) materialDef in
  let materialDef := oset "pbrMetallicRoughness" (JObj []) materialDef in
  let pbr : object := [] in
  let pbr := oset "baseColorFactor" (JReals (getBaseColorFactor material)) pbr in
  let materialDef := oset "emissiveFactor" (JReals (getEmissiveFactor material)) materialDef in
  let pbr := oset "roughnessFactor" (JReal (getRoughnessFactor material)) pbr in
  let pbr := oset "metallicFactor" (JReal (getMetallicFactor material)) pbr in
  pbr ← (match baseColorTexture material with
         | Some slot => d ← slotDef slot; mret (oset "baseColorTexture" (JObj d) pbr)
         | None => mret pbr
         end);
  materialDef ←
    (match emissiveTexture material with
     | Some slot => d ← slotDef slot; mret (oset "emissiveTexture" (JObj d) materialDef)
     | None => mret materialDef
     end);
  materialDef ←
    (match normalTexture material with
     | Some slot =>
         d ← slotDef slot;
         let d := if Qeq_bool (getNormalScale material) 1 then d
                  else oset "scale" (JReal (getNormalScale material)) d in
         mret (oset "normalTexture" (JObj d) materialDef)
     | None => mret materialDef
     end);
  materialDef ←
    (match occlusionTexture material with
     | Some slot =>
         d ← slotDef slot;
         let d := if Qeq_bool (getOcclusionStrength material) 1 then d
                  else oset "strength" (JReal (getOcclusionStrength material)) d in
         mret (oset "occlusionTexture" (JObj d) materialDef)
     | None => mret materialDef
     end);
  pbr ← (match metallicRoughnessTexture material with
         | Some slot =>
             d ← slotDef slot; mret (oset "metallicRoughnessTexture" (JObj d) pbr)
         | None => mret pbr
         end);
  mret (JObj (oset "pbrMetallicRoughness" (JObj pbr) materialDef)).

Definition writeMaterials (root : Root) : M (list json) :=
  mapM (fun _ material => writeMaterial material) 0 (listMaterials root).

(** A lookup table filled by [map.set(property, index)] inside
    [list.map((property, index) => ...)]. *)
Definition indexMap (ids : list nat) : gmap nat nat :=
  foldl (fun m (entry : nat * nat) => <[entry.2 := entry.1]> m) ∅
        (imap pair ids).

(** ** Meshes, cameras, nodes, skins, animations, scenes *)

Definition semanticsDef (accessorIndexMap : gmap nat nat)
    (attributes : list (string * nat)) : object :=
  foldl (fun def (entry : string * nat) =>
           oset entry.1 (getIndex accessorIndexMap entry.2) def) [] attributes.

Definition writePrimitive (accessorIndexMap materialIndexMap : gmap nat nat)
    (primitive : Primitive) : json :=
  let primitiveDef : object := [("attributes", JObj [])] in
  let primitiveDef :=
    oset "material" (getIndexOf materialIndexMap (prim_material primitive))
      primitiveDef in
  let primitiveDef := oset "mode" (JInt (prim_mode primitive)) primitiveDef in
  let primitiveDef :=
    match prim_indices primitive with
    | Some indices => oset "indices" (getIndex accessorIndexMap indices) primitiveDef
    | None => primitiveDef
    end in
  let primitiveDef :=
    oset "attributes"
      (JObj (semanticsDef accessorIndexMap (prim_attributes primitive)))
      primitiveDef in
  let primitiveDef :=
    match prim_targets primitive with
    | [] => primitiveDef
    | targets =>
        oset "targets"
          (JArr ((fun target =>
                    JObj (semanticsDef accessorIndexMap (target_attributes target)))
                 <$> targets))
          primitiveDef
    end in
  JObj primitiveDef.

(** [targetNames]: the names of the targets of the first primitive that has
    targets. *)
Definition targetNamesOf (primitives : list Primitive) : option (list string) :=
  match filter (fun p => prim_targets p ≠ []) primitives with
  | p :: _ => Some (target_name <$> prim_targets p)
  | [] => None
  end.

Definition writeMesh (accessorIndexMap materialIndexMap : gmap nat nat)
    (mesh : Mesh) : json :=
  let meshDef := createPropertyDef (mesh_property mesh) in
  let meshDef :=
    oset "primitives"
      (JArr (writePrimitive accessorIndexMap materialIndexMap <$> listPrimitives mesh))
      meshDef in
  let meshDef :=
    match mesh_weights mesh with
    | [] => meshDef
    | weights => oset "weights" (JReals weights) meshDef
    end in
  let meshDef :=
    match targetNamesOf (listPrimitives mesh) with
    | Some targetNames =>
        let extras :=
          match oget "extras" meshDef with
          | Some (JObj extras) => extras
          | _ => []
          end in
        oset "extras" (JObj (oset "targetNames" (JArr (JStr <$> targetNames)) extras))
          meshDef
    | None => meshDef
    end in
  JObj meshDef.

Definition writeCamera (camera : Camera) : json :=
  let cameraDef := createPropertyDef (cam_property camera) in
  let cameraDef := oset "type" (JStr (cam_type camera)) cameraDef in
  let cameraDef :=
    if decide (cam_type camera = "perspective") then
      oset "perspective"
        (JObj [("znear", JReal (getZNear camera));
               ("zfar", JReal (getZFar camera));
               ("yfov", JReal (getYFov camera));
               ("aspectRatio", JReal (getAspectRatio camera))])
        cameraDef
    else
      oset "orthographic"
        (JObj [("znear", JReal (getZNear camera));
               ("zfar", JReal (getZFar camera));
               ("xmag", JReal (getXMag camera));
               ("ymag", JReal (getYMag camera))])
        cameraDef in
  JObj cameraDef.

(** The first pass over the nodes. *)
Definition writeNode (node : Node) : object :=
  let nodeDef := createPropertyDef (node_property node) in
  let nodeDef := oset "translation" (JReals (getTranslation node)) nodeDef in
  let nodeDef := oset "rotation" (JReals (getRotation node)) nodeDef in
  let nodeDef := oset "scale" (JReals (getScale node)) nodeDef in
  match node_weights node with
  | [] => nodeDef
  | weights => oset "weights" (JReals weights) nodeDef
  end.

(** "Node attachments": the second pass. *)
Definition attachNode (meshIndexMap cameraIndexMap skinIndexMap nodeIndexMap
                         : gmap nat nat) (node : Node) (nodeDef : object) : json :=
  let nodeDef :=
    match node_mesh node with
    | Some mesh => oset "mesh" (getIndex meshIndexMap mesh) nodeDef
    | None => nodeDef
    end in
  let nodeDef :=
    match node_camera node with
    | Some camera => oset "camera" (getIndex cameraIndexMap camera) nodeDef
    | None => nodeDef
    end in
  let nodeDef :=
    match node_skin node with
    | Some skin => oset "skin" (getIndex skinIndexMap skin) nodeDef
    | None => nodeDef
    end in
  let nodeDef :=
    match node_children node with
    | [] => nodeDef
    | children => oset "children" (JArr (getIndex nodeIndexMap <$> children)) nodeDef
    end in
  JObj nodeDef.

Definition writeSkin (accessorIndexMap nodeIndexMap : gmap nat nat) (skin : Skin)
  : json :=
  let skinDef := createPropertyDef (skin_property skin) in
  let skinDef :=
    match getInverseBindMatrices skin with
    | Some accessor =>
        oset "inverseBindMatrices" (getIndex accessorIndexMap accessor) skinDef
    | None => skinDef
    end in
  let skinDef :=
    match getSkeleton skin with
    | Some node => oset "skeleton" (getIndex nodeIndexMap node) skinDef
    | None => skinDef
    end in
  JObj (oset "joints" (JArr (getIndex nodeIndexMap <$> listJoints skin)) skinDef).

Definition writeAnimation (accessorIndexMap nodeIndexMap : gmap nat nat)
    (animation : Animation) : json :=
  let animationDef := createPropertyDef (anim_property animation) in
  let samplerIndexMap := indexMap (sampler_id <$> listSamplers animation) in
  let animationDef :=
    oset "samplers"
      (JArr ((fun sampler =>
                let samplerDef := createPropertyDef (sampler_property sampler) in
                let samplerDef :=
                  oset "input" (getIndexOf accessorIndexMap (getInput sampler))
                    samplerDef in
                let samplerDef :=
                  oset "output" (getIndexOf accessorIndexMap (getOutput sampler))
                    samplerDef in
                JObj (oset "interpolation" (JStr (getInterpolation sampler))
                        samplerDef))
             <$> listSamplers animation))
      animationDef in
  let animationDef :=
    oset "channels"
      (JArr ((fun channel =>
                let channelDef := createPropertyDef (channel_property channel) in
                let channelDef :=
                  oset "sampler" (getIndexOf samplerIndexMap (getSampler channel))
                    channelDef in
                JObj (oset "target"
                        (JObj [("node", getIndexOf nodeIndexMap (getTargetNode channel));
                               ("path", JStr (getTargetPath channel))])
                        channelDef))
             <$> listChannels animation))
      animationDef in
  JObj animationDef.

Definition writeScene (nodeIndexMap : gmap nat nat) (scene : Scene) : json :=
  let sceneDef := createPropertyDef (scene_property scene) in
  JObj (oset "nodes" (JArr (getIndex nodeIndexMap <$> scene_nodes scene)) sceneDef).

(** ** [GLTFWriter.write] *)

(** The stages after the materials, which only read the lookup tables, and
    the root JSON object with its keys in the order in which they are
    assigned. *)
Definition rootObject (root : Root) (materials : list json) (w : Writer) : object :=
  let materialIndexMap := indexMap (mat_id <$> listMaterials root) in
  let accessorIndexMap := accessorIndexMap w in
  let meshes := writeMesh accessorIndexMap materialIndexMap <$> listMeshes root in
  let meshIndexMap := indexMap (mesh_id <$> listMeshes root) in
  let cameras := writeCamera <$> listCameras root in
  let cameraIndexMap := indexMap (cam_id <$> listCameras root) in
  let nodeDefs := writeNode <$> listNodes root in
  let nodeIndexMap := indexMap (node_id <$> listNodes root) in
  let skins := writeSkin accessorIndexMap nodeIndexMap <$> listSkins root in
  let skinIndexMap := indexMap (skin_id <$> listSkins root) in
  let nodes :=
    zip_with (attachNode meshIndexMap cameraIndexMap skinIndexMap nodeIndexMap)
      (listNodes root) nodeDefs in
  let animations :=
    writeAnimation accessorIndexMap nodeIndexMap <$> listAnimations root in
  let scenes := writeScene nodeIndexMap <$> listScenes root in
  [("asset", JObj (getAsset root));
   ("accessors", JArr (w_accessors w));
   ("bufferViews", JArr (w_bufferViews w));
   ("samplers", JArr (w_samplers w));
   ("textures", JArr (w_textures w));
   ("images", JArr (w_images w));
   ("buffers", JArr (w_buffers w));
   ("materials", JArr materials);
   ("meshes", JArr meshes);
   ("cameras", JArr cameras);
   ("nodes", JArr nodes);
   ("skins", JArr skins);
   ("animations", JArr animations);
   ("scenes", JArr scenes)].

(** The body of [write] up to [clean(json)]. *)
Definition writeJSON (doc : Document) (options : WriterOptions) : M object :=
  let root := getRoot doc in
  writeImages options root;;
  writeBuffers options doc;;
  materials ← writeMaterials root;
  gets (rootObject root materials).

(** [GLTFWriter.write]: the native document and the logger's warnings, or
    the error thrown. *)
Definition write (doc : Document) (options : WriterOptions)
  : result (NativeDocument * list string) :=
  match writeJSON doc options initialWriter with
  | Ok (json, w) =>
      Ok ({| json_of := clean json; resources_of := w_resources w |},
          w_warnings w)
  | Throw e => Throw e
  end.

(** ** Vocabulary of the statements *)

(** The vertex stride of an interleaved view: the sum of the padded element
    sizes. *)
Definition byteStrideOf (accessors : list Accessor) : nat :=
  sum_list (paddedElementSize <$> accessors).

(** The offset of the [k]-th accessor inside a vertex. *)
Definition localOffset (accessors : list Accessor) (k : nat) : nat :=
  byteStrideOf (take k accessors).

(** The state after packing: new accessor definitions, new buffer views and
    a new accessor table; the other fields are those of [w]. *)
Definition packState (accessors bufferViews : list json) (table : gmap nat nat)
    (w : Writer) : Writer :=
  set_w_bufferViews bufferViews
    (set_w_accessors accessors (set_accessorIndexMap table w)).

(** The padded bytes of an accessor in a sequential view. *)
Definition paddedArray (accessor : Accessor) : list Z :=
  BufferUtils.pad (arrayBuffer accessor).

(** The byte length of a sequential view. *)
Definition concatLength (accessors : list Accessor) : nat :=
  sum_list ((fun a => length (paddedArray a)) <$> accessors).

(** The accessor definitions of a sequential view, from a running offset. *)
Fixpoint concatDefs (bufferView byteOffset : nat) (accessors : list Accessor)
  : list json :=
  match accessors with
  | [] => []
  | a :: l =>
      JObj (oset "byteOffset" (JNat byteOffset)
              (oset "bufferView" (JNat bufferView) (createAccessorDef a)))
      :: concatDefs bufferView (byteOffset + length (paddedArray a)) l
  end.

(** The accessor definitions of an interleaved view, from a running stride. *)
Fixpoint interleaveDefs (bufferView byteStride : nat) (accessors : list Accessor)
  : list json :=
  match accessors with
  | [] => []
  | a :: l =>
      JObj (oset "byteOffset" (JNat byteStride)
              (oset "bufferView" (JNat bufferView) (createAccessorDef a)))
      :: interleaveDefs bufferView (byteStride + paddedElementSize a) l
  end.

(** A group of accessors that share a buffer view. *)
Inductive Group : Type :=
| ConcatGroup (accessors : list Accessor) (target : option Z)
| InterleaveGroup (accessors : list Accessor).

Definition groupAccessors (g : Group) : list Accessor :=
  match g with
  | ConcatGroup l _ => l
  | InterleaveGroup l => l
  end.

(** The groups of the attribute accessors. *)
Definition primitiveGroups (entries : list (Ref * list Accessor)) : list Group :=
  omap (fun entry : Ref * list Accessor =>
          match entry.2 with
          | [] => None
          | l => Some (InterleaveGroup l)
          end) entries.

(** The groups of a partition in packing order: the index accessors, the
    attribute accessors of each primitive, the other accessors; an empty group
    is not packed. *)
Definition groupsOf (p : Partition) : list Group :=
  (match indexAccessors p with
   | [] => []
   | l => [ConcatGroup l (Some BufferViewTarget.ELEMENT_ARRAY_BUFFER)]
   end)
  ++ primitiveGroups (attributeAccessors p)
  ++ (match otherAccessors p with
      | [] => []
      | l => [ConcatGroup l None]
      end).

Definition vertexCountOf (accessors : list Accessor) : nat :=
  match accessors with
  | [] => 0
  | first :: _ => acc_count first
  end.

Definition groupLength (g : Group) : nat :=
  match g with
  | ConcatGroup l _ => concatLength l
  | InterleaveGroup l => vertexCountOf l * byteStrideOf l
  end.

Definition groupDefs (bufferView : nat) (g : Group) : list json :=
  match g with
  | ConcatGroup l _ => concatDefs bufferView 0 l
  | InterleaveGroup l => interleaveDefs bufferView 0 l
  end.

Definition groupView (bufferIndex byteOffset : nat) (g : Group) : object :=
  match g with
  | ConcatGroup l target =>
      let bufferViewDef : object :=
        [("buffer", JNat bufferIndex);
         ("byteOffset", JNat byteOffset);
         ("byteLength", JNat (concatLength l))] in
      match target with
      | Some t => if decide (t = 0%Z) then bufferViewDef
                  else oset "target" (JInt t) bufferViewDef
      | None => bufferViewDef
      end
  | InterleaveGroup l =>
      [("buffer", JNat bufferIndex);
       ("byteOffset", JNat byteOffset);
       ("byteLength", JNat (vertexCountOf l * byteStrideOf l));
       ("byteStride", JNat (byteStrideOf l));
       ("target", JInt BufferViewTarget.ARRAY_BUFFER)]
  end.

(** The buffer views of a list of groups packed one after the other. *)
Fixpoint planViews (bufferIndex byteOffset : nat) (gs : list Group) : list json :=
  match gs with
  | [] => []
  | g :: gs' =>
      JObj (groupView bufferIndex byteOffset g)
      :: planViews bufferIndex (byteOffset + groupLength g) gs'
  end.

(** Their accessor definitions; [bufferView] is the index of the first view. *)
Fixpoint planDefs (bufferView : nat) (gs : list Group) : list json :=
  match gs with
  | [] => []
  | g :: gs' => groupDefs bufferView g ++ planDefs (S bufferView) gs'
  end.

Definition planLength (gs : list Group) : nat := sum_list (groupLength <$> gs).

(** What packing a list of groups does to the packing state and the writer. *)
Definition packedAfter (bufferIndex : nat) (gs : list Group) (p : Packed)
    (w : Writer) (r : result (Packed * Writer)) : Prop :=
  exists table segments,
    r = Ok ({| bufferByteLength := bufferByteLength p + planLength gs;
               packedBuffers := packedBuffers p ++ segments |},
            packState
              (w_accessors w ++ planDefs (length (w_bufferViews w)) gs)
              (w_bufferViews w ++ planViews bufferIndex (bufferByteLength p) gs)
              table w)
    /\ length (mjoin segments) = planLength gs.

(** Every recorded image has its definition and its reserved buffer view:
    image [i] points at view [i]. *)
Definition imagesPlaced (w : Writer) : Prop :=
  forall i, i < length (imageData w) ->
    exists imageDef view,
      w_images w !! i = Some (JObj imageDef)
      /\ oget "bufferView" imageDef = Some (JNat i)
      /\ w_bufferViews w !! i = Some (JObj view).

(** The views after the loop over the images: the reserved slots are still
    objects, everything else is as before. *)
Definition imagesRewritten (n : nat) (views views' : list json) : Prop :=
  length views' = length views
  /\ (forall q, n <= q -> views' !! q = views !! q)
  /\ (forall q, q < n -> exists view, views' !! q = Some (JObj view)).

(** The groups of a buffer, none when its accessors cannot be partitioned. *)
Definition bufferGroups (accessorLinks : gmap nat (list Link)) (buffer : Buffer)
  : list Group :=
  match partitionAccessors accessorLinks buffer with
  | Ok p => groupsOf p
  | Throw _ => []
  end.

(** The packed byte length of a buffer: its accessor groups and the recorded
    image bytes. *)
Definition packedLength (accessorLinks : gmap nat (list Link))
    (images : list (list Z)) (buffer : Buffer) : nat :=
  planLength (bufferGroups accessorLinks buffer) + sum_list (length <$> images).

Definition isEmptyBuffer (accessorLinks : gmap nat (list Link))
    (images : list (list Z)) (buffer : Buffer) : bool :=
  bool_decide (packedLength accessorLinks images buffer = 0).

(** The accessor buffer views of a list of buffers; [bufferIndex] is the
    length of [json.buffers] when the first of them is reached, and grows only
    past a buffer that is not skipped. *)
Fixpoint stageViews (accessorLinks : gmap nat (list Link)) (images : list (list Z))
    (bufferIndex : nat) (buffers : list Buffer) : list json :=
  match buffers with
  | [] => []
  | b :: buffers' =>
      planViews bufferIndex 0 (bufferGroups accessorLinks b)
      ++ stageViews accessorLinks images
           (if isEmptyBuffer accessorLinks images b then bufferIndex
            else S bufferIndex) buffers'
  end.

(** Their accessor definitions; [bufferView] is the length of
    [json.bufferViews] when the first buffer is reached. *)
Fixpoint stageDefs (accessorLinks : gmap nat (list Link)) (bufferView : nat)
    (buffers : list Buffer) : list json :=
  match buffers with
  | [] => []
  | b :: buffers' =>
      planDefs bufferView (bufferGroups accessorLinks b)
      ++ stageDefs accessorLinks
           (bufferView + length (bufferGroups accessorLinks b)) buffers'
  end.

(** The URI under which a buffer's bytes are stored, and the generator's
    counter afterwards. *)
Definition bufferURI (options : WriterOptions) (multiple : bool) (counter : nat)
    (buffer : Buffer) : string * nat :=
  if isGLB options then (GLB_BUFFER, counter)
  else createURI multiple (basename options) counter (buf_uri buffer) "bin".

(** The definition emitted for a buffer with packed bytes [data]. *)
Definition emittedBufferDef (options : WriterOptions) (multiple : bool)
    (counter : nat) (buffer : Buffer) (data : list Z) : object :=
  let bufferDef := createPropertyDef (buf_property buffer) in
  let bufferDef :=
    if isGLB options then bufferDef
    else oset "uri" (JStr (bufferURI options multiple counter buffer).1) bufferDef in
  let bufferDef := oset "byteLength" (JNat (length data)) bufferDef in
  if embedded options then
    oset "uri" (JStr (dataURIPrefix +:+ BufferUtils.encodeBufferToBase64 data))
      bufferDef
  else bufferDef.

(** An emitted buffer: the buffer, the generator's counter when it was
    reached, and its packed bytes. *)
Record Emitted : Type := {
  em_buffer : Buffer;
  em_counter : nat;
  em_data : list Z;
}.

Definition emittedDef (options : WriterOptions) (multiple : bool) (e : Emitted)
  : json :=
  JObj (emittedBufferDef options multiple (em_counter e) (em_buffer e) (em_data e)).

Definition storeEmitted (options : WriterOptions) (multiple : bool)
    (resources : gmap string (list Z)) (emitted : list Emitted)
  : gmap string (list Z) :=
  if embedded options then resources
  else foldl (fun m e =>
                <[(bufferURI options multiple (em_counter e) (em_buffer e)).1
                  := em_data e]> m) resources emitted.

(** The fields that the buffers stage leaves alone. *)
Definition sameTextures (w w' : Writer) : Prop :=
  w_samplers w' = w_samplers w
  /\ w_textures w' = w_textures w
  /\ w_images w' = w_images w
  /\ imageIndexMap w' = imageIndexMap w
  /\ textureIndexMap w' = textureIndexMap w
  /\ samplerIndexMap w' = samplerIndexMap w
  /\ imageData w' = imageData w
  /\ imageURICounter w' = imageURICounter w.

(** What the loop over a list of buffers does to the writer. *)
Definition buffersWritten (options : WriterOptions) (multiple : bool)
    (accessorLinks : gmap nat (list Link)) (buffers : list Buffer)
    (w w' : Writer) : Prop :=
  let images := imageData w in
  let n := length images in
  exists emitted,
    w_accessors w'
    = w_accessors w ++ stageDefs accessorLinks (length (w_bufferViews w)) buffers
    /\ imagesRewritten n
         (w_bufferViews w
          ++ stageViews accessorLinks images (length (w_buffers w)) buffers)
         (w_bufferViews w')
    /\ w_warnings w'
       = w_warnings w
         ++ (emptyBufferWarning <$> filter (fun b => isEmptyBuffer accessorLinks images b = true) buffers)
    /\ em_buffer <$> emitted
       = filter (fun b => isEmptyBuffer accessorLinks images b = false) buffers
    /\ Forall (fun e => length (em_data e)
                        = packedLength accessorLinks images (em_buffer e)) emitted
    /\ w_buffers w' = w_buffers w ++ (emittedDef options multiple <$> emitted)
    /\ w_resources w' = storeEmitted options multiple (w_resources w) emitted
    /\ sameTextures w w'.

(** Every buffer of the list can be partitioned. *)
Definition partitionsOk (accessorLinks : gmap nat (list Link)) (buffers : list Buffer)
  : Prop :=
  Forall (fun b => exists groups, partitionAccessors accessorLinks b = Ok groups) buffers.

(** The [name] member of a definition made for [property]. *)
Definition propName (property : Property) : option json :=
  if truthy (getName property) then Some (JStr (getName property)) else None.

(** The [name] member of an emitted definition. *)
Definition defName (def : json) : option json :=
  match def with
  | JObj d => oget "name" d
  | _ => None
  end.

(** A member of an emitted definition. *)
Definition defField (key : string) (def : json) : option json :=
  match def with
  | JObj d => oget key d
  | _ => None
  end.

(** The buffer view reserved for an embedded image. *)
Definition imageView (texture : Texture) : json :=
  JObj [("buffer", JInt 0);
        ("byteOffset", JInt (-1));
        ("byteLength", JNat (length (tex_image texture)))].

(** The image bytes that the buffers stage appends. *)
Definition stageImages (options : WriterOptions) (root : Root) : list (list Z) :=
  if embedsImages options then tex_image <$> listTextures root else [].

(** Every stored blob is the image of an emitted image definition. *)
Definition imageBlobs (resources resources' : gmap string (list Z))
    (images : list json) : Prop :=
  forall key, is_Some (resources' !! key) ->
    is_Some (resources !! key)
    \/ exists def, JObj def ∈ images /\ oget "uri" def = Some (JStr key).

(** The texture slots of a material in the order in which [writeMaterial]
    visits them. *)
Definition materialSlots (material : Material) : list TextureSlot :=
  omap id [baseColorTexture material; emissiveTexture material;
           normalTexture material; occlusionTexture material;
           metallicRoughnessTexture material].

(** The texture-info definitions of a material definition, in the same
    order. *)
Definition textureInfos (materialDef : json) : list json :=
  match materialDef with
  | JObj def =>
      let pbr := match oget "pbrMetallicRoughness" def with
                 | Some (JObj pbr) => pbr
                 | _ => []
                 end in
      omap id [oget "baseColorTexture" pbr; oget "emissiveTexture" def;
               oget "normalTexture" def; oget "occlusionTexture" def;
               oget "metallicRoughnessTexture" pbr]
  | _ => []
  end.

(** [createTextureInfoDef] never throws: its result and its final state. *)
Definition slotInfo (slot : TextureSlot) (w : Writer) : object :=
  match slotDef slot w with
  | Ok (info, _) => info
  | Throw _ => []
  end.

Definition slotState (slot : TextureSlot) (w : Writer) : Writer :=
  match slotDef slot w with
  | Ok (_, w') => w'
  | Throw _ => w
  end.

(** The texture infos and the final state of a sequence of calls. *)
Fixpoint slotsRun (slots : list TextureSlot) (w : Writer) : list object * Writer :=
  match slots with
  | [] => ([], w)
  | slot :: slots' =>
      let r := slotsRun slots' (slotState slot w) in
      (slotInfo slot w :: r.1, r.2)
  end.

(** A texture-info definition carries the texture index of [info]. *)
Definition sameIndex (info : object) (def : json) : Prop :=
  exists d, def = JObj d /\ oget "index" d = oget "index" info.

(** The canonical key of an emitted sampler or texture definition. *)
Definition canonicalKey (def : json) : string :=
  match def with
  | JObj d => stringify d
  | _ => EmptyString
  end.

Definition samplerKeyOf (slot : TextureSlot) : string :=
  stringify (samplerDefOf (slot_sampler slot)).

(** The texture definition of a slot whose sampler has index [sampler]. *)
Definition textureDefOf (imageIndexMap : gmap nat nat) (sampler : nat)
    (slot : TextureSlot) : object :=
  [("source", getIndex imageIndexMap (slot_texture slot));
   ("sampler", JNat sampler)].

(** A lookup table that holds, for each key, the place of the definition with
    that key. *)
Definition keyed (table : gmap string nat) (defs : list json) : Prop :=
  forall key i, table !! key = Some i <-> (canonicalKey <$> defs) !! i = Some key.

(** The sampler and texture tables agree with the emitted arrays. *)
Definition texturesKeyed (w : Writer) : Prop :=
  keyed (samplerIndexMap w) (w_samplers w)
  /\ keyed (textureIndexMap w) (w_textures w).

(** The fields that the materials stage leaves alone. *)
Definition sameBuffers (w w' : Writer) : Prop :=
  w_accessors w' = w_accessors w
  /\ w_bufferViews w' = w_bufferViews w
  /\ w_images w' = w_images w
  /\ w_buffers w' = w_buffers w
  /\ w_resources w' = w_resources w
  /\ accessorIndexMap w' = accessorIndexMap w
  /\ imageIndexMap w' = imageIndexMap w
  /\ w_warnings w' = w_warnings w.

(** Indices handed out in order of first use: every index below [n] occurs,
    and an index occurs only after its predecessor. *)
Definition firstUse (indices : list nat) (n : nat) : Prop :=
  (forall t, t < n <-> t ∈ indices)
  /\ (forall k t, indices !! k = Some (S t) ->
        exists k', k' < k /\ indices !! k' = Some t).

(** A character of a printed integer. *)
Definition isNumChar (c : ascii) : bool :=
  bool_decide (c ∈ list_ascii_of_string "-0123456789").

Fixpoint numeric (s : string) : Prop :=
  match s with
  | EmptyString => True
  | String c s' => isNumChar c = true /\ numeric s'
  end.

(** The shape of an emitted texture definition. *)
Definition isTextureDef (def : json) : Prop :=
  exists source sampler,
    def = JObj [("source", source); ("sampler", JNat sampler)]
    /\ (source = JUndefined \/ exists i, source = JNat i).

(** The calls answered so far: the slot, its texture index, its sampler
    index. *)
Record Placed : Type := {
  pl_slot : TextureSlot;
  pl_texture : nat;
  pl_sampler : nat;
}.

(** The sampler half of [createTextureInfoDef]. *)
Definition samplerPhase (slot : TextureSlot) (w : Writer) : Writer :=
  match samplerIndexMap w !! samplerKeyOf slot with
  | Some _ => w
  | None =>
      set_w_samplers (w_samplers w ++ [JObj (samplerDefOf (slot_sampler slot))])
        (set_samplerIndexMap
           (<[samplerKeyOf slot := length (w_samplers w)]> (samplerIndexMap w)) w)
  end.

(** The texture half, for the texture definition [textureDef]. *)
Definition texturePhase (textureDef : object) (w : Writer) : Writer :=
  match textureIndexMap w !! stringify textureDef with
  | Some _ => w
  | None =>
      set_w_textures (w_textures w ++ [JObj textureDef])
        (set_textureIndexMap
           (<[stringify textureDef := length (w_textures w)]> (textureIndexMap w)) w)
  end.

(** The state of the texture tables after the calls of [log], which handed
    out the texture indices [textureLog] and the sampler indices
    [samplerLog]. *)
Definition texturesRunAt (log : list Placed) (textureLog samplerLog : list nat)
    (w : Writer) : Prop :=
  texturesKeyed w
  /\ Forall isTextureDef (w_textures w)
  /\ Forall (fun p =>
       samplerIndexMap w !! samplerKeyOf (pl_slot p) = Some (pl_sampler p)
       /\ w_textures w !! pl_texture p
          = Some (JObj (textureDefOf (imageIndexMap w) (pl_sampler p) (pl_slot p))))
       log
  /\ firstUse textureLog (length (w_textures w))
  /\ firstUse samplerLog (length (w_samplers w)).

Definition texturesRun (log : list Placed) (w : Writer) : Prop :=
  texturesRunAt log (pl_texture <$> log) (pl_sampler <$> log) w.

(** The writer after the images stage. *)
Definition imagesStage (options : WriterOptions) (root : Root) (w : Writer) : Prop :=
  imagesPlaced w
  /\ imageData w = stageImages options root
  /\ length (w_bufferViews w) = length (imageData w)
  /\ w_accessors w = []
  /\ w_buffers w = []
  /\ w_samplers w = []
  /\ w_textures w = []
  /\ samplerIndexMap w = ∅
  /\ textureIndexMap w = ∅
  /\ w_warnings w = []
  /\ defName <$> w_images w
     = (fun t => propName (tex_property t)) <$> listTextures root
  /\ imageBlobs ∅ (w_resources w) (w_images w)
  /\ (embedsImages options = true -> w_resources w = ∅).

(** The flag of [bufferURIGenerator]. *)
Definition multipleBuffers (root : Root) : bool :=
  bool_decide (1 < length (listBuffers root)).

(** All texture slots of the document, in the order of the calls. *)
Definition documentSlots (root : Root) : list TextureSlot :=
  listMaterials root ≫= materialSlots.

(** How [write] ends: with the error of the first buffer that cannot be
    partitioned, or with a native document assembled from the states after
    the buffers stage ([w2]) and after the materials stage ([w3]). *)
Inductive WriteOutcome (doc : Document) (options : WriterOptions) (w1 : Writer)
  : result (NativeDocument * list string) -> Prop :=
| WriteThrows (before after : list Buffer) (b : Buffer) (e : string) :
    listBuffers (getRoot doc) = before ++ b :: after ->
    partitionsOk (gatherAccessorLinks (getLinks doc)) before ->
    partitionAccessors (gatherAccessorLinks (getLinks doc)) b = Throw e ->
    WriteOutcome doc options w1 (Throw e)
| WriteReturns (w2 : Writer) (materials : list json) (placed : list Placed) :
    let root := getRoot doc in
    let w3 := (slotsRun (documentSlots root) w2).2 in
    partitionsOk (gatherAccessorLinks (getLinks doc)) (listBuffers root) ->
    buffersWritten options (multipleBuffers root)
      (gatherAccessorLinks (getLinks doc)) (listBuffers root) w1 w2 ->
    defName <$> materials = (fun m => propName (mat_property m)) <$> listMaterials root ->
    Forall2 sameIndex (slotsRun (documentSlots root) w2).1 (materials ≫= textureInfos) ->
    pl_slot <$> placed = documentSlots root ->
    Forall2 (fun p info => oget "index" info = Some (JNat (pl_texture p)))
      placed (slotsRun (documentSlots root) w2).1 ->
    texturesRun placed w3 ->
    sameBuffers w2 w3 ->
    WriteOutcome doc options w1
      (Ok ({| json_of := clean (rootObject root materials w3);
              resources_of := w_resources w3 |}, w_warnings w3)).

(** What [clean] collects in [unused]: the key of an empty array, but the
    value of a [null] or of an empty string. *)
Definition collected (kv : string * json) (v : json) : Prop :=
  (kv.2 = JArr [] /\ v = JStr kv.1)
  \/ (kv.2 = JNull /\ v = JNull)
  \/ (kv.2 = JStr EmptyString /\ v = JStr EmptyString).

(** A buffer view planned for a group at a 4-byte boundary of buffer
    [bufferIndex]. *)
Definition plannedView (bufferIndex : nat) (view : json) : Prop :=
  exists k g, view = JObj (groupView bufferIndex (4 * k) g).

(** ** Sample inputs *)

Definition named (name : string) : Property :=
  {| getName := name; getExtras := []; getExtensions := [] |}.

(** A property with both extras and extensions. *)
Definition extendedProperty : Property :=
  {| getName := "lamp";
     getExtras := [("rating", JInt 5)];
     getExtensions := [("KHR_lights_punctual", JObj [("light", JInt 0)])] |}.

(** [new Float32Array(elements)] and the like: a typed array on a buffer
    of its own, with elements of [size] bytes. *)
Definition typedArrayOf (size : nat) (elements : list Z) : TypedArray :=
  {| ta_buffer := elements ≫= encodeLE size;
     ta_byteOffset := 0;
     ta_length := length elements |}.

Definition floatAccessor (id : nat) (name : string) (array : list Z) : Accessor :=
  {| acc_id := id; acc_property := named name; acc_type := VEC3;
     acc_componentType := FLOAT; acc_count := 3;
     getArray := typedArrayOf 4 array;
     acc_max := []; acc_min := []; acc_normalized := false |}.

(** POSITION and NORMAL of one triangle; the elements are binary32 bit
    patterns (1065353216 is 1.0). *)
Definition positionAccessor : Accessor :=
  floatAccessor 1 "POSITION"
    [0; 0; 0; 1065353216; 0; 0; 0; 1065353216; 0]%Z.

Definition normalAccessor : Accessor :=
  floatAccessor 2 "NORMAL"
    [0; 0; 1065353216; 0; 0; 1065353216; 0; 0; 1065353216]%Z.

(** Colours of three vertices, three bytes each: an element of three bytes
    is padded to four. *)
Definition colorAccessor : Accessor :=
  {| acc_id := 5; acc_property := named "COLOR_0"; acc_type := VEC3;
     acc_componentType := UNSIGNED_BYTE; acc_count := 3;
     getArray := typedArrayOf 1 [255; 128; 0; 0; 255; 128; 128; 0; 255]%Z;
     acc_max := []; acc_min := []; acc_normalized := true |}.

(** Three elements of three 16-bit numbers: an element of six bytes is
    padded to eight. The first number is 0x0102. *)
Definition gridAccessor : Accessor :=
  {| acc_id := 6; acc_property := named "_GRID"; acc_type := VEC3;
     acc_componentType := UNSIGNED_SHORT; acc_count := 3;
     getArray := typedArrayOf 2
                   [258; 772; 1286; 1800; 2314; 2828; 3342; 3856; 4370]%Z;
     acc_max := []; acc_min := []; acc_normalized := false |}.

(** A component [value] written little-endian with the setter of component
    type [t], said of the bytes [stored] without the writer's own encoder:
    there are as many bytes as the component has, and read least significant
    byte first they hold the value. An integer is stored by its low bits. A
    number of a [Float32Array] is stored with its bit pattern, a NaN as a
    NaN, and [undefined] as the quiet NaN or as 0. *)
Definition storesLittleEndian (t : ComponentType) (value : option Z)
    (stored : list Z) : Prop :=
  length stored = componentSize t
  /\ Forall (fun b => (0 <= b < 256)%Z) stored
  /\ match t, value with
     | FLOAT, Some v =>
         if isNaN32 v then isNaN32 (littleEndian stored) = true
         else littleEndian stored = (v mod 2 ^ 32)%Z
     | FLOAT, None => littleEndian stored = float32NaN
     | _, Some v => littleEndian stored = (v mod 2 ^ (8 * Z.of_nat (componentSize t)))%Z
     | _, None => littleEndian stored = 0%Z
     end.

(** What [interleaveAccessors] does for accessors of [count] elements each:
    the result, the buffer view, the accessor definitions and the bytes. *)
Definition interleavedLayout (accessors : list Accessor)
    (count bufferIndex bufferByteOffset : nat) (w : Writer) : Prop :=
  let byteStride := byteStrideOf accessors in
  exists buffer w',
    interleaveAccessors accessors bufferIndex bufferByteOffset w
    = Ok ({| res_byteLength := count * byteStride; res_buffers := [buffer] |}, w')
    /\ length buffer = count * byteStride
    /\ w_bufferViews w'
       = w_bufferViews w
         ++ [JObj [("buffer", JNat bufferIndex);
                   ("byteOffset", JNat bufferByteOffset);
                   ("byteLength", JNat (count * byteStride));
                   ("byteStride", JNat byteStride);
                   ("target", JInt 34962)]]
    /\ (forall k a, accessors !! k = Some a ->
          exists def,
            w_accessors w' !! (length (w_accessors w) + k) = Some (JObj def)
            /\ oget "byteOffset" def = Some (JNat (localOffset accessors k))
            /\ oget "bufferView" def = Some (JNat (length (w_bufferViews w))))
    /\ (forall i k a j,
          i < count -> accessors !! k = Some a -> j < getElementSize a ->
          slice (i * byteStride + localOffset accessors k + j * getComponentSize a)
                (getComponentSize a) buffer
          = scalarBytes (acc_componentType a)
              (acc_array a !! (i * getElementSize a + j)))
    /\ (forall i k a j,
          i < count -> accessors !! k = Some a -> j < getElementSize a ->
          storesLittleEndian (acc_componentType a)
            (acc_array a !! (i * getElementSize a + j))
            (slice (i * byteStride + localOffset accessors k
                    + j * getComponentSize a)
                   (getComponentSize a) buffer)).

Definition externalOptions : WriterOptions :=
  {| basename := "scene"; isGLB := false; embedded := false |}.

Definition glbOptions : WriterOptions :=
  {| basename := "scene"; isGLB := true; embedded := false |}.

Definition embeddedOptions : WriterOptions :=
  {| basename := "scene"; isGLB := false; embedded := true |}.

Definition accessorRef (id : nat) : Ref := {| ref_type := TAccessor; ref_id := id |}.

Definition primitiveRef (id : nat) : Ref := {| ref_type := TPrimitive; ref_id := id |}.

Definition linkOf (kind : LinkKind) (parent child : Ref) : Link :=
  {| link_kind := kind; getParent := parent; getChild := child |}.

(** Indices of [n] elements, [UNSIGNED_SHORT]. *)
Definition indexAccessor (id : nat) (name : string) (array : list Z) : Accessor :=
  {| acc_id := id; acc_property := named name; acc_type := SCALAR;
     acc_componentType := UNSIGNED_SHORT; acc_count := length array;
     getArray := typedArrayOf 2 array;
     acc_max := []; acc_min := []; acc_normalized := false |}.

Definition triangleIndices : Accessor := indexAccessor 3 "indices" [0; 1; 2]%Z.

Definition quadIndices : Accessor := indexAccessor 4 "quad" [0; 1; 2; 2; 1; 3]%Z.

Definition bufferOf (name : string) (parents : list Parent) : Buffer :=
  {| buf_property := named name; buf_uri := EmptyString;
     buf_listParents := ParentRoot :: parents |}.

Definition pngTexture (id : nat) (name : string) (image : list Z) : Texture :=
  {| tex_id := id; tex_property := named name; tex_mimeType := "image/png";
     tex_image := image; tex_uri := EmptyString |}.

Definition assetDef : object := [("version", JStr "2.0")].

Definition rootOf (buffers : list Buffer) (textures : list Texture)
    (materials : list Material) : Root :=
  {| getAsset := assetDef; listBuffers := buffers; listTextures := textures;
     listMaterials := materials; listMeshes := []; listCameras := [];
     listNodes := []; listSkins := []; listAnimations := []; listScenes := [] |}.

(** One buffer with the indices of a triangle, one image of three bytes. *)
Definition triangleDocument : Document :=
  {| getRoot := rootOf [bufferOf "geometry" [ParentAccessor triangleIndices]]
                  [pngTexture 1 "wood" [137; 80; 78]%Z] [];
     getLinks := [linkOf PlainLink rootRef (accessorRef 3);
                  linkOf IndexLink (primitiveRef 1) (accessorRef 3)] |}.

(** The same buffer, two images of three and five bytes. *)
Definition twoImagesDocument : Document :=
  {| getRoot := rootOf [bufferOf "geometry" [ParentAccessor triangleIndices]]
                  [pngTexture 1 "wood" [137; 80; 78]%Z;
                   pngTexture 2 "stone" [137; 80; 78; 71; 13]%Z] [];
     getLinks := [linkOf IndexLink (primitiveRef 1) (accessorRef 3)] |}.

(** Two buffers with indices of 8 and 12 padded bytes, one image. *)
Definition twoBuffersDocument : Document :=
  {| getRoot := rootOf [bufferOf "first" [ParentAccessor triangleIndices];
                        bufferOf "second" [ParentAccessor quadIndices]]
                  [pngTexture 1 "wood" [137; 80; 78]%Z] [];
     getLinks := [linkOf IndexLink (primitiveRef 1) (accessorRef 3);
                  linkOf IndexLink (primitiveRef 2) (accessorRef 4)] |}.

(** The claim that every buffer view from index [first] on is aligned. *)
Definition viewsAligned (first : nat) (doc : Document) (options : WriterOptions)
  : Prop :=
  forall nd log, write doc options = Ok (nd, log) ->
    forall i view,
      first <= i ->
      jarray "bufferViews" (json_of nd) !! i = Some view ->
      exists k, defField "byteOffset" view = Some (JNat (4 * k)).

(** What a written document holds of the images and buffers stages:
    [emitted] are the buffers that were not skipped, [imageResources] the
    blobs stored for external images. *)
Definition writtenBuffers (doc : Document) (options : WriterOptions)
    (nd : NativeDocument) (log : list string)
    (emitted : list Emitted) (imageResources : gmap string (list Z)) : Prop :=
  let root := getRoot doc in
  let accessorLinks := gatherAccessorLinks (getLinks doc) in
  let images := stageImages options root in
  let multiple := multipleBuffers root in
  partitionsOk accessorLinks (listBuffers root)
  /\ jarray "accessors" (json_of nd)
     = stageDefs accessorLinks (length images) (listBuffers root)
  /\ drop (length images) (jarray "bufferViews" (json_of nd))
     = stageViews accessorLinks images 0 (listBuffers root)
  /\ log = emptyBufferWarning
           <$> filter (fun b => isEmptyBuffer accessorLinks images b = true)
                 (listBuffers root)
  /\ em_buffer <$> emitted
     = filter (fun b => isEmptyBuffer accessorLinks images b = false)
         (listBuffers root)
  /\ Forall (fun e => length (em_data e)
                      = packedLength accessorLinks images (em_buffer e)) emitted
  /\ jarray "buffers" (json_of nd) = emittedDef options multiple <$> emitted
  /\ resources_of nd = storeEmitted options multiple imageResources emitted
  /\ imageBlobs ∅ imageResources (jarray "images" (json_of nd))
  /\ (embedsImages options = true -> imageResources = ∅)
  /\ defName <$> jarray "images" (json_of nd)
     = (fun t => propName (tex_property t)) <$> listTextures root
  /\ (forall i, i < length images ->
        exists imageDef,
          jarray "images" (json_of nd) !! i = Some (JObj imageDef)
          /\ oget "bufferView" imageDef = Some (JNat i)).

(** The accessor is used in more than one of the roles attribute, index,
    other. *)
Definition rolesOverlap (accessorLinks : gmap nat (list Link)) (a : Accessor)
  : Prop :=
  let accessorRefs := default [] (accessorLinks !! acc_id a) in
  let isAttribute := existsb isAttributeLink accessorRefs in
  let isIndex := existsb isIndexLink accessorRefs in
  let isOther := existsb isPlainLink accessorRefs in
  (isAttribute && isIndex) || (isAttribute && isOther) || (isIndex && isOther) = true.

(** Some accessor of some buffer of the document is used in more than one
    role. *)
Definition hasRoleOverlap (doc : Document) : Prop :=
  exists b a,
    b ∈ listBuffers (getRoot doc)
    /\ ParentAccessor a ∈ buf_listParents b
    /\ rolesOverlap (gatherAccessorLinks (getLinks doc)) a.

(** Every parent of every buffer is the root or an accessor. *)
Definition onlyAccessorParents (doc : Document) : Prop :=
  forall b parent,
    b ∈ listBuffers (getRoot doc) -> parent ∈ buf_listParents b ->
    parent = ParentRoot \/ exists a, parent = ParentAccessor a.

(** An accessor that is both an attribute and the indices of a primitive. *)
Definition sharedAccessor : Accessor := indexAccessor 5 "shared" [0; 1; 2]%Z.

Definition overlapDocument : Document :=
  {| getRoot := rootOf [bufferOf "geometry" [ParentAccessor sharedAccessor]] [] [];
     getLinks := [linkOf AttributeLink (primitiveRef 1) (accessorRef 5);
                  linkOf IndexLink (primitiveRef 1) (accessorRef 5)] |}.

(** The same accessor behind a parent of the buffer that is no accessor. *)
Definition strangeParentDocument : Document :=
  {| getRoot := rootOf [bufferOf "geometry"
                          [ParentOther "[object Object]";
                           ParentAccessor sharedAccessor]] [] [];
     getLinks := [linkOf AttributeLink (primitiveRef 1) (accessorRef 5);
                  linkOf IndexLink (primitiveRef 1) (accessorRef 5)] |}.

Definition glbWith (basename : string) (embedded : bool) : WriterOptions :=
  {| basename := basename; isGLB := true; embedded := embedded |}.

(** The claim that [embedded] is ignored in GLB mode. *)
Definition embeddedIgnored (doc : Document) (basename : string) : Prop :=
  write doc (glbWith basename true) = write doc (glbWith basename false).

(** The number of accessor buffer views of a list of buffers. *)
Definition viewCount (accessorLinks : gmap nat (list Link)) (buffers : list Buffer)
  : nat :=
  sum_list ((fun b => length (bufferGroups accessorLinks b)) <$> buffers).

(** The buffers of the list that are not skipped. *)
Definition keptBuffers (accessorLinks : gmap nat (list Link))
    (images : list (list Z)) (buffers : list Buffer) : list Buffer :=
  filter (fun b => isEmptyBuffer accessorLinks images b = false) buffers.

(** The buffers of the list that are skipped. *)
Definition skippedBuffers (accessorLinks : gmap nat (list Link))
    (images : list (list Z)) (buffers : list Buffer) : list Buffer :=
  filter (fun b => isEmptyBuffer accessorLinks images b = true) buffers.

(** What a written document shows of its empty buffers: one warning each, no
    definition and no blob; the other buffers are defined in order, and the
    views of each carry the place of its definition. *)
Definition emptyBuffersSkipped (doc : Document) (options : WriterOptions)
    (nd : NativeDocument) (log : list string) : Prop :=
  let root := getRoot doc in
  let accessorLinks := gatherAccessorLinks (getLinks doc) in
  let images := stageImages options root in
  log = emptyBufferWarning <$> skippedBuffers accessorLinks images (listBuffers root)
  /\ Forall2 (fun b def =>
                defName def = propName (buf_property b)
                /\ defField "byteLength" def
                   = Some (JNat (packedLength accessorLinks images b)))
       (keptBuffers accessorLinks images (listBuffers root))
       (jarray "buffers" (json_of nd))
  /\ (forall before b after i,
        listBuffers root = before ++ b :: after ->
        isEmptyBuffer accessorLinks images b = false ->
        i < length (bufferGroups accessorLinks b) ->
        exists view,
          jarray "bufferViews" (json_of nd)
            !! (length images + viewCount accessorLinks before + i) = Some view
          /\ defField "buffer" view
             = Some (JNat (length (keptBuffers accessorLinks images before))))
  /\ (forall key, is_Some (resources_of nd !! key) ->
        (isGLB options = true /\ key = GLB_BUFFER
         /\ jarray "buffers" (json_of nd) ≠ [])
        \/ (exists def, def ∈ jarray "buffers" (json_of nd)
                        /\ defField "uri" def = Some (JStr key))
        \/ (exists def, def ∈ jarray "images" (json_of nd)
                        /\ defField "uri" def = Some (JStr key))).

(** An empty buffer between two buffers with indices; no images. *)
Definition emptyBufferDocument : Document :=
  {| getRoot := rootOf [bufferOf "first" [ParentAccessor triangleIndices];
                        bufferOf "unused" [];
                        bufferOf "second" [ParentAccessor quadIndices]] [] [];
     getLinks := [linkOf IndexLink (primitiveRef 1) (accessorRef 3);
                  linkOf IndexLink (primitiveRef 2) (accessorRef 4)] |}.

(** The definitions [defs] are those of the listed properties, one for one:
    they carry their names in the order of the listing. *)
Definition namesFollow {A : Type} (property : A -> Property) (listing : list A)
    (defs : list json) : Prop :=
  defName <$> defs = (fun x => propName (property x)) <$> listing.

(** The accessors of a list of buffers in packing order: buffer by buffer,
    and in each buffer group by group. *)
Definition packedAccessors (accessorLinks : gmap nat (list Link))
    (buffers : list Buffer) : list Accessor :=
  buffers ≫= fun b => bufferGroups accessorLinks b ≫= groupAccessors.

(** [placed] reads the indices off the document: the texture index of each
    texture slot, in the order of the calls, and the sampler index of that
    texture. *)
Definition slotsPlaced (doc : Document) (nd : NativeDocument) (placed : list Placed)
  : Prop :=
  pl_slot <$> placed = documentSlots (getRoot doc)
  /\ Forall2 (fun p info => defField "index" info = Some (JNat (pl_texture p)))
       placed (jarray "materials" (json_of nd) ≫= textureInfos)
  /\ Forall (fun p =>
       exists textureDef,
         jarray "textures" (json_of nd) !! pl_texture p = Some textureDef
         /\ defField "sampler" textureDef = Some (JNat (pl_sampler p)))
       placed.

(** What the materials stage leaves in the document, with the image table
    [images] of the writer. *)
Definition writtenTextures (doc : Document) (nd : NativeDocument)
    (placed : list Placed) (images : gmap nat nat) : Prop :=
  let json := json_of nd in
  pl_slot <$> placed = documentSlots (getRoot doc)
  /\ namesFollow mat_property (listMaterials (getRoot doc)) (jarray "materials" json)
  /\ Forall2 (fun p info => defField "index" info = Some (JNat (pl_texture p)))
       placed (jarray "materials" json ≫= textureInfos)
  /\ NoDup (canonicalKey <$> jarray "samplers" json)
  /\ NoDup (canonicalKey <$> jarray "textures" json)
  /\ Forall (fun p =>
       (canonicalKey <$> jarray "samplers" json) !! pl_sampler p
       = Some (samplerKeyOf (pl_slot p))
       /\ jarray "textures" json !! pl_texture p
          = Some (JObj (textureDefOf images (pl_sampler p) (pl_slot p))))
       placed
  /\ firstUse (pl_texture <$> placed) (length (jarray "textures" json))
  /\ firstUse (pl_sampler <$> placed) (length (jarray "samplers" json)).

(** The claim that no image view comes before an accessor view. *)
Definition imageViewsLast (doc : Document) (options : WriterOptions) : Prop :=
  forall nd log, write doc options = Ok (nd, log) ->
    forall imageDef index,
      imageDef ∈ jarray "images" (json_of nd) ->
      defField "bufferView" imageDef = Some (JNat index) ->
      viewCount (gatherAccessorLinks (getLinks doc)) (listBuffers (getRoot doc))
      <= index.

(** The order of the arrays of a written document.  Images, materials,
    meshes, cameras, nodes, skins, animations and scenes follow the listings
    of the root; the buffers follow the listing of the buffers that are kept;
    the accessors are in packing order; the buffer views are the views of the
    images, image by image, and then the views of the accessor groups in
    packing order; textures and samplers are numbered in order of first use
    by the texture slots of the materials. *)
Definition emissionOrder (doc : Document) (options : WriterOptions)
    (nd : NativeDocument) : Prop :=
  let root := getRoot doc in
  let json := json_of nd in
  let accessorLinks := gatherAccessorLinks (getLinks doc) in
  let images := stageImages options root in
  namesFollow tex_property (listTextures root) (jarray "images" json)
  /\ namesFollow mat_property (listMaterials root) (jarray "materials" json)
  /\ namesFollow mesh_property (listMeshes root) (jarray "meshes" json)
  /\ namesFollow cam_property (listCameras root) (jarray "cameras" json)
  /\ namesFollow node_property (listNodes root) (jarray "nodes" json)
  /\ namesFollow skin_property (listSkins root) (jarray "skins" json)
  /\ namesFollow anim_property (listAnimations root) (jarray "animations" json)
  /\ namesFollow scene_property (listScenes root) (jarray "scenes" json)
  /\ namesFollow buf_property (keptBuffers accessorLinks images (listBuffers root))
       (jarray "buffers" json)
  /\ jarray "accessors" json
     = stageDefs accessorLinks (length images) (listBuffers root)
  /\ namesFollow acc_property (packedAccessors accessorLinks (listBuffers root))
       (jarray "accessors" json)
  /\ length (jarray "bufferViews" json)
     = length images + viewCount accessorLinks (listBuffers root)
  /\ (forall i, i < length images ->
        exists imageDef, jarray "images" json !! i = Some imageDef
                         /\ defField "bufferView" imageDef = Some (JNat i))
  /\ drop (length images) (jarray "bufferViews" json)
     = stageViews accessorLinks images 0 (listBuffers root)
  /\ exists placed,
       slotsPlaced doc nd placed
       /\ firstUse (pl_texture <$> placed) (length (jarray "textures" json))
       /\ firstUse (pl_sampler <$> placed) (length (jarray "samplers" json)).

(** Samplers and textures are shared by the texture slots, which [placed]
    lists with their indices: slots with the same sampler definition have the
    same sampler index, slots with the same image and the same sampler
    definition have the same texture index, and [json.samplers] and
    [json.textures] hold no canonical key twice and no entry that no slot
    uses. *)
Definition sharedBy (doc : Document) (nd : NativeDocument) (placed : list Placed)
  : Prop :=
  let json := json_of nd in
    slotsPlaced doc nd placed
    /\ (forall p q, p ∈ placed -> q ∈ placed ->
          samplerDefOf (slot_sampler (pl_slot p))
          = samplerDefOf (slot_sampler (pl_slot q)) ->
          pl_sampler p = pl_sampler q)
    /\ (forall p q, p ∈ placed -> q ∈ placed ->
          slot_texture (pl_slot p) = slot_texture (pl_slot q) ->
          samplerDefOf (slot_sampler (pl_slot p))
          = samplerDefOf (slot_sampler (pl_slot q)) ->
          pl_texture p = pl_texture q)
    /\ NoDup (canonicalKey <$> jarray "samplers" json)
    /\ NoDup (canonicalKey <$> jarray "textures" json)
    /\ (forall key, key ∈ canonicalKey <$> jarray "samplers" json
                    <-> exists p, p ∈ placed /\ key = samplerKeyOf (pl_slot p))
    /\ (forall i, i < length (jarray "textures" json)
                  <-> exists p, p ∈ placed /\ pl_texture p = i).

Definition linearSampler : TextureSampler :=
  {| getMagFilter := Some 9729%Z; getMinFilter := Some 9987%Z;
     getWrapS := 10497%Z; getWrapT := 10497%Z |}.

Definition nearestSampler : TextureSampler :=
  {| getMagFilter := Some 9728%Z; getMinFilter := None;
     getWrapS := 33071%Z; getWrapT := 33071%Z |}.

Definition slotOf (texture : nat) (sampler : TextureSampler) : TextureSlot :=
  {| slot_texture := texture; slot_info := {| getTexCoord := 0 |};
     slot_sampler := sampler |}.

Definition materialOf (id : nat) (name : string)
    (baseColor emissive normal : option TextureSlot) : Material :=
  {| mat_id := id; mat_property := named name; getAlphaMode := "OPAQUE";
     getAlphaCutoff := 0.5%Q; getDoubleSided := false;
     getBaseColorFactor := [1%Q; 1%Q; 1%Q; 1%Q];
     getEmissiveFactor := [0%Q; 0%Q; 0%Q];
     getRoughnessFactor := 1%Q; getMetallicFactor := 1%Q;
     baseColorTexture := baseColor; emissiveTexture := emissive;
     normalTexture := normal; getNormalScale := 1%Q;
     occlusionTexture := None; getOcclusionStrength := 1%Q;
     metallicRoughnessTexture := None |}.

(** Two images and two materials with four texture slots: the base colour of
    both materials is the first image with the same sampler data. *)
Definition texturedDocument : Document :=
  {| getRoot :=
       rootOf [bufferOf "geometry" [ParentAccessor triangleIndices]]
         [pngTexture 1 "wood" [137; 80; 78]%Z;
          pngTexture 2 "stone" [137; 80; 78; 71; 13]%Z]
         [materialOf 1 "bench" (Some (slotOf 1 linearSampler))
            (Some (slotOf 2 linearSampler)) None;
          materialOf 2 "floor" (Some (slotOf 1 linearSampler)) None
            (Some (slotOf 1 nearestSampler))];
     getLinks := [linkOf IndexLink (primitiveRef 1) (accessorRef 3)] |}.

(** ** Vocabulary of the further statements *)

(** The keys that [clean] deletes: the property keys of what it collects. *)
Definition deletedKeys (obj : object) : list string :=
  toPropertyKey <$> cleanUnused obj.

(** The error of the first buffer, in root order, whose accessors cannot be
    partitioned. *)
Fixpoint firstFailure (accessorLinks : gmap nat (list Link)) (buffers : list Buffer)
  : option string :=
  match buffers with
  | [] => None
  | b :: buffers' =>
      match partitionAccessors accessorLinks b with
      | Throw e => Some e
      | Ok _ => firstFailure accessorLinks buffers'
      end
  end.

(** A link that [accessorLinks] records for the accessor with handle [id]. *)
Definition usesAccessor (id : nat) (link : Link) : Prop :=
  ref_type (getParent link) ≠ TRoot
  /\ ref_type (getChild link) = TAccessor
  /\ ref_id (getChild link) = id.

Global Instance usesAccessor_dec (id : nat) (link : Link) :
  Decision (usesAccessor id link).
Proof. unfold usesAccessor. apply _. Defined.

Global Instance LinkKind_eq_dec : EqDecision LinkKind.
Proof. solve_decision. Defined.

(** [accessorLinks.get(parent) || []] *)
Definition accessorUses (accessorLinks : gmap nat (list Link)) (a : Accessor)
  : list Link :=
  default [] (accessorLinks !! acc_id a).

(** [attributeAccessors.get(primitive) || new Set()] *)
Fixpoint groupOf (primitive : Ref) (m : list (Ref * list Accessor)) : list Accessor :=
  match m with
  | [] => []
  | (p, s) :: m' => if decide (p = primitive) then s else groupOf primitive m'
  end.

(** The accessors of a partition: the indices, the attributes primitive by
    primitive, the others. *)
Definition partitionMembers (p : Partition) : list Accessor :=
  indexAccessors p ++ (attributeAccessors p ≫= snd) ++ otherAccessors p.

(** The three flags that the categorizing loop computes for an accessor. *)
Definition usedAs (accessorLinks : gmap nat (list Link)) (a : Accessor)
    (attribute index plain : bool) : Prop :=
  existsb isAttributeLink (accessorUses accessorLinks a) = attribute
  /\ existsb isIndexLink (accessorUses accessorLinks a) = index
  /\ existsb isPlainLink (accessorUses accessorLinks a) = plain.

(** The invariant of the categorizing loop over the parents [seen]. *)
Definition partitionInv (accessorLinks : gmap nat (list Link))
    (seen : list Parent) (p : Partition) : Prop :=
  NoDup (acc_id <$> partitionMembers p)
  /\ NoDup (attributeAccessors p).*1
  /\ (forall a, a ∈ partitionMembers p -> ParentAccessor a ∈ seen)
  /\ (forall a, ParentAccessor a ∈ seen ->
        acc_id a ∈ acc_id <$> partitionMembers p)
  /\ (forall a, a ∈ indexAccessors p -> usedAs accessorLinks a false true false)
  /\ (forall a, a ∈ otherAccessors p ->
        exists plain, usedAs accessorLinks a false false plain)
  /\ (forall primitive s a,
        (primitive, s) ∈ attributeAccessors p -> a ∈ s ->
        usedAs accessorLinks a true false false
        /\ exists link uses,
             accessorUses accessorLinks a = link :: uses
             /\ getParent link = primitive).

(** A partition of the accessors among [parents]: every accessor is there
    once, and in the category of its uses. *)
Definition partitionSound (accessorLinks : gmap nat (list Link))
    (parents : list Parent) (p : Partition) : Prop :=
  NoDup (acc_id <$> partitionMembers p)
  /\ NoDup (attributeAccessors p).*1
  /\ (forall a, a ∈ partitionMembers p -> ParentAccessor a ∈ parents)
  /\ (forall a, ParentAccessor a ∈ parents ->
        acc_id a ∈ acc_id <$> partitionMembers p)
  /\ (forall a, a ∈ indexAccessors p ->
        accessorUses accessorLinks a ≠ []
        /\ Forall (fun link => link_kind link = IndexLink)
             (accessorUses accessorLinks a))
  /\ (forall a, a ∈ otherAccessors p ->
        Forall (fun link => link_kind link = PlainLink)
          (accessorUses accessorLinks a))
  /\ (forall primitive s a,
        (primitive, s) ∈ attributeAccessors p -> a ∈ s ->
        Forall (fun link => link_kind link = AttributeLink)
          (accessorUses accessorLinks a)
        /\ exists link uses,
             accessorUses accessorLinks a = link :: uses
             /\ getParent link = primitive).

(** ** The exact effect of the buffers stage *)

(** [accessorIndexMap.set(accessor, json.accessors.length)] for each accessor
    of [l], the first of which becomes definition [first]. *)
Fixpoint recordAccessors (table : gmap nat nat) (first : nat) (l : list Accessor)
  : gmap nat nat :=
  match l with
  | [] => table
  | a :: l' => recordAccessors (<[acc_id a := first]> table) (S first) l'
  end.

(** The byte segments that packing a group pushes to [buffers]. *)
Definition groupSegments (g : Group) : list (list Z) :=
  match g with
  | ConcatGroup l _ => paddedArray <$> l
  | InterleaveGroup l =>
      match interleave l (vertexCountOf l) (byteStrideOf l) with
      | Ok buffer => [buffer]
      | Throw _ => []
      end
  end.

(** What packing the groups [gs] from the packing state [p] gives. *)
Definition packedGroups (bufferIndex : nat) (gs : list Group) (p : Packed)
    (w : Writer) : Packed * Writer :=
  ({| bufferByteLength := bufferByteLength p + planLength gs;
      packedBuffers := packedBuffers p ++ (gs ≫= groupSegments) |},
   packState
     (w_accessors w ++ planDefs (length (w_bufferViews w)) gs)
     (w_bufferViews w ++ planViews bufferIndex (bufferByteLength p) gs)
     (recordAccessors (accessorIndexMap w) (length (w_accessors w))
        (gs ≫= groupAccessors)) w).

(** [json.bufferViews[i].byteOffset = offset] *)
Definition placeView (i offset : nat) (views : list json) : list json :=
  match views !! i with
  | Some (JObj view) => <[i := JObj (oset "byteOffset" (JNat offset) view)]> views
  | _ => views
  end.

(** The loop over [imageData] from image [i] on: each image view gets the
    running byte length as its offset. *)
Fixpoint placeImages (i offset : nat) (images : list (list Z)) (views : list json)
  : list json :=
  match images with
  | [] => views
  | data :: rest => placeImages (S i) (offset + length data) rest (placeView i offset views)
  end.

(** The packed bytes of a buffer: the segments of its groups, then the
    images. *)
Definition packedBytes (gs : list Group) (images : list (list Z)) : list Z :=
  BufferUtils.concat ((gs ≫= groupSegments) ++ images).

(** The writer after the groups [gs] of a buffer and the images are packed. *)
Definition packedState (bufferIndex : nat) (gs : list Group) (w : Writer) : Writer :=
  packState
    (w_accessors w ++ planDefs (length (w_bufferViews w)) gs)
    (placeImages 0 (planLength gs) (imageData w)
       (w_bufferViews w ++ planViews bufferIndex 0 gs))
    (recordAccessors (accessorIndexMap w) (length (w_accessors w))
       (gs ≫= groupAccessors)) w.

(** The writer after the callback of the loop over the buffers, for a buffer
    whose accessors can be partitioned. *)
Definition bufferState (options : WriterOptions) (multiple : bool)
    (accessorLinks : gmap nat (list Link)) (b : Buffer) (w : Writer) : Writer :=
  let gs := bufferGroups accessorLinks b in
  let w1 := packedState (length (w_buffers w)) gs w in
  if decide (planLength gs + sum_list (length <$> imageData w) = 0) then
    set_w_warnings (w_warnings w1 ++ [emptyBufferWarning b]) w1
  else
    let e := {| em_buffer := b; em_counter := bufferURICounter w;
                em_data := packedBytes gs (imageData w) |} in
    set_w_buffers (w_buffers w1 ++ [emittedDef options multiple e])
      (set_w_resources (storeEmitted options multiple (w_resources w1) [e])
         (set_bufferURICounter
            (bufferURI options multiple (bufferURICounter w) b).2 w1)).

(** The writer after the loop over the buffers. *)
Definition buffersState (options : WriterOptions) (multiple : bool)
    (accessorLinks : gmap nat (list Link)) (buffers : list Buffer) (w : Writer)
  : Writer :=
  foldl (fun w b => bufferState options multiple accessorLinks b w) w buffers.

(** [table.set(id, index)] for each handle of [ids], the first of which gets
    index [first]. *)
Fixpoint recordIds (table : gmap nat nat) (first : nat) (ids : list nat)
  : gmap nat nat :=
  match ids with
  | [] => table
  | id :: ids' => recordIds (<[id := first]> table) (S first) ids'
  end.

(** The place of the handle [id] in a listing that starts at index [first],
    as a JSON value: [undefined] when the listing does not have it. *)
Fixpoint positionFrom (first : nat) (ids : list nat) (id : nat) : json :=
  match ids with
  | [] => JUndefined
  | x :: ids' => if decide (x = id) then JNat first else positionFrom (S first) ids' id
  end.

Definition positionOf (ids : list nat) (id : nat) : json := positionFrom 0 ids id.

(** The references of a node definition: to its mesh, camera and skin, and
    to its children, each by its place in the root's listing. *)
Definition nodeRefs (root : Root) (node : Node) (def : json) : Prop :=
  defField "mesh" def = positionOf (mesh_id <$> listMeshes root) <$> node_mesh node
  /\ defField "camera" def
     = positionOf (cam_id <$> listCameras root) <$> node_camera node
  /\ defField "skin" def = positionOf (skin_id <$> listSkins root) <$> node_skin node
  /\ defField "children" def
     = match node_children node with
       | [] => None
       | children =>
           Some (JArr (positionOf (node_id <$> listNodes root) <$> children))
       end.

Definition skinRefs (root : Root) (skin : Skin) (def : json) : Prop :=
  defField "skeleton" def
  = positionOf (node_id <$> listNodes root) <$> getSkeleton skin
  /\ defField "joints" def
     = Some (JArr (positionOf (node_id <$> listNodes root) <$> listJoints skin)).

Definition sceneRefs (root : Root) (scene : Scene) (def : json) : Prop :=
  defField "nodes" def
  = Some (JArr (positionOf (node_id <$> listNodes root) <$> scene_nodes scene)).

(** The index of the definition of the accessor with handle [id]: its place
    in the packing order. *)
Definition accessorIndexOf (accessorLinks : gmap nat (list Link))
    (buffers : list Buffer) (id : nat) : json :=
  positionOf (acc_id <$> packedAccessors accessorLinks buffers) id.

(** [map.get(property)] for a property that may be [null]. *)
Definition refOf (ref : nat -> json) (property : option nat) : json :=
  from_option ref JUndefined property.

Definition semanticsRefs (ref : nat -> json) (attributes : list (string * nat))
  : object :=
  (fun entry : string * nat => (entry.1, ref entry.2)) <$> attributes.

(** The references of a primitive definition. *)
Definition primitiveRefs (accessorOf materialOf : nat -> json)
    (primitive : Primitive) (def : json) : Prop :=
  defField "indices" def = accessorOf <$> prim_indices primitive
  /\ defField "material" def = Some (refOf materialOf (prim_material primitive))
  /\ defField "mode" def = Some (JInt (prim_mode primitive))
  /\ defField "attributes" def
     = Some (JObj (semanticsRefs accessorOf (prim_attributes primitive)))
  /\ defField "targets" def
     = match prim_targets primitive with
       | [] => None
       | targets =>
           Some (JArr ((fun target =>
                          JObj (semanticsRefs accessorOf (target_attributes target)))
                       <$> targets))
       end.

Definition meshRefs (accessorOf materialOf : nat -> json) (mesh : Mesh) (def : json)
  : Prop :=
  exists primitives,
    defField "primitives" def = Some (JArr primitives)
    /\ Forall2 (primitiveRefs accessorOf materialOf) (listPrimitives mesh) primitives.

(** No primitive and no morph target names a semantic twice. *)
Definition distinctSemantics (root : Root) : Prop :=
  forall mesh primitive,
    mesh ∈ listMeshes root -> primitive ∈ listPrimitives mesh ->
    NoDup (prim_attributes primitive).*1
    /\ forall target, target ∈ prim_targets primitive ->
         NoDup (target_attributes target).*1.

(** What an accessor definition tells of its accessor. *)
Definition describes (a : Accessor) (def : json) : Prop :=
  defName def = propName (acc_property a)
  /\ defField "type" def = Some (JStr (accessorTypeName (acc_type a)))
  /\ defField "componentType" def
     = Some (JInt (componentTypeCode (acc_componentType a)))
  /\ defField "count" def = Some (JNat (acc_count a))
  /\ defField "normalized" def = Some (JBool (acc_normalized a)).

(** The byte offset of the [k]-th accessor of a sequential view: the padded
    lengths of the accessors before it. *)
Definition concatOffset (accessors : list Accessor) (k : nat) : nat :=
  concatLength (take k accessors).

(** Three indices in a typed array that is a view, from byte 4 on, of a
    buffer of ten bytes. *)
Definition viewAccessor : Accessor :=
  {| acc_id := 7; acc_property := named "view"; acc_type := SCALAR;
     acc_componentType := UNSIGNED_SHORT; acc_count := 3;
     getArray := {| ta_buffer := [9; 9; 9; 9; 1; 0; 2; 0; 3; 0]%Z;
                    ta_byteOffset := 4;
                    ta_length := 3 |};
     acc_max := []; acc_min := []; acc_normalized := false |}.

(** The typed array of [a] lies inside its buffer, as every typed array
    does. *)
Definition insideBuffer (a : Accessor) : Prop :=
  ta_byteOffset (getArray a) + ta_length (getArray a) * getComponentSize a
  <= length (arrayBuffer a).

(** The elements of the array of [a] are in [data] from [byteOffset] on,
    one after the other, each little-endian. *)
Definition elementsAt (a : Accessor) (byteOffset : nat) (data : list Z) : Prop :=
  forall q v,
    acc_array a !! q = Some v ->
    littleEndian (slice (byteOffset + q * getComponentSize a)
                    (getComponentSize a) data) = v.

(** The buffer under the array of [a] is in [data] at [byteOffset], the
    whole of it; the elements of the array are where they are in that
    buffer, which is at [byteOffset] only for an array that starts its
    buffer. *)
Definition bufferAt (a : Accessor) (byteOffset : nat) (data : list Z) : Prop :=
  slice byteOffset (length (arrayBuffer a)) data = arrayBuffer a
  /\ (insideBuffer a ->
      elementsAt a (byteOffset + ta_byteOffset (getArray a)) data).

(** What [concatAccessors] does: the result, the buffer view, the accessor
    definitions and where the bytes of each accessor are. *)
Definition concatLayout (accessors : list Accessor) (bufferIndex bufferByteOffset : nat)
    (bufferViewTarget : option Z) (w : Writer) : Prop :=
  exists view w',
    concatAccessors accessors bufferIndex bufferByteOffset bufferViewTarget w
    = Ok ({| res_byteLength := concatLength accessors;
             res_buffers := paddedArray <$> accessors |}, w')
    /\ w_bufferViews w' = w_bufferViews w ++ [JObj view]
    /\ oget "buffer" view = Some (JNat bufferIndex)
    /\ oget "byteOffset" view = Some (JNat bufferByteOffset)
    /\ oget "byteLength" view = Some (JNat (concatLength accessors))
    /\ oget "target" view
       = match bufferViewTarget with
         | Some t => if decide (t = 0%Z) then None else Some (JInt t)
         | None => None
         end
    /\ length (w_accessors w') = length (w_accessors w) + length accessors
    /\ (forall k a, accessors !! k = Some a ->
          exists def,
            w_accessors w' !! (length (w_accessors w) + k) = Some (JObj def)
            /\ oget "bufferView" def = Some (JNat (length (w_bufferViews w)))
            /\ oget "byteOffset" def = Some (JNat (concatOffset accessors k))
            /\ (4 | concatOffset accessors k)
            /\ concatOffset accessors k + length (arrayBuffer a)
               <= concatLength accessors
            /\ bufferAt a (concatOffset accessors k)
                 (BufferUtils.concat (paddedArray <$> accessors))).

(** The byte offset of image [i] in a buffer whose accessor groups are [gs]:
    after the groups and the images before it. *)
Definition imageOffset (gs : list Group) (images : list (list Z)) (i : nat) : nat :=
  planLength gs + sum_list (length <$> take i images).

(** The buffer view of an embedded image once its offset is set. *)
Definition placedImageView (byteOffset : json) (texture : Texture) : json :=
  JObj [("buffer", JInt 0);
        ("byteOffset", byteOffset);
        ("byteLength", JNat (length (tex_image texture)))].

(** Successive calls of [createURI] on one generator whose counter is
    [counter], for objects given by their own URI and the extension asked
    for. *)
Fixpoint createURIs (multiple : bool) (basename : string) (counter : nat)
    (objects : list (string * string)) : list string :=
  match objects with
  | [] => []
  | object :: rest =>
      let r := createURI multiple basename counter object.1 object.2 in
      r.1 :: createURIs multiple basename r.2 rest
  end.

(** The extension of the file of an image. *)
Definition imageExtension (texture : Texture) : string :=
  if decide (tex_mimeType texture = "image/png") then "png" else "jpeg".

(** The files of the images in the order in which they are stored, each
    with its URI; [counter] is the counter of [imageURIGenerator]. *)
Fixpoint storedImages (options : WriterOptions) (multiple : bool) (counter : nat)
    (textures : list Texture) : list (string * list Z) :=
  match textures with
  | [] => []
  | texture :: rest =>
      let r := createURI multiple (basename options) counter (tex_uri texture)
                 (imageExtension texture) in
      (r.1, tex_image texture) :: storedImages options multiple r.2 rest
  end.

(** The buffers of the list that are emitted, each with the counter of
    [bufferURIGenerator] when it is reached and its packed bytes. *)
Fixpoint emittedFrom (options : WriterOptions) (multiple : bool)
    (accessorLinks : gmap nat (list Link)) (images : list (list Z)) (counter : nat)
    (buffers : list Buffer) : list Emitted :=
  match buffers with
  | [] => []
  | b :: rest =>
      if isEmptyBuffer accessorLinks images b
      then emittedFrom options multiple accessorLinks images counter rest
      else {| em_buffer := b; em_counter := counter;
              em_data := packedBytes (bufferGroups accessorLinks b) images |}
           :: emittedFrom options multiple accessorLinks images
                (bufferURI options multiple counter b).2 rest
  end.

(** [resources[uri] = data] for each file of the list in turn. *)
Definition storeAll (files : list (string * list Z))
    (resources : gmap string (list Z)) : gmap string (list Z) :=
  foldl (fun m file => <[file.1 := file.2]> m) resources files.

(** The definition names a URI under which the resources have [data]. *)
Definition storedAs (resources : gmap string (list Z)) (data : list Z) (def : json)
  : Prop :=
  exists uri, defField "uri" def = Some (JStr uri) /\ resources !! uri = Some data.

(** A name made by [createURI] from [basename] and [extension]. *)
Definition generatedName (basename extension uri : string) : Prop :=
  uri = basename +:+ "." +:+ extension
  \/ exists counter : nat,
       uri = basename +:+ "_" +:+ pretty counter +:+ "." +:+ extension.

(** The references of a skin definition to its accessor. *)
Definition skinAccessorRefs (accessorOf : nat -> json) (skin : Skin) (def : json)
  : Prop :=
  defField "inverseBindMatrices" def = accessorOf <$> getInverseBindMatrices skin.

(** The references of an animation sampler definition. *)
Definition samplerRefs (accessorOf : nat -> json) (sampler : AnimationSampler)
    (def : json) : Prop :=
  defField "input" def = Some (refOf accessorOf (getInput sampler))
  /\ defField "output" def = Some (refOf accessorOf (getOutput sampler))
  /\ defField "interpolation" def = Some (JStr (getInterpolation sampler)).

(** The references of an animation channel definition. *)
Definition channelRefs (samplerOf nodeOf : nat -> json) (channel : AnimationChannel)
    (def : json) : Prop :=
  defField "sampler" def = Some (refOf samplerOf (getSampler channel))
  /\ defField "target" def
     = Some (JObj [("node", refOf nodeOf (getTargetNode channel));
                   ("path", JStr (getTargetPath channel))]).

(** The references of an animation definition: its samplers refer to
    accessors, its channels to the samplers of the same animation, by their
    place in its own listing, and to nodes. *)
Definition animationRefs (accessorOf nodeOf : nat -> json) (animation : Animation)
    (def : json) : Prop :=
  exists samplers channels,
    defField "samplers" def = Some (JArr samplers)
    /\ defField "channels" def = Some (JArr channels)
    /\ Forall2 (samplerRefs accessorOf) (listSamplers animation) samplers
    /\ Forall2 (channelRefs
                  (positionOf (sampler_id <$> listSamplers animation)) nodeOf)
         (listChannels animation) channels.

(** In [document] the reference [index] leads to a definition of the accessor
    [a] whose data begin at byte [byteOffset] of buffer [bufferIndex], in a
    buffer view with the stride [byteStride]. *)
Definition accessorAt (document : object) (index : json) (a : Accessor)
    (bufferIndex byteOffset : nat) (byteStride : option nat) : Prop :=
  exists n def v view accessorOffset viewOffset,
    index = JNat n
    /\ jarray "accessors" document !! n = Some (JObj def)
    /\ describes a (JObj def)
    /\ oget "bufferView" def = Some (JNat v)
    /\ oget "byteOffset" def = Some (JNat accessorOffset)
    /\ jarray "bufferViews" document !! v = Some (JObj view)
    /\ oget "buffer" view = Some (JNat bufferIndex)
    /\ oget "byteOffset" view = Some (JNat viewOffset)
    /\ oget "byteStride" view = JNat <$> byteStride
    /\ byteOffset = viewOffset + accessorOffset.

(** The data of the accessor [a] of the group [g] are read back from [data]
    at [byteOffset]. In a sequential view the buffer under the array is
    there as a whole. In an interleaved view every component of every vertex
    is there little-endian, at the stride of the view; an element that the
    array does not have is stored as [undefined] is. *)
Definition readsBack (g : Group) (a : Accessor) (byteOffset : nat) (data : list Z)
  : Prop :=
  match g with
  | ConcatGroup _ _ => bufferAt a byteOffset data
  | InterleaveGroup l =>
      forall i j,
        i < vertexCountOf l -> j < getElementSize a ->
        storesLittleEndian (acc_componentType a)
          (acc_array a !! (i * getElementSize a + j))
          (slice (byteOffset + i * byteStrideOf l + j * getComponentSize a)
             (getComponentSize a) data)
  end.

(** The stride that the view of a group shows. *)
Definition groupStride (g : Group) : option nat :=
  match g with
  | ConcatGroup _ _ => None
  | InterleaveGroup l => Some (byteStrideOf l)
  end.

(** The texture info under [key] of a definition, for a texture slot that
    may be empty: there exactly when the slot has a texture, with the slot's
    texture coordinate set and, under [scaleKey], the scale unless it is 1. *)
Definition textureShown (key scaleKey : string) (slot : option TextureSlot)
    (scale : option Q) (def : object) : Prop :=
  match slot with
  | None => oget key def = None
  | Some slot =>
      exists info,
        oget key def = Some (JObj info)
        /\ oget "texCoord" info = Some (JInt (getTexCoord (slot_info slot)))
        /\ oget scaleKey info
           = match scale with
             | Some scale => if Qeq_bool scale 1 then None else Some (JReal scale)
             | None => None
             end
  end.

(** What a material definition shows of its material. *)
Definition materialShows (material : Material) (def : json) : Prop :=
  exists materialDef pbr,
    def = JObj materialDef
    /\ oget "name" materialDef = propName (mat_property material)
    /\ oget "alphaMode" materialDef = Some (JStr (getAlphaMode material))
    /\ oget "alphaCutoff" materialDef
       = (if decide (getAlphaMode material = "MASK")
          then Some (JReal (getAlphaCutoff material)) else None)
    /\ oget "doubleSided" materialDef = Some (JBool (getDoubleSided material))
    /\ oget "emissiveFactor" materialDef
       = Some (JReals (getEmissiveFactor material))
    /\ oget "pbrMetallicRoughness" materialDef = Some (JObj pbr)
    /\ oget "baseColorFactor" pbr = Some (JReals (getBaseColorFactor material))
    /\ oget "roughnessFactor" pbr = Some (JReal (getRoughnessFactor material))
    /\ oget "metallicFactor" pbr = Some (JReal (getMetallicFactor material))
    /\ textureShown "baseColorTexture" "scale" (baseColorTexture material) None pbr
    /\ textureShown "metallicRoughnessTexture" "scale"
         (metallicRoughnessTexture material) None pbr
    /\ textureShown "emissiveTexture" "scale" (emissiveTexture material) None
         materialDef
    /\ textureShown "normalTexture" "scale" (normalTexture material)
         (Some (getNormalScale material)) materialDef
    /\ textureShown "occlusionTexture" "strength" (occlusionTexture material)
         (Some (getOcclusionStrength material)) materialDef.

(** ** More sample inputs *)

Definition trianglePrimitive : Primitive :=
  {| prim_material := Some 1; prim_mode := 4; prim_indices := Some 3;
     prim_attributes := [("POSITION", 1); ("NORMAL", 2)]; prim_targets := [] |}.

Definition perspectiveCamera : Camera :=
  {| cam_id := 20; cam_property := named "eye"; cam_type := "perspective";
     getZNear := 0.1%Q; getZFar := 100%Q; getYFov := 1%Q; getAspectRatio := 1.5%Q;
     getXMag := 1%Q; getYMag := 1%Q |}.

Definition nodeOf (id : nat) (name : string) (mesh camera : option nat)
    (children : list nat) : Node :=
  {| node_id := id; node_property := named name;
     getTranslation := [0%Q; 0%Q; 0%Q]; getRotation := [0%Q; 0%Q; 0%Q; 1%Q];
     getScale := [1%Q; 1%Q; 1%Q]; node_weights := [];
     node_mesh := mesh; node_camera := camera; node_skin := None;
     node_children := children |}.

(** A scene: a root node with a child that carries a mesh of one triangle and
    a camera; the mesh has indices and interleaved POSITION and NORMAL. *)
Definition sceneDocument : Document :=
  {| getRoot :=
       {| getAsset := assetDef;
          listBuffers :=
            [bufferOf "geometry"
               [ParentAccessor positionAccessor; ParentAccessor normalAccessor;
                ParentAccessor triangleIndices]];
          listTextures := [];
          listMaterials := [materialOf 1 "plain" None None None];
          listMeshes :=
            [{| mesh_id := 10; mesh_property := named "triangle";
                listPrimitives := [trianglePrimitive]; mesh_weights := [] |}];
          listCameras := [perspectiveCamera];
          listNodes := [nodeOf 30 "root" None None [31];
                        nodeOf 31 "leaf" (Some 10) (Some 20) []];
          listSkins := [];
          listAnimations := [];
          listScenes := [{| scene_property := named "main"; scene_nodes := [30] |}] |};
     getLinks := [linkOf AttributeLink (primitiveRef 1) (accessorRef 1);
                  linkOf AttributeLink (primitiveRef 1) (accessorRef 2);
                  linkOf IndexLink (primitiveRef 1) (accessorRef 3)] |}.

(** An animated node with a skin: the sampler reads its times and values from
    two accessors; the second channel names a sampler of another animation. *)
Definition animatedDocument : Document :=
  {| getRoot :=
       {| getAsset := assetDef;
          listBuffers :=
            [bufferOf "keyframes"
               [ParentAccessor positionAccessor; ParentAccessor normalAccessor]];
          listTextures := [];
          listMaterials := [];
          listMeshes := [];
          listCameras := [];
          listNodes := [nodeOf 30 "bone" None None []];
          listSkins :=
            [{| skin_id := 40; skin_property := named "rig";
                getInverseBindMatrices := Some 2; getSkeleton := Some 30;
                listJoints := [30] |}];
          listAnimations :=
            [{| anim_property := named "wave";
                listSamplers :=
                  [{| sampler_id := 50; sampler_property := named "";
                      getInput := Some 1; getOutput := Some 2;
                      getInterpolation := "LINEAR" |}];
                listChannels :=
                  [{| channel_property := named ""; getSampler := Some 50;
                      getTargetNode := Some 30; getTargetPath := "translation" |};
                   {| channel_property := named ""; getSampler := Some 51;
                      getTargetNode := None; getTargetPath := "scale" |}] |}];
          listScenes := [] |};
     getLinks :=
       [linkOf PlainLink {| ref_type := TAnimationSampler; ref_id := 50 |}
          (accessorRef 1);
        linkOf PlainLink {| ref_type := TAnimationSampler; ref_id := 50 |}
          (accessorRef 2);
        linkOf PlainLink {| ref_type := TSkin; ref_id := 40 |} (accessorRef 2)] |}.

(** Two buffers and two images, none with a URI of its own. *)
Definition filesDocument : Document :=
  {| getRoot := rootOf [bufferOf "first" [ParentAccessor triangleIndices];
                        bufferOf "second" [ParentAccessor quadIndices]]
                  [pngTexture 1 "wood" [137; 80; 78]%Z;
                   {| tex_id := 2; tex_property := named "stone";
                      tex_mimeType := "image/jpeg"; tex_image := [255; 216]%Z;
                      tex_uri := EmptyString |}] [];
     getLinks := [linkOf IndexLink (primitiveRef 1) (accessorRef 3);
                  linkOf IndexLink (primitiveRef 2) (accessorRef 4)] |}.

(** ** The post-processor pass *)

(** The values whose keys the pass is to delete: an empty array, [null] and
    the empty string. *)
Definition isStripped (value : json) : bool :=
  match value with
  | JArr [] => true
  | JNull => true
  | JStr s => bool_decide (s = EmptyString)
  | _ => false
  end.

(** [result] is the root object [root] after the pass: the members with
    such a value are gone, and every other member is there, in its place and
    with the value that it had. *)
Definition strippedOf (root result : object) : Prop :=
  result = filter (fun member => isStripped member.2 = false) root.

(** ** GLB mode *)

(** The buffers that a GLB keeps, and the bytes of each: the views of its
    accessors and, after them, every image. *)
Definition glbKept (doc : Document) : list Buffer :=
  keptBuffers (gatherAccessorLinks (getLinks doc))
    (tex_image <$> listTextures (getRoot doc)) (listBuffers (getRoot doc)).

Definition glbBytes (doc : Document) (b : Buffer) : list Z :=
  packedBytes (bufferGroups (gatherAccessorLinks (getLinks doc)) b)
    (tex_image <$> listTextures (getRoot doc)).

(** A GLB written without [embedded]: the definitions of the buffers that
    are kept, in order, have no [uri] and the length of the buffer's bytes;
    nothing is stored when no buffer is kept, and when one buffer is kept
    the sentinel holds its bytes and nothing else is stored. *)
Definition glbStored (doc : Document) (nd : NativeDocument) : Prop :=
  Forall2 (fun b def =>
             defField "uri" def = None
             /\ defField "byteLength" def = Some (JNat (length (glbBytes doc b))))
    (glbKept doc) (jarray "buffers" (json_of nd))
  /\ (glbKept doc = [] -> resources_of nd = ∅)
  /\ (forall b, glbKept doc = [b] ->
        resources_of nd = {[GLB_BUFFER := glbBytes doc b]}).

(** A GLB written with [embedded]: the definitions of the buffers that are
    kept, in order, carry the buffer's bytes in a base64 data URI, and
    nothing is stored. *)
Definition glbEmbedded (doc : Document) (nd : NativeDocument) : Prop :=
  Forall2 (fun b def =>
             defField "uri" def
             = Some (JStr (dataURIPrefix
                           +:+ BufferUtils.encodeBufferToBase64 (glbBytes doc b)))
             /\ defField "byteLength" def = Some (JNat (length (glbBytes doc b))))
    (glbKept doc) (jarray "buffers" (json_of nd))
  /\ resources_of nd = ∅.

(** With [isGLB] the writer returns for both values of [embedded], and
    honours the flag. *)
Definition embeddedHonoured (doc : Document) (basename : string) : Prop :=
  exists stored log embedded log',
    write doc (glbWith basename false) = Ok (stored, log)
    /\ write doc (glbWith basename true) = Ok (embedded, log')
    /\ glbStored doc stored
    /\ glbEmbedded doc embedded.

(** The claim that the sentinel of a GLB holds the bytes of buffer 0. *)
Definition sentinelHoldsFirst (doc : Document) (basename : string) : Prop :=
  forall nd log b rest,
    write doc (glbWith basename false) = Ok (nd, log) ->
    glbKept doc = b :: rest ->
    resources_of nd !! GLB_BUFFER = Some (glbBytes doc b).

(** ** The order of the arrays *)

(** The image definitions that the loop over the textures makes, from the
    texture whose buffer view would be [bufferView] on and with [counter]
    the counter of [imageURIGenerator]. *)
Fixpoint imageDefsFrom (options : WriterOptions) (multiple : bool)
    (bufferView counter : nat) (textures : list Texture) : list json :=
  match textures with
  | [] => []
  | texture :: rest =>
      let imageDef := createPropertyDef (tex_property texture) in
      let imageDef :=
        if truthy (tex_mimeType texture)
        then oset "mimeType" (JStr (tex_mimeType texture)) imageDef
        else imageDef in
      if embedsImages options then
        JObj (oset "bufferView" (JNat bufferView) imageDef)
        :: imageDefsFrom options multiple (S bufferView) counter rest
      else
        let r := createURI multiple (basename options) counter (tex_uri texture)
                   (imageExtension texture) in
        JObj (oset "uri" (JStr r.1) imageDef)
        :: imageDefsFrom options multiple bufferView r.2 rest
  end.

(** Every array of a written document is what the loop of the writer over
    the listing makes of it, element by element, with the tables of indices
    as they are when the loop runs. [accessors] and [bufferViews] are in
    packing order; in [bufferViews] the views of the embedded images come
    first. *)
Definition listingOrder (doc : Document) (options : WriterOptions)
    (nd : NativeDocument) : Prop :=
  let root := getRoot doc in
  let json := json_of nd in
  let accessorLinks := gatherAccessorLinks (getLinks doc) in
  let buffers := listBuffers root in
  let images := stageImages options root in
  let multiple := multipleBuffers root in
  let accessorTable := recordIds ∅ 0 (acc_id <$> packedAccessors accessorLinks buffers) in
  let materialTable := indexMap (mat_id <$> listMaterials root) in
  let meshTable := indexMap (mesh_id <$> listMeshes root) in
  let cameraTable := indexMap (cam_id <$> listCameras root) in
  let skinTable := indexMap (skin_id <$> listSkins root) in
  let nodeTable := indexMap (node_id <$> listNodes root) in
  emissionOrder doc options nd
  /\ jarray "images" json
     = imageDefsFrom options (bool_decide (1 < length (listTextures root))) 0 1
         (listTextures root)
  /\ (exists w1 w3,
        writeImages options root initialWriter = Ok (tt, w1)
        /\ writeMaterials root
             (buffersState options multiple accessorLinks buffers w1)
           = Ok (jarray "materials" json, w3))
  /\ Forall2 materialShows (listMaterials root) (jarray "materials" json)
  /\ jarray "meshes" json
     = writeMesh accessorTable materialTable <$> listMeshes root
  /\ jarray "cameras" json = writeCamera <$> listCameras root
  /\ jarray "nodes" json
     = (fun node => attachNode meshTable cameraTable skinTable nodeTable node
                      (writeNode node)) <$> listNodes root
  /\ jarray "skins" json = writeSkin accessorTable nodeTable <$> listSkins root
  /\ jarray "animations" json
     = writeAnimation accessorTable nodeTable <$> listAnimations root
  /\ jarray "scenes" json = writeScene nodeTable <$> listScenes root
  /\ jarray "buffers" json
     = emittedDef options multiple
       <$> emittedFrom options multiple accessorLinks images 1 buffers
  /\ Forall2 describes (packedAccessors accessorLinks buffers)
       (jarray "accessors" json)
  /\ (forall i texture,
        embedsImages options = true ->
        listTextures root !! i = Some texture ->
        exists byteOffset,
          jarray "bufferViews" json !! i
          = Some (placedImageView byteOffset texture))
  /\ exists placed,
       writtenTextures doc nd placed (recordIds ∅ 0 (tex_id <$> listTextures root)).

(** ** Shared samplers and textures *)

(** Samplers and textures are shared, and [json.samplers] and
    [json.textures] hold exactly one entry for each canonical key: besides
    what [sharedBy] says, every slot finds the key of its own sampler data at
    its sampler index, and at its texture index the texture definition of its
    own image and that sampler index. *)
Definition texturesShared (doc : Document) (nd : NativeDocument) : Prop :=
  let json := json_of nd in
  exists placed,
    sharedBy doc nd placed
    /\ Forall (fun p =>
         (canonicalKey <$> jarray "samplers" json) !! pl_sampler p
         = Some (samplerKeyOf (pl_slot p))
         /\ jarray "textures" json !! pl_texture p
            = Some (JObj (textureDefOf
                            (recordIds ∅ 0 (tex_id <$> listTextures (getRoot doc)))
                            (pl_sampler p) (pl_slot p))))
       placed.

(** * Properties *)

Local Set Warnings "-clear-no-such-hyp".

(** ** Objects *)

Lemma oget_oset_eq (key : string) (value : json) (o : object) :
  oget key (oset key value o) = Some value.
Proof.
  induction o as [|[k v] o IH]; simpl.
  - by rewrite decide_True.
  - destruct (decide (k = key)) as [->|Hne]; simpl.
    + by rewrite decide_True.
    + by rewrite decide_False.
Qed.

Lemma oget_oset_ne (key key' : string) (value : json) (o : object) :
  key ≠ key' -> oget key' (oset key value o) = oget key' o.
Proof.
  intros Hne. induction o as [|[k v] o IH]; simpl.
  - by rewrite decide_False.
  - destruct (decide (k = key)) as [->|Hk]; simpl.
    + by rewrite !decide_False.
    + destruct (decide (k = key')); [done | apply IH].
Qed.

Lemma oget_odelete_eq (key : string) (o : object) :
  oget key (odelete key o) = None.
Proof.
  induction o as [|[k v] o IH]; simpl; [done|].
  destruct (decide (k = key)); simpl; [done|].
  by rewrite decide_False.
Qed.

Lemma oget_odelete_ne (key key' : string) (o : object) :
  key ≠ key' -> oget key' (odelete key o) = oget key' o.
Proof.
  intros Hne. induction o as [|[k v] o IH]; simpl; [done|].
  destruct (decide (k = key)) as [->|Hk]; simpl.
  - by rewrite decide_False.
  - destruct (decide (k = key')); [done | apply IH].
Qed.

(** ** Loops *)

Lemma foldR_app {A B : Type} (body : B -> A -> result B) (acc : B) (l1 l2 : list A) :
  foldR body acc (l1 ++ l2) = acc' ← foldR body acc l1; foldR body acc' l2.
Proof.
  revert acc. induction l1 as [|x l1 IH]; intros acc; simpl; [done|].
  destruct (body acc x) as [acc'|e]; simpl; [apply IH | done].
Qed.

(** ** Bytes *)

Lemma padNumber_ge (v : nat) : v <= BufferUtils.padNumber v.
Proof.
  unfold BufferUtils.padNumber.
  pose proof (Nat.div_mod_eq (v + 3) 4) as H.
  pose proof (Nat.mod_upper_bound (v + 3) 4). lia.
Qed.

Lemma padNumber_multiple (v : nat) : exists k, BufferUtils.padNumber v = 4 * k.
Proof. exists ((v + 3) / 4). unfold BufferUtils.padNumber. lia. Qed.

Lemma length_pad (data : list Z) :
  length (BufferUtils.pad data) = BufferUtils.padNumber (length data).
Proof.
  unfold BufferUtils.pad. rewrite length_app, length_replicate.
  pose proof (padNumber_ge (length data)). lia.
Qed.

Lemma length_encodeLE (size : nat) (value : Z) : length (encodeLE size value) = size.
Proof. unfold encodeLE. by rewrite length_fmap, length_seq. Qed.

Lemma length_scalarBytes (t : ComponentType) (value : option Z) :
  length (scalarBytes t value) = componentSize t.
Proof.
  destruct value as [v|]; destruct t; apply length_encodeLE.
Qed.

Lemma lookup_slice (byteOffset n q : nat) (view : list Z) :
  slice byteOffset n view !! q = if decide (q < n) then view !! (byteOffset + q) else None.
Proof.
  unfold slice. destruct (decide (q < n)).
  - by rewrite lookup_take_lt, lookup_drop.
  - rewrite lookup_take_ge by lia. done.
Qed.

(** Two views that agree on a range have the same slice there. *)
Lemma slice_ext (byteOffset n : nat) (view view' : list Z) :
  (forall q, byteOffset <= q < byteOffset + n -> view' !! q = view !! q) ->
  slice byteOffset n view' = slice byteOffset n view.
Proof.
  intros H. apply list_eq. intros q. rewrite !lookup_slice.
  destruct (decide (q < n)); [apply H; lia | done].
Qed.

Lemma setBytes_spec (byteOffset : nat) (data view : list Z) :
  byteOffset + length data <= length view ->
  exists view',
    setBytes byteOffset data view = Ok view'
    /\ length view' = length view
    /\ slice byteOffset (length data) view' = data
    /\ (forall q, ~ (byteOffset <= q < byteOffset + length data) ->
                  view' !! q = view !! q).
Proof.
  intros Hle. unfold setBytes. rewrite decide_True by done.
  eexists. split; [done|]. split; [|split].
  - rewrite !length_app, length_take, length_drop. lia.
  - unfold slice. rewrite drop_app_length'; [| rewrite length_take; lia].
    by rewrite take_app_length.
  - intros q Hq. destruct (decide (q < byteOffset)).
    + rewrite lookup_app_l by (rewrite length_take; lia).
      by rewrite lookup_take_lt.
    + rewrite lookup_app_r by (rewrite length_take; lia).
      rewrite lookup_app_r by (rewrite length_take; lia).
      rewrite lookup_drop, length_take. f_equal. lia.
Qed.

(** ** The interleaving loops *)

Lemma elementSize_le_padded (a : Accessor) :
  getElementSize a * getComponentSize a <= paddedElementSize a.
Proof. apply padNumber_ge. Qed.

Lemma byteStrideOf_cons (a : Accessor) (accessors : list Accessor) :
  byteStrideOf (a :: accessors) = paddedElementSize a + byteStrideOf accessors.
Proof. done. Qed.

Lemma byteStrideOf_app (l1 l2 : list Accessor) :
  byteStrideOf (l1 ++ l2) = byteStrideOf l1 + byteStrideOf l2.
Proof. unfold byteStrideOf. by rewrite fmap_app, sum_list_with_app. Qed.

Lemma byteStrideOf_multiple (accessors : list Accessor) :
  exists k, byteStrideOf accessors = 4 * k.
Proof.
  induction accessors as [|a l [k IH]]; [by exists 0|].
  destruct (padNumber_multiple (getElementSize a * getComponentSize a)) as [k' Hk'].
  exists (k' + k). rewrite byteStrideOf_cons, IH. unfold paddedElementSize. lia.
Qed.

(** An accessor's slot lies inside the vertex. *)
Lemma localOffset_bound (accessors : list Accessor) (k : nat) (a : Accessor) :
  accessors !! k = Some a ->
  localOffset accessors k + paddedElementSize a <= byteStrideOf accessors.
Proof.
  intros Hk. unfold localOffset.
  rewrite <- (take_drop_middle accessors k a Hk) at 2.
  rewrite byteStrideOf_app, byteStrideOf_cons.
  lia.
Qed.

(** The loop over [j], cut after [n] components. *)
Lemma writeComponents_prefix (a : Accessor) (i byteStride v : nat) (view : list Z) (n : nat) :
  n <= getElementSize a ->
  i * byteStride + v + getElementSize a * getComponentSize a <= length view ->
  exists view',
    foldR (fun view j =>
             setBytes (i * byteStride + v + j * getComponentSize a)
               (scalarBytes (acc_componentType a)
                  (acc_array a !! (i * getElementSize a + j))) view)
          view (seq 0 n) = Ok view'
    /\ length view' = length view
    /\ (forall j, j < n ->
          slice (i * byteStride + v + j * getComponentSize a) (getComponentSize a) view'
          = scalarBytes (acc_componentType a) (acc_array a !! (i * getElementSize a + j)))
    /\ (forall q, ~ (i * byteStride + v <= q
                     < i * byteStride + v + n * getComponentSize a) ->
          view' !! q = view !! q).
Proof.
  intros Hn Hlen. induction n as [|n IH].
  - exists view. simpl. split; [done|]. split; [done|]. split; [intros; lia | done].
  - destruct IH as (view1 & Hrun & Hlen1 & Hslots & Hframe); [lia|].
    rewrite seq_S, foldR_app, Hrun. simpl.
    set (data := scalarBytes (acc_componentType a)
                   (acc_array a !! (i * getElementSize a + n))).
    assert (Hdata : length data = getComponentSize a) by apply length_scalarBytes.
    destruct (setBytes_spec (i * byteStride + v + n * getComponentSize a) data view1)
      as (view2 & Hset & Hlen2 & Hslot & Hframe2); [nia|].
    exists view2. rewrite Hset. split; [done|]. split; [lia|]. split.
    + intros j Hj. destruct (decide (j = n)) as [->|Hne].
      * rewrite Hdata in Hslot. exact Hslot.
      * rewrite <- Hslots by lia. apply slice_ext. intros q Hq.
        apply Hframe2. rewrite Hdata. nia.
    + intros q Hq. rewrite Hframe2 by (rewrite Hdata; nia). apply Hframe. nia.
Qed.

Lemma writeComponents_spec (a : Accessor) (i byteStride v : nat) (view : list Z) :
  i * byteStride + v + getElementSize a * getComponentSize a <= length view ->
  exists view',
    writeComponents a i byteStride v view = Ok view'
    /\ length view' = length view
    /\ (forall j, j < getElementSize a ->
          slice (i * byteStride + v + j * getComponentSize a) (getComponentSize a) view'
          = scalarBytes (acc_componentType a) (acc_array a !! (i * getElementSize a + j)))
    /\ (forall q, ~ (i * byteStride + v <= q
                     < i * byteStride + v + getElementSize a * getComponentSize a) ->
          view' !! q = view !! q).
Proof. intros H. by apply writeComponents_prefix. Qed.

(** The loop over the accessors, started at any offset inside the vertex. *)
Lemma writeVertex_from (accessors : list Accessor) (i byteStride : nat) :
  forall (view : list Z) (v : nat),
    i * byteStride + v + byteStrideOf accessors <= length view ->
    exists view',
      foldR (fun (st : list Z * nat) accessor =>
               view' ← writeComponents accessor i byteStride st.2 st.1;
               Ok (view', st.2 + paddedElementSize accessor))
            (view, v) accessors = Ok (view', v + byteStrideOf accessors)
      /\ length view' = length view
      /\ (forall k a j, accessors !! k = Some a -> j < getElementSize a ->
            slice (i * byteStride + v + localOffset accessors k + j * getComponentSize a)
                  (getComponentSize a) view'
            = scalarBytes (acc_componentType a) (acc_array a !! (i * getElementSize a + j)))
      /\ (forall q, ~ (i * byteStride + v <= q
                       < i * byteStride + v + byteStrideOf accessors) ->
            view' !! q = view !! q).
Proof.
  induction accessors as [|a l IH]; intros view v Hlen.
  - exists view. simpl. rewrite Nat.add_0_r.
    split; [done|]. split; [done|]. split; [|done].
    intros k a j Hk. by rewrite lookup_nil in Hk.
  - rewrite byteStrideOf_cons in Hlen.
    pose proof (elementSize_le_padded a) as Hpad.
    destruct (writeComponents_spec a i byteStride v view)
      as (view1 & Hrun & Hlen1 & Hslots & Hframe); [lia|].
    destruct (IH view1 (v + paddedElementSize a))
      as (view2 & Hrest & Hlen2 & Hslots2 & Hframe2); [lia|].
    exists view2. simpl. rewrite Hrun. simpl. rewrite Hrest.
    rewrite byteStrideOf_cons. split; [f_equal; f_equal; lia|].
    split; [lia|]. split.
    + intros k b j Hk Hj. destruct k as [|k]; simpl in Hk.
      * injection Hk as <-. unfold localOffset. simpl.
        change (byteStrideOf []) with 0.
        rewrite Nat.add_0_r, <- Hslots by done.
        apply slice_ext. intros q Hq. apply Hframe2. nia.
      * unfold localOffset. simpl. rewrite byteStrideOf_cons.
        rewrite <- (Hslots2 k b j Hk Hj). unfold localOffset. f_equal. lia.
    + intros q Hq. rewrite Hframe2 by lia. apply Hframe. lia.
Qed.

Lemma writeVertex_spec (accessors : list Accessor) (i : nat) (view : list Z) :
  (i + 1) * byteStrideOf accessors <= length view ->
  exists view',
    writeVertex accessors i (byteStrideOf accessors) view
      = Ok (view', byteStrideOf accessors)
    /\ length view' = length view
    /\ (forall k a j, accessors !! k = Some a -> j < getElementSize a ->
          slice (i * byteStrideOf accessors + localOffset accessors k
                 + j * getComponentSize a) (getComponentSize a) view'
          = scalarBytes (acc_componentType a) (acc_array a !! (i * getElementSize a + j)))
    /\ (forall q, ~ (i * byteStrideOf accessors <= q < (i + 1) * byteStrideOf accessors) ->
          view' !! q = view !! q).
Proof.
  intros Hlen.
  destruct (writeVertex_from accessors i (byteStrideOf accessors) view 0)
    as (view' & Hrun & Hlen' & Hslots & Hframe); [lia|].
  exists view'. unfold writeVertex. rewrite Hrun. split; [done|]. split; [done|].
  split.
  - intros k a j Hk Hj. rewrite <- (Hslots k a j Hk Hj). f_equal. lia.
  - intros q Hq. apply Hframe. lia.
Qed.

(** The loop over [i], cut after [n] vertices. *)
Lemma interleave_prefix (accessors : list Accessor) (view : list Z) (n : nat) :
  n * byteStrideOf accessors <= length view ->
  exists view',
    foldR (fun view i =>
             r ← writeVertex accessors i (byteStrideOf accessors) view; Ok r.1)
          view (seq 0 n) = Ok view'
    /\ length view' = length view
    /\ (forall i k a j, i < n -> accessors !! k = Some a -> j < getElementSize a ->
          slice (i * byteStrideOf accessors + localOffset accessors k
                 + j * getComponentSize a) (getComponentSize a) view'
          = scalarBytes (acc_componentType a) (acc_array a !! (i * getElementSize a + j))).
Proof.
  intros Hlen. induction n as [|n IH].
  - exists view. simpl. split; [done|]. split; [done|]. intros; lia.
  - destruct IH as (view1 & Hrun & Hlen1 & Hslots); [lia|].
    destruct (writeVertex_spec accessors n view1)
      as (view2 & Hv & Hlen2 & Hslots2 & Hframe); [lia|].
    exists view2. rewrite seq_S, foldR_app, Hrun. simpl. rewrite Hv. simpl.
    split; [done|]. split; [lia|].
    intros i k a j Hi Hk Hj. destruct (decide (i = n)) as [->|Hne].
    + by apply Hslots2.
    + rewrite <- (Hslots i k a j) by (done || lia).
      apply slice_ext. intros q Hq. apply Hframe.
      pose proof (localOffset_bound accessors k a Hk).
      pose proof (elementSize_le_padded a). nia.
Qed.

Lemma interleave_spec (accessors : list Accessor) (vertexCount : nat) :
  exists buffer,
    interleave accessors vertexCount (byteStrideOf accessors) = Ok buffer
    /\ length buffer = vertexCount * byteStrideOf accessors
    /\ (forall i k a j,
          i < vertexCount -> accessors !! k = Some a -> j < getElementSize a ->
          slice (i * byteStrideOf accessors + localOffset accessors k
                 + j * getComponentSize a) (getComponentSize a) buffer
          = scalarBytes (acc_componentType a) (acc_array a !! (i * getElementSize a + j))).
Proof.
  destruct (interleave_prefix accessors
              (replicate (vertexCount * byteStrideOf accessors) 0%Z) vertexCount)
    as (buffer & Hrun & Hlen & Hslots); [by rewrite length_replicate|].
  exists buffer. unfold interleave. rewrite Hrun. split; [done|].
  rewrite Hlen, length_replicate. done.
Qed.

(** ** Little-endian bytes *)

Lemma encodeLE_S (n : nat) (v : Z) :
  encodeLE (S n) v = Z.land v 255 :: encodeLE n (Z.shiftr v 8).
Proof.
  unfold encodeLE. cbn [seq fmap list_fmap]. f_equal.
  rewrite <- fmap_S_seq, <- list_fmap_compose. apply list_fmap_ext.
  intros _ k _. cbn [compose]. rewrite Z.shiftr_shiftr by lia.
  do 2 f_equal. lia.
Qed.

Lemma littleEndian_encodeLE (n : nat) (v : Z) :
  littleEndian (encodeLE n v) = (v mod 2 ^ (8 * Z.of_nat n))%Z.
Proof.
  revert v. induction n as [|n IH]; intros v.
  - cbn. by rewrite Z.mod_1_r.
  - rewrite encodeLE_S. cbn [littleEndian]. rewrite IH.
    change 255%Z with (Z.ones 8). rewrite Z.land_ones by lia.
    rewrite Z.shiftr_div_pow2 by lia.
    replace (8 * Z.of_nat (S n))%Z with (8 + 8 * Z.of_nat n)%Z by lia.
    rewrite Z.pow_add_r by lia.
    rewrite Z.rem_mul_r by lia. reflexivity.
Qed.

Lemma encodeLE_bytes (n : nat) (v : Z) :
  Forall (fun b => (0 <= b < 256)%Z) (encodeLE n v).
Proof.
  unfold encodeLE. apply Forall_fmap, Forall_forall. intros k _. cbn.
  change 255%Z with (Z.ones 8). rewrite Z.land_ones by lia.
  apply Z.mod_pos_bound. lia.
Qed.

(** A NaN made quiet is a NaN. *)
Lemma isNaN32_quiet (v : Z) :
  isNaN32 v = true -> isNaN32 (Z.lor v 4194304 mod 2 ^ 32)%Z = true.
Proof.
  unfold isNaN32. intros H. apply andb_true_iff in H as [He _].
  apply bool_decide_eq_true in He.
  apply andb_true_iff. split.
  - apply bool_decide_eq_true. etrans; [|exact He].
    apply Z.bits_inj'. intros i Hi.
    rewrite !Z.land_spec, !Z.shiftr_spec by lia.
    destruct (decide (i < 8)%Z) as [Hlt|Hge].
    + rewrite Z.mod_pow2_bits_low by lia. rewrite Z.lor_spec.
      change 4194304%Z with (2 ^ 22)%Z. rewrite Z.pow2_bits_eqb by lia.
      destruct (Z.eqb_spec 22 (i + 23)); [lia|]. by rewrite orb_false_r.
    + change 255%Z with (Z.ones 8). rewrite Z.ones_spec_high by lia.
      by rewrite !andb_false_r.
  - apply negb_true_iff, bool_decide_eq_false. intros H0.
    assert (Hbit : Z.testbit (Z.land (Z.lor v 4194304 mod 2 ^ 32) 8388607) 22
                   = true).
    { rewrite Z.land_spec, Z.mod_pow2_bits_low, Z.lor_spec by lia.
      change (Z.testbit 4194304 22) with true.
      change (Z.testbit 8388607 22) with true.
      by rewrite orb_true_r. }
    rewrite H0 in Hbit. by rewrite Z.bits_0 in Hbit.
Qed.

(** The setters write little-endian. *)
Lemma scalarBytes_littleEndian (t : ComponentType) (value : option Z) :
  storesLittleEndian t value (scalarBytes t value).
Proof.
  split; [apply length_scalarBytes|].
  split.
  - destruct value as [v|]; destruct t; apply encodeLE_bytes.
  - destruct value as [v|]; destruct t; cbn [scalarBytes];
      rewrite ?littleEndian_encodeLE; try reflexivity.
    unfold float32Store. destruct (isNaN32 v) eqn:Hnan; [|reflexivity].
    by apply isNaN32_quiet.
Qed.

(** ** The packers *)

Lemma packState_packState (A A' V V' : list json) (m m' : gmap nat nat) (w : Writer) :
  packState A' V' m' (packState A V m w) = packState A' V' m' w.
Proof. done. Qed.

Lemma packState_id (w : Writer) :
  packState (w_accessors w) (w_bufferViews w) (accessorIndexMap w) w = w.
Proof. by destruct w. Qed.

Lemma concatLength_cons (a : Accessor) (l : list Accessor) :
  concatLength (a :: l) = length (paddedArray a) + concatLength l.
Proof. done. Qed.

Lemma foldM_cons {A B : Type} (body : B -> A -> M B) (acc : B) (x : A) (l : list A)
    (w : Writer) :
  foldM body acc (x :: l) w
  = match body acc x w with
    | Ok (acc', w') => foldM body acc' l w'
    | Throw e => Throw e
    end.
Proof. done. Qed.

Lemma foldM_nil {A B : Type} (body : B -> A -> M B) (acc : B) (w : Writer) :
  foldM body acc [] w = Ok (acc, w).
Proof. done. Qed.

Lemma foldM_app {A B : Type} (body : B -> A -> M B) (l1 l2 : list A) :
  forall (acc : B) (w : Writer),
    foldM body acc (l1 ++ l2) w
    = match foldM body acc l1 w with
      | Ok (acc', w') => foldM body acc' l2 w'
      | Throw e => Throw e
      end.
Proof.
  induction l1 as [|x l1 IH]; intros acc w; [done|].
  rewrite <- app_comm_cons, !foldM_cons.
  destruct (body acc x w) as [[acc' w']|e]; [apply IH | done].
Qed.

Lemma bind_run {A B : Type} (m : M A) (k : A -> M B) (w : Writer) :
  (m ≫= k) w
  = match m w with
    | Ok (a, w') => k a w'
    | Throw e => Throw e
    end.
Proof. done. Qed.

Lemma concatStep_run (acc : list (list Z) * nat) (a : Accessor) (w : Writer) :
  concatStep acc a w
  = Ok ((acc.1 ++ [paddedArray a], acc.2 + length (paddedArray a)),
        packState
          (w_accessors w
           ++ [JObj (oset "byteOffset" (JNat acc.2)
                       (oset "bufferView" (JNat (length (w_bufferViews w)))
                          (createAccessorDef a)))])
          (w_bufferViews w)
          (<[acc_id a := length (w_accessors w)]> (accessorIndexMap w)) w).
Proof. done. Qed.

Lemma concat_loop (accessors : list Accessor) :
  forall (buffers : list (list Z)) (byteLength : nat) (w : Writer),
  exists table,
    foldM concatStep (buffers, byteLength) accessors w
    = Ok ((buffers ++ (paddedArray <$> accessors), byteLength + concatLength accessors),
          packState
            (w_accessors w ++ concatDefs (length (w_bufferViews w)) byteLength accessors)
            (w_bufferViews w) table w).
Proof.
  induction accessors as [|a l IH]; intros buffers byteLength w.
  - exists (accessorIndexMap w). rewrite foldM_nil. simpl.
    rewrite !app_nil_r, packState_id. f_equal. f_equal. f_equal.
    unfold concatLength. simpl. lia.
  - rewrite foldM_cons, concatStep_run.
    match goal with |- context [foldM _ (?b, ?n) l ?w1] =>
      destruct (IH b n w1) as [table Htable] end.
    exists table. rewrite Htable, packState_packState. simpl.
    rewrite concatLength_cons, <- !app_assoc. simpl.
    f_equal. f_equal. f_equal. lia.
Qed.

Lemma length_concat_padded (accessors : list Accessor) :
  length (BufferUtils.concat (paddedArray <$> accessors)) = concatLength accessors.
Proof.
  unfold BufferUtils.concat, concatLength. rewrite length_join.
  by rewrite <- list_fmap_compose.
Qed.

Lemma concatAccessors_run (accessors : list Accessor) (bufferIndex byteOffset : nat)
    (target : option Z) (w : Writer) :
  exists table,
    concatAccessors accessors bufferIndex byteOffset target w
    = Ok ({| res_byteLength := concatLength accessors;
             res_buffers := paddedArray <$> accessors |},
          packState
            (w_accessors w ++ concatDefs (length (w_bufferViews w)) 0 accessors)
            (w_bufferViews w
             ++ [JObj (groupView bufferIndex byteOffset (ConcatGroup accessors target))])
            table w).
Proof.
  destruct (concat_loop accessors [] 0 w) as [table Htable].
  exists table. unfold concatAccessors. rewrite bind_run, Htable.
  cbn [fst snd]. rewrite app_nil_l, length_concat_padded. done.
Qed.

Lemma strideStep_run (byteStride : nat) (a : Accessor) (w : Writer) :
  strideStep byteStride a w
  = Ok (byteStride + paddedElementSize a,
        packState
          (w_accessors w
           ++ [JObj (oset "byteOffset" (JNat byteStride)
                       (oset "bufferView" (JNat (length (w_bufferViews w)))
                          (createAccessorDef a)))])
          (w_bufferViews w)
          (<[acc_id a := length (w_accessors w)]> (accessorIndexMap w)) w).
Proof. done. Qed.

Lemma stride_loop (accessors : list Accessor) :
  forall (byteStride : nat) (w : Writer),
  exists table,
    foldM strideStep byteStride accessors w
    = Ok (byteStride + byteStrideOf accessors,
          packState
            (w_accessors w
             ++ interleaveDefs (length (w_bufferViews w)) byteStride accessors)
            (w_bufferViews w) table w).
Proof.
  induction accessors as [|a l IH]; intros byteStride w.
  - exists (accessorIndexMap w). rewrite foldM_nil. simpl.
    rewrite app_nil_r, packState_id. f_equal. f_equal.
    unfold byteStrideOf. simpl. lia.
  - rewrite foldM_cons, strideStep_run.
    match goal with |- context [foldM _ ?n l ?w1] =>
      destruct (IH n w1) as [table Htable] end.
    exists table. rewrite Htable, packState_packState. simpl.
    rewrite byteStrideOf_cons, <- !app_assoc. simpl.
    f_equal. f_equal. lia.
Qed.

Lemma interleaveAccessors_run (accessors : list Accessor) (bufferIndex byteOffset : nat)
    (w : Writer) :
  accessors ≠ [] ->
  exists table buffer,
    interleave accessors (vertexCountOf accessors) (byteStrideOf accessors) = Ok buffer
    /\ interleaveAccessors accessors bufferIndex byteOffset w
       = Ok ({| res_byteLength := vertexCountOf accessors * byteStrideOf accessors;
                res_buffers := [buffer] |},
             packState
               (w_accessors w
                ++ interleaveDefs (length (w_bufferViews w)) 0 accessors)
               (w_bufferViews w
                ++ [JObj (groupView bufferIndex byteOffset (InterleaveGroup accessors))])
               table w).
Proof.
  intros Hne. destruct accessors as [|first l]; [done|].
  destruct (stride_loop (first :: l) 0 w) as [table Htable].
  destruct (interleave_spec (first :: l) (acc_count first)) as (buffer & Hbuf & _).
  exists table, buffer. split; [exact Hbuf|].
  unfold interleaveAccessors. rewrite bind_run, Htable.
  rewrite Nat.add_0_l, bind_run. unfold liftResult. rewrite Hbuf. done.
Qed.

(** ** Plans *)

Lemma planLength_app (gs1 gs2 : list Group) :
  planLength (gs1 ++ gs2) = planLength gs1 + planLength gs2.
Proof. unfold planLength. by rewrite fmap_app, sum_list_with_app. Qed.

Lemma planViews_app (bufferIndex : nat) (gs1 gs2 : list Group) :
  forall byteOffset,
    planViews bufferIndex byteOffset (gs1 ++ gs2)
    = planViews bufferIndex byteOffset gs1
      ++ planViews bufferIndex (byteOffset + planLength gs1) gs2.
Proof.
  induction gs1 as [|g gs1 IH]; intros byteOffset; simpl.
  - by rewrite Nat.add_0_r.
  - rewrite IH. unfold planLength. simpl. by rewrite Nat.add_assoc.
Qed.

Lemma planDefs_app (gs1 gs2 : list Group) :
  forall bufferView,
    planDefs bufferView (gs1 ++ gs2)
    = planDefs bufferView gs1 ++ planDefs (bufferView + length gs1) gs2.
Proof.
  induction gs1 as [|g gs1 IH]; intros bufferView; simpl.
  - by rewrite Nat.add_0_r.
  - rewrite IH, <- app_assoc. do 3 f_equal. lia.
Qed.

Lemma length_planViews (bufferIndex : nat) (gs : list Group) :
  forall byteOffset, length (planViews bufferIndex byteOffset gs) = length gs.
Proof. induction gs as [|g gs IH]; intros; simpl; [done | by rewrite IH]. Qed.

Lemma packedAfter_nil (bufferIndex : nat) (p : Packed) (w : Writer) :
  packedAfter bufferIndex [] p w (Ok (p, w)).
Proof.
  exists (accessorIndexMap w), []. split; [|done].
  simpl. rewrite !app_nil_r, packState_id. unfold planLength. simpl.
  rewrite Nat.add_0_r. by destruct p.
Qed.

Lemma packedAfter_concat (bufferIndex : nat) (l : list Accessor) (target : option Z)
    (p : Packed) (w : Writer) :
  packedAfter bufferIndex [ConcatGroup l target] p w
    ((r ← concatAccessors l bufferIndex (bufferByteLength p) target;
      mret (addResult p r)) w).
Proof.
  destruct (concatAccessors_run l bufferIndex (bufferByteLength p) target w)
    as [table Hrun].
  exists table, (paddedArray <$> l). rewrite bind_run, Hrun. split.
  - unfold mret, M_ret, addResult, planLength. simpl.
    rewrite !app_nil_r, Nat.add_0_r. done.
  - unfold planLength. simpl. rewrite Nat.add_0_r. apply length_concat_padded.
Qed.

Lemma packedAfter_interleave (bufferIndex : nat) (l : list Accessor)
    (p : Packed) (w : Writer) :
  l ≠ [] ->
  packedAfter bufferIndex [InterleaveGroup l] p w
    ((r ← interleaveAccessors l bufferIndex (bufferByteLength p);
      mret (addResult p r)) w).
Proof.
  intros Hne.
  destruct (interleaveAccessors_run l bufferIndex (bufferByteLength p) w Hne)
    as (table & buffer & Hbuf & Hrun).
  exists table, [buffer]. rewrite bind_run, Hrun. split.
  - unfold mret, M_ret, addResult, planLength. simpl.
    rewrite !app_nil_r, Nat.add_0_r. done.
  - unfold planLength. simpl. rewrite app_nil_r, Nat.add_0_r.
    destruct (interleave_spec l (vertexCountOf l)) as (buffer' & Hbuf' & Hlen & _).
    congruence.
Qed.

(** Packing [gs1], then [gs2] from where [gs1] ended. *)
Lemma packedAfter_app (bufferIndex : nat) (gs1 gs2 : list Group) (p p1 : Packed)
    (w w1 : Writer) (r : result (Packed * Writer)) :
  packedAfter bufferIndex gs1 p w (Ok (p1, w1)) ->
  packedAfter bufferIndex gs2 p1 w1 r ->
  packedAfter bufferIndex (gs1 ++ gs2) p w r.
Proof.
  intros (table1 & seg1 & Heq1 & Hlen1) (table2 & seg2 & -> & Hlen2).
  injection Heq1 as -> ->.
  exists table2, (seg1 ++ seg2). split.
  - rewrite packState_packState. simpl.
    rewrite planLength_app, planViews_app, planDefs_app, length_app, length_planViews.
    rewrite <- !app_assoc, Nat.add_assoc. done.
  - rewrite join_app, length_app, planLength_app. lia.
Qed.

Lemma packPrimitives_run (bufferIndex : nat) (entries : list (Ref * list Accessor)) :
  forall (p : Packed) (w : Writer),
    packedAfter bufferIndex (primitiveGroups entries) p w
      (foldM (packPrimitive bufferIndex) p entries w).
Proof.
  induction entries as [|entry entries IH]; intros p w.
  - rewrite foldM_nil. apply packedAfter_nil.
  - rewrite foldM_cons. unfold primitiveGroups. simpl.
    unfold packPrimitive at 1. destruct (entry.2) as [|a l] eqn:Hentry.
    + apply IH.
    + pose proof (packedAfter_interleave bufferIndex (a :: l) p w) as Hstep.
      destruct Hstep as (table & seg & Hrun & Hlen); [done|].
      rewrite Hrun.
      eapply (packedAfter_app bufferIndex [InterleaveGroup (a :: l)]).
      * exists table, seg. split; [reflexivity | done].
      * apply IH.
Qed.

(** ** Image placement *)

Lemma placeImage_run (i bufferByteLength : nat) (w : Writer) :
  imagesPlaced w -> i < length (imageData w) ->
  exists view,
    w_bufferViews w !! i = Some (JObj view)
    /\ placeImage i bufferByteLength w
       = Ok (tt, set_w_bufferViews
                   (<[i := JObj (oset "byteOffset" (JNat bufferByteLength) view)]>
                      (w_bufferViews w)) w).
Proof.
  intros Hplaced Hi. destruct (Hplaced i Hi) as (imageDef & view & Himg & Hbv & Hview).
  exists view. split; [done|].
  unfold placeImage. rewrite bind_run. unfold gets at 1. rewrite Himg, Hbv.
  unfold JNat. rewrite bind_run. unfold gets.
  rewrite decide_True by lia. rewrite Nat2Z.id, Hview. done.
Qed.

Lemma appendImages_run (rest : list (list Z)) :
  forall (i : nat) (p : Packed) (w : Writer),
    imagesPlaced w -> i + length rest <= length (imageData w) ->
    exists views',
      foldM appendImage (i, p) rest w
      = Ok ((i + length rest,
             {| bufferByteLength := bufferByteLength p + sum_list (length <$> rest);
                packedBuffers := packedBuffers p ++ rest |}),
            set_w_bufferViews views' w)
      /\ imagesRewritten (length (imageData w)) (w_bufferViews w) views'.
Proof.
  induction rest as [|data rest IH]; intros i p w Hplaced Hi.
  - exists (w_bufferViews w). rewrite foldM_nil. simpl. split.
    + rewrite !Nat.add_0_r, app_nil_r. destruct p, w; done.
    + split; [done|]. split; [done|]. intros q Hq.
      destruct (Hplaced q Hq) as (? & view & _ & _ & Hview). eauto.
  - simpl in Hi. rewrite foldM_cons. unfold appendImage at 1. rewrite bind_run.
    cbn [fst snd].
    destruct (placeImage_run i (bufferByteLength p) w Hplaced) as (view & Hview & Hrun);
      [lia|].
    rewrite Hrun. unfold mret, M_ret.
    set (w1 := set_w_bufferViews _ w).
    assert (Hplaced1 : imagesPlaced w1).
    { intros q Hq. destruct (Hplaced q Hq) as (imageDef & v & Himg & Hbv & Hv).
      exists imageDef. destruct (decide (q = i)) as [->|Hne].
      - exists (oset "byteOffset" (JNat (bufferByteLength p)) view).
        split; [done|]. split; [done|]. subst w1. simpl.
        apply list_lookup_insert_eq. by apply lookup_lt_Some in Hv.
      - exists v. split; [done|]. split; [done|]. subst w1. simpl.
        by rewrite list_lookup_insert_ne. }
    destruct (IH (S i) {| bufferByteLength := bufferByteLength p + length data;
                          packedBuffers := packedBuffers p ++ [data] |} w1 Hplaced1)
      as (views' & Hrest & Hlen & Hout & Hin); [subst w1; simpl; lia|].
    exists views'. split.
    + rewrite Hrest. subst w1. simpl. rewrite <- app_assoc. simpl.
      replace (i + S (length rest)) with (S (i + length rest)) by lia.
      rewrite <- Nat.add_assoc. done.
    + subst w1. simpl in *. split; [by rewrite Hlen, length_insert|].
      split; [|done]. intros q Hq. rewrite Hout by done.
      apply list_lookup_insert_ne. lia.
Qed.

Lemma imagesRewritten_drop (n : nat) (views views' : list json) :
  imagesRewritten n views views' -> drop n views' = drop n views.
Proof.
  intros (Hlen & Hout & _). apply list_eq. intros q.
  rewrite !lookup_drop. apply Hout. lia.
Qed.

(** ** Packing one buffer *)

Lemma groupsOf_unfold (groups : Partition) :
  groupsOf groups
  = (match indexAccessors groups with
     | [] => []
     | l => [ConcatGroup l (Some BufferViewTarget.ELEMENT_ARRAY_BUFFER)]
     end)
    ++ primitiveGroups (attributeAccessors groups)
    ++ (match otherAccessors groups with
        | [] => []
        | l => [ConcatGroup l None]
        end).
Proof. done. Qed.

(** The accessor groups of a buffer are packed as planned. *)
Lemma packGroups_run (groups : Partition) (bufferIndex : nat) (w : Writer) :
  let p0 := {| bufferByteLength := 0; packedBuffers := [] |} in
  packedAfter bufferIndex (groupsOf groups) p0 w (packGroups groups bufferIndex w).
Proof.
  intros p0. rewrite groupsOf_unfold. unfold packGroups. fold p0.
  assert (H1 : packedAfter bufferIndex
                 (match indexAccessors groups with
                  | [] => []
                  | l => [ConcatGroup l (Some BufferViewTarget.ELEMENT_ARRAY_BUFFER)]
                  end) p0 w
                 ((match indexAccessors groups with
                   | [] => mret p0
                   | _ =>
                       indexResult ← concatAccessors (indexAccessors groups) bufferIndex
                                       (bufferByteLength p0)
                                       (Some BufferViewTarget.ELEMENT_ARRAY_BUFFER);
                       mret (addResult p0 indexResult)
                   end) w)).
  { destruct (indexAccessors groups) as [|a l] eqn:Hidx.
    - apply packedAfter_nil.
    - apply packedAfter_concat. }
  rewrite bind_run.
  destruct H1 as (table1 & seg1 & Hrun1 & Hlen1). rewrite Hrun1.
  eapply packedAfter_app; [exists table1, seg1; split; [reflexivity | done]|].
  rewrite bind_run.
  match goal with |- context [foldM _ ?p1 _ ?w1] =>
    pose proof (packPrimitives_run bufferIndex (attributeAccessors groups) p1 w1) as H2
  end.
  destruct H2 as (table2 & seg2 & Hrun2 & Hlen2). rewrite Hrun2.
  eapply packedAfter_app; [exists table2, seg2; split; [reflexivity | done]|].
  destruct (otherAccessors groups) as [|a l] eqn:Hother.
  - apply packedAfter_nil.
  - apply packedAfter_concat.
Qed.

Lemma packBuffer_run (groups : Partition) (bufferIndex : nat) (w : Writer) :
  imagesPlaced w ->
  exists views' table segments,
    packBuffer groups bufferIndex w
    = Ok ({| bufferByteLength :=
               planLength (groupsOf groups) + sum_list (length <$> imageData w);
             packedBuffers := segments |},
          packState
            (w_accessors w ++ planDefs (length (w_bufferViews w)) (groupsOf groups))
            views' table w)
    /\ length (mjoin segments)
       = planLength (groupsOf groups) + sum_list (length <$> imageData w)
    /\ imagesRewritten (length (imageData w))
         (w_bufferViews w ++ planViews bufferIndex 0 (groupsOf groups)) views'.
Proof.
  intros Hplaced.
  destruct (packGroups_run groups bufferIndex w) as (table & seg & Hrun & Hlen).
  unfold packBuffer. rewrite bind_run, Hrun, bind_run. unfold gets at 1.
  rewrite bind_run. cbn [imageData packState set_w_bufferViews set_w_accessors
                           set_accessorIndexMap].
  set (w1 := packState _ _ table w).
  assert (Hplaced1 : imagesPlaced w1).
  { intros q Hq. destruct (Hplaced q Hq) as (imageDef & view & Himg & Hbv & Hview).
    exists imageDef, view. split; [done|]. split; [done|]. subst w1. simpl.
    rewrite lookup_app_l; [done | by apply lookup_lt_Some in Hview]. }
  match goal with |- context [foldM appendImage (0, ?p1) _ _] =>
    destruct (appendImages_run (imageData w) 0 p1 w1 Hplaced1) as (views' & Hloop & Hrew)
  end; [subst w1; simpl; lia|].
  exists views', table, (seg ++ imageData w).
  change (imageData w1) with (imageData w) in *.
  rewrite Hloop. unfold mret, M_ret. cbn [fst snd]. split; [|split].
  - subst w1. simpl. done.
  - rewrite join_app, length_app, Hlen, length_join. done.
  - exact Hrew.
Qed.

(** ** Writing one buffer *)

Lemma emitBuffer_run (options : WriterOptions) (multiple : bool) (buffer : Buffer)
    (p : Packed) (w : Writer) :
  length (BufferUtils.concat (packedBuffers p)) = bufferByteLength p ->
  let e := {| em_buffer := buffer; em_counter := bufferURICounter w;
              em_data := BufferUtils.concat (packedBuffers p) |} in
  emitBuffer options multiple buffer (createPropertyDef (buf_property buffer)) p w
  = Ok (tt,
        set_w_buffers (w_buffers w ++ [emittedDef options multiple e])
          (set_w_resources (storeEmitted options multiple (w_resources w) [e])
             (set_bufferURICounter
                (bufferURI options multiple (bufferURICounter w) buffer).2 w))).
Proof.
  intros Hlen e. unfold emitBuffer, emittedDef, emittedBufferDef, storeEmitted, bufferURI.
  subst e. cbn [em_buffer em_counter em_data]. rewrite Hlen.
  destruct w. destruct (isGLB options), (embedded options); reflexivity.
Qed.

Lemma sameTextures_refl (w : Writer) : sameTextures w w.
Proof. by repeat split. Qed.

Lemma imagesRewritten_placed (w w' : Writer) (extra : list json) :
  imagesPlaced w ->
  w_images w' = w_images w ->
  imageData w' = imageData w ->
  imagesRewritten (length (imageData w)) (w_bufferViews w ++ extra) (w_bufferViews w') ->
  imagesPlaced w'.
Proof.
  intros Hplaced Himg Hdata (_ & _ & Hin) q Hq. rewrite Hdata in Hq.
  destruct (Hplaced q Hq) as (imageDef & view & Hdef & Hbv & _).
  destruct (Hin q Hq) as [view' Hview'].
  exists imageDef, view'. by rewrite Himg.
Qed.

Lemma bufferGroups_ok (accessorLinks : gmap nat (list Link)) (buffer : Buffer)
    (groups : Partition) :
  partitionAccessors accessorLinks buffer = Ok groups ->
  bufferGroups accessorLinks buffer = groupsOf groups.
Proof. intros H. unfold bufferGroups. by rewrite H. Qed.

Lemma writeBuffer_run (options : WriterOptions) (multiple : bool)
    (accessorLinks : gmap nat (list Link)) (buffer : Buffer) (groups : Partition)
    (w : Writer) :
  partitionAccessors accessorLinks buffer = Ok groups ->
  imagesPlaced w ->
  exists w',
    writeBuffer options multiple accessorLinks buffer w = Ok (tt, w')
    /\ buffersWritten options multiple accessorLinks [buffer] w w'
    /\ imagesPlaced w'.
Proof.
  intros Hpart Hplaced.
  destruct (packBuffer_run groups (length (w_buffers w)) w Hplaced)
    as (views' & table & segments & Hpack & Hlen & Hrew).
  unfold writeBuffer. rewrite bind_run. unfold liftResult at 1. rewrite Hpart.
  rewrite bind_run. unfold gets at 1. rewrite bind_run, Hpack.
  cbn [bufferByteLength].
  set (w1 := packState _ views' table w) in *.
  assert (Hgroups := bufferGroups_ok _ _ _ Hpart).
  destruct (decide (planLength (groupsOf groups)
                    + sum_list (length <$> imageData w) = 0)) as [Hzero|Hnz].
  - eexists. split; [reflexivity|]. split.
    + exists []. unfold isEmptyBuffer, packedLength. simpl.
      rewrite !app_nil_r, !filter_cons, !filter_nil, !Hgroups.
      rewrite decide_True by (by apply bool_decide_eq_true_2).
      rewrite decide_False by (by rewrite bool_decide_eq_true_2).
      simpl. unfold storeEmitted. simpl.
      split_and!; try done. by destruct (embedded options).
    + eapply (imagesRewritten_placed w _ _ Hplaced); [done | done | exact Hrew].
  - rewrite emitBuffer_run by exact Hlen. eexists. split; [reflexivity|]. split.
    + eexists [ {| em_buffer := buffer; em_counter := bufferURICounter w1;
                   em_data := BufferUtils.concat segments |} ].
      unfold isEmptyBuffer, packedLength. simpl.
      rewrite !app_nil_r, !filter_cons, !filter_nil, !Hgroups.
      rewrite decide_False by (by rewrite bool_decide_eq_false_2).
      rewrite decide_True by (by apply bool_decide_eq_false_2).
      simpl. rewrite !app_nil_r. split_and!; try done.
      constructor; [|done]. simpl. unfold packedLength. by rewrite Hgroups.
    + eapply (imagesRewritten_placed w _ _ Hplaced); [done | done | exact Hrew].
Qed.

(** ** The loop over the buffers *)

Lemma imagesRewritten_trans (n : nat) (A B C X : list json) :
  imagesRewritten n A B ->
  imagesRewritten n (B ++ X) C ->
  imagesRewritten n (A ++ X) C.
Proof.
  intros (HlenB & HoutB & _) (HlenC & HoutC & HinC).
  split; [rewrite HlenC, !length_app; lia|]. split; [|done].
  intros q Hq. rewrite HoutC by done.
  destruct (decide (q < length B)).
  - rewrite !lookup_app_l by lia. by apply HoutB.
  - rewrite !lookup_app_r by lia. by rewrite HlenB.
Qed.

Lemma storeEmitted_app (options : WriterOptions) (multiple : bool)
    (resources : gmap string (list Z)) (l1 l2 : list Emitted) :
  storeEmitted options multiple (storeEmitted options multiple resources l1) l2
  = storeEmitted options multiple resources (l1 ++ l2).
Proof.
  unfold storeEmitted. destruct (embedded options); [done|]. by rewrite foldl_app.
Qed.

Lemma sameTextures_trans (w w1 w2 : Writer) :
  sameTextures w w1 -> sameTextures w1 w2 -> sameTextures w w2.
Proof.
  unfold sameTextures. intros H1 H2. destruct_and!. split_and!; congruence.
Qed.

Lemma buffersWritten_cons (options : WriterOptions) (multiple : bool)
    (accessorLinks : gmap nat (list Link)) (b : Buffer) (bs : list Buffer)
    (w w1 w' : Writer) :
  buffersWritten options multiple accessorLinks [b] w w1 ->
  buffersWritten options multiple accessorLinks bs w1 w' ->
  buffersWritten options multiple accessorLinks (b :: bs) w w'.
Proof.
  intros (em1 & Hacc1 & Hrew1 & Hwarn1 & Hem1 & Hlen1 & Hbuf1 & Hres1 & Hsame1)
         (em2 & Hacc2 & Hrew2 & Hwarn2 & Hem2 & Hlen2 & Hbuf2 & Hres2 & Hsame2).
  assert (Hdata : imageData w1 = imageData w) by (unfold sameTextures in Hsame1; tauto).
  rewrite Hdata in *. simpl in Hacc1, Hrew1. rewrite app_nil_r in Hacc1, Hrew1.
  assert (Hviews : length (w_bufferViews w1)
                   = length (w_bufferViews w) + length (bufferGroups accessorLinks b)).
  { destruct Hrew1 as (-> & _). by rewrite length_app, length_planViews. }
  assert (Hindex : length (w_buffers w1)
                   = if isEmptyBuffer accessorLinks (imageData w) b
                     then length (w_buffers w) else S (length (w_buffers w))).
  { rewrite Hbuf1, length_app, length_fmap.
    rewrite <- (length_fmap em_buffer), Hem1, filter_cons, filter_nil.
    destruct (isEmptyBuffer accessorLinks (imageData w) b); simpl; lia. }
  exists (em1 ++ em2). split_and!.
  - rewrite Hacc2, Hacc1, Hviews. simpl. by rewrite <- app_assoc.
  - simpl. rewrite app_assoc. rewrite Hindex in Hrew2.
    eapply imagesRewritten_trans; [exact Hrew1 | exact Hrew2].
  - rewrite Hwarn2, Hwarn1, <- app_assoc. f_equal.
    rewrite <- fmap_app. f_equal.
    change (b :: bs) with ([b] ++ bs). by rewrite filter_app.
  - rewrite fmap_app, Hem1, Hem2.
    change (b :: bs) with ([b] ++ bs). by rewrite filter_app.
  - by apply Forall_app.
  - rewrite Hbuf2, Hbuf1, fmap_app, <- app_assoc. done.
  - rewrite Hres2, Hres1. apply storeEmitted_app.
  - by eapply sameTextures_trans.
Qed.

Lemma buffersWritten_nil (options : WriterOptions) (multiple : bool)
    (accessorLinks : gmap nat (list Link)) (w : Writer) :
  imagesPlaced w ->
  buffersWritten options multiple accessorLinks [] w w.
Proof.
  intros Hplaced. exists []. simpl. rewrite !app_nil_r.
  split_and!; try done; try apply sameTextures_refl;
    try (unfold storeEmitted; by destruct (embedded options)).
  split; [done|]. split; [done|]. intros q Hq.
  destruct (Hplaced q Hq) as (? & view & _ & _ & Hview). eauto.
Qed.

(** The loop over the buffers completes when every buffer can be
    partitioned. *)
Lemma writeBufferList_run (options : WriterOptions) (multiple : bool)
    (accessorLinks : gmap nat (list Link)) (buffers : list Buffer) :
  forall w,
    partitionsOk accessorLinks buffers ->
    imagesPlaced w ->
    exists w',
      forEach buffers (writeBuffer options multiple accessorLinks) w = Ok (tt, w')
      /\ buffersWritten options multiple accessorLinks buffers w w'
      /\ imagesPlaced w'.
Proof.
  induction buffers as [|b bs IH]; intros w Hok Hplaced.
  - exists w. split; [done|]. split; [by apply buffersWritten_nil | done].
  - inversion Hok as [|? ? [groups Hgroups] Hok']; subst.
    destruct (writeBuffer_run options multiple accessorLinks b groups w Hgroups Hplaced)
      as (w1 & Hrun1 & Hwritten1 & Hplaced1).
    destruct (IH w1 Hok' Hplaced1) as (w' & Hrun & Hwritten & Hplaced').
    exists w'. split; [|split; [|done]].
    + unfold forEach in *. rewrite foldM_cons, Hrun1. exact Hrun.
    + by eapply buffersWritten_cons.
Qed.

(** The loop throws as soon as a buffer cannot be partitioned. *)
Lemma writeBufferList_throw (options : WriterOptions) (multiple : bool)
    (accessorLinks : gmap nat (list Link)) (before after : list Buffer) (b : Buffer)
    (e : string) (w : Writer) :
  partitionsOk accessorLinks before ->
  partitionAccessors accessorLinks b = Throw e ->
  imagesPlaced w ->
  forEach (before ++ b :: after) (writeBuffer options multiple accessorLinks) w
  = Throw e.
Proof.
  intros Hok Hthrow Hplaced.
  destruct (writeBufferList_run options multiple accessorLinks before w Hok Hplaced)
    as (w1 & Hrun & _ & _).
  unfold forEach in *. rewrite foldM_app, Hrun, foldM_cons.
  unfold writeBuffer. rewrite bind_run. unfold liftResult. by rewrite Hthrow.
Qed.

(** Either every buffer can be partitioned, or there is a first one that
    cannot. *)
Lemma partitions_cases (accessorLinks : gmap nat (list Link)) (buffers : list Buffer) :
  partitionsOk accessorLinks buffers
  \/ exists before b after e,
       buffers = before ++ b :: after
       /\ partitionsOk accessorLinks before
       /\ partitionAccessors accessorLinks b = Throw e.
Proof.
  induction buffers as [|b bs IH]; [left; constructor|].
  destruct (partitionAccessors accessorLinks b) as [groups|e] eqn:Hb.
  - destruct IH as [Hok | (before & b' & after & e & -> & Hok & Hthrow)].
    + left. constructor; [eauto | done].
    + right. exists (b :: before), b', after, e. split; [done|]. split; [|done].
      constructor; [eauto | done].
  - right. exists [], b, bs, e. split; [done|]. split; [constructor | done].
Qed.

(** ** Definitions and their names *)

Lemma createPropertyDef_name (property : Property) :
  oget "name" (createPropertyDef property) = propName property.
Proof.
  unfold createPropertyDef, propName.
  destruct (truthy (getName property)), (nonEmptyObject (getExtras property)),
    (nonEmptyObject (getExtensions property));
    repeat (rewrite oget_oset_ne by done); by rewrite ?oget_oset_eq.
Qed.

Lemma mapM_cons {A B : Type} (body : nat -> A -> M B) (i : nat) (x : A) (l : list A)
    (w : Writer) :
  mapM body i (x :: l) w
  = match body i x w with
    | Ok (y, w') =>
        match mapM body (S i) l w' with
        | Ok (ys, w'') => Ok (y :: ys, w'')
        | Throw e => Throw e
        end
    | Throw e => Throw e
    end.
Proof.
  simpl. rewrite bind_run. destruct (body i x w) as [[y w']|e]; [|done].
  rewrite bind_run. by destruct (mapM body (S i) l w') as [[ys w'']|e].
Qed.

(** ** The images stage *)

Lemma writeImage_embedded (options : WriterOptions) (multiple : bool) (i : nat)
    (texture : Texture) (w : Writer) :
  embedsImages options = true ->
  exists def,
    writeImage options multiple i texture w
    = Ok (JObj def,
          set_imageIndexMap (<[tex_id texture := i]> (imageIndexMap w))
            (set_w_bufferViews (w_bufferViews w ++ [imageView texture])
               (set_imageData (imageData w ++ [tex_image texture]) w)))
    /\ oget "bufferView" def = Some (JNat (length (w_bufferViews w)))
    /\ oget "name" def = propName (tex_property texture).
Proof.
  intros Hembed. unfold writeImage. rewrite Hembed.
  eexists. split; [reflexivity|]. split; [apply oget_oset_eq|].
  rewrite oget_oset_ne by done.
  destruct (truthy (tex_mimeType texture));
    [rewrite oget_oset_ne by done|]; apply createPropertyDef_name.
Qed.

Lemma writeImages_embedded (options : WriterOptions) (multiple : bool)
    (textures : list Texture) :
  embedsImages options = true ->
  forall (i : nat) (w : Writer),
  exists images table,
    mapM (writeImage options multiple) i textures w
    = Ok (images,
          set_imageIndexMap table
            (set_w_bufferViews (w_bufferViews w ++ (imageView <$> textures))
               (set_imageData (imageData w ++ (tex_image <$> textures)) w)))
    /\ defName <$> images = (fun t => propName (tex_property t)) <$> textures
    /\ (forall k, k < length textures ->
          exists def, images !! k = Some (JObj def)
                      /\ oget "bufferView" def
                         = Some (JNat (length (w_bufferViews w) + k))).
Proof.
  intros Hembed. induction textures as [|t l IH]; intros i w.
  - exists [], (imageIndexMap w). simpl. rewrite !app_nil_r.
    split; [by destruct w|]. split; [done|]. intros k Hk. simpl in Hk. lia.
  - destruct (writeImage_embedded options multiple i t w Hembed)
      as (def & Hrun & Hbv & Hname).
    rewrite mapM_cons, Hrun.
    match goal with |- context [mapM _ (S i) l ?w1] =>
      destruct (IH (S i) w1) as (images & table & Hrest & Hnames & Hviews) end.
    exists (JObj def :: images), table. rewrite Hrest. split; [|split].
    + simpl. rewrite <- !app_assoc. done.
    + rewrite !fmap_cons, Hnames. simpl. by rewrite Hname.
    + intros k Hk. destruct k as [|k].
      * exists def. rewrite Nat.add_0_r. done.
      * simpl in Hk. destruct (Hviews k) as (def' & Hdef' & Hbv'); [lia|].
        exists def'. split; [done|]. rewrite Hbv'. simpl.
        rewrite length_app. simpl. do 2 f_equal. lia.
Qed.

Lemma writeImage_external (options : WriterOptions) (multiple : bool) (i : nat)
    (texture : Texture) (w : Writer) :
  embedsImages options = false ->
  exists def uri counter,
    writeImage options multiple i texture w
    = Ok (JObj def,
          set_imageIndexMap (<[tex_id texture := i]> (imageIndexMap w))
            (set_w_resources (<[uri := tex_image texture]> (w_resources w))
               (set_imageURICounter counter w)))
    /\ oget "uri" def = Some (JStr uri)
    /\ oget "name" def = propName (tex_property texture).
Proof.
  intros Hembed. unfold writeImage. rewrite Hembed.
  eexists _, _, _. split; [reflexivity|]. split; [apply oget_oset_eq|].
  rewrite oget_oset_ne by done.
  destruct (truthy (tex_mimeType texture));
    [rewrite oget_oset_ne by done|]; apply createPropertyDef_name.
Qed.

Lemma writeImages_external (options : WriterOptions) (multiple : bool)
    (textures : list Texture) :
  embedsImages options = false ->
  forall (i : nat) (w : Writer),
  exists images table resources counter,
    mapM (writeImage options multiple) i textures w
    = Ok (images,
          set_imageIndexMap table
            (set_w_resources resources (set_imageURICounter counter w)))
    /\ defName <$> images = (fun t => propName (tex_property t)) <$> textures
    /\ imageBlobs (w_resources w) resources images.
Proof.
  intros Hembed. induction textures as [|t l IH]; intros i w.
  - exists [], (imageIndexMap w), (w_resources w), (imageURICounter w). simpl.
    split; [by destruct w|]. split; [done|]. intros key Hkey. by left.
  - destruct (writeImage_external options multiple i t w Hembed)
      as (def & uri & counter & Hrun & Huri & Hname).
    rewrite mapM_cons, Hrun.
    match goal with |- context [mapM _ (S i) l ?w1] =>
      destruct (IH (S i) w1) as (images & table & resources & counter' & Hrest & Hnames & Hblobs)
    end.
    exists (JObj def :: images), table, resources, counter'. rewrite Hrest.
    split; [done|]. split; [rewrite !fmap_cons, Hnames; simpl; by rewrite Hname|].
    intros key Hkey. destruct (Hblobs key Hkey) as [Hold | (def' & Hin & Huri')].
    + simpl in Hold. destruct (decide (uri = key)) as [<-|Hne].
      * right. exists def. split; [apply list_elem_of_here | done].
      * left. by rewrite lookup_insert_ne in Hold.
    + right. exists def'. split; [by apply list_elem_of_further | done].
Qed.

(** ** The materials stage *)

Lemma slotDef_run (slot : TextureSlot) (w : Writer) :
  slotDef slot w = Ok (slotInfo slot w, slotState slot w).
Proof. done. Qed.

Lemma createPropertyDef_other (property : Property) (key : string) :
  key ≠ "name" -> key ≠ "extras" -> oget key (createPropertyDef property) = None.
Proof.
  intros Hname Hextras. unfold createPropertyDef.
  destruct (truthy (getName property)), (nonEmptyObject (getExtras property)),
    (nonEmptyObject (getExtensions property));
    repeat (rewrite oget_oset_ne by done); done.
Qed.

(** One call of [createTextureInfoDef], in its two halves. *)
Lemma slotState_unfold (slot : TextureSlot) (w : Writer) :
  let w1 := samplerPhase slot w in
  let textureDef : object :=
    [("source", getIndex (imageIndexMap w1) (slot_texture slot));
     ("sampler", getIndex (samplerIndexMap w1) (samplerKeyOf slot))] in
  let w2 := texturePhase textureDef w1 in
  slotState slot w = w2
  /\ slotInfo slot w
     = [("index", getIndex (textureIndexMap w2) (stringify textureDef));
        ("texCoord", JInt (getTexCoord (slot_info slot)))].
Proof. done. Qed.

Lemma keyed_NoDup (table : gmap string nat) (defs : list json) :
  keyed table defs -> NoDup (canonicalKey <$> defs).
Proof.
  intros Hkeyed. apply NoDup_alt. intros i j key Hi Hj.
  apply Hkeyed in Hi, Hj. congruence.
Qed.

Lemma keyed_bound (table : gmap string nat) (defs : list json) (key : string) (i : nat) :
  keyed table defs -> table !! key = Some i -> i < length defs.
Proof.
  intros Hkeyed Hi. apply Hkeyed in Hi. apply lookup_lt_Some in Hi.
  by rewrite length_fmap in Hi.
Qed.

Lemma keyed_insert (table : gmap string nat) (defs : list json) (def : json) :
  keyed table defs ->
  table !! canonicalKey def = None ->
  keyed (<[canonicalKey def := length defs]> table) (defs ++ [def]).
Proof.
  intros Hkeyed Hfresh key i. rewrite fmap_app. simpl.
  destruct (decide (canonicalKey def = key)) as [<-|Hne].
  - rewrite lookup_insert_eq. split.
    + intros [= <-]. rewrite lookup_app_r by (rewrite length_fmap; lia).
      by rewrite length_fmap, Nat.sub_diag.
    + intros Hi. destruct (decide (i < length defs)) as [Hlt|Hge].
      * rewrite lookup_app_l in Hi by (rewrite length_fmap; lia).
        apply Hkeyed in Hi. congruence.
      * apply lookup_lt_Some in Hi. rewrite length_app, length_fmap in Hi.
        simpl in Hi. f_equal. lia.
  - rewrite lookup_insert_ne by done. rewrite (Hkeyed key i). split.
    + intros Hi. rewrite lookup_app_l; [done | by apply lookup_lt_Some in Hi].
    + intros Hi. destruct (decide (i < length defs)) as [Hlt|Hge].
      * by rewrite lookup_app_l in Hi by (rewrite length_fmap; lia).
      * rewrite lookup_app_r in Hi by (rewrite length_fmap; lia).
        rewrite length_fmap in Hi.
        destruct (i - length defs); simpl in Hi; [congruence | done].
Qed.

(** ** Canonical keys of texture definitions *)

Lemma pretty_N_go_numeric (x : N) (s : string) :
  numeric s -> numeric (pretty_N_go x s).
Proof.
  revert s. induction (N.lt_wf_0 x) as [x _ IH]; intros s Hs.
  assert (x = 0 \/ 0 < x)%N as [->|Hpos] by lia.
  - by rewrite pretty_N_go_0.
  - rewrite pretty_N_go_step by done. apply IH; [by apply N.div_lt|].
    split; [|done]. unfold pretty_N_char. by repeat case_match.
Qed.

Lemma pretty_N_numeric (x : N) : numeric (pretty x).
Proof.
  unfold pretty, pretty_N. case_decide; [done|]. by apply pretty_N_go_numeric.
Qed.

Lemma pretty_Z_numeric (z : Z) : numeric (pretty z).
Proof.
  destruct z as [|p|p]; [done | apply pretty_N_numeric|].
  split; [done | apply pretty_N_numeric].
Qed.

(** A printed integer ends at the first character that is not numeric. *)
Lemma numeric_split (c : ascii) (a a' b b' : string) :
  isNumChar c = false -> numeric a -> numeric a' ->
  a +:+ String c b = a' +:+ String c b' -> a = a' /\ b = b'.
Proof.
  intros Hc. revert a'. induction a as [|x a IH]; intros [|x' a'] Ha Ha' Heq;
    simpl in *.
  - by injection Heq as ->.
  - injection Heq as <- _. destruct Ha'. congruence.
  - injection Heq as -> _. destruct Ha. congruence.
  - injection Heq as -> Heq. destruct Ha, Ha'.
    destruct (IH a') as [-> ->]; done.
Qed.

Lemma append_cons (x : ascii) (a b : string) : String x a +:+ b = String x (a +:+ b).
Proof. done. Qed.

Lemma append_nil_l (a : string) : EmptyString +:+ a = a.
Proof. done. Qed.

Lemma append_assoc (a b c : string) : (a +:+ b) +:+ c = a +:+ (b +:+ c).
Proof.
  induction a as [|x a IH]; [done|]. by rewrite !append_cons, IH.
Qed.

Ltac string_normal H :=
  repeat first
    [ rewrite append_assoc in H
    | rewrite append_cons in H
    | rewrite append_nil_l in H ].

Lemma textureDef_key_inj (d1 d2 : json) :
  isTextureDef d1 -> isTextureDef d2 -> canonicalKey d1 = canonicalKey d2 -> d1 = d2.
Proof.
  intros (x1 & s1 & -> & Hx1) (x2 & s2 & -> & Hx2) Hkey.
  unfold canonicalKey, stringify, stringifyMember, JNat, quote in *.
  destruct Hx1 as [->|[i1 ->]], Hx2 as [->|[i2 ->]]; simpl in Hkey;
    string_normal Hkey.
  - injection Hkey as Hkey.
    apply (numeric_split _ _ _ EmptyString EmptyString) in Hkey
      as [Hs _]; [|done|apply pretty_Z_numeric..].
    assert (Z.of_nat s1 = Z.of_nat s2) as -> by (apply (inj pretty); exact Hs).
    done.
  - discriminate.
  - discriminate.
  - injection Hkey as Hkey.
    apply numeric_split in Hkey as [Hi Hkey]; [|done|apply pretty_Z_numeric..].
    injection Hkey as Hkey.
    apply (numeric_split _ _ _ EmptyString EmptyString) in Hkey
      as [Hs _]; [|done|apply pretty_Z_numeric..].
    assert (Z.of_nat s1 = Z.of_nat s2) as -> by (apply (inj pretty); exact Hs).
    assert (Z.of_nat i1 = Z.of_nat i2) as -> by (apply (inj pretty); exact Hi).
    done.
Qed.

(** ** Indices in order of first use *)

Lemma firstUse_reuse (l : list nat) (n t : nat) :
  firstUse l n -> t < n -> firstUse (l ++ [t]) n.
Proof.
  intros [Hall Hpred] Ht. split.
  - intros x. rewrite elem_of_app, list_elem_of_singleton, Hall. naive_solver.
  - intros k x Hk. destruct (decide (k < length l)) as [Hlt|Hge].
    + rewrite lookup_app_l in Hk by done.
      destruct (Hpred k x Hk) as (k' & Hk' & Hx).
      exists k'. split; [done|]. rewrite lookup_app_l by lia. done.
    + rewrite lookup_app_r in Hk by lia.
      destruct (k - length l) eqn:Hd; simpl in Hk; [|done].
      injection Hk as Hk. assert (x ∈ l) as Hx by (apply Hall; lia).
      apply list_elem_of_lookup in Hx as [k' Hk'].
      exists k'. split; [apply lookup_lt_Some in Hk'; lia|].
      rewrite lookup_app_l; [done | by apply lookup_lt_Some in Hk'].
Qed.

Lemma firstUse_new (l : list nat) (n : nat) :
  firstUse l n -> firstUse (l ++ [n]) (S n).
Proof.
  intros [Hall Hpred]. split.
  - intros x. rewrite elem_of_app, list_elem_of_singleton, <- Hall. lia.
  - intros k x Hk. destruct (decide (k < length l)) as [Hlt|Hge].
    + rewrite lookup_app_l in Hk by done.
      destruct (Hpred k x Hk) as (k' & Hk' & Hx).
      exists k'. split; [done|]. rewrite lookup_app_l by lia. done.
    + rewrite lookup_app_r in Hk by lia.
      destruct (k - length l) eqn:Hd; simpl in Hk; [|done].
      injection Hk as Hk. assert (x ∈ l) as Hx by (apply Hall; lia).
      apply list_elem_of_lookup in Hx as [k' Hk'].
      exists k'. split; [apply lookup_lt_Some in Hk'; lia|].
      rewrite lookup_app_l; [done | by apply lookup_lt_Some in Hk'].
Qed.

(** ** One call of [createTextureInfoDef] *)

Lemma sameBuffers_refl (w : Writer) : sameBuffers w w.
Proof. by repeat split. Qed.

Lemma sameBuffers_trans (w w1 w2 : Writer) :
  sameBuffers w w1 -> sameBuffers w1 w2 -> sameBuffers w w2.
Proof.
  unfold sameBuffers. intros H1 H2. destruct_and!. split_and!; congruence.
Qed.

Lemma samplerPhase_spec (slot : TextureSlot) (log : list Placed)
    (textureLog samplerLog : list nat) (w : Writer) :
  texturesRunAt log textureLog samplerLog w ->
  exists s,
    samplerIndexMap (samplerPhase slot w) !! samplerKeyOf slot = Some s
    /\ texturesRunAt log textureLog (samplerLog ++ [s]) (samplerPhase slot w)
    /\ sameBuffers w (samplerPhase slot w).
Proof.
  intros ([Hks Hkt] & Hshape & Hlog & Htex & Hsam). unfold samplerPhase.
  destruct (samplerIndexMap w !! samplerKeyOf slot) as [s|] eqn:Hs.
  - exists s. split; [done|]. split; [|apply sameBuffers_refl].
    unfold texturesRunAt, texturesKeyed.
    split_and!; try done. apply firstUse_reuse; [done|]. by eapply keyed_bound.
  - exists (length (w_samplers w)). split; [simpl; apply lookup_insert_eq|].
    split; [|by repeat split]. unfold texturesRunAt, texturesKeyed.
    split_and!; simpl; try done.
    + apply (keyed_insert _ _ (JObj (samplerDefOf (slot_sampler slot)))); done.
    + eapply Forall_impl; [exact Hlog|]. intros p [Hp1 Hp2]. split; [|done].
      rewrite lookup_insert_ne; [done|]. intros Heq. rewrite <- Heq in Hp1. congruence.
    + rewrite length_app. simpl. rewrite Nat.add_1_r. by apply firstUse_new.
Qed.

Lemma texturePhase_spec (slot : TextureSlot) (s : nat) (log : list Placed)
    (textureLog samplerLog : list nat) (w : Writer) :
  texturesRunAt log textureLog samplerLog w ->
  samplerIndexMap w !! samplerKeyOf slot = Some s ->
  let textureDef := textureDefOf (imageIndexMap w) s slot in
  let w' := texturePhase textureDef w in
  exists t,
    textureIndexMap w' !! stringify textureDef = Some t
    /\ texturesRunAt (log ++ [{| pl_slot := slot; pl_texture := t; pl_sampler := s |}])
         (textureLog ++ [t]) samplerLog w'
    /\ sameBuffers w w'.
Proof.
  intros ([Hks Hkt] & Hshape & Hlog & Htex & Hsam) Hs textureDef w'.
  assert (Hdef : isTextureDef (JObj textureDef)).
  { exists (getIndex (imageIndexMap w) (slot_texture slot)), s. split; [done|].
    unfold getIndex. destruct (imageIndexMap w !! slot_texture slot); eauto. }
  subst w'. unfold texturePhase.
  destruct (textureIndexMap w !! stringify textureDef) as [t|] eqn:Ht.
  - exists t. split; [done|]. split; [|apply sameBuffers_refl].
    assert (Hbound : t < length (w_textures w)) by (by eapply keyed_bound).
    unfold texturesRunAt, texturesKeyed.
    split_and!; try done; [|by apply firstUse_reuse].
    apply Forall_app. split; [done|]. constructor; [|done]. simpl. split; [done|].
    apply Hkt in Ht. rewrite list_lookup_fmap in Ht.
    destruct (w_textures w !! t) as [d|] eqn:Hd; [|done]. injection Ht as Hkey.
    f_equal. apply textureDef_key_inj; [|done|done].
    rewrite Forall_forall in Hshape. apply Hshape. by eapply list_elem_of_lookup_2.
  - exists (length (w_textures w)). split; [simpl; apply lookup_insert_eq|].
    split; [|by repeat split]. unfold texturesRunAt, texturesKeyed.
    split_and!; simpl; try done.
    + apply (keyed_insert _ _ (JObj textureDef)); done.
    + apply Forall_app. split; [done | by constructor].
    + apply Forall_app. split.
      * eapply Forall_impl; [exact Hlog|]. intros p [Hp1 Hp2]. split; [done|].
        rewrite lookup_app_l; [done | by apply lookup_lt_Some in Hp2].
      * constructor; [|done]. simpl. split; [done|].
        rewrite lookup_app_r by lia. by rewrite Nat.sub_diag.
    + rewrite length_app. simpl. rewrite Nat.add_1_r. by apply firstUse_new.
Qed.

Lemma getIndex_Some `{Countable K} (m : gmap K nat) (key : K) (i : nat) :
  m !! key = Some i -> getIndex m key = JNat i.
Proof. intros Hi. unfold getIndex. by rewrite Hi. Qed.

Lemma slot_step (slot : TextureSlot) (log : list Placed) (w : Writer) :
  texturesRun log w ->
  exists t s,
    oget "index" (slotInfo slot w) = Some (JNat t)
    /\ texturesRun (log ++ [{| pl_slot := slot; pl_texture := t; pl_sampler := s |}])
         (slotState slot w)
    /\ sameBuffers w (slotState slot w).
Proof.
  intros Hrun. destruct (slotState_unfold slot w) as [Hstate Hinfo].
  destruct (samplerPhase_spec slot _ _ _ w Hrun) as (s & Hs & Hrun1 & Hsame1).
  rewrite Hstate, Hinfo. clear Hstate Hinfo.
  rewrite !(getIndex_Some _ _ _ Hs).
  change [("source", getIndex (imageIndexMap (samplerPhase slot w)) (slot_texture slot));
          ("sampler", JNat s)]
    with (textureDefOf (imageIndexMap (samplerPhase slot w)) s slot).
  destruct (texturePhase_spec slot s _ _ _ _ Hrun1 Hs) as (t & Ht & Hrun2 & Hsame2).
  exists t, s. split; [|split].
  - rewrite (getIndex_Some _ _ _ Ht). done.
  - unfold texturesRun. rewrite !fmap_app. exact Hrun2.
  - by eapply sameBuffers_trans.
Qed.

Lemma slotsRun_app (l1 l2 : list TextureSlot) (w : Writer) :
  slotsRun (l1 ++ l2) w
  = ((slotsRun l1 w).1 ++ (slotsRun l2 (slotsRun l1 w).2).1,
     (slotsRun l2 (slotsRun l1 w).2).2).
Proof.
  revert w. induction l1 as [|s l1 IH]; intros w; simpl.
  - by destruct (slotsRun l2 w).
  - by rewrite IH.
Qed.

Lemma sameIndex_refl (info : object) : sameIndex info (JObj info).
Proof. by exists info. Qed.

Lemma sameIndex_oset (info : object) (key : string) (value : json) :
  key ≠ "index" -> sameIndex info (JObj (oset key value info)).
Proof. intros Hne. eexists. split; [done|]. by rewrite oget_oset_ne. Qed.

Ltac oget_simpl :=
  repeat first
    [ rewrite oget_oset_eq
    | rewrite oget_oset_ne by done
    | rewrite createPropertyDef_other by done ].

Lemma ret_run {A : Type} (a : A) (w : Writer) : (mret a : M A) w = Ok (a, w).
Proof. done. Qed.

Local Opaque slotInfo slotState.

Ltac run_step :=
  repeat first
    [ rewrite bind_run
    | rewrite slotDef_run
    | rewrite ret_run
    | progress cbv beta iota ].

Lemma sameIndex_scaled (info : object) (b : bool) (key : string) (value : json) :
  key ≠ "index" ->
  sameIndex info (JObj (if b then info else oset key value info)).
Proof. intros Hne. destruct b; [apply sameIndex_refl | by apply sameIndex_oset]. Qed.

Lemma writeMaterial_run (material : Material) (w : Writer) :
  exists def,
    writeMaterial material w
    = Ok (JObj def, (slotsRun (materialSlots material) w).2)
    /\ oget "name" def = propName (mat_property material)
    /\ Forall2 sameIndex (slotsRun (materialSlots material) w).1
         (textureInfos (JObj def)).
Proof.
  unfold writeMaterial, materialSlots.
  destruct (baseColorTexture material) as [s1|],
           (emissiveTexture material) as [s2|],
           (normalTexture material) as [s3|],
           (occlusionTexture material) as [s4|],
           (metallicRoughnessTexture material) as [s5|];
    run_step;
    (eexists; split; [reflexivity|]; split;
     [ oget_simpl; destruct (decide (getAlphaMode material = "MASK"));
       oget_simpl; apply createPropertyDef_name
     | unfold textureInfos; oget_simpl;
       destruct (decide (getAlphaMode material = "MASK"));
       oget_simpl; simpl;
       repeat first
         [ apply Forall2_nil_2
         | apply Forall2_cons_2;
           [ first [ apply sameIndex_refl | by apply sameIndex_scaled ] | ] ] ]).
Qed.

Transparent slotInfo slotState.

Lemma slotsRun_spec (slots : list TextureSlot) :
  forall (log : list Placed) (w : Writer),
    texturesRun log w ->
    exists placed,
      pl_slot <$> placed = slots
      /\ Forall2 (fun p info => oget "index" info = Some (JNat (pl_texture p)))
           placed (slotsRun slots w).1
      /\ texturesRun (log ++ placed) (slotsRun slots w).2
      /\ sameBuffers w (slotsRun slots w).2.
Proof.
  induction slots as [|slot slots IH]; intros log w Hrun.
  - exists []. simpl. rewrite app_nil_r.
    split_and!; try done; try constructor; try apply sameBuffers_refl.
  - destruct (slot_step slot log w Hrun) as (t & s & Hindex & Hrun1 & Hsame1).
    destruct (IH _ _ Hrun1) as (placed & Hslots & Hinfos & Hrun2 & Hsame2).
    exists ({| pl_slot := slot; pl_texture := t; pl_sampler := s |} :: placed).
    split_and!.
    + by rewrite fmap_cons, Hslots.
    + by constructor.
    + by rewrite <- app_assoc in Hrun2.
    + by eapply sameBuffers_trans.
Qed.

Lemma writeMaterials_run (materials : list Material) :
  forall (i : nat) (w : Writer),
  exists defs,
    mapM (fun _ material => writeMaterial material) i materials w
    = Ok (defs, (slotsRun (materials ≫= materialSlots) w).2)
    /\ defName <$> defs = (fun m => propName (mat_property m)) <$> materials
    /\ Forall2 sameIndex (slotsRun (materials ≫= materialSlots) w).1
         (defs ≫= textureInfos).
Proof.
  induction materials as [|m l IH]; intros i w.
  - exists []. split; [done|]. split; [done | constructor].
  - destruct (writeMaterial_run m w) as (def & Hrun & Hname & Hinfos).
    rewrite mapM_cons, Hrun.
    destruct (IH (S i) (slotsRun (materialSlots m) w).2)
      as (defs & Hrest & Hnames & Hinfos').
    exists (JObj def :: defs). rewrite Hrest.
    rewrite bind_cons, slotsRun_app. cbn [fst snd]. split_and!.
    + done.
    + rewrite !fmap_cons, Hnames. simpl. by rewrite Hname.
    + rewrite bind_cons. by apply Forall2_app.
Qed.

(** ** The whole of [write] *)

Ltac proj_simpl :=
  cbn [w_accessors w_bufferViews w_samplers w_textures w_images w_buffers w_resources accessorIndexMap imageIndexMap textureIndexMap samplerIndexMap imageData bufferURICounter imageURICounter w_warnings
       set_w_accessors set_w_bufferViews set_w_samplers set_w_textures set_w_images set_w_buffers set_w_resources set_accessorIndexMap set_imageIndexMap set_textureIndexMap set_samplerIndexMap set_imageData set_bufferURICounter set_imageURICounter set_w_warnings
       packState initialWriter app] in *.

Lemma writeImages_run (options : WriterOptions) (root : Root) :
  exists w1,
    writeImages options root initialWriter = Ok (tt, w1)
    /\ imagesStage options root w1.
Proof.
  unfold writeImages. rewrite bind_run.
  destruct (embedsImages options) eqn:Hembed.
  - destruct (writeImages_embedded options
                (bool_decide (1 < length (listTextures root)))
                (listTextures root) Hembed 0 initialWriter)
      as (images & table & Hrun & Hnames & Hviews).
    rewrite Hrun. eexists. split; [reflexivity|].
    unfold imagesStage, stageImages, imagesPlaced. rewrite Hembed. proj_simpl.
    split_and!; try done.
    + intros i Hi. rewrite length_fmap in Hi.
      destruct (Hviews i Hi) as (def & Hdef & Hbv).
      destruct (lookup_lt_is_Some_2 (imageView <$> listTextures root) i) as [view Hview];
        [by rewrite length_fmap|].
      rewrite list_lookup_fmap in Hview.
      destruct (listTextures root !! i) as [t|] eqn:Ht; [|done].
      injection Hview as <-.
      exists def. eexists. split; [done|]. split; [done|].
      by rewrite list_lookup_fmap, Ht.
    + by rewrite !length_fmap.
    + intros key Hkey. left. done.
  - destruct (writeImages_external options
                (bool_decide (1 < length (listTextures root)))
                (listTextures root) Hembed 0 initialWriter)
      as (images & table & resources & counter & Hrun & Hnames & Hblobs).
    rewrite Hrun. eexists. split; [reflexivity|].
    unfold imagesStage, stageImages, imagesPlaced. rewrite Hembed. proj_simpl.
    split_and!; try done. intros i Hi. simpl in Hi. lia.
Qed.

Lemma initial_texturesRun (w : Writer) :
  w_samplers w = [] -> w_textures w = [] ->
  samplerIndexMap w = ∅ -> textureIndexMap w = ∅ ->
  texturesRun [] w.
Proof.
  intros HS HT Hsm Htm. unfold texturesRun, texturesRunAt, texturesKeyed, keyed, firstUse.
  rewrite HS, HT, Hsm, Htm. simpl.
  split_and!; try done; try (intros; rewrite lookup_empty; split; intros; done).
  - intros t. split; [lia | by rewrite elem_of_nil].
  - intros t. split; [lia | by rewrite elem_of_nil].
Qed.

Lemma buffersWritten_textures (options : WriterOptions) (multiple : bool)
    (accessorLinks : gmap nat (list Link)) (buffers : list Buffer) (w w' : Writer) :
  buffersWritten options multiple accessorLinks buffers w w' -> sameTextures w w'.
Proof. intros (emitted & H). tauto. Qed.

Lemma write_outcome (doc : Document) (options : WriterOptions) :
  exists w1,
    imagesStage options (getRoot doc) w1
    /\ WriteOutcome doc options w1 (write doc options).
Proof.
  destruct (writeImages_run options (getRoot doc)) as (w1 & Himages & Hstage).
  exists w1. split; [done|].
  pose proof Hstage as (Hplaced & _ & _ & _ & _ & HS & HT & Hsm & Htm & _).
  unfold write, writeJSON. rewrite bind_run, Himages, bind_run.
  unfold writeBuffers.
  destruct (partitions_cases (gatherAccessorLinks (getLinks doc))
              (listBuffers (getRoot doc)))
    as [Hok | (before & b & after & e & Hsplit & Hok & Hthrow)].
  - destruct (writeBufferList_run options (multipleBuffers (getRoot doc))
                (gatherAccessorLinks (getLinks doc)) (listBuffers (getRoot doc))
                w1 Hok Hplaced) as (w2 & Hrun & Hwritten & Hplaced2).
    unfold multipleBuffers in Hrun. rewrite Hrun, bind_run.
    destruct (writeMaterials_run (listMaterials (getRoot doc)) 0 w2)
      as (materials & Hmat & Hnames & Hinfos).
    unfold writeMaterials. rewrite Hmat.
    pose proof (buffersWritten_textures _ _ _ _ _ _ Hwritten)
      as (HS2 & HT2 & _ & _ & Htm2 & Hsm2 & _).
    assert (Hinit : texturesRun [] w2).
    { apply initial_texturesRun; congruence. }
    destruct (slotsRun_spec (documentSlots (getRoot doc)) [] w2 Hinit)
      as (placed & Hslots & Hindex & Hrun3 & Hsame).
    unfold gets. by eapply WriteReturns.
  - rewrite Hsplit.
    rewrite (writeBufferList_throw options _ _ before after b e w1 Hok Hthrow Hplaced).
    by eapply WriteThrows.
Qed.

(** ** The post-processor *)

Lemma oget_deleted (key : string) (unused : list json) :
  forall o : object,
    oget key (foldl (fun o k => odelete (toPropertyKey k) o) o unused)
    = if decide (key ∈ toPropertyKey <$> unused) then None else oget key o.
Proof.
  induction unused as [|k unused IH]; intros o.
  - rewrite fmap_nil. cbn [foldl].
    rewrite decide_False; [done | apply not_elem_of_nil].
  - rewrite fmap_cons. cbn [foldl]. rewrite IH. destruct (decide (toPropertyKey k = key)) as [Heq|Hne].
    + rewrite (decide_True (P := key ∈ _ :: _)) by (rewrite Heq; apply list_elem_of_here).
      rewrite <- Heq, oget_odelete_eq.
      destruct (decide (toPropertyKey k ∈ toPropertyKey <$> unused)); reflexivity.
    + rewrite oget_odelete_ne by done.
      destruct (decide (key ∈ toPropertyKey <$> unused)) as [Hin|Hnin].
      * rewrite decide_True; [done | by apply list_elem_of_further].
      * rewrite decide_False; [done|].
        intros Hin. apply elem_of_cons in Hin as [Heq|Hin]; congruence.
Qed.

Lemma oget_clean (key : string) (obj : object) :
  oget key (clean obj)
  = if decide (key ∈ toPropertyKey <$> cleanUnused obj) then None else oget key obj.
Proof. apply oget_deleted. Qed.

Lemma cleanUnused_from (obj : object) :
  forall (acc : list json) (v : json),
    v ∈ foldl (fun unused (kv : string * json) =>
                 match kv.2 with
                 | JArr [] => unused ++ [JStr kv.1]
                 | JNull => unused ++ [kv.2]
                 | JStr EmptyString => unused ++ [kv.2]
                 | _ => unused
                 end) acc obj
    <-> v ∈ acc \/ exists kv, kv ∈ obj /\ collected kv v.
Proof.
  induction obj as [|kv obj IH]; intros acc v; simpl.
  - split; [by left|]. intros [H|(kv & Hin & _)]; [done|]. by apply elem_of_nil in Hin.
  - rewrite IH. unfold collected. destruct kv as [k value]. simpl.
    setoid_rewrite elem_of_cons.
    destruct value as [| |b|z|q|s|l|o]; try destruct l; try destruct s;
      rewrite ?elem_of_app, ?list_elem_of_singleton; naive_solver.
Qed.

Lemma cleanUnused_spec (obj : object) (v : json) :
  v ∈ cleanUnused obj <-> exists kv, kv ∈ obj /\ collected kv v.
Proof.
  unfold cleanUnused. rewrite cleanUnused_from. split; [|by right].
  intros [H|H]; [by apply elem_of_nil in H | done].
Qed.

Lemma oget_member (obj : object) (key : string) (value : json) :
  NoDup obj.*1 -> (key, value) ∈ obj -> oget key obj = Some value.
Proof.
  induction obj as [|[k v] obj IH]; intros Hnodup Hin; [by apply elem_of_nil in Hin|].
  simpl in *. apply NoDup_cons in Hnodup as [Hk Hnodup].
  apply elem_of_cons in Hin as [[= -> ->]|Hin].
  - by rewrite decide_True.
  - rewrite decide_False; [by apply IH|].
    intros ->. apply Hk. apply list_elem_of_fmap. by exists (key, value).
Qed.

(** [clean] leaves the array under a key as it is, or deletes it when it is
    empty; the keys are the array keys of the root object. *)
Lemma jarray_clean (obj : object) (key : string) :
  NoDup obj.*1 ->
  key ≠ "null" -> key ≠ EmptyString ->
  jarray key (clean obj) = jarray key obj.
Proof.
  intros Hnodup Hnull Hempty. unfold jarray. rewrite oget_clean.
  case_decide as Hin; [|done].
  apply list_elem_of_fmap in Hin as (v & Hkey & Hv).
  apply cleanUnused_spec in Hv as ([k value] & Hmem & Hcol).
  destruct Hcol as [[Hvalue ->]|[[Hvalue ->]|[Hvalue ->]]]; simpl in *; subst.
  - by rewrite (oget_member _ _ _ Hnodup Hmem).
  - done.
  - done.
Qed.

(** ** The root object *)

Lemma rootObject_NoDup (root : Root) (materials : list json) (w : Writer) :
  NoDup (rootObject root materials w).*1.
Proof.
  change ((rootObject root materials w).*1)
    with ["asset"; "accessors"; "bufferViews"; "samplers"; "textures"; "images";
          "buffers"; "materials"; "meshes"; "cameras"; "nodes"; "skins";
          "animations"; "scenes"].
  apply (bool_decide_unpack _). by vm_compute.
Qed.

Lemma json_accessors (root : Root) (materials : list json) (w : Writer) :
  jarray "accessors" (clean (rootObject root materials w)) = w_accessors w.
Proof. by rewrite jarray_clean by (apply rootObject_NoDup || done). Qed.

Lemma json_bufferViews (root : Root) (materials : list json) (w : Writer) :
  jarray "bufferViews" (clean (rootObject root materials w)) = w_bufferViews w.
Proof. by rewrite jarray_clean by (apply rootObject_NoDup || done). Qed.

Lemma json_samplers (root : Root) (materials : list json) (w : Writer) :
  jarray "samplers" (clean (rootObject root materials w)) = w_samplers w.
Proof. by rewrite jarray_clean by (apply rootObject_NoDup || done). Qed.

Lemma json_textures (root : Root) (materials : list json) (w : Writer) :
  jarray "textures" (clean (rootObject root materials w)) = w_textures w.
Proof. by rewrite jarray_clean by (apply rootObject_NoDup || done). Qed.

Lemma json_images (root : Root) (materials : list json) (w : Writer) :
  jarray "images" (clean (rootObject root materials w)) = w_images w.
Proof. by rewrite jarray_clean by (apply rootObject_NoDup || done). Qed.

Lemma json_buffers (root : Root) (materials : list json) (w : Writer) :
  jarray "buffers" (clean (rootObject root materials w)) = w_buffers w.
Proof. by rewrite jarray_clean by (apply rootObject_NoDup || done). Qed.

Lemma json_materials (root : Root) (materials : list json) (w : Writer) :
  jarray "materials" (clean (rootObject root materials w)) = materials.
Proof. by rewrite jarray_clean by (apply rootObject_NoDup || done). Qed.

(** ** Planned buffer views *)

Lemma groupView_buffer (bufferIndex byteOffset : nat) (g : Group) :
  oget "buffer" (groupView bufferIndex byteOffset g) = Some (JNat bufferIndex).
Proof.
  destruct g as [l [t|]|l]; unfold groupView; try done.
  destruct (decide (t = 0%Z)); [done|]. by rewrite oget_oset_ne.
Qed.

Lemma groupView_byteOffset (bufferIndex byteOffset : nat) (g : Group) :
  oget "byteOffset" (groupView bufferIndex byteOffset g) = Some (JNat byteOffset).
Proof.
  destruct g as [l [t|]|l]; unfold groupView; try done.
  destruct (decide (t = 0%Z)); [done|]. by rewrite oget_oset_ne.
Qed.

Lemma concatLength_multiple (l : list Accessor) : exists k, concatLength l = 4 * k.
Proof.
  induction l as [|a l [k IH]]; [by exists 0|].
  rewrite concatLength_cons, IH. unfold paddedArray. rewrite length_pad.
  destruct (padNumber_multiple (length (arrayBuffer a))) as [k' ->].
  exists (k' + k). lia.
Qed.

Lemma groupLength_multiple (g : Group) : exists k, groupLength g = 4 * k.
Proof.
  destruct g as [l t|l]; simpl; [apply concatLength_multiple|].
  destruct (byteStrideOf_multiple l) as [k ->]. exists (vertexCountOf l * k). lia.
Qed.

Lemma planViews_planned (bufferIndex : nat) (gs : list Group) :
  forall k, Forall (plannedView bufferIndex) (planViews bufferIndex (4 * k) gs).
Proof.
  induction gs as [|g gs IH]; intros k; cbn [planViews]; constructor.
  - by exists k, g.
  - destruct (groupLength_multiple g) as [k' ->].
    replace (4 * k + 4 * k') with (4 * (k + k')) by lia. apply IH.
Qed.

Lemma stageViews_planned (accessorLinks : gmap nat (list Link))
    (images : list (list Z)) (buffers : list Buffer) :
  forall bufferIndex,
    Forall (fun view => exists i, plannedView i view)
      (stageViews accessorLinks images bufferIndex buffers).
Proof.
  induction buffers as [|b bs IH]; intros bufferIndex; cbn [stageViews];
    [constructor|].
  apply Forall_app. split; [|apply IH].
  eapply Forall_impl; [apply (planViews_planned bufferIndex _ 0)|].
  intros view Hview. by exists bufferIndex.
Qed.

(** The views of the document after the buffers stage: the reserved image
    views, then the planned accessor views. *)
Lemma written_views (options : WriterOptions) (multiple : bool)
    (accessorLinks : gmap nat (list Link)) (buffers : list Buffer) (w w' : Writer) :
  buffersWritten options multiple accessorLinks buffers w w' ->
  length (w_bufferViews w) = length (imageData w) ->
  drop (length (imageData w)) (w_bufferViews w')
  = stageViews accessorLinks (imageData w) (length (w_buffers w)) buffers.
Proof.
  intros (emitted & _ & Hrew & _) Hlen.
  rewrite (imagesRewritten_drop _ _ _ Hrew).
  rewrite drop_app_length'; done.
Qed.

(** ** Written documents *)

Lemma written_document (doc : Document) (options : WriterOptions)
    (nd : NativeDocument) (log : list string) :
  write doc options = Ok (nd, log) ->
  exists emitted imageResources,
    writtenBuffers doc options nd log emitted imageResources.
Proof.
  intros Hwrite.
  destruct (write_outcome doc options) as (w1 & Hstage & Hout).
  rewrite Hwrite in Hout. inversion Hout as [|w2 materials placed root w3
    Hok Hwritten Hnames Hinfos Hslots Hindex Hrun Hsame]; subst.
  destruct Hstage as (Hplaced & Hdata & Hlen & Hacc & Hbuf & _ & _ & _ & _ & Hwarn
                      & Himages & Hblobs & Hempty).
  pose proof (written_views _ _ _ _ _ _ Hwritten Hlen) as Hviews.
  destruct Hwritten as (emitted & Hacc2 & Hrew & Hwarn2 & Hem & Hlens & Hbuf2
                        & Hres & Hsame12).
  destruct Hsame12 as (_ & _ & Himg12 & _).
  destruct Hsame as (HaccS & HviewsS & HimgS & HbufS & HresS & _ & _ & HwarnS).
  exists emitted, (w_resources w1). unfold writtenBuffers.
  cbn [json_of resources_of].
  rewrite json_accessors, json_bufferViews, json_buffers, json_images.
  subst w3 root. rewrite HaccS, HviewsS, HimgS, HbufS, HresS, HwarnS.
  rewrite <- Hdata, Hviews, Hacc2, Hwarn2, Hbuf2, Hres, Himg12.
  rewrite Hacc, Hbuf, Hwarn, Hlen. cbn [app length].
  split_and!; try done.
  intros i Hi. destruct (Hplaced i Hi) as (imageDef & view & Himg & Hbv & _).
  by exists imageDef.
Qed.

(** [write] returns a document as soon as every buffer can be partitioned. *)
Lemma write_returns (doc : Document) (options : WriterOptions) :
  partitionsOk (gatherAccessorLinks (getLinks doc)) (listBuffers (getRoot doc)) ->
  exists nd log, write doc options = Ok (nd, log).
Proof.
  intros Hok. destruct (write_outcome doc options) as (w1 & Hstage & Hout).
  inversion Hout as [before after b e Hsplit Hokb Hthrow Hw|]; [|eauto].
  exfalso. unfold partitionsOk in Hok. rewrite Hsplit in Hok.
  apply Forall_app in Hok as [_ Hok]. inversion Hok as [|? ? [groups Hg] _].
  congruence.
Qed.

Lemma first_throw_unique (accessorLinks : gmap nat (list Link))
    (before : list Buffer) :
  forall (before' after after' : list Buffer) (b b' : Buffer) (e e' : string),
    before ++ b :: after = before' ++ b' :: after' ->
    partitionsOk accessorLinks before ->
    partitionsOk accessorLinks before' ->
    partitionAccessors accessorLinks b = Throw e ->
    partitionAccessors accessorLinks b' = Throw e' ->
    e = e'.
Proof.
  induction before as [|x before IH];
    intros [|x' before'] after after' b b' e e' Heq Hok Hok' Hthrow Hthrow';
    simpl in Heq.
  - injection Heq as -> _. congruence.
  - injection Heq as -> _. inversion Hok' as [|? ? [g Hg] _]. congruence.
  - injection Heq as -> _. inversion Hok as [|? ? [g Hg] _]. congruence.
  - injection Heq as -> Heq. inversion Hok; inversion Hok'; subst.
    by eapply IH.
Qed.

(** [write] throws the error of the first buffer that cannot be
    partitioned. *)
Lemma write_throws (doc : Document) (options : WriterOptions)
    (before after : list Buffer) (b : Buffer) (e : string) :
  listBuffers (getRoot doc) = before ++ b :: after ->
  partitionsOk (gatherAccessorLinks (getLinks doc)) before ->
  partitionAccessors (gatherAccessorLinks (getLinks doc)) b = Throw e ->
  write doc options = Throw e.
Proof.
  intros Hsplit Hok Hthrow.
  destruct (write_outcome doc options) as (w1 & Hstage & Hout).
  inversion Hout as [before' after' b' e' Hsplit' Hok' Hthrow' Hw|
                     w2 materials placed root w3 Hok' _ _ _ _ _ _ _ Hw].
  - f_equal. rewrite Hsplit in Hsplit'. symmetry. by eapply first_throw_unique.
  - exfalso. subst root. unfold partitionsOk in Hok'. rewrite Hsplit in Hok'.
    apply Forall_app in Hok' as [_ Hok']. inversion Hok' as [|? ? [groups Hg] _].
    congruence.
Qed.

(** * Statements of the specification *)

(** C10. For every property whose [getExtensions()] object is non-empty,
    [createPropertyDef] stores the extensions object under [extras],
    overwriting the extras copied before; and no definition ever carries an
    [extensions] member. *)
Theorem createPropertyDef_extensions_in_extras (property : Property) :
  oget "extensions" (createPropertyDef property) = None
  /\ (getExtensions property ≠ [] ->
      oget "extras" (createPropertyDef property)
      = Some (JObj (getExtensions property))).
Proof.
  split; [by apply createPropertyDef_other|].
  intros Hext. unfold createPropertyDef.
  destruct (getExtensions property) as [|kv ext] eqn:Hexts; [done|].
  simpl. apply oget_oset_eq.
Qed.

Lemma createPropertyDef_extensions_in_extras_witness :
  getExtensions extendedProperty ≠ []
  /\ getExtras extendedProperty ≠ []
  /\ oget "extras" (createPropertyDef extendedProperty)
     = Some (JObj (getExtensions extendedProperty)).
Proof.
  split; [done|]. split; [done|].
  apply (createPropertyDef_extensions_in_extras extendedProperty). done.
Defined.

(** ** Interleaved packing *)

Lemma interleaveDefs_lookup (accessors : list Accessor) (bufferView : nat) :
  forall (byteStride k : nat) (a : Accessor),
    accessors !! k = Some a ->
    interleaveDefs bufferView byteStride accessors !! k
    = Some (JObj (oset "byteOffset" (JNat (byteStride + localOffset accessors k))
                    (oset "bufferView" (JNat bufferView) (createAccessorDef a)))).
Proof.
  induction accessors as [|b l IH]; intros byteStride k a Hk; [done|].
  destruct k as [|k]; simpl in *.
  - injection Hk as ->. unfold localOffset. simpl.
    change (byteStrideOf []) with 0. by rewrite Nat.add_0_r.
  - rewrite (IH _ _ _ Hk). unfold localOffset. simpl.
    rewrite byteStrideOf_cons. by rewrite Nat.add_assoc.
Qed.

(** C7. For every non-empty list of accessors of [count] elements each,
    [interleaveAccessors] emits one buffer view with [byteStride] the sum of
    the padded element sizes, [byteLength = count * byteStride] and target
    34962; the [k]-th accessor's [byteOffset] is the sum of the padded sizes
    before it; component [j] of element [i] is stored little-endian at
    [i * byteStride + localOffset + j * componentSize]: the bytes there, as
    many as the component has, read least significant byte first, hold the
    bits of the component (for a NaN of a [Float32Array], a NaN). For
    POSITION and NORMAL (VEC3, FLOAT) the stride is 24 and the offsets are 0
    and 12. *)
Theorem interleaveAccessors_layout (accessors : list Accessor)
    (count bufferIndex bufferByteOffset : nat) (w : Writer) :
  accessors ≠ [] ->
  Forall (fun a => acc_count a = count) accessors ->
  interleavedLayout accessors count bufferIndex bufferByteOffset w
  /\ (forall position normal,
        acc_type position = VEC3 -> acc_componentType position = FLOAT ->
        acc_type normal = VEC3 -> acc_componentType normal = FLOAT ->
        byteStrideOf [position; normal] = 24
        /\ localOffset [position; normal] 0 = 0
        /\ localOffset [position; normal] 1 = 12).
Proof.
  intros Hne Hcount. split.
  - destruct (interleaveAccessors_run accessors bufferIndex bufferByteOffset w Hne)
      as (table & buffer & Hbuf & Hrun).
    assert (Hvertex : vertexCountOf accessors = count).
    { destruct accessors as [|first l]; [done|]. by inversion Hcount. }
    rewrite Hvertex in *.
    destruct (interleave_spec accessors count) as (buffer' & Hbuf' & Hlen & Hslots).
    assert (buffer' = buffer) as -> by congruence.
    exists buffer. eexists. split; [exact Hrun|]. split; [done|].
    split; [simpl; by rewrite Hvertex|]. split; [|split; [done|]].
    + intros k a Hk. eexists. simpl.
      rewrite lookup_app_r by lia.
      replace (length (w_accessors w) + k - length (w_accessors w)) with k by lia.
      rewrite (interleaveDefs_lookup _ _ _ _ _ Hk). split; [done|].
      split; [apply oget_oset_eq|].
      rewrite oget_oset_ne by done. apply oget_oset_eq.
    + intros i k a j Hi Hk Hj. rewrite (Hslots i k a j Hi Hk Hj).
      apply scalarBytes_littleEndian.
  - intros position normal Hp1 Hp2 Hn1 Hn2.
    unfold localOffset, byteStrideOf, paddedElementSize, getElementSize,
      getComponentSize. simpl. rewrite Hp1, Hp2, Hn1, Hn2. done.
Qed.

Lemma interleaveAccessors_layout_witness :
  ([positionAccessor; normalAccessor] ≠ []
   /\ Forall (fun a => acc_count a = 3) [positionAccessor; normalAccessor]
   /\ interleavedLayout [positionAccessor; normalAccessor] 3 0 0 initialWriter
   /\ byteStrideOf [positionAccessor; normalAccessor] = 24
   /\ 3 * byteStrideOf [positionAccessor; normalAccessor] = 72
   /\ localOffset [positionAccessor; normalAccessor] 1 = 12
   /\ exists w',
        interleaveAccessors [positionAccessor; normalAccessor] 0 0 initialWriter
        = Ok ({| res_byteLength := 72;
                 res_buffers :=
                [[0; 0; 0; 0; 0; 0; 0; 0; 0; 0; 0; 0;
                  0; 0; 0; 0; 0; 0; 0; 0; 0; 0; 128; 63;
                  0; 0; 128; 63; 0; 0; 0; 0; 0; 0; 0; 0;
                  0; 0; 0; 0; 0; 0; 0; 0; 0; 0; 128; 63;
                  0; 0; 0; 0; 0; 0; 128; 63; 0; 0; 0; 0;
                  0; 0; 0; 0; 0; 0; 0; 0; 0; 0; 128; 63]%Z] |}, w'))
  /\ ([colorAccessor; gridAccessor] ≠ []
      /\ Forall (fun a => acc_count a = 3) [colorAccessor; gridAccessor]
      /\ interleavedLayout [colorAccessor; gridAccessor] 3 0 0 initialWriter
      /\ byteStrideOf [colorAccessor; gridAccessor] = 12
      /\ localOffset [colorAccessor; gridAccessor] 1 = 4
      /\ exists w',
           interleaveAccessors [colorAccessor; gridAccessor] 0 0 initialWriter
           = Ok ({| res_byteLength := 36;
                    res_buffers :=
                   [[255; 128; 0; 0; 2; 1; 4; 3; 6; 5; 0; 0;
                     0; 255; 128; 0; 8; 7; 10; 9; 12; 11; 0; 0;
                     128; 0; 255; 0; 14; 13; 16; 15; 18; 17; 0; 0]%Z] |},
                 w')).
Proof.
  assert (H1 : [positionAccessor; normalAccessor] ≠ []) by done.
  assert (H2 : Forall (fun a => acc_count a = 3) [positionAccessor; normalAccessor])
    by (repeat constructor).
  assert (H3 : [colorAccessor; gridAccessor] ≠ []) by done.
  assert (H4 : Forall (fun a => acc_count a = 3) [colorAccessor; gridAccessor])
    by (repeat constructor).
  split.
  - split; [exact H1|]. split; [exact H2|].
    split;
      [exact (proj1 (interleaveAccessors_layout
                       [positionAccessor; normalAccessor] 3 0 0 initialWriter
                       H1 H2))|].
    split; [reflexivity|]. split; [reflexivity|]. split; [reflexivity|].
    eexists. vm_compute. reflexivity.
  - split; [exact H3|]. split; [exact H4|].
    split;
      [exact (proj1 (interleaveAccessors_layout
                       [colorAccessor; gridAccessor] 3 0 0 initialWriter
                       H3 H4))|].
    split; [reflexivity|]. split; [reflexivity|].
    eexists. vm_compute. reflexivity.
Defined.

(** ** Alignment of the buffer views *)

Lemma plannedView_aligned (bufferIndex : nat) (view : json) :
  plannedView bufferIndex view ->
  exists k, defField "byteOffset" view = Some (JNat (4 * k)).
Proof. intros (k & g & ->). exists k. apply groupView_byteOffset. Qed.

(** The accessor views of a written document are the planned ones. *)
Lemma written_document_views (doc : Document) (options : WriterOptions)
    (nd : NativeDocument) (log : list string) :
  write doc options = Ok (nd, log) ->
  drop (length (stageImages options (getRoot doc)))
       (jarray "bufferViews" (json_of nd))
  = stageViews (gatherAccessorLinks (getLinks doc))
      (stageImages options (getRoot doc)) 0 (listBuffers (getRoot doc)).
Proof.
  intros Hwrite.
  destruct (write_outcome doc options) as (w1 & Hstage & Hout).
  rewrite Hwrite in Hout. inversion Hout as [|w2 materials placed root w3
    Hok Hwritten Hnames Hinfos Hslots Hindex Hrun Hsame]; subst.
  destruct Hstage as (_ & Hdata & Hlen & _ & Hbuf & _).
  destruct Hsame as (_ & Hviews & _).
  cbn [json_of]. rewrite json_bufferViews. subst w3 root. rewrite Hviews.
  rewrite <- Hdata.
  rewrite (written_views _ _ _ _ _ _ Hwritten Hlen). by rewrite Hbuf.
Qed.

(** C5, as stated, fails: the second image of [twoImagesDocument] is placed
    right after the three unpadded bytes of the first. *)
Lemma image_view_not_aligned : ~ viewsAligned 0 twoImagesDocument glbOptions.
Proof.
  intros Hclaim.
  destruct (write twoImagesDocument glbOptions) as [[nd log]|e] eqn:Hwrite;
    [|by vm_compute in Hwrite].
  destruct (Hclaim nd log Hwrite 1
              (JObj [("buffer", JInt 0); ("byteOffset", JInt 11);
                     ("byteLength", JInt 5)])) as [k Hk].
  - lia.
  - vm_compute in Hwrite. injection Hwrite as <- <-. reflexivity.
  - simpl in Hk. injection Hk as Hk. lia.
Qed.

(** C5, amended. In every document successfully written, every buffer view
    that holds accessor data (the entries of [json.bufferViews] after the
    views reserved for the images) has a [byteOffset] that is a multiple of
    4. *)
Theorem accessor_views_aligned (doc : Document) (options : WriterOptions) :
  viewsAligned (length (stageImages options (getRoot doc))) doc options.
Proof.
  intros nd log Hwrite i view Hi Hview.
  pose proof (written_document_views doc options nd log Hwrite) as Hviews.
  pose proof (stageViews_planned (gatherAccessorLinks (getLinks doc))
                (stageImages options (getRoot doc)) (listBuffers (getRoot doc)) 0)
    as Hplanned.
  rewrite <- Hviews in Hplanned. rewrite Forall_forall in Hplanned.
  destruct (Hplanned view) as [bufferIndex Hp].
  - apply list_elem_of_lookup. exists (i - length (stageImages options (getRoot doc))).
    rewrite lookup_drop. rewrite <- Hview. f_equal. lia.
  - by eapply plannedView_aligned.
Qed.

Lemma accessor_views_aligned_witness :
  exists nd log view,
    write twoImagesDocument glbOptions = Ok (nd, log)
    /\ jarray "bufferViews" (json_of nd) !! 2 = Some view
    /\ exists k, defField "byteOffset" view = Some (JNat (4 * k)).
Proof.
  destruct (write twoImagesDocument glbOptions) as [[nd log]|e] eqn:Hwrite;
    [|by vm_compute in Hwrite].
  assert (Hview : jarray "bufferViews" (json_of nd) !! 2
                  = Some (JObj [("buffer", JInt 0); ("byteOffset", JInt 0);
                                ("byteLength", JInt 8); ("target", JInt 34963)])).
  { vm_compute in Hwrite. injection Hwrite as <- <-. reflexivity. }
  exists nd, log. eexists. split; [reflexivity|]. split; [exact Hview|].
  apply (accessor_views_aligned twoImagesDocument glbOptions nd log Hwrite 2);
    [vm_compute; lia | exact Hview].
Defined.

(** ** Accessors in more than one role *)

Lemma foldR_throws {A B : Type} (body : B -> A -> result B) (x : A) (l : list A) :
  x ∈ l ->
  (forall acc, exists e, body acc x = Throw e) ->
  forall acc, exists e, foldR body acc l = Throw e.
Proof.
  intros Hin Hthrow. induction l as [|y l IH]; intros acc;
    [by apply elem_of_nil in Hin|].
  simpl. apply elem_of_cons in Hin as [<-|Hin].
  - destruct (Hthrow acc) as [e ->]. by exists e.
  - destruct (body acc y) as [acc'|e]; simpl; [by apply IH | by exists e].
Qed.

Lemma categorize_overlap (accessorLinks : gmap nat (list Link)) (groups : Partition)
    (a : Accessor) :
  rolesOverlap accessorLinks a ->
  categorize accessorLinks groups (ParentAccessor a) = Throw roleError.
Proof.
  unfold rolesOverlap, categorize.
  destruct (existsb isAttributeLink _), (existsb isIndexLink _),
    (existsb isPlainLink _); simpl; done.
Qed.

Lemma categorize_accessor_error (accessorLinks : gmap nat (list Link))
    (groups : Partition) (a : Accessor) (e : string) :
  categorize accessorLinks groups (ParentAccessor a) = Throw e -> e = roleError.
Proof.
  unfold categorize.
  destruct (default [] (accessorLinks !! acc_id a)) as [|link refs]; [done|].
  destruct (existsb isAttributeLink _), (existsb isIndexLink _),
    (existsb isPlainLink _); simpl; congruence.
Qed.

Lemma partition_overlap (accessorLinks : gmap nat (list Link)) (b : Buffer)
    (a : Accessor) :
  ParentAccessor a ∈ buf_listParents b ->
  rolesOverlap accessorLinks a ->
  exists e, partitionAccessors accessorLinks b = Throw e.
Proof.
  intros Hin Hoverlap. unfold partitionAccessors.
  apply (foldR_throws _ (ParentAccessor a)).
  - by apply list_elem_of_filter.
  - intros acc. exists roleError. by apply categorize_overlap.
Qed.

Lemma partition_error (accessorLinks : gmap nat (list Link)) (b : Buffer) (e : string) :
  (forall parent, parent ∈ buf_listParents b ->
     parent = ParentRoot \/ exists a, parent = ParentAccessor a) ->
  partitionAccessors accessorLinks b = Throw e -> e = roleError.
Proof.
  intros Hparents. unfold partitionAccessors.
  assert (Hfiltered : forall parent,
            parent ∈ filter (fun parent => isRootParent parent = false)
                       (buf_listParents b) ->
            exists a, parent = ParentAccessor a).
  { intros parent Hin. apply list_elem_of_filter in Hin as [Hroot Hin].
    destruct (Hparents parent Hin) as [->|Ha]; [done | exact Ha]. }
  revert Hfiltered. generalize emptyPartition.
  induction (filter _ (buf_listParents b)) as [|p l IH]; intros acc Hall Hthrow;
    [done|].
  simpl in Hthrow. destruct (Hall p) as [a ->]; [apply list_elem_of_here|].
  destruct (categorize accessorLinks acc (ParentAccessor a)) as [acc'|e'] eqn:Hcat.
  - simpl in Hthrow. apply (IH acc'); [|done].
    intros parent Hin. apply Hall. by apply list_elem_of_further.
  - simpl in Hthrow. injection Hthrow as <-. by eapply categorize_accessor_error.
Qed.

(** C6, as stated, fails: in [strangeParentDocument] a parent of the buffer
    that is no accessor is met before the accessor used in two roles, and
    [write] throws the error for that parent. *)
Lemma other_error_first :
  ~ (hasRoleOverlap strangeParentDocument ->
     write strangeParentDocument externalOptions = Throw roleError).
Proof.
  intros Hclaim.
  assert (Hoverlap : hasRoleOverlap strangeParentDocument).
  { exists (bufferOf "geometry"
              [ParentOther "[object Object]"; ParentAccessor sharedAccessor]),
           sharedAccessor.
    split; [apply list_elem_of_here|]. split; [|by vm_compute].
    do 2 apply list_elem_of_further. apply list_elem_of_here. }
  specialize (Hclaim Hoverlap). vm_compute in Hclaim. discriminate.
Qed.

(** C6, amended. For every document in which some accessor of a buffer is
    used in more than one of the roles attribute, index and other, [write]
    throws an error and returns no native document; the error is "Attribute
    or index accessors must be used only for that purpose." when every parent
    of every buffer is the root or an accessor. *)
Theorem role_overlap_is_fatal (doc : Document) (options : WriterOptions) :
  hasRoleOverlap doc ->
  (exists e, write doc options = Throw e)
  /\ (onlyAccessorParents doc -> write doc options = Throw roleError).
Proof.
  intros (b & a & Hb & Ha & Hoverlap).
  destruct (partition_overlap _ b a Ha Hoverlap) as [eb Heb].
  destruct (partitions_cases (gatherAccessorLinks (getLinks doc))
              (listBuffers (getRoot doc)))
    as [Hok | (before & b' & after & e & Hsplit & Hok & Hthrow)].
  - exfalso. unfold partitionsOk in Hok. rewrite Forall_forall in Hok.
    destruct (Hok b Hb) as [groups Hgroups]. congruence.
  - pose proof (write_throws doc options before after b' e Hsplit Hok Hthrow) as Hw.
    split; [by exists e|]. intros Honly. rewrite Hw. f_equal.
    apply (partition_error (gatherAccessorLinks (getLinks doc)) b' e); [|done].
    intros parent Hparent. apply (Honly b'); [|done].
    rewrite Hsplit. apply elem_of_app. right. apply list_elem_of_here.
Qed.

Lemma role_overlap_is_fatal_witness :
  hasRoleOverlap overlapDocument
  /\ onlyAccessorParents overlapDocument
  /\ write overlapDocument externalOptions = Throw roleError.
Proof.
  assert (Hoverlap : hasRoleOverlap overlapDocument).
  { exists (bufferOf "geometry" [ParentAccessor sharedAccessor]), sharedAccessor.
    split; [apply list_elem_of_here|]. split; [|by vm_compute].
    apply list_elem_of_further. apply list_elem_of_here. }
  assert (Honly : onlyAccessorParents overlapDocument).
  { intros b parent Hb Hparent. simpl in Hb.
    apply list_elem_of_singleton in Hb as ->. simpl in Hparent.
    apply elem_of_cons in Hparent as [->|Hparent]; [by left|].
    apply list_elem_of_singleton in Hparent as ->. right. by eexists. }
  split; [exact Hoverlap|]. split; [exact Honly|].
  exact (proj2 (role_overlap_is_fatal overlapDocument externalOptions Hoverlap) Honly).
Defined.

(** ** Empty buffers *)

Lemma stageViews_app (accessorLinks : gmap nat (list Link)) (images : list (list Z))
    (l1 l2 : list Buffer) :
  forall bufferIndex,
    stageViews accessorLinks images bufferIndex (l1 ++ l2)
    = stageViews accessorLinks images bufferIndex l1
      ++ stageViews accessorLinks images
           (bufferIndex + length (keptBuffers accessorLinks images l1)) l2.
Proof.
  induction l1 as [|b l1 IH]; intros bufferIndex.
  - simpl. by rewrite Nat.add_0_r.
  - rewrite <- app_comm_cons. cbn [stageViews]. rewrite IH, <- app_assoc.
    do 3 f_equal. unfold keptBuffers. rewrite filter_cons.
    destruct (isEmptyBuffer accessorLinks images b); simpl; lia.
Qed.

Lemma length_stageViews (accessorLinks : gmap nat (list Link)) (images : list (list Z))
    (buffers : list Buffer) :
  forall bufferIndex,
    length (stageViews accessorLinks images bufferIndex buffers)
    = viewCount accessorLinks buffers.
Proof.
  induction buffers as [|b bs IH]; intros bufferIndex; [done|].
  cbn [stageViews]. rewrite length_app, length_planViews, IH. done.
Qed.

Lemma planViews_buffer (bufferIndex : nat) (gs : list Group) (i : nat) :
  i < length gs ->
  exists view,
    planViews bufferIndex 0 gs !! i = Some view
    /\ defField "buffer" view = Some (JNat bufferIndex).
Proof.
  intros Hi.
  destruct (lookup_lt_is_Some_2 (planViews bufferIndex 0 gs) i) as [view Hview];
    [by rewrite length_planViews|].
  exists view. split; [done|].
  pose proof (planViews_planned bufferIndex gs 0) as Hplanned.
  rewrite Forall_forall in Hplanned.
  destruct (Hplanned view) as (k & g & ->); [by eapply list_elem_of_lookup_2|].
  apply groupView_buffer.
Qed.

Lemma emittedDef_name (options : WriterOptions) (multiple : bool) (e : Emitted) :
  defName (emittedDef options multiple e) = propName (buf_property (em_buffer e)).
Proof.
  unfold emittedDef, emittedBufferDef, defName.
  destruct (isGLB options), (embedded options);
    repeat (rewrite oget_oset_ne by done); apply createPropertyDef_name.
Qed.

Lemma emittedDef_byteLength (options : WriterOptions) (multiple : bool) (e : Emitted) :
  defField "byteLength" (emittedDef options multiple e)
  = Some (JNat (length (em_data e))).
Proof.
  unfold emittedDef, emittedBufferDef, defField.
  destruct (isGLB options), (embedded options);
    repeat (rewrite oget_oset_ne by done); apply oget_oset_eq.
Qed.

Lemma emittedDef_uri (options : WriterOptions) (multiple : bool) (e : Emitted) :
  isGLB options = false -> embedded options = false ->
  defField "uri" (emittedDef options multiple e)
  = Some (JStr (bufferURI options multiple (em_counter e) (em_buffer e)).1).
Proof.
  intros Hglb Hemb. unfold emittedDef, emittedBufferDef, defField.
  rewrite Hglb, Hemb. rewrite oget_oset_ne by done. apply oget_oset_eq.
Qed.

Lemma stored_keys {E : Type} (key : E -> string) (value : E -> list Z) (l : list E) :
  forall (m : gmap string (list Z)) (k : string),
    is_Some (foldl (fun m e => <[key e := value e]> m) m l !! k) ->
    is_Some (m !! k) \/ exists e, e ∈ l /\ key e = k.
Proof.
  induction l as [|e l IH]; intros m k Hk; [by left|].
  simpl in Hk. destruct (IH _ _ Hk) as [Hm | (e' & Hin & Hkey)].
  - destruct (decide (key e = k)) as [Heq|Hne].
    + right. exists e. split; [apply list_elem_of_here | done].
    + left. by rewrite lookup_insert_ne in Hm.
  - right. exists e'. split; [by apply list_elem_of_further | done].
Qed.

Lemma written_skips (doc : Document) (options : WriterOptions)
    (nd : NativeDocument) (log : list string) :
  write doc options = Ok (nd, log) -> emptyBuffersSkipped doc options nd log.
Proof.
  intros Hwrite.
  destruct (written_document _ _ _ _ Hwrite) as (emitted & imageResources & Hw).
  destruct Hw as (Hok & _ & Hviews & Hlog & Hem & Hlens & Hbuffers & Hres
                  & Hblobs & Hempty & _).
  unfold emptyBuffersSkipped, skippedBuffers, keptBuffers. split_and!.
  - exact Hlog.
  - rewrite <- Hem, Hbuffers. apply Forall2_fmap. apply Forall_Forall2_diag.
    eapply Forall_impl; [exact Hlens|]. intros e He. cbv beta.
    rewrite emittedDef_name, emittedDef_byteLength, He. done.
  - intros before b after i Hsplit Hkept Hi.
    rewrite Hsplit in Hviews.
    change (before ++ b :: after) with (before ++ [b] ++ after) in Hviews.
    rewrite !stageViews_app in Hviews. cbn [stageViews] in Hviews.
    rewrite app_nil_r in Hviews.
    destruct (planViews_buffer
                (0 + length (keptBuffers (gatherAccessorLinks (getLinks doc))
                               (stageImages options (getRoot doc)) before))
                (bufferGroups (gatherAccessorLinks (getLinks doc)) b) i Hi)
      as (view & Hview & Hbuffer).
    exists view. split; [|exact Hbuffer].
    rewrite <- Nat.add_assoc, <- lookup_drop, Hviews.
    rewrite lookup_app_r by (rewrite length_stageViews; lia).
    rewrite length_stageViews.
    replace (viewCount _ before + i - viewCount _ before) with i by lia.
    rewrite lookup_app_l by (rewrite length_planViews; lia). exact Hview.
  - intros key Hkey. rewrite Hres in Hkey. unfold storeEmitted in Hkey.
    destruct (embedded options) eqn:Hemb.
    + rewrite Hempty in Hkey;
        [by apply is_Some_alt in Hkey | unfold embedsImages; rewrite Hemb; apply orb_true_r].
    + apply stored_keys in Hkey as [Himage | (e & He & Hkey)].
      * right. right. destruct (Hblobs key Himage) as [Hnone | (def & Hdef & Huri)].
        -- by apply is_Some_alt in Hnone.
        -- exists (JObj def). done.
      * destruct (isGLB options) eqn:Hglb.
        -- left. split; [done|]. unfold bufferURI in Hkey. rewrite Hglb in Hkey.
           split; [done|]. rewrite Hbuffers. intros Hnil.
           apply fmap_nil_inv in Hnil. subst. by apply elem_of_nil in He.
        -- right. left. exists (emittedDef options (multipleBuffers (getRoot doc)) e).
           split; [rewrite Hbuffers; by apply list_elem_of_fmap_2|].
           rewrite emittedDef_uri by done. by rewrite Hkey.
Qed.

(** C9. When no buffer of the document raises a fatal error, [write] completes
    and returns a native document, whatever the number of buffers with a packed
    byte length of zero.  Each such buffer gives one warning and nothing else:
    [json.buffers] holds the definitions of the other buffers only, in order
    and with their packed lengths; every blob of the resources belongs to one
    of these definitions (or is the GLB blob, or an image); and every buffer
    view of a buffer that was kept carries the place of that buffer's
    definition in [json.buffers]. *)
Theorem empty_buffers_are_skipped (doc : Document) (options : WriterOptions) :
  partitionsOk (gatherAccessorLinks (getLinks doc)) (listBuffers (getRoot doc)) ->
  exists nd log,
    write doc options = Ok (nd, log)
    /\ emptyBuffersSkipped doc options nd log.
Proof.
  intros Hok. destruct (write_returns doc options Hok) as (nd & log & Hwrite).
  exists nd, log. split; [exact Hwrite|]. by apply written_skips.
Qed.

Lemma empty_buffers_are_skipped_witness :
  exists nd log,
    write emptyBufferDocument externalOptions = Ok (nd, log)
    /\ emptyBuffersSkipped emptyBufferDocument externalOptions nd log
    /\ length log = 1
    /\ length (jarray "buffers" (json_of nd)) = 2.
Proof.
  assert (Hok : partitionsOk (gatherAccessorLinks (getLinks emptyBufferDocument))
                  (listBuffers (getRoot emptyBufferDocument))).
  { repeat constructor; eexists; vm_compute; reflexivity. }
  destruct (empty_buffers_are_skipped emptyBufferDocument externalOptions Hok)
    as (nd & log & Hwrite & Hskipped).
  exists nd, log. split; [exact Hwrite|]. split; [exact Hskipped|].
  vm_compute in Hwrite. injection Hwrite as <- <-. split; reflexivity.
Defined.

(** ** Images and several buffers *)

(** C2, at the failing input: two buffers whose indices take 8 and 12 bytes,
    one image of 3 bytes, embedded mode.  The image bytes are appended to both
    buffers (byte lengths 11 and 15), and the byte offset of the image's
    buffer view, which names buffer 0, is the one computed for the last buffer
    (12), not the position of the image in buffer 0 (8). *)
Theorem images_appended_to_every_buffer :
  exists nd log,
    write twoBuffersDocument embeddedOptions = Ok (nd, log)
    /\ defField "byteLength" <$> jarray "buffers" (json_of nd)
       = [Some (JInt 11); Some (JInt 15)]
    /\ packedLength (gatherAccessorLinks (getLinks twoBuffersDocument)) []
         <$> listBuffers (getRoot twoBuffersDocument) = [8; 12]
    /\ jarray "bufferViews" (json_of nd)
       = [JObj [("buffer", JInt 0); ("byteOffset", JInt 12); ("byteLength", JInt 3)];
          JObj [("buffer", JInt 0); ("byteOffset", JInt 0); ("byteLength", JInt 8);
                ("target", JInt 34963)];
          JObj [("buffer", JInt 1); ("byteOffset", JInt 0); ("byteLength", JInt 12);
                ("target", JInt 34963)]]
    /\ oget "bufferView" <$> (jarray "images" (json_of nd) ≫= fun def =>
                                match def with JObj o => [o] | _ => [] end)
       = [Some (JInt 0)].
Proof.
  destruct (write twoBuffersDocument embeddedOptions) as [[nd log]|e] eqn:Hwrite;
    [|by vm_compute in Hwrite].
  exists nd, log. split; [reflexivity|].
  vm_compute in Hwrite. injection Hwrite as <- <-. by vm_compute.
Qed.

(** ** The order of the arrays *)

Lemma json_meshes (root : Root) (materials : list json) (w : Writer) :
  jarray "meshes" (clean (rootObject root materials w))
  = writeMesh (accessorIndexMap w) (indexMap (mat_id <$> listMaterials root))
      <$> listMeshes root.
Proof. by rewrite jarray_clean by (apply rootObject_NoDup || done). Qed.

Lemma json_cameras (root : Root) (materials : list json) (w : Writer) :
  jarray "cameras" (clean (rootObject root materials w))
  = writeCamera <$> listCameras root.
Proof. by rewrite jarray_clean by (apply rootObject_NoDup || done). Qed.

Lemma json_nodes (root : Root) (materials : list json) (w : Writer) :
  jarray "nodes" (clean (rootObject root materials w))
  = zip_with (attachNode (indexMap (mesh_id <$> listMeshes root))
                (indexMap (cam_id <$> listCameras root))
                (indexMap (skin_id <$> listSkins root))
                (indexMap (node_id <$> listNodes root)))
      (listNodes root) (writeNode <$> listNodes root).
Proof. by rewrite jarray_clean by (apply rootObject_NoDup || done). Qed.

Lemma json_skins (root : Root) (materials : list json) (w : Writer) :
  jarray "skins" (clean (rootObject root materials w))
  = writeSkin (accessorIndexMap w) (indexMap (node_id <$> listNodes root))
      <$> listSkins root.
Proof. by rewrite jarray_clean by (apply rootObject_NoDup || done). Qed.

Lemma json_animations (root : Root) (materials : list json) (w : Writer) :
  jarray "animations" (clean (rootObject root materials w))
  = writeAnimation (accessorIndexMap w) (indexMap (node_id <$> listNodes root))
      <$> listAnimations root.
Proof. by rewrite jarray_clean by (apply rootObject_NoDup || done). Qed.

Lemma json_scenes (root : Root) (materials : list json) (w : Writer) :
  jarray "scenes" (clean (rootObject root materials w))
  = writeScene (indexMap (node_id <$> listNodes root)) <$> listScenes root.
Proof. by rewrite jarray_clean by (apply rootObject_NoDup || done). Qed.

Lemma namesFollow_fmap {A : Type} (property : A -> Property) (f : A -> json)
    (listing : list A) :
  (forall x, defName (f x) = propName (property x)) ->
  namesFollow property listing (f <$> listing).
Proof.
  intros Hname. unfold namesFollow. rewrite <- list_fmap_compose.
  apply list_fmap_ext. intros i x _. apply Hname.
Qed.

Ltac name_through :=
  cbn [defName]; repeat (rewrite oget_oset_ne by done);
  apply createPropertyDef_name.

Lemma writeMesh_name (accessors materials : gmap nat nat) (mesh : Mesh) :
  defName (writeMesh accessors materials mesh) = propName (mesh_property mesh).
Proof.
  unfold writeMesh.
  destruct (mesh_weights mesh), (targetNamesOf (listPrimitives mesh)); name_through.
Qed.

Lemma writeCamera_name (camera : Camera) :
  defName (writeCamera camera) = propName (cam_property camera).
Proof. unfold writeCamera. case_decide; name_through. Qed.

Lemma attachNode_name (meshes cameras skins nodes : gmap nat nat) (node : Node) :
  defName (attachNode meshes cameras skins nodes node (writeNode node))
  = propName (node_property node).
Proof.
  unfold attachNode, writeNode.
  destruct (node_mesh node), (node_camera node), (node_skin node),
    (node_children node), (node_weights node); name_through.
Qed.

Lemma writeSkin_name (accessors nodes : gmap nat nat) (skin : Skin) :
  defName (writeSkin accessors nodes skin) = propName (skin_property skin).
Proof.
  unfold writeSkin.
  destruct (getInverseBindMatrices skin), (getSkeleton skin); name_through.
Qed.

Lemma writeAnimation_name (accessors nodes : gmap nat nat) (animation : Animation) :
  defName (writeAnimation accessors nodes animation)
  = propName (anim_property animation).
Proof. unfold writeAnimation. name_through. Qed.

Lemma writeScene_name (nodes : gmap nat nat) (scene : Scene) :
  defName (writeScene nodes scene) = propName (scene_property scene).
Proof. unfold writeScene. name_through. Qed.

Lemma zip_with_fmap_r {A B C : Type} (f : A -> B -> C) (g : A -> B) (l : list A) :
  zip_with f l (g <$> l) = (fun x => f x (g x)) <$> l.
Proof.
  induction l as [|x l IH]; [done|].
  rewrite !fmap_cons. cbn [zip_with]. by rewrite IH.
Qed.

Lemma createAccessorDef_name (bufferView byteOffset : nat) (a : Accessor) :
  defName (JObj (oset "byteOffset" (JNat byteOffset)
                   (oset "bufferView" (JNat bufferView) (createAccessorDef a))))
  = propName (acc_property a).
Proof. unfold createAccessorDef. name_through. Qed.

Lemma concatDefs_names (bufferView : nat) (l : list Accessor) :
  forall byteOffset,
    namesFollow acc_property l (concatDefs bufferView byteOffset l).
Proof.
  unfold namesFollow. induction l as [|a l IH]; intros byteOffset; [done|].
  cbn [concatDefs]. rewrite !fmap_cons, IH, createAccessorDef_name. done.
Qed.

Lemma interleaveDefs_names (bufferView : nat) (l : list Accessor) :
  forall byteStride,
    namesFollow acc_property l (interleaveDefs bufferView byteStride l).
Proof.
  unfold namesFollow. induction l as [|a l IH]; intros byteStride; [done|].
  cbn [interleaveDefs]. rewrite !fmap_cons, IH, createAccessorDef_name. done.
Qed.

Lemma planDefs_names (gs : list Group) :
  forall bufferView,
    namesFollow acc_property (gs ≫= groupAccessors) (planDefs bufferView gs).
Proof.
  unfold namesFollow. induction gs as [|g gs IH]; intros bufferView; [done|].
  cbn [planDefs]. rewrite bind_cons, !fmap_app, IH. f_equal.
  destruct g; [apply concatDefs_names | apply interleaveDefs_names].
Qed.

Lemma stageDefs_names (accessorLinks : gmap nat (list Link)) (buffers : list Buffer) :
  forall bufferView,
    namesFollow acc_property (packedAccessors accessorLinks buffers)
      (stageDefs accessorLinks bufferView buffers).
Proof.
  unfold namesFollow, packedAccessors.
  induction buffers as [|b bs IH]; intros bufferView; [done|].
  cbn [stageDefs]. rewrite bind_cons, !fmap_app, IH. f_equal.
  apply planDefs_names.
Qed.

(** The root object of a written document and the number of its buffer
    views. *)
Lemma written_root (doc : Document) (options : WriterOptions)
    (nd : NativeDocument) (log : list string) :
  write doc options = Ok (nd, log) ->
  exists materials w,
    json_of nd = clean (rootObject (getRoot doc) materials w)
    /\ length (w_bufferViews w)
       = length (stageImages options (getRoot doc))
         + viewCount (gatherAccessorLinks (getLinks doc)) (listBuffers (getRoot doc)).
Proof.
  intros Hwrite.
  destruct (write_outcome doc options) as (w1 & Hstage & Hout).
  rewrite Hwrite in Hout. inversion Hout as [|w2 materials placed root w3
    Hok Hwritten Hnames Hinfos Hslots Hindex Hrun Hsame]; subst.
  destruct Hstage as (_ & Hdata & Hlen & _).
  destruct Hwritten as (emitted & _ & (Hrew & _) & _).
  destruct Hsame as (_ & HviewsS & _).
  exists materials, w3. split; [done|].
  rewrite HviewsS, Hrew, length_app, length_stageViews, Hlen, Hdata. done.
Qed.

(** The samplers and textures of a written document. *)
Lemma written_textures (doc : Document) (options : WriterOptions)
    (nd : NativeDocument) (log : list string) :
  write doc options = Ok (nd, log) ->
  exists placed images, writtenTextures doc nd placed images.
Proof.
  intros Hwrite.
  destruct (write_outcome doc options) as (w1 & Hstage & Hout).
  rewrite Hwrite in Hout. inversion Hout as [|w2 materials placed root w3
    Hok Hwritten Hnames Hinfos Hslots Hindex Hrun Hsame]; subst.
  destruct Hrun as ((Hsamplers & Htextures) & _ & Hplaced & Hfirst & Hfirst').
  exists placed, (imageIndexMap w3). unfold writtenTextures.
  cbn [json_of]. rewrite json_materials, json_samplers, json_textures.
  split_and!; try done.
  - clear -Hindex Hinfos.
    revert Hindex Hinfos. generalize (slotsRun (documentSlots root) w2).1.
    generalize (materials ≫= textureInfos). intros defs infos Hindex.
    revert defs. induction Hindex as [|p info placed infos Hp _ IH];
      intros defs Hinfos; inversion Hinfos as [|? def ? defs' Hdef Hrest]; subst;
      constructor; [|by apply IH].
    destruct Hdef as (d & -> & Hd). unfold defField. by rewrite Hd.
  - by eapply keyed_NoDup.
  - by eapply keyed_NoDup.
  - eapply Forall_impl; [exact Hplaced|]. intros p [Hs Ht]. split; [|exact Ht].
    by apply Hsamplers.
Qed.

Lemma written_slots (doc : Document) (nd : NativeDocument) (placed : list Placed)
    (images : gmap nat nat) :
  writtenTextures doc nd placed images -> slotsPlaced doc nd placed.
Proof.
  intros (Hslots & _ & Hindex & _ & _ & Hplaced & _). split_and!; try done.
  eapply Forall_impl; [exact Hplaced|]. intros p [_ Ht]. eexists. split; [exact Ht|].
  reflexivity.
Qed.

(** The names in the arrays of a written document follow the listings,
    the accessors and their views are in packing order after the views of
    the images, and textures and samplers are numbered by first use. *)
Lemma written_order (doc : Document) (options : WriterOptions)
    (nd : NativeDocument) (log : list string) :
  write doc options = Ok (nd, log) -> emissionOrder doc options nd.
Proof.
  intros Hwrite.
  destruct (written_document _ _ _ _ Hwrite) as (emitted & imageResources & Hw).
  destruct Hw as (_ & Haccessors & Hviews & _ & Hem & _ & Hbuffers & _ & _ & _
                  & Himages & Hplaced).
  destruct (written_root _ _ _ _ Hwrite) as (materials & w & Hjson & Hcount).
  destruct (written_textures _ _ _ _ Hwrite) as (placed & images & Htextures).
  pose proof (written_slots _ _ _ _ Htextures) as Hslots.
  destruct Htextures as (_ & Hmaterials & _ & _ & _ & _ & Hfirst & Hfirst').
  unfold emissionOrder. split_and!.
  - exact Himages.
  - exact Hmaterials.
  - rewrite Hjson, json_meshes. apply namesFollow_fmap, writeMesh_name.
  - rewrite Hjson, json_cameras. apply namesFollow_fmap, writeCamera_name.
  - rewrite Hjson, json_nodes, zip_with_fmap_r.
    apply (namesFollow_fmap node_property). intros node. apply attachNode_name.
  - rewrite Hjson, json_skins. apply namesFollow_fmap, writeSkin_name.
  - rewrite Hjson, json_animations. apply namesFollow_fmap, writeAnimation_name.
  - rewrite Hjson, json_scenes. apply namesFollow_fmap, writeScene_name.
  - unfold keptBuffers. rewrite <- Hem, Hbuffers. unfold namesFollow.
    rewrite <- !list_fmap_compose. apply list_fmap_ext. intros i e _.
    apply emittedDef_name.
  - exact Haccessors.
  - rewrite Haccessors. apply stageDefs_names.
  - rewrite Hjson, json_bufferViews. exact Hcount.
  - intros i Hi. destruct (Hplaced i Hi) as (imageDef & Hdef & Hview).
    exists (JObj imageDef). done.
  - exact Hviews.
  - exists placed. done.
Qed.

(** ** Shared samplers and textures *)

Lemma samplerKey_placed (doc : Document) (nd : NativeDocument)
    (placed : list Placed) (images : gmap nat nat) (p q : Placed) :
  writtenTextures doc nd placed images ->
  p ∈ placed -> q ∈ placed ->
  samplerDefOf (slot_sampler (pl_slot p)) = samplerDefOf (slot_sampler (pl_slot q)) ->
  pl_sampler p = pl_sampler q.
Proof.
  intros (_ & _ & _ & Hnodup & _ & Hplaced & _) Hp Hq Heq.
  rewrite Forall_forall in Hplaced.
  destruct (Hplaced p Hp) as [Hsp _]. destruct (Hplaced q Hq) as [Hsq _].
  eapply NoDup_lookup; [exact Hnodup | exact Hsp |].
  rewrite Hsq. unfold samplerKeyOf. by rewrite Heq.
Qed.

(** The slots that the materials stage has placed share their samplers
    and textures. *)
Lemma written_shared (doc : Document) (nd : NativeDocument) (placed : list Placed)
    (images : gmap nat nat) :
  writtenTextures doc nd placed images -> sharedBy doc nd placed.
Proof.
  intros Htextures.
  pose proof (written_slots _ _ _ _ Htextures) as Hslots.
  pose proof Htextures as (_ & _ & _ & Hsamplers & Hnodup & Hplaced & Hfirst & Hfirst').
  rewrite Forall_forall in Hplaced.
  split_and!; try done.
  - intros p q Hp Hq Heq. by eapply samplerKey_placed.
  - intros p q Hp Hq Himage Heq.
    pose proof (samplerKey_placed _ _ _ _ p q Htextures Hp Hq Heq) as Hs.
    destruct (Hplaced p Hp) as [_ Htp]. destruct (Hplaced q Hq) as [_ Htq].
    eapply NoDup_lookup; [exact Hnodup | |].
    + rewrite list_lookup_fmap, Htp. reflexivity.
    + rewrite list_lookup_fmap, Htq. unfold textureDefOf.
      by rewrite Himage, Hs.
  - intros key. split.
    + intros Hkey. apply list_elem_of_lookup in Hkey as [s Hs].
      assert (Hlt : s < length (jarray "samplers" (json_of nd))).
      { apply lookup_lt_Some in Hs. by rewrite length_fmap in Hs. }
      apply (proj1 Hfirst') in Hlt. apply list_elem_of_fmap in Hlt as (p & -> & Hp).
      exists p. split; [done|]. destruct (Hplaced p Hp) as [Hsp _]. congruence.
    + intros (p & Hp & ->). destruct (Hplaced p Hp) as [Hsp _].
      by eapply list_elem_of_lookup_2.
  - intros i. rewrite (proj1 Hfirst i). rewrite list_elem_of_fmap. naive_solver.
Qed.

(** * Further properties of the writer *)

(** ** [clean] *)

Lemma filter_all {A : Type} (P : A -> Prop) `{!forall x, Decision (P x)} (l : list A) :
  (forall x, x ∈ l -> P x) -> filter P l = l.
Proof.
  induction l as [|x l IH]; intros Hall; [done|].
  rewrite filter_cons_True by (apply Hall, list_elem_of_here).
  rewrite IH; [done|]. intros y Hy. by apply Hall, list_elem_of_further.
Qed.

Lemma odelete_filter (key : string) (o : object) :
  odelete key o = filter (fun kv => kv.1 ≠ key) o.
Proof.
  induction o as [|[k v] o IH]; [done|].
  cbn [odelete]. rewrite filter_cons. cbn [fst].
  destruct (decide (k = key)) as [->|Hne].
  - rewrite decide_False by (intros H; by apply H). exact IH.
  - rewrite decide_True by done. by rewrite IH.
Qed.

Lemma deleted_filter (unused : list json) :
  forall o : object,
    foldl (fun o k => odelete (toPropertyKey k) o) o unused
    = filter (fun kv => kv.1 ∉ toPropertyKey <$> unused) o.
Proof.
  induction unused as [|k unused IH]; intros o.
  - cbn [foldl]. rewrite fmap_nil. symmetry. apply filter_all.
    intros kv _. apply not_elem_of_nil.
  - cbn [foldl]. rewrite IH, odelete_filter, list_filter_filter, fmap_cons.
    apply list_filter_iff. intros kv. rewrite not_elem_of_cons. tauto.
Qed.

Lemma deletedKeys_spec (obj : object) (key : string) :
  key ∈ deletedKeys obj
  <-> (key, JArr []) ∈ obj
      \/ (key = "null" /\ exists k, (k, JNull) ∈ obj)
      \/ (key = EmptyString /\ exists k, (k, JStr EmptyString) ∈ obj).
Proof.
  unfold deletedKeys. rewrite list_elem_of_fmap. split.
  - intros (v & -> & Hv). apply cleanUnused_spec in Hv as ([k value] & Hin & Hcol).
    destruct Hcol as [[Hvalue ->]|[[Hvalue ->]|[Hvalue ->]]]; simpl in *; subst.
    + by left.
    + right. left. split; [done|]. by exists k.
    + right. right. split; [done|]. by exists k.
  - intros [Hin|[[-> [k Hin]]|[-> [k Hin]]]].
    + exists (JStr key). split; [done|]. apply cleanUnused_spec.
      exists (key, JArr []). split; [done|]. by left.
    + exists JNull. split; [done|]. apply cleanUnused_spec.
      exists (k, JNull). split; [done|]. right. by left.
    + exists (JStr EmptyString). split; [done|]. apply cleanUnused_spec.
      exists (k, JStr EmptyString). split; [done|]. right. by right.
Qed.

(** X1. [clean] changes no value and keeps the remaining keys in their order:
    it removes exactly the members whose key is the key of an empty array,
    or reads "null" while some member is [null], or is empty while some
    member is the empty string.  Afterwards no key holds an empty array. *)
Theorem clean_removes_members (obj : object) :
  clean obj = filter (fun kv => kv.1 ∉ deletedKeys obj) obj
  /\ (forall key,
        key ∈ deletedKeys obj
        <-> (key, JArr []) ∈ obj
            \/ (key = "null" /\ exists k, (k, JNull) ∈ obj)
            \/ (key = EmptyString /\ exists k, (k, JStr EmptyString) ∈ obj))
  /\ (forall key, oget key (clean obj) ≠ Some (JArr [])).
Proof.
  split; [apply deleted_filter|]. split; [apply deletedKeys_spec|].
  intros key Hget. rewrite oget_clean in Hget.
  destruct (decide (key ∈ toPropertyKey <$> cleanUnused obj)) as [Hin|Hnin]; [done|].
  apply Hnin. apply deletedKeys_spec. left.
  clear Hnin. induction obj as [|[k v] obj IH]; [done|].
  simpl in Hget. destruct (decide (k = key)) as [->|Hne].
  - injection Hget as ->. apply list_elem_of_here.
  - apply list_elem_of_further. by apply IH.
Qed.

(** X2. Running [clean] on its own result changes nothing. *)
Theorem clean_idempotent (obj : object) : clean (clean obj) = clean obj.
Proof.
  unfold clean at 1. rewrite deleted_filter.
  apply filter_all. intros kv Hkv Hdel.
  unfold clean in Hkv. rewrite deleted_filter in Hkv.
  apply list_elem_of_filter in Hkv as [Hkept Hkv]. apply Hkept.
  apply deletedKeys_spec. apply deletedKeys_spec in Hdel.
  assert (Hsub : forall m, m ∈ clean obj -> m ∈ obj).
  { intros m Hm. unfold clean in Hm. rewrite deleted_filter in Hm.
    by apply list_elem_of_filter in Hm as [_ Hm]. }
  destruct Hdel as [Hin|[[Hkey [k Hin]]|[Hkey [k Hin]]]].
  - left. by apply Hsub.
  - right. left. split; [done|]. exists k. by apply Hsub.
  - right. right. split; [done|]. exists k. by apply Hsub.
Qed.

(** ** Fatal errors *)

Lemma firstFailure_spec (accessorLinks : gmap nat (list Link)) (buffers : list Buffer) :
  match firstFailure accessorLinks buffers with
  | None => partitionsOk accessorLinks buffers
  | Some e =>
      exists before b after,
        buffers = before ++ b :: after
        /\ partitionsOk accessorLinks before
        /\ partitionAccessors accessorLinks b = Throw e
  end.
Proof.
  induction buffers as [|b bs IH]; [constructor|].
  cbn [firstFailure].
  destruct (partitionAccessors accessorLinks b) as [groups|e] eqn:Hb.
  - destruct (firstFailure accessorLinks bs) as [e|].
    + destruct IH as (before & b' & after & -> & Hok & Hthrow).
      exists (b :: before), b', after. split; [done|]. split; [|done].
      constructor; [eauto | done].
    + constructor; [eauto | done].
  - exists [], b, bs. split; [done|]. split; [constructor | done].
Qed.

Lemma partition_errors (accessorLinks : gmap nat (list Link)) (b : Buffer) (e : string) :
  partitionAccessors accessorLinks b = Throw e ->
  e = roleError \/ exists shown, e = "Unimplemented buffer reference: " +:+ shown.
Proof.
  unfold partitionAccessors. generalize emptyPartition.
  induction (filter _ (buf_listParents b)) as [|p l IH]; intros acc Hthrow; [done|].
  simpl in Hthrow.
  destruct (categorize accessorLinks acc p) as [acc'|e'] eqn:Hcat; simpl in Hthrow.
  - by eapply IH.
  - injection Hthrow as <-. destruct p as [|a|shown].
    + right. simpl in Hcat. injection Hcat as <-. by eexists.
    + left. by eapply categorize_accessor_error.
    + right. simpl in Hcat. injection Hcat as <-. by eexists.
Qed.

(** X3. [write] fails exactly when the accessors of some buffer cannot be
    partitioned. It then throws the error of the first such buffer in root
    order, whatever the options are, and that error is the role error or an
    "Unimplemented buffer reference" error; otherwise it returns a native
    document. *)
Theorem write_fails_with_first_error (doc : Document) (options : WriterOptions) :
  match firstFailure (gatherAccessorLinks (getLinks doc)) (listBuffers (getRoot doc)) with
  | Some e =>
      write doc options = Throw e
      /\ (e = roleError
          \/ exists shown, e = "Unimplemented buffer reference: " +:+ shown)
  | None => exists nd log, write doc options = Ok (nd, log)
  end.
Proof.
  pose proof (firstFailure_spec (gatherAccessorLinks (getLinks doc))
                (listBuffers (getRoot doc))) as Hspec.
  destruct (firstFailure _ _) as [e|].
  - destruct Hspec as (before & b & after & Hsplit & Hok & Hthrow).
    split; [by eapply write_throws | by eapply partition_errors].
  - by apply write_returns.
Qed.

(** ** Data use pre-processing *)

Lemma gather_step (links : list Link) (link : Link) :
  gatherAccessorLinks (links ++ [link])
  = let accessorLinks := gatherAccessorLinks links in
    if decide (ref_type (getParent link) = TRoot) then accessorLinks
    else if decide (ref_type (getChild link) = TAccessor) then
      <[ref_id (getChild link)
        := default [] (accessorLinks !! ref_id (getChild link)) ++ [link]]>
        accessorLinks
    else accessorLinks.
Proof. unfold gatherAccessorLinks. by rewrite foldl_app. Qed.

Lemma gather_lookup (links : list Link) (id : nat) :
  gatherAccessorLinks links !! id
  = match filter (usesAccessor id) links with
    | [] => None
    | uses => Some uses
    end.
Proof.
  induction links as [|link links IH] using rev_ind; [done|].
  rewrite gather_step, filter_app. cbv zeta.
  rewrite filter_cons, filter_nil. unfold usesAccessor at 2.
  destruct (decide (ref_type (getParent link) = TRoot)) as [Hroot|Hroot].
  - rewrite decide_False by (intros (H & _); done). by rewrite app_nil_r.
  - destruct (decide (ref_type (getChild link) = TAccessor)) as [Hacc|Hacc].
    + destruct (decide (ref_id (getChild link) = id)) as [Hid|Hid].
      * rewrite decide_True by done. rewrite Hid, lookup_insert_eq, IH.
        destruct (filter (usesAccessor id) links); done.
      * rewrite decide_False by (intros (_ & _ & H); done).
        rewrite lookup_insert_ne by done. by rewrite app_nil_r.
    + rewrite decide_False by (intros (_ & H & _); done). by rewrite app_nil_r.
Qed.

(** X4. The table of accessor uses holds, for each accessor, the links into
    it from a parent other than the root, in the order of the graph; an
    accessor without such a link has no entry. *)
Theorem gatherAccessorLinks_uses (links : list Link) (id : nat) :
  default [] (gatherAccessorLinks links !! id) = filter (usesAccessor id) links
  /\ (gatherAccessorLinks links !! id = None
      <-> forall link, link ∈ links -> ~ usesAccessor id link).
Proof.
  rewrite gather_lookup. split.
  - by destruct (filter (usesAccessor id) links).
  - destruct (filter (usesAccessor id) links) as [|u uses] eqn:Hf; split.
    + intros _ link Hin Huse.
      by eapply (filter_nil_not_elem_of (usesAccessor id)).
    + done.
    + done.
    + intros Hnone. exfalso.
      assert (Hu : u ∈ filter (usesAccessor id) links)
        by (rewrite Hf; apply list_elem_of_here).
      apply list_elem_of_filter in Hu as [Huse Hin]. by apply (Hnone u).
Qed.

(** ** The accessor partitioner *)

Lemma setAdd_elem (a x : Accessor) (s : list Accessor) :
  x ∈ setAdd a s -> x ∈ s \/ (x = a /\ acc_id a ∉ acc_id <$> s).
Proof.
  unfold setAdd. case_decide as Hin; [by left|].
  rewrite elem_of_app, list_elem_of_singleton. naive_solver.
Qed.

Lemma setAdd_perm (a : Accessor) (s : list Accessor) :
  setAdd a s ≡ₚ (if decide (acc_id a ∈ acc_id <$> s) then s else a :: s).
Proof.
  unfold setAdd. case_decide; [done|]. symmetry. apply Permutation_cons_append.
Qed.

Lemma groupOf_entry (r : Ref) (m : list (Ref * list Accessor)) (x : Accessor) :
  x ∈ groupOf r m -> (r, groupOf r m) ∈ m.
Proof.
  induction m as [|[p s] m IH]; intros Hx; [by apply elem_of_nil in Hx|].
  simpl in *. case_decide as Hp.
  - subst. apply list_elem_of_here.
  - apply list_elem_of_further. by apply IH.
Qed.

Lemma mapAdd_keys (r : Ref) (a : Accessor) (m : list (Ref * list Accessor)) :
  (mapAdd r a m).*1 = if decide (r ∈ m.*1) then m.*1 else m.*1 ++ [r].
Proof.
  induction m as [|[p s] m IH].
  - cbn [mapAdd]. rewrite fmap_nil.
    destruct (decide (r ∈ [])) as [H|_]; [by apply elem_of_nil in H | done].
  - cbn [mapAdd]. destruct (decide (p = r)) as [->|Hne].
    + rewrite fmap_cons. cbn [fst].
      rewrite decide_True; [done | apply list_elem_of_here].
    + rewrite !fmap_cons, IH. cbn [fst].
      destruct (decide (r ∈ m.*1)) as [Hin|Hnin].
      * rewrite decide_True; [done | by apply list_elem_of_further].
      * rewrite decide_False; [done|].
        intros Hin. apply elem_of_cons in Hin as [->|Hin]; done.
Qed.

Lemma mapAdd_entry (r : Ref) (a : Accessor) (m : list (Ref * list Accessor))
    (r' : Ref) (s' : list Accessor) :
  (r', s') ∈ mapAdd r a m ->
  (r', s') ∈ m \/ (r' = r /\ s' = setAdd a (groupOf r m)).
Proof.
  induction m as [|[p s] m IH]; cbn [mapAdd groupOf].
  - intros Hin. apply list_elem_of_singleton in Hin as [= -> ->]. by right.
  - destruct (decide (p = r)) as [->|Hne]; intros Hin.
    + apply elem_of_cons in Hin as [[= -> ->]|Hin]; [by right|].
      left. by apply list_elem_of_further.
    + apply elem_of_cons in Hin as [[= -> ->]|Hin]; [left; apply list_elem_of_here|].
      destruct (IH Hin) as [H|H]; [left; by apply list_elem_of_further | by right].
Qed.

Lemma mapAdd_perm (r : Ref) (a : Accessor) (m : list (Ref * list Accessor)) :
  mapAdd r a m ≫= snd
  ≡ₚ (if decide (acc_id a ∈ acc_id <$> groupOf r m) then m ≫= snd
      else a :: (m ≫= snd)).
Proof.
  induction m as [|[p s] m IH]; cbn [mapAdd groupOf].
  - by vm_compute.
  - destruct (decide (p = r)) as [->|Hne].
    + rewrite !bind_cons. cbn [snd]. rewrite setAdd_perm. clear IH.
      destruct (decide (acc_id a ∈ acc_id <$> s)); done.
    + rewrite !bind_cons, IH. cbn [snd].
      destruct (decide (acc_id a ∈ acc_id <$> groupOf r m)); [done|].
      by rewrite Permutation_middle.
Qed.

(** The three flags of the categorizing loop, read off the uses. *)
Lemma uses_flags (uses : list Link) :
  (existsb isAttributeLink uses = false
   <-> Forall (fun link => link_kind link ≠ AttributeLink) uses)
  /\ (existsb isIndexLink uses = false
      <-> Forall (fun link => link_kind link ≠ IndexLink) uses)
  /\ (existsb isPlainLink uses = false
      <-> Forall (fun link => link_kind link ≠ PlainLink) uses).
Proof.
  unfold isAttributeLink, isIndexLink, isPlainLink.
  induction uses as [|link uses (IH1 & IH2 & IH3)].
  - split_and!; split; (done || constructor).
  - simpl. rewrite !orb_false_iff, !Forall_cons, IH1, IH2, IH3.
    destruct (link_kind link); naive_solver.
Qed.

Lemma uses_all (kind : LinkKind) (uses : list Link) :
  Forall (fun link => link_kind link = kind) uses ->
  forall other, other ≠ kind -> Forall (fun link => link_kind link ≠ other) uses.
Proof. intros Hall other Hne. eapply Forall_impl; [exact Hall|]. naive_solver. Qed.

Lemma members_cases (p : Partition) (x : Accessor) :
  x ∈ partitionMembers p
  <-> x ∈ indexAccessors p
      \/ (exists r s, (r, s) ∈ attributeAccessors p /\ x ∈ s)
      \/ x ∈ otherAccessors p.
Proof.
  unfold partitionMembers. rewrite !elem_of_app, list_elem_of_bind.
  split; [intros [H|[([r s] & Hx & Hin)|H]] | intros [H|[(r & s & Hin & Hx)|H]]].
  - by left.
  - right. left. by exists r, s.
  - right. by right.
  - by left.
  - right. left. by exists (r, s).
  - right. by right.
Qed.

Lemma groupOf_unique (r : Ref) (s : list Accessor) (m : list (Ref * list Accessor)) :
  NoDup m.*1 -> (r, s) ∈ m -> groupOf r m = s.
Proof.
  induction m as [|[p s'] m IH]; intros Hnodup Hin; [by apply elem_of_nil in Hin|].
  rewrite fmap_cons in Hnodup. apply NoDup_cons in Hnodup as [Hp Hnodup].
  cbn [groupOf]. apply elem_of_cons in Hin as [[= -> ->]|Hin].
  - by rewrite decide_True.
  - rewrite decide_False; [by apply IH|].
    intros ->. apply Hp. apply list_elem_of_fmap. by exists (r, s).
Qed.

Lemma uses_same (accessorLinks : gmap nat (list Link)) (a a' : Accessor) :
  acc_id a' = acc_id a ->
  accessorUses accessorLinks a' = accessorUses accessorLinks a.
Proof. unfold accessorUses. by intros ->. Qed.

Lemma usedAs_same (accessorLinks : gmap nat (list Link)) (a a' : Accessor)
    (t i o t' i' o' : bool) :
  acc_id a' = acc_id a ->
  usedAs accessorLinks a t i o -> usedAs accessorLinks a' t' i' o' ->
  t = t' /\ i = i' /\ o = o'.
Proof.
  intros Hid (H1 & H2 & H3) (H1' & H2' & H3').
  rewrite (uses_same _ _ _ Hid) in H1', H2', H3'. by subst.
Qed.

Lemma inv_fresh (accessorLinks : gmap nat (list Link)) (seen : list Parent)
    (p : Partition) (a : Accessor) (t i o : bool) :
  partitionInv accessorLinks seen p ->
  usedAs accessorLinks a t i o ->
  (t = false -> i = true -> acc_id a ∉ acc_id <$> indexAccessors p) ->
  (t = false -> i = false -> acc_id a ∉ acc_id <$> otherAccessors p) ->
  (t = true -> forall link uses,
     accessorUses accessorLinks a = link :: uses ->
     acc_id a ∉ acc_id <$> groupOf (getParent link) (attributeAccessors p)) ->
  acc_id a ∉ acc_id <$> partitionMembers p.
Proof.
  intros (_ & Hkeys & _ & _ & Hindex & Hother & Hattr) Hflags Hi Ho Ht Hin.
  apply list_elem_of_fmap in Hin as (a' & Hid & Hin).
  apply members_cases in Hin as [Hin|[(r & s & Hrs & Hin)|Hin]].
  - destruct (usedAs_same _ _ _ _ _ _ _ _ _ (eq_sym Hid) Hflags (Hindex a' Hin))
      as (-> & -> & ->).
    apply Hi; [done..|]. apply list_elem_of_fmap. by exists a'.
  - destruct (Hattr r s a' Hrs Hin) as (Hfl & link & uses & Huses & Hparent).
    destruct (usedAs_same _ _ _ _ _ _ _ _ _ (eq_sym Hid) Hflags Hfl) as (-> & -> & ->).
    rewrite (uses_same _ _ _ (eq_sym Hid)) in Huses.
    apply (Ht eq_refl link uses Huses).
    rewrite Hparent, (groupOf_unique r s) by done.
    apply list_elem_of_fmap. by exists a'.
  - destruct (Hother a' Hin) as [plain Hfl].
    destruct (usedAs_same _ _ _ _ _ _ _ _ _ (eq_sym Hid) Hflags Hfl) as (-> & -> & ->).
    apply Ho; [done..|]. apply list_elem_of_fmap. by exists a'.
Qed.

Lemma inv_extend (accessorLinks : gmap nat (list Link)) (seen : list Parent)
    (p p' : Partition) (a : Accessor) :
  partitionInv accessorLinks seen p ->
  (partitionMembers p' ≡ₚ partitionMembers p
   /\ acc_id a ∈ acc_id <$> partitionMembers p)
  \/ (partitionMembers p' ≡ₚ a :: partitionMembers p
      /\ acc_id a ∉ acc_id <$> partitionMembers p) ->
  NoDup (attributeAccessors p').*1 ->
  (forall x, x ∈ indexAccessors p' -> usedAs accessorLinks x false true false) ->
  (forall x, x ∈ otherAccessors p' ->
     exists plain, usedAs accessorLinks x false false plain) ->
  (forall primitive s x,
     (primitive, s) ∈ attributeAccessors p' -> x ∈ s ->
     usedAs accessorLinks x true false false
     /\ exists link uses,
          accessorUses accessorLinks x = link :: uses
          /\ getParent link = primitive) ->
  partitionInv accessorLinks (seen ++ [ParentAccessor a]) p'.
Proof.
  intros (Hnd & _ & Hsub & Hcov & _) Hperm Hkeys Hindex Hother Hattr.
  split_and!; try done.
  - destruct Hperm as [[-> _]|[-> Hfresh]]; [done|].
    rewrite fmap_cons. by apply NoDup_cons.
  - intros x Hx. rewrite elem_of_app, list_elem_of_singleton.
    destruct Hperm as [[Hperm _]|[Hperm _]]; rewrite Hperm in Hx.
    + left. by apply Hsub.
    + apply elem_of_cons in Hx as [->|Hx]; [by right | left; by apply Hsub].
  - intros x Hx. rewrite elem_of_app, list_elem_of_singleton in Hx.
    destruct Hperm as [[-> Hin]|[-> _]].
    + destruct Hx as [Hx|[= ->]]; [by apply Hcov | done].
    + rewrite fmap_cons. destruct Hx as [Hx|[= ->]].
      * apply list_elem_of_further. by apply Hcov.
      * apply list_elem_of_here.
Qed.

Lemma categorize_inv (accessorLinks : gmap nat (list Link)) (seen : list Parent)
    (p p' : Partition) (a : Accessor) :
  partitionInv accessorLinks seen p ->
  categorize accessorLinks p (ParentAccessor a) = Ok p' ->
  partitionInv accessorLinks (seen ++ [ParentAccessor a]) p'.
Proof.
  intros Hinv Hcat.
  pose proof Hinv as (Hnd & Hkeys & Hsub & Hcov & Hindex & Hother & Hattr).
  unfold categorize in Hcat. fold (accessorUses accessorLinks a) in Hcat.
  destruct (existsb isAttributeLink (accessorUses accessorLinks a)) eqn:Ht,
    (existsb isIndexLink (accessorUses accessorLinks a)) eqn:Hi,
    (existsb isPlainLink (accessorUses accessorLinks a)) eqn:Ho;
    cbn [negb andb] in Hcat; try discriminate.
  - (* an attribute *)
    destruct (accessorUses accessorLinks a) as [|link uses] eqn:Huses; [done|].
    injection Hcat as <-.
    assert (Hflags : usedAs accessorLinks a true false false)
      by (unfold usedAs; by rewrite Huses).
    apply (inv_extend _ _ p); [done| | | | |];
      cbn [indexAccessors attributeAccessors otherAccessors]; try done.
    + unfold partitionMembers.
      cbn [indexAccessors attributeAccessors otherAccessors].
      rewrite mapAdd_perm.
      destruct (decide (acc_id a ∈ acc_id <$> groupOf (getParent link)
                                       (attributeAccessors p))) as [Hin|Hnin].
      * left. split; [done|].
        apply list_elem_of_fmap in Hin as (x & Hid & Hx).
        apply list_elem_of_fmap. exists x. split; [done|].
        apply members_cases. right. left.
        exists (getParent link), (groupOf (getParent link) (attributeAccessors p)).
        split; [by eapply groupOf_entry | done].
      * right. split.
        -- rewrite <- app_comm_cons. by rewrite <- Permutation_middle.
        -- apply (inv_fresh accessorLinks seen p a true false false); try done.
           intros _ link' uses' Heq. rewrite Huses in Heq. by injection Heq as <- <-.
    + rewrite mapAdd_keys. case_decide; [done|].
      apply NoDup_app. split; [done|]. split; [|apply NoDup_singleton].
      intros r Hr Hr'. apply list_elem_of_singleton in Hr' as ->. done.
    + intros primitive s x Hrs Hx.
      apply mapAdd_entry in Hrs as [Hrs|[-> ->]]; [by eapply Hattr|].
      apply setAdd_elem in Hx as [Hx|[-> _]].
      * eapply Hattr; [|exact Hx]. by eapply groupOf_entry.
      * split; [done|]. by exists link, uses.
  - (* an index *)
    injection Hcat as <-.
    assert (Hflags : usedAs accessorLinks a false true false) by done.
    apply (inv_extend _ _ p); [done| | | | |];
      cbn [indexAccessors attributeAccessors otherAccessors]; try done.
    + unfold partitionMembers.
      cbn [indexAccessors attributeAccessors otherAccessors].
      rewrite setAdd_perm.
      destruct (decide (acc_id a ∈ acc_id <$> indexAccessors p)) as [Hin|Hnin].
      * left. split; [done|]. rewrite !fmap_app, !elem_of_app. by left.
      * right. split; [done|].
        by apply (inv_fresh accessorLinks seen p a false true false).
    + intros x Hx. apply setAdd_elem in Hx as [Hx|[-> _]]; [by apply Hindex | done].
  - (* another use *)
    injection Hcat as <-.
    assert (Hflags : usedAs accessorLinks a false false true) by done.
    apply (inv_extend _ _ p); [done| | | | |];
      cbn [indexAccessors attributeAccessors otherAccessors]; try done.
    + unfold partitionMembers.
      cbn [indexAccessors attributeAccessors otherAccessors].
      rewrite setAdd_perm.
      destruct (decide (acc_id a ∈ acc_id <$> otherAccessors p)) as [Hin|Hnin].
      * left. split; [done|]. rewrite !fmap_app, !elem_of_app. right. by right.
      * right. split; [by rewrite <- !Permutation_middle|].
        by apply (inv_fresh accessorLinks seen p a false false true).
    + intros x Hx. apply setAdd_elem in Hx as [Hx|[-> _]]; [by apply Hother|].
      by exists true.
  - (* no use at all *)
    injection Hcat as <-.
    assert (Hflags : usedAs accessorLinks a false false false) by done.
    apply (inv_extend _ _ p); [done| | | | |];
      cbn [indexAccessors attributeAccessors otherAccessors]; try done.
    + unfold partitionMembers.
      cbn [indexAccessors attributeAccessors otherAccessors].
      rewrite setAdd_perm.
      destruct (decide (acc_id a ∈ acc_id <$> otherAccessors p)) as [Hin|Hnin].
      * left. split; [done|]. rewrite !fmap_app, !elem_of_app. right. by right.
      * right. split; [by rewrite <- !Permutation_middle|].
        by apply (inv_fresh accessorLinks seen p a false false false).
    + intros x Hx. apply setAdd_elem in Hx as [Hx|[-> _]]; [by apply Hother|].
      by exists false.
Qed.

Lemma foldR_categorize_inv (accessorLinks : gmap nat (list Link)) (l : list Parent) :
  forall (seen : list Parent) (acc p : Partition),
    partitionInv accessorLinks seen acc ->
    foldR (categorize accessorLinks) acc l = Ok p ->
    partitionInv accessorLinks (seen ++ l) p.
Proof.
  induction l as [|parent l IH]; intros seen acc p Hinv Hfold.
  - simpl in Hfold. injection Hfold as <-. by rewrite app_nil_r.
  - simpl in Hfold.
    destruct (categorize accessorLinks acc parent) as [acc'|e] eqn:Hcat; [|done].
    simpl in Hfold. destruct parent as [|a|shown]; [done| |done].
    rewrite (cons_middle _ seen l), app_assoc.
    eapply IH; [|exact Hfold]. by eapply categorize_inv.
Qed.

Lemma emptyPartition_inv (accessorLinks : gmap nat (list Link)) :
  partitionInv accessorLinks [] emptyPartition.
Proof.
  unfold partitionInv, partitionMembers. simpl.
  split_and!; try (intros; by exfalso; eapply elem_of_nil); constructor.
Qed.

Lemma partition_inv (accessorLinks : gmap nat (list Link)) (b : Buffer) (p : Partition) :
  partitionAccessors accessorLinks b = Ok p ->
  partitionInv accessorLinks
    (filter (fun parent => isRootParent parent = false) (buf_listParents b)) p.
Proof.
  intros Hp.
  apply (foldR_categorize_inv accessorLinks _ [] emptyPartition p
           (emptyPartition_inv accessorLinks) Hp).
Qed.

Lemma only_kind (uses : list Link) (kind : LinkKind) :
  (forall other, other ≠ kind ->
     Forall (fun link => link_kind link ≠ other) uses) ->
  Forall (fun link => link_kind link = kind) uses.
Proof.
  intros Hnot. apply Forall_forall. intros link Hlink.
  destruct (decide (link_kind link = kind)) as [|Hne]; [done|].
  specialize (Hnot (link_kind link) Hne). rewrite Forall_forall in Hnot.
  by destruct (Hnot link Hlink).
Qed.

Lemma partition_sound (accessorLinks : gmap nat (list Link)) (b : Buffer)
    (p : Partition) :
  partitionAccessors accessorLinks b = Ok p ->
  partitionSound accessorLinks (buf_listParents b) p.
Proof.
  intros Hp. apply partition_inv in Hp.
  destruct Hp as (Hnd & Hkeys & Hsub & Hcov & Hindex & Hother & Hattr).
  split_and!; try done.
  - intros a Ha. specialize (Hsub a Ha).
    by apply list_elem_of_filter in Hsub as [_ Hsub].
  - intros a Ha. apply Hcov. by apply list_elem_of_filter.
  - intros a Ha. destruct (Hindex a Ha) as (Ht & Hi & Ho).
    destruct (uses_flags (accessorUses accessorLinks a)) as (Ft & Fi & Fo).
    split; [intros Hnil; by rewrite Hnil in Hi|].
    apply only_kind. intros [| |] Hne; [by apply Ft | done | by apply Fo].
  - intros a Ha. destruct (Hother a Ha) as (plain & Ht & Hi & Ho).
    destruct (uses_flags (accessorUses accessorLinks a)) as (Ft & Fi & Fo).
    apply only_kind. intros [| |] Hne; [by apply Ft | by apply Fi | done].
  - intros primitive s a Hs Ha. destruct (Hattr primitive s a Hs Ha) as [Hfl Hhead].
    split; [|done]. destruct Hfl as (Ht & Hi & Ho).
    destruct (uses_flags (accessorUses accessorLinks a)) as (Ft & Fi & Fo).
    apply only_kind. intros [| |] Hne; [done | by apply Fi | by apply Fo].
Qed.

Lemma groups_members (p : Partition) :
  groupsOf p ≫= groupAccessors = partitionMembers p.
Proof.
  unfold groupsOf, partitionMembers. rewrite !bind_app. f_equal; [|f_equal].
  - by destruct (indexAccessors p); [|simpl; rewrite app_nil_r].
  - unfold primitiveGroups.
    induction (attributeAccessors p) as [|[r s] m IH]; [done|].
    rewrite bind_cons. cbn [snd]. rewrite <- IH.
    destruct s as [|a s]; [done|].
    change (omap _ ((r, a :: s) :: m))
      with (InterleaveGroup (a :: s)
            :: omap (fun entry : Ref * list Accessor =>
                       match entry.2 with
                       | [] => None
                       | l => Some (InterleaveGroup l)
                       end) m).
    by rewrite bind_cons.
  - by destruct (otherAccessors p); [|simpl; rewrite app_nil_r].
Qed.

(** X5. When the accessors of a buffer are partitioned, every accessor among
    the buffer's parents is put in exactly one group, and once, however often
    it is listed: with the indices when all its uses are index links, in the
    group of the primitive of its first use when all its uses are attribute
    links, and with the others when none is an index or attribute link (also
    when it is not used at all).  What is packed for the buffer is this
    partition. *)
Theorem partition_packs_each_accessor_once (accessorLinks : gmap nat (list Link))
    (b : Buffer) (p : Partition) :
  partitionAccessors accessorLinks b = Ok p ->
  partitionSound accessorLinks (buf_listParents b) p
  /\ bufferGroups accessorLinks b ≫= groupAccessors = partitionMembers p.
Proof.
  intros Hp. split; [by apply partition_sound|].
  unfold bufferGroups. rewrite Hp. apply groups_members.
Qed.

Lemma partition_packs_each_accessor_once_witness :
  exists p,
    partitionAccessors (gatherAccessorLinks (getLinks triangleDocument))
      (bufferOf "geometry" [ParentAccessor triangleIndices; ParentAccessor triangleIndices])
    = Ok p
    /\ partitionMembers p = [triangleIndices]
    /\ partitionSound (gatherAccessorLinks (getLinks triangleDocument))
         [ParentRoot; ParentAccessor triangleIndices; ParentAccessor triangleIndices] p.
Proof.
  eexists. split; [by vm_compute|]. split; [reflexivity|].
  refine (proj1 (partition_packs_each_accessor_once
                   (gatherAccessorLinks (getLinks triangleDocument))
                   (bufferOf "geometry"
                      [ParentAccessor triangleIndices; ParentAccessor triangleIndices])
                   _ _)).
  by vm_compute.
Defined.

(** ** The exact state after the packers *)

Lemma recordAccessors_app (l1 l2 : list Accessor) :
  forall (table : gmap nat nat) (first : nat),
    recordAccessors table first (l1 ++ l2)
    = recordAccessors (recordAccessors table first l1) (first + length l1) l2.
Proof.
  induction l1 as [|a l1 IH]; intros table first; simpl.
  - by rewrite Nat.add_0_r.
  - rewrite IH. f_equal. lia.
Qed.

Lemma concat_loop_exact (accessors : list Accessor) :
  forall (buffers : list (list Z)) (byteLength : nat) (w : Writer),
    foldM concatStep (buffers, byteLength) accessors w
    = Ok ((buffers ++ (paddedArray <$> accessors), byteLength + concatLength accessors),
          packState
            (w_accessors w ++ concatDefs (length (w_bufferViews w)) byteLength accessors)
            (w_bufferViews w)
            (recordAccessors (accessorIndexMap w) (length (w_accessors w)) accessors)
            w).
Proof.
  induction accessors as [|a l IH]; intros buffers byteLength w.
  - rewrite foldM_nil. simpl.
    rewrite !app_nil_r, packState_id. f_equal. f_equal. f_equal.
    unfold concatLength. simpl. lia.
  - rewrite foldM_cons, concatStep_run, IH, packState_packState. simpl.
    rewrite concatLength_cons, <- !app_assoc, length_app. simpl.
    rewrite Nat.add_1_r. f_equal. f_equal. f_equal. lia.
Qed.

Lemma concatAccessors_exact (accessors : list Accessor) (bufferIndex byteOffset : nat)
    (target : option Z) (w : Writer) :
  concatAccessors accessors bufferIndex byteOffset target w
  = Ok ({| res_byteLength := concatLength accessors;
           res_buffers := paddedArray <$> accessors |},
        packState
          (w_accessors w ++ concatDefs (length (w_bufferViews w)) 0 accessors)
          (w_bufferViews w
           ++ [JObj (groupView bufferIndex byteOffset (ConcatGroup accessors target))])
          (recordAccessors (accessorIndexMap w) (length (w_accessors w)) accessors)
          w).
Proof.
  unfold concatAccessors. rewrite bind_run, concat_loop_exact.
  cbn [fst snd]. rewrite app_nil_l, length_concat_padded. done.
Qed.

Lemma stride_loop_exact (accessors : list Accessor) :
  forall (byteStride : nat) (w : Writer),
    foldM strideStep byteStride accessors w
    = Ok (byteStride + byteStrideOf accessors,
          packState
            (w_accessors w
             ++ interleaveDefs (length (w_bufferViews w)) byteStride accessors)
            (w_bufferViews w)
            (recordAccessors (accessorIndexMap w) (length (w_accessors w)) accessors)
            w).
Proof.
  induction accessors as [|a l IH]; intros byteStride w.
  - rewrite foldM_nil. simpl.
    rewrite app_nil_r, packState_id. f_equal. f_equal.
    unfold byteStrideOf. simpl. lia.
  - rewrite foldM_cons, strideStep_run, IH, packState_packState. simpl.
    rewrite byteStrideOf_cons, <- !app_assoc, length_app. simpl.
    rewrite Nat.add_1_r. f_equal. f_equal. lia.
Qed.

Lemma interleaveAccessors_exact (accessors : list Accessor)
    (bufferIndex byteOffset : nat) (w : Writer) :
  accessors ≠ [] ->
  exists buffer,
    interleave accessors (vertexCountOf accessors) (byteStrideOf accessors) = Ok buffer
    /\ length buffer = vertexCountOf accessors * byteStrideOf accessors
    /\ interleaveAccessors accessors bufferIndex byteOffset w
       = Ok ({| res_byteLength := vertexCountOf accessors * byteStrideOf accessors;
                res_buffers := [buffer] |},
             packState
               (w_accessors w
                ++ interleaveDefs (length (w_bufferViews w)) 0 accessors)
               (w_bufferViews w
                ++ [JObj (groupView bufferIndex byteOffset (InterleaveGroup accessors))])
               (recordAccessors (accessorIndexMap w) (length (w_accessors w))
                  accessors) w).
Proof.
  intros Hne. destruct accessors as [|first l]; [done|].
  destruct (interleave_spec (first :: l) (acc_count first)) as (buffer & Hbuf & Hlen & _).
  exists buffer. split; [exact Hbuf|]. split; [exact Hlen|].
  unfold interleaveAccessors. rewrite bind_run, stride_loop_exact.
  rewrite Nat.add_0_l, bind_run. unfold liftResult. rewrite Hbuf. done.
Qed.

Lemma length_concatDefs (bufferView : nat) (l : list Accessor) :
  forall byteOffset, length (concatDefs bufferView byteOffset l) = length l.
Proof. induction l as [|a l IH]; intros; simpl; [done | by rewrite IH]. Qed.

Lemma length_interleaveDefs (bufferView : nat) (l : list Accessor) :
  forall byteStride, length (interleaveDefs bufferView byteStride l) = length l.
Proof. induction l as [|a l IH]; intros; simpl; [done | by rewrite IH]. Qed.

Lemma length_planDefs (gs : list Group) :
  forall bufferView,
    length (planDefs bufferView gs) = length (gs ≫= groupAccessors).
Proof.
  induction gs as [|g gs IH]; intros bufferView; [done|].
  cbn [planDefs]. rewrite bind_cons, !length_app, IH. f_equal.
  destruct g; [apply length_concatDefs | apply length_interleaveDefs].
Qed.

Lemma packedGroups_nil (bufferIndex : nat) (p : Packed) (w : Writer) :
  packedGroups bufferIndex [] p w = (p, w).
Proof.
  unfold packedGroups, planLength. simpl.
  rewrite !app_nil_r, Nat.add_0_r, packState_id. by destruct p.
Qed.

Lemma packedGroups_app (bufferIndex : nat) (gs1 gs2 : list Group) (p : Packed)
    (w : Writer) :
  packedGroups bufferIndex (gs1 ++ gs2) p w
  = packedGroups bufferIndex gs2 (packedGroups bufferIndex gs1 p w).1
      (packedGroups bufferIndex gs1 p w).2.
Proof.
  unfold packedGroups. cbn [fst snd bufferByteLength packedBuffers].
  rewrite packState_packState. proj_simpl.
  rewrite planLength_app, planViews_app, planDefs_app, !bind_app, recordAccessors_app.
  rewrite !length_app, length_planViews, length_planDefs, <- !app_assoc, Nat.add_assoc.
  done.
Qed.

Lemma packed_concat (bufferIndex : nat) (l : list Accessor) (target : option Z)
    (p : Packed) (w : Writer) :
  (r ← concatAccessors l bufferIndex (bufferByteLength p) target;
   mret (addResult p r)) w
  = Ok (packedGroups bufferIndex [ConcatGroup l target] p w).
Proof.
  rewrite bind_run, concatAccessors_exact.
  unfold mret, M_ret, addResult, packedGroups, planLength. simpl.
  by rewrite !app_nil_r, Nat.add_0_r.
Qed.

Lemma packed_interleave (bufferIndex : nat) (l : list Accessor) (p : Packed)
    (w : Writer) :
  l ≠ [] ->
  (r ← interleaveAccessors l bufferIndex (bufferByteLength p);
   mret (addResult p r)) w
  = Ok (packedGroups bufferIndex [InterleaveGroup l] p w).
Proof.
  intros Hne.
  destruct (interleaveAccessors_exact l bufferIndex (bufferByteLength p) w Hne)
    as (buffer & Hbuf & Hlen & Hrun).
  rewrite bind_run, Hrun.
  unfold mret, M_ret, addResult, packedGroups, planLength. simpl.
  by rewrite Hbuf, !app_nil_r, Nat.add_0_r.
Qed.

Lemma packPrimitives_exact (bufferIndex : nat) (entries : list (Ref * list Accessor)) :
  forall (p : Packed) (w : Writer),
    foldM (packPrimitive bufferIndex) p entries w
    = Ok (packedGroups bufferIndex (primitiveGroups entries) p w).
Proof.
  induction entries as [|entry entries IH]; intros p w.
  - rewrite foldM_nil. by rewrite packedGroups_nil.
  - rewrite foldM_cons. destruct entry as [r [|a l]].
    + apply IH.
    + change (primitiveGroups ((r, a :: l) :: entries))
        with ([InterleaveGroup (a :: l)] ++ primitiveGroups entries).
      change (packPrimitive bufferIndex p (r, a :: l) w)
        with ((r ← interleaveAccessors (a :: l) bufferIndex (bufferByteLength p);
               mret (addResult p r)) w).
      rewrite packed_interleave by done. rewrite packedGroups_app.
      destruct (packedGroups bufferIndex [InterleaveGroup (a :: l)] p w) as [p1 w1].
      apply IH.
Qed.

Lemma packGroups_exact (groups : Partition) (bufferIndex : nat) (w : Writer) :
  packGroups groups bufferIndex w
  = Ok (packedGroups bufferIndex (groupsOf groups)
          {| bufferByteLength := 0; packedBuffers := [] |} w).
Proof.
  rewrite groupsOf_unfold, !packedGroups_app. unfold packGroups.
  set (p0 := {| bufferByteLength := 0; packedBuffers := [] |}).
  rewrite bind_run.
  assert (H1 : (match indexAccessors groups with
                | [] => mret p0
                | _ =>
                    indexResult ← concatAccessors (indexAccessors groups) bufferIndex
                                    (bufferByteLength p0)
                                    (Some BufferViewTarget.ELEMENT_ARRAY_BUFFER);
                    mret (addResult p0 indexResult)
                end) w
               = Ok (packedGroups bufferIndex
                       (match indexAccessors groups with
                        | [] => []
                        | l => [ConcatGroup l (Some BufferViewTarget.ELEMENT_ARRAY_BUFFER)]
                        end) p0 w)).
  { destruct (indexAccessors groups) as [|a l].
    - by rewrite packedGroups_nil.
    - apply packed_concat. }
  rewrite H1.
  destruct (packedGroups bufferIndex _ p0 w) as [p1 w1]. cbn [fst snd].
  rewrite bind_run, packPrimitives_exact.
  destruct (packedGroups bufferIndex _ p1 w1) as [p2 w2]. cbn [fst snd].
  destruct (otherAccessors groups) as [|a l].
  - by rewrite packedGroups_nil.
  - apply packed_concat.
Qed.

(** ** The exact state after a buffer *)

Lemma appendImages_exact (rest : list (list Z)) :
  forall (i : nat) (p : Packed) (w : Writer),
    imagesPlaced w -> i + length rest <= length (imageData w) ->
    foldM appendImage (i, p) rest w
    = Ok ((i + length rest,
           {| bufferByteLength := bufferByteLength p + sum_list (length <$> rest);
              packedBuffers := packedBuffers p ++ rest |}),
          set_w_bufferViews
            (placeImages i (bufferByteLength p) rest (w_bufferViews w)) w).
Proof.
  induction rest as [|data rest IH]; intros i p w Hplaced Hi.
  - rewrite foldM_nil. simpl. rewrite !Nat.add_0_r, app_nil_r. by destruct p, w.
  - simpl in Hi. rewrite foldM_cons. unfold appendImage at 1. rewrite bind_run.
    cbn [fst snd].
    destruct (placeImage_run i (bufferByteLength p) w Hplaced) as (view & Hview & Hrun);
      [lia|].
    rewrite Hrun. unfold mret, M_ret.
    assert (Hstep : <[i := JObj (oset "byteOffset" (JNat (bufferByteLength p)) view)]>
                      (w_bufferViews w)
                    = placeView i (bufferByteLength p) (w_bufferViews w))
      by (unfold placeView; by rewrite Hview).
    rewrite Hstep.
    set (w1 := set_w_bufferViews _ w).
    assert (Hplaced1 : imagesPlaced w1).
    { intros q Hq. destruct (Hplaced q Hq) as (imageDef & v & Himg & Hbv & Hv).
      exists imageDef. subst w1. rewrite <- Hstep.
      destruct (decide (q = i)) as [->|Hne].
      - exists (oset "byteOffset" (JNat (bufferByteLength p)) view).
        split; [done|]. split; [done|]. simpl.
        apply list_lookup_insert_eq. by apply lookup_lt_Some in Hv.
      - exists v. split; [done|]. split; [done|]. simpl.
        by rewrite list_lookup_insert_ne. }
    rewrite (IH (S i) _ w1 Hplaced1) by (subst w1; simpl; lia).
    subst w1. simpl. rewrite <- app_assoc. simpl.
    replace (i + S (length rest)) with (S (i + length rest)) by lia.
    rewrite <- Nat.add_assoc. done.
Qed.

Lemma packBuffer_exact (groups : Partition) (bufferIndex : nat) (w : Writer) :
  imagesPlaced w ->
  packBuffer groups bufferIndex w
  = Ok ({| bufferByteLength :=
             planLength (groupsOf groups) + sum_list (length <$> imageData w);
           packedBuffers := (groupsOf groups ≫= groupSegments) ++ imageData w |},
        packedState bufferIndex (groupsOf groups) w).
Proof.
  intros Hplaced.
  unfold packBuffer. rewrite bind_run, packGroups_exact. unfold packedGroups.
  rewrite bind_run. unfold gets at 1. rewrite bind_run.
  cbn [imageData packState set_w_bufferViews set_w_accessors set_accessorIndexMap
       bufferByteLength packedBuffers].
  set (w1 := packState _ _ _ w).
  assert (Hplaced1 : imagesPlaced w1).
  { intros q Hq. destruct (Hplaced q Hq) as (imageDef & view & Himg & Hbv & Hview).
    exists imageDef, view. split; [done|]. split; [done|]. subst w1. simpl.
    rewrite lookup_app_l; [done | by apply lookup_lt_Some in Hview]. }
  rewrite (appendImages_exact (imageData w) 0 _ w1 Hplaced1) by (subst w1; simpl; lia).
  unfold mret, M_ret. cbn [fst snd bufferByteLength packedBuffers].
  subst w1. unfold packedState. simpl. done.
Qed.

Lemma length_segments (gs : list Group) :
  length (mjoin (gs ≫= groupSegments)) = planLength gs.
Proof.
  induction gs as [|g gs IH]; [done|].
  rewrite bind_cons, join_app, length_app, IH. unfold planLength.
  rewrite fmap_cons. cbn [sum_list sum_list_with]. f_equal.
  destruct g as [l t|l].
  - apply length_concat_padded.
  - cbn [groupSegments groupLength].
    destruct (interleave_spec l (vertexCountOf l)) as (buffer & Hbuf & Hlen & _).
    rewrite Hbuf. cbn [mjoin list_join]. by rewrite app_nil_r.
Qed.

Lemma length_packedBytes (gs : list Group) (images : list (list Z)) :
  length (packedBytes gs images) = planLength gs + sum_list (length <$> images).
Proof.
  unfold packedBytes, BufferUtils.concat.
  by rewrite join_app, length_app, (length_join images), length_segments.
Qed.

Lemma writeBuffer_exact (options : WriterOptions) (multiple : bool)
    (accessorLinks : gmap nat (list Link)) (b : Buffer) (groups : Partition)
    (w : Writer) :
  partitionAccessors accessorLinks b = Ok groups ->
  imagesPlaced w ->
  writeBuffer options multiple accessorLinks b w
  = Ok (tt, bufferState options multiple accessorLinks b w)
  /\ imagesPlaced (bufferState options multiple accessorLinks b w).
Proof.
  intros Hpart Hplaced.
  assert (Hrun : writeBuffer options multiple accessorLinks b w
                 = Ok (tt, bufferState options multiple accessorLinks b w)).
  { unfold writeBuffer, bufferState.
    rewrite bind_run. unfold liftResult at 1. rewrite Hpart.
    rewrite bind_run. unfold gets at 1. rewrite bind_run.
    rewrite (packBuffer_exact groups _ w Hplaced).
    rewrite (bufferGroups_ok _ _ _ Hpart). cbn [bufferByteLength packedBuffers].
    destruct (decide (planLength (groupsOf groups)
                      + sum_list (length <$> imageData w) = 0)) as [Hzero|Hnz].
    - reflexivity.
    - rewrite emitBuffer_run
        by (cbn [bufferByteLength packedBuffers]; apply length_packedBytes).
      reflexivity. }
  split; [exact Hrun|].
  destruct (writeBuffer_run options multiple accessorLinks b groups w Hpart Hplaced)
    as (w' & Hrun' & _ & Hplaced').
  rewrite Hrun in Hrun'. by injection Hrun' as <-.
Qed.

Lemma writeBufferList_exact (options : WriterOptions) (multiple : bool)
    (accessorLinks : gmap nat (list Link)) (buffers : list Buffer) :
  forall w,
    partitionsOk accessorLinks buffers ->
    imagesPlaced w ->
    forEach buffers (writeBuffer options multiple accessorLinks) w
    = Ok (tt, buffersState options multiple accessorLinks buffers w)
    /\ imagesPlaced (buffersState options multiple accessorLinks buffers w).
Proof.
  induction buffers as [|b bs IH]; intros w Hok Hplaced; [done|].
  inversion Hok as [|? ? [groups Hgroups] Hok']; subst.
  destruct (writeBuffer_exact options multiple accessorLinks b groups w Hgroups Hplaced)
    as [Hrun1 Hplaced1].
  destruct (IH _ Hok' Hplaced1) as [Hrun Hplaced'].
  split; [|exact Hplaced'].
  unfold forEach in *. rewrite foldM_cons, Hrun1. exact Hrun.
Qed.

(** ** Lookup tables *)

Lemma recordIds_absent (ids : list nat) (id : nat) :
  forall (table : gmap nat nat) (first : nat),
    id ∉ ids -> recordIds table first ids !! id = table !! id.
Proof.
  induction ids as [|x ids IH]; intros table first Hnin; [done|].
  apply not_elem_of_cons in Hnin as [Hne Hnin]. simpl.
  rewrite IH by done. by rewrite lookup_insert_ne.
Qed.

Lemma recordIds_lookup (ids : list nat) :
  forall (table : gmap nat nat) (first k id : nat),
    NoDup ids -> ids !! k = Some id ->
    recordIds table first ids !! id = Some (first + k).
Proof.
  induction ids as [|x ids IH]; intros table first k id Hnodup Hk; [done|].
  apply NoDup_cons in Hnodup as [Hx Hnodup]. simpl. destruct k as [|k].
  - injection Hk as ->. rewrite recordIds_absent by done.
    by rewrite lookup_insert_eq, Nat.add_0_r.
  - simpl in Hk. rewrite (IH _ _ k id) by done. f_equal. lia.
Qed.

Lemma recordIds_bound (ids : list nat) :
  forall (table : gmap nat nat) (first id i : nat),
    recordIds table first ids !! id = Some i ->
    table !! id = Some i \/ (id ∈ ids /\ first <= i < first + length ids).
Proof.
  induction ids as [|x ids IH]; intros table first id i Hi; [by left|].
  simpl in Hi. apply IH in Hi as [Hi|[Hin Hi]].
  - destruct (decide (x = id)) as [->|Hne].
    + rewrite lookup_insert_eq in Hi. injection Hi as <-.
      right. split; [apply list_elem_of_here | simpl; lia].
    + rewrite lookup_insert_ne in Hi by done. by left.
  - right. split; [by apply list_elem_of_further | simpl; lia].
Qed.

Lemma indexMap_ids (ids : list nat) : indexMap ids = recordIds ∅ 0 ids.
Proof.
  unfold indexMap. generalize (∅ : gmap nat nat).
  change (imap pair ids) with (imap (fun k => pair (0 + k)) ids).
  generalize 0.
  induction ids as [|id ids IH]; intros first table; [done|].
  simpl. rewrite Nat.add_0_r. rewrite <- (IH (S first)).
  f_equal. apply imap_ext. intros k x _. simpl. f_equal. lia.
Qed.

Lemma recordAccessors_ids (l : list Accessor) :
  forall (table : gmap nat nat) (first : nat),
    recordAccessors table first l = recordIds table first (acc_id <$> l).
Proof. induction l as [|a l IH]; intros; simpl; [done | by rewrite IH]. Qed.

(** [getIndex] on a table filled in listing order. *)
Lemma getIndex_listed (ids : list nat) (k id : nat) :
  NoDup ids -> ids !! k = Some id -> getIndex (indexMap ids) id = JNat k.
Proof.
  intros Hnodup Hk. unfold getIndex.
  by rewrite indexMap_ids, (recordIds_lookup ids ∅ 0 k id).
Qed.

Lemma getIndex_unlisted (ids : list nat) (id : nat) :
  id ∉ ids -> getIndex (indexMap ids) id = JUndefined.
Proof.
  intros Hnin. unfold getIndex.
  by rewrite indexMap_ids, recordIds_absent, lookup_empty.
Qed.

Lemma getIndex_position (ids : list nat) (id : nat) :
  NoDup ids ->
  forall (table : gmap nat nat) (first : nat),
    getIndex (recordIds table first ids) id
    = if decide (id ∈ ids) then positionFrom first ids id else getIndex table id.
Proof.
  intros Hnodup. induction Hnodup as [|x ids Hx Hnodup IH]; intros table first.
  - cbn [recordIds].
    destruct (decide (id ∈ [])) as [H|_]; [by apply elem_of_nil in H | done].
  - cbn [recordIds positionFrom]. rewrite IH.
    destruct (decide (x = id)) as [->|Hne].
    + rewrite decide_False by done.
      rewrite decide_True by apply list_elem_of_here.
      unfold getIndex. by rewrite lookup_insert_eq.
    + destruct (decide (id ∈ ids)) as [Hin|Hnin].
      * rewrite decide_True; [done | by apply list_elem_of_further].
      * rewrite decide_False by (rewrite elem_of_cons; naive_solver).
        unfold getIndex. by rewrite lookup_insert_ne.
Qed.

Lemma positionFrom_absent (ids : list nat) (id : nat) :
  forall first, id ∉ ids -> positionFrom first ids id = JUndefined.
Proof.
  induction ids as [|x ids IH]; intros first Hnin; [done|].
  apply not_elem_of_cons in Hnin as [Hne Hnin]. simpl.
  rewrite decide_False by done. by apply IH.
Qed.

Lemma getIndex_positionOf (ids : list nat) (id : nat) :
  NoDup ids -> getIndex (indexMap ids) id = positionOf ids id.
Proof.
  intros Hnodup. rewrite indexMap_ids, getIndex_position by done.
  unfold positionOf. case_decide as Hin; [done|].
  by rewrite positionFrom_absent.
Qed.

Lemma getIndex_positions (ids l : list nat) :
  NoDup ids -> getIndex (indexMap ids) <$> l = positionOf ids <$> l.
Proof. intros Hnodup. apply list_fmap_ext. intros. by apply getIndex_positionOf. Qed.

Ltac field_through :=
  unfold defField;
  repeat first [rewrite oget_oset_eq | rewrite oget_oset_ne by done];
  try (rewrite createPropertyDef_other by done); try done.

(** ** References between nodes, meshes, cameras, skins and scenes *)

Lemma attachNode_refs (root : Root) (node : Node) :
  NoDup (node_id <$> listNodes root) ->
  NoDup (mesh_id <$> listMeshes root) ->
  NoDup (cam_id <$> listCameras root) ->
  NoDup (skin_id <$> listSkins root) ->
  nodeRefs root node
    (attachNode (indexMap (mesh_id <$> listMeshes root))
       (indexMap (cam_id <$> listCameras root))
       (indexMap (skin_id <$> listSkins root))
       (indexMap (node_id <$> listNodes root)) node (writeNode node)).
Proof.
  intros Hnodes Hmeshes Hcameras Hskins.
  unfold nodeRefs, attachNode, writeNode.
  destruct (node_mesh node) as [mesh|], (node_camera node) as [camera|],
    (node_skin node) as [skin|], (node_children node) as [|child children],
    (node_weights node) as [|x weights];
    cbn [fmap option_fmap option_map]; split_and!; field_through;
    rewrite ?getIndex_positionOf, ?getIndex_positions by done; done.
Qed.

Lemma writeSkin_refs (root : Root) (accessors : gmap nat nat) (skin : Skin) :
  NoDup (node_id <$> listNodes root) ->
  skinRefs root skin
    (writeSkin accessors (indexMap (node_id <$> listNodes root)) skin).
Proof.
  intros Hnodes. unfold skinRefs, writeSkin.
  destruct (getInverseBindMatrices skin) as [ibm|], (getSkeleton skin) as [node|];
    cbn [fmap option_fmap option_map]; split_and!; field_through;
    rewrite ?getIndex_positionOf, ?getIndex_positions by done; done.
Qed.

Lemma writeScene_refs (root : Root) (scene : Scene) :
  NoDup (node_id <$> listNodes root) ->
  sceneRefs root scene (writeScene (indexMap (node_id <$> listNodes root)) scene).
Proof.
  intros Hnodes. unfold sceneRefs, writeScene. field_through.
  by rewrite getIndex_positions.
Qed.

Lemma Forall2_fmap_diag {A B : Type} (P : A -> B -> Prop) (f : A -> B) (l : list A) :
  (forall x, P x (f x)) -> Forall2 P l (f <$> l).
Proof. intros H. induction l; constructor; auto. Qed.

(** X6. In a written document every reference of a node to its mesh, camera,
    skin and children, of a skin to its skeleton and joints, and of a scene to
    its nodes is the place of the referenced property in the root's listing,
    provided no listing has a property twice; a property that the root does
    not list is written as [undefined], and a node without a mesh, camera,
    skin or children has no such member. *)
Theorem node_references_resolved (doc : Document) (options : WriterOptions)
    (nd : NativeDocument) (log : list string) :
  write doc options = Ok (nd, log) ->
  NoDup (node_id <$> listNodes (getRoot doc)) ->
  NoDup (mesh_id <$> listMeshes (getRoot doc)) ->
  NoDup (cam_id <$> listCameras (getRoot doc)) ->
  NoDup (skin_id <$> listSkins (getRoot doc)) ->
  Forall2 (nodeRefs (getRoot doc)) (listNodes (getRoot doc))
    (jarray "nodes" (json_of nd))
  /\ Forall2 (skinRefs (getRoot doc)) (listSkins (getRoot doc))
       (jarray "skins" (json_of nd))
  /\ Forall2 (sceneRefs (getRoot doc)) (listScenes (getRoot doc))
       (jarray "scenes" (json_of nd)).
Proof.
  intros Hwrite Hnodes Hmeshes Hcameras Hskins.
  destruct (written_root _ _ _ _ Hwrite) as (materials & w & Hjson & _).
  rewrite Hjson, json_nodes, json_skins, json_scenes, zip_with_fmap_r.
  split_and!.
  - apply (Forall2_fmap_diag (nodeRefs (getRoot doc))). intros node.
    by apply attachNode_refs.
  - apply Forall2_fmap_diag. intros skin. by apply writeSkin_refs.
  - apply Forall2_fmap_diag. intros scene. by apply writeScene_refs.
Qed.

Lemma node_references_resolved_witness :
  exists nd log,
    write sceneDocument glbOptions = Ok (nd, log)
    /\ Forall2 (nodeRefs (getRoot sceneDocument)) (listNodes (getRoot sceneDocument))
         (jarray "nodes" (json_of nd))
    /\ Forall2 (skinRefs (getRoot sceneDocument)) (listSkins (getRoot sceneDocument))
         (jarray "skins" (json_of nd))
    /\ Forall2 (sceneRefs (getRoot sceneDocument))
         (listScenes (getRoot sceneDocument)) (jarray "scenes" (json_of nd))
    /\ positionOf (node_id <$> listNodes (getRoot sceneDocument)) <$> [30; 31; 32]
       = [JInt 0; JInt 1; JUndefined].
Proof.
  assert (H1 : NoDup (node_id <$> listNodes (getRoot sceneDocument)))
    by (apply (bool_decide_unpack _); vm_compute; exact I).
  assert (H2 : NoDup (mesh_id <$> listMeshes (getRoot sceneDocument)))
    by (apply (bool_decide_unpack _); vm_compute; exact I).
  assert (H3 : NoDup (cam_id <$> listCameras (getRoot sceneDocument)))
    by (apply (bool_decide_unpack _); vm_compute; exact I).
  assert (H4 : NoDup (skin_id <$> listSkins (getRoot sceneDocument)))
    by (apply (bool_decide_unpack _); vm_compute; exact I).
  destruct (write sceneDocument glbOptions) as [[nd log]|e] eqn:Hwrite;
    [|vm_compute in Hwrite; discriminate Hwrite].
  exists nd, log. split; [reflexivity|].
  destruct (node_references_resolved sceneDocument glbOptions nd log
              Hwrite H1 H2 H3 H4) as (Hnodes & Hskins & Hscenes).
  split; [exact Hnodes|]. split; [exact Hskins|]. split; [exact Hscenes|].
  vm_compute. reflexivity.
Defined.

(** ** The exact state behind a written document *)

Lemma write_exact (doc : Document) (options : WriterOptions)
    (nd : NativeDocument) (log : list string) :
  write doc options = Ok (nd, log) ->
  exists w1 materials,
    partitionsOk (gatherAccessorLinks (getLinks doc)) (listBuffers (getRoot doc))
    /\ writeImages options (getRoot doc) initialWriter = Ok (tt, w1)
    /\ imagesStage options (getRoot doc) w1
    /\ let w2 := buffersState options (multipleBuffers (getRoot doc))
                   (gatherAccessorLinks (getLinks doc)) (listBuffers (getRoot doc)) w1 in
       let w3 := (slotsRun (documentSlots (getRoot doc)) w2).2 in
       sameBuffers w2 w3
       /\ json_of nd = clean (rootObject (getRoot doc) materials w3)
       /\ resources_of nd = w_resources w3
       /\ log = w_warnings w3
       /\ length materials = length (listMaterials (getRoot doc))
       /\ writeMaterials (getRoot doc) w2 = Ok (materials, w3)
       /\ Forall2 sameIndex (slotsRun (documentSlots (getRoot doc)) w2).1
            (materials ≫= textureInfos)
       /\ exists placed,
            pl_slot <$> placed = documentSlots (getRoot doc)
            /\ Forall2 (fun p info => oget "index" info = Some (JNat (pl_texture p)))
                 placed (slotsRun (documentSlots (getRoot doc)) w2).1
            /\ texturesRun placed w3.
Proof.
  intros Hwrite.
  assert (Hok : partitionsOk (gatherAccessorLinks (getLinks doc))
                  (listBuffers (getRoot doc))).
  { destruct (partitions_cases (gatherAccessorLinks (getLinks doc))
                (listBuffers (getRoot doc)))
      as [Hok | (before & b & after & e & Hsplit & Hok & Hthrow)]; [done|].
    rewrite (write_throws doc options before after b e Hsplit Hok Hthrow) in Hwrite.
    done. }
  destruct (writeImages_run options (getRoot doc)) as (w1 & Himages & Hstage).
  exists w1.
  pose proof Hstage as (Hplaced & _ & _ & _ & _ & HS & HT & Hsm & Htm & _).
  unfold write, writeJSON in Hwrite. rewrite bind_run, Himages, bind_run in Hwrite.
  unfold writeBuffers in Hwrite.
  destruct (writeBufferList_exact options (multipleBuffers (getRoot doc))
              (gatherAccessorLinks (getLinks doc)) (listBuffers (getRoot doc))
              w1 Hok Hplaced) as [Hrun Hplaced2].
  unfold multipleBuffers in Hrun. rewrite Hrun, bind_run in Hwrite.
  fold (multipleBuffers (getRoot doc)) in Hwrite.
  set (w2 := buffersState _ _ _ _ w1) in *.
  destruct (writeMaterials_run (listMaterials (getRoot doc)) 0 w2)
    as (materials & Hmat & Hnames & Hinfos).
  unfold writeMaterials in Hwrite. rewrite Hmat in Hwrite.
  unfold gets in Hwrite. injection Hwrite as <- <-.
  exists materials. split; [done|]. split; [done|]. split; [done|].
  cbv zeta. fold (documentSlots (getRoot doc)).
  destruct (writeBufferList_run options (multipleBuffers (getRoot doc))
              (gatherAccessorLinks (getLinks doc)) (listBuffers (getRoot doc))
              w1 Hok Hplaced) as (w2' & Hrun' & Hwritten & _).
  unfold multipleBuffers in Hrun'. rewrite Hrun in Hrun'. injection Hrun' as <-.
  pose proof (buffersWritten_textures _ _ _ _ _ _ Hwritten)
    as (HS2 & HT2 & _ & _ & Htm2 & Hsm2 & _).
  assert (Hinit : texturesRun [] w2) by (apply initial_texturesRun; congruence).
  destruct (slotsRun_spec (documentSlots (getRoot doc)) [] w2 Hinit)
    as (placed & Hslots & Hindex & Hrun3 & Hsame).
  split_and!; try done; try exact Hmat.
  - apply (f_equal length) in Hnames. by rewrite !length_fmap in Hnames.
  - by exists placed.
Qed.

Lemma writeImages_untouched (options : WriterOptions) (root : Root) (w1 : Writer) :
  writeImages options root initialWriter = Ok (tt, w1) ->
  accessorIndexMap w1 = ∅
  /\ bufferURICounter w1 = bufferURICounter initialWriter
  /\ w_warnings w1 = [].
Proof.
  unfold writeImages. rewrite bind_run. intros Hrun.
  destruct (embedsImages options) eqn:Hembed.
  - destruct (writeImages_embedded options
                (bool_decide (1 < length (listTextures root)))
                (listTextures root) Hembed 0 initialWriter)
      as (images & table & Hmap & _).
    rewrite Hmap in Hrun. by injection Hrun as <-.
  - destruct (writeImages_external options
                (bool_decide (1 < length (listTextures root)))
                (listTextures root) Hembed 0 initialWriter)
      as (images & table & resources & counter & Hmap & _).
    rewrite Hmap in Hrun. by injection Hrun as <-.
Qed.

Lemma bufferState_accessors (options : WriterOptions) (multiple : bool)
    (accessorLinks : gmap nat (list Link)) (b : Buffer) (w : Writer) :
  accessorIndexMap (bufferState options multiple accessorLinks b w)
  = recordAccessors (accessorIndexMap w) (length (w_accessors w))
      (bufferGroups accessorLinks b ≫= groupAccessors)
  /\ w_accessors (bufferState options multiple accessorLinks b w)
     = w_accessors w
       ++ planDefs (length (w_bufferViews w)) (bufferGroups accessorLinks b).
Proof. unfold bufferState. by case_decide. Qed.

Lemma length_placeView (i offset : nat) (views : list json) :
  length (placeView i offset views) = length views.
Proof.
  unfold placeView. destruct (views !! i) as [[| | | | | | |view]|]; try done.
  apply length_insert.
Qed.

Lemma length_placeImages (images : list (list Z)) :
  forall (i offset : nat) (views : list json),
    length (placeImages i offset images views) = length views.
Proof.
  induction images as [|data rest IH]; intros i offset views; [done|].
  simpl. by rewrite IH, length_placeView.
Qed.

Lemma bufferState_viewCount (options : WriterOptions) (multiple : bool)
    (accessorLinks : gmap nat (list Link)) (b : Buffer) (w : Writer) :
  length (w_bufferViews (bufferState options multiple accessorLinks b w))
  = length (w_bufferViews w) + length (bufferGroups accessorLinks b).
Proof.
  unfold bufferState. case_decide; proj_simpl; unfold packedState; proj_simpl;
    by rewrite length_placeImages, length_app, length_planViews.
Qed.

Lemma buffersState_accessors (options : WriterOptions) (multiple : bool)
    (accessorLinks : gmap nat (list Link)) (buffers : list Buffer) :
  forall w,
    accessorIndexMap (buffersState options multiple accessorLinks buffers w)
    = recordAccessors (accessorIndexMap w) (length (w_accessors w))
        (packedAccessors accessorLinks buffers)
    /\ w_accessors (buffersState options multiple accessorLinks buffers w)
       = w_accessors w ++ stageDefs accessorLinks (length (w_bufferViews w)) buffers.
Proof.
  induction buffers as [|b bs IH]; intros w.
  - simpl. by rewrite app_nil_r.
  - unfold buffersState, packedAccessors in *. cbn [foldl stageDefs].
    rewrite bind_cons.
    destruct (IH (bufferState options multiple accessorLinks b w)) as [-> ->].
    destruct (bufferState_accessors options multiple accessorLinks b w) as [-> ->].
    rewrite bufferState_viewCount, recordAccessors_app, length_app, length_planDefs.
    by rewrite <- app_assoc.
Qed.

(** ** References to accessors and materials *)

Lemma oset_fresh (key : string) (value : json) (o : object) :
  key ∉ o.*1 -> oset key value o = o ++ [(key, value)].
Proof.
  induction o as [|[k v] o IH]; intros Hfresh; [done|].
  rewrite fmap_cons in Hfresh. apply not_elem_of_cons in Hfresh as [Hne Hfresh].
  cbn [oset fst]. rewrite decide_False by done. by rewrite IH.
Qed.

Lemma semantics_from (table : gmap nat nat) (attributes : list (string * nat)) :
  forall acc : object,
    NoDup (acc.*1 ++ attributes.*1) ->
    foldl (fun def (entry : string * nat) =>
             oset entry.1 (getIndex table entry.2) def) acc attributes
    = acc ++ semanticsRefs (getIndex table) attributes.
Proof.
  induction attributes as [|[semantic id] attributes IH]; intros acc Hnodup.
  - simpl. by rewrite app_nil_r.
  - cbn [foldl fst snd]. rewrite fmap_cons in Hnodup. cbn [fst] in Hnodup.
    apply NoDup_app in Hnodup as (Hacc & Hdisjoint & Hattrs).
    apply NoDup_cons in Hattrs as [Hsemantic Hattrs].
    rewrite oset_fresh by (intros Hin; apply (Hdisjoint _ Hin), list_elem_of_here).
    rewrite IH.
    + unfold semanticsRefs. rewrite fmap_cons, <- app_assoc. done.
    + rewrite fmap_app. simpl. rewrite <- app_assoc. simpl.
      apply NoDup_app. split; [done|]. split; [|by apply NoDup_cons].
      intros x Hx Hx'. apply elem_of_cons in Hx' as [->|Hx'].
      * apply (Hdisjoint _ Hx), list_elem_of_here.
      * apply (Hdisjoint _ Hx). by apply list_elem_of_further.
Qed.

Lemma semanticsDef_refs (table : gmap nat nat) (attributes : list (string * nat)) :
  NoDup attributes.*1 ->
  semanticsDef table attributes = semanticsRefs (getIndex table) attributes.
Proof. intros Hnodup. unfold semanticsDef. by rewrite semantics_from. Qed.

Lemma semanticsRefs_ext (f g : nat -> json) (attributes : list (string * nat)) :
  (forall id, f id = g id) -> semanticsRefs f attributes = semanticsRefs g attributes.
Proof.
  intros Hext. unfold semanticsRefs. apply list_fmap_ext. intros _ [s id] _.
  simpl. by rewrite Hext.
Qed.

Lemma writePrimitive_refs (accessors materials : gmap nat nat)
    (accessorOf materialOf : nat -> json) (primitive : Primitive) :
  (forall id, getIndex accessors id = accessorOf id) ->
  (forall id, getIndex materials id = materialOf id) ->
  NoDup (prim_attributes primitive).*1 ->
  (forall target, target ∈ prim_targets primitive ->
     NoDup (target_attributes target).*1) ->
  primitiveRefs accessorOf materialOf primitive
    (writePrimitive accessors materials primitive).
Proof.
  intros Hacc Hmat Hattrs Htargets.
  unfold primitiveRefs, writePrimitive.
  assert (Hmaterial : getIndexOf materials (prim_material primitive)
                      = refOf materialOf (prim_material primitive)).
  { unfold getIndexOf, refOf. destruct (prim_material primitive); simpl; [apply Hmat|done]. }
  rewrite semanticsDef_refs by done.
  rewrite (semanticsRefs_ext _ _ _ Hacc), Hmaterial.
  assert (Htargets' :
            (fun target => JObj (semanticsDef accessors (target_attributes target)))
            <$> prim_targets primitive
            = (fun target => JObj (semanticsRefs accessorOf (target_attributes target)))
              <$> prim_targets primitive).
  { apply list_fmap_ext. intros i target Hi.
    rewrite semanticsDef_refs by (eapply Htargets, list_elem_of_lookup_2, Hi).
    by rewrite (semanticsRefs_ext _ _ _ Hacc). }
  destruct (prim_indices primitive) as [indices|],
    (prim_targets primitive) as [|target targets] eqn:Ht;
    cbn [fmap option_fmap option_map];
    split_and!; field_through; rewrite ?Hacc; try done;
    do 2 f_equal; exact Htargets'.
Qed.

Lemma writeMesh_refs (accessors materials : gmap nat nat)
    (accessorOf materialOf : nat -> json) (mesh : Mesh) :
  (forall id, getIndex accessors id = accessorOf id) ->
  (forall id, getIndex materials id = materialOf id) ->
  (forall primitive, primitive ∈ listPrimitives mesh ->
     NoDup (prim_attributes primitive).*1
     /\ forall target, target ∈ prim_targets primitive ->
          NoDup (target_attributes target).*1) ->
  meshRefs accessorOf materialOf mesh (writeMesh accessors materials mesh).
Proof.
  intros Hacc Hmat Hsem. unfold meshRefs, writeMesh.
  exists (writePrimitive accessors materials <$> listPrimitives mesh). split.
  - destruct (mesh_weights mesh), (targetNamesOf (listPrimitives mesh)); field_through.
  - induction (listPrimitives mesh) as [|primitive l IH]; [constructor|].
    rewrite fmap_cons. constructor.
    + destruct (Hsem primitive) as [H1 H2]; [apply list_elem_of_here|].
      by apply writePrimitive_refs.
    + apply IH. intros p Hp. apply Hsem. by apply list_elem_of_further.
Qed.

Lemma describes_def (bufferView byteOffset : nat) (a : Accessor) :
  describes a
    (JObj (oset "byteOffset" (JNat byteOffset)
             (oset "bufferView" (JNat bufferView) (createAccessorDef a)))).
Proof.
  unfold describes. split; [apply createAccessorDef_name|].
  unfold createAccessorDef. split_and!; field_through.
Qed.

Lemma concatDefs_describe (bufferView : nat) (l : list Accessor) :
  forall byteOffset, Forall2 describes l (concatDefs bufferView byteOffset l).
Proof.
  induction l as [|a l IH]; intros byteOffset; constructor;
    [apply describes_def | apply IH].
Qed.

Lemma interleaveDefs_describe (bufferView : nat) (l : list Accessor) :
  forall byteStride, Forall2 describes l (interleaveDefs bufferView byteStride l).
Proof.
  induction l as [|a l IH]; intros byteStride; constructor;
    [apply describes_def | apply IH].
Qed.

Lemma planDefs_describe (gs : list Group) :
  forall bufferView,
    Forall2 describes (gs ≫= groupAccessors) (planDefs bufferView gs).
Proof.
  induction gs as [|g gs IH]; intros bufferView; [constructor|].
  cbn [planDefs]. rewrite bind_cons. apply Forall2_app; [|apply IH].
  destruct g; [apply concatDefs_describe | apply interleaveDefs_describe].
Qed.

Lemma stageDefs_describe (accessorLinks : gmap nat (list Link)) (buffers : list Buffer) :
  forall bufferView,
    Forall2 describes (packedAccessors accessorLinks buffers)
      (stageDefs accessorLinks bufferView buffers).
Proof.
  unfold packedAccessors.
  induction buffers as [|b bs IH]; intros bufferView; [constructor|].
  cbn [stageDefs]. rewrite bind_cons.
  apply Forall2_app; [apply planDefs_describe | apply IH].
Qed.

(** The accessor table behind a written document. *)
Lemma written_accessor_table (doc : Document) (options : WriterOptions)
    (nd : NativeDocument) (log : list string) :
  write doc options = Ok (nd, log) ->
  exists materials w,
    json_of nd = clean (rootObject (getRoot doc) materials w)
    /\ accessorIndexMap w
       = recordIds ∅ 0
           (acc_id <$> packedAccessors (gatherAccessorLinks (getLinks doc))
                         (listBuffers (getRoot doc)))
    /\ w_accessors w
       = stageDefs (gatherAccessorLinks (getLinks doc))
           (length (stageImages options (getRoot doc))) (listBuffers (getRoot doc)).
Proof.
  intros Hwrite.
  destruct (write_exact _ _ _ _ Hwrite)
    as (w1 & materials & Hok & Himages & Hstage & Hsame & Hjson & _).
  cbv zeta in Hsame, Hjson.
  destruct (writeImages_untouched _ _ _ Himages) as (Htable & _).
  destruct Hstage as (_ & Hdata & Hlen & Hacc & _).
  destruct Hsame as (HaccS & _ & _ & _ & _ & HtableS & _).
  eexists materials, _. split; [exact Hjson|].
  rewrite HtableS, HaccS.
  destruct (buffersState_accessors options (multipleBuffers (getRoot doc))
              (gatherAccessorLinks (getLinks doc)) (listBuffers (getRoot doc)) w1)
    as [-> ->].
  rewrite Htable, Hacc, Hlen, Hdata, recordAccessors_ids. done.
Qed.

Lemma getIndex_recorded (ids : list nat) (id : nat) :
  NoDup ids -> getIndex (recordIds ∅ 0 ids) id = positionOf ids id.
Proof. intros Hnodup. rewrite <- indexMap_ids. by apply getIndex_positionOf. Qed.

(** X7. In a written document the accessor definitions are those of the
    packed accessors, in packing order; and when no accessor is packed twice
    and no material listed twice, every primitive refers, for its indices,
    its attributes and the attributes of its morph targets, to the definition
    of the very accessor, and to its material by the material's place in the
    root's listing. An accessor that belongs to no buffer, or a material that
    the root does not list, is written as [undefined]. *)
Theorem accessor_references_resolved (doc : Document) (options : WriterOptions)
    (nd : NativeDocument) (log : list string) :
  let accessorLinks := gatherAccessorLinks (getLinks doc) in
  let buffers := listBuffers (getRoot doc) in
  write doc options = Ok (nd, log) ->
  Forall2 describes (packedAccessors accessorLinks buffers)
    (jarray "accessors" (json_of nd))
  /\ (NoDup (acc_id <$> packedAccessors accessorLinks buffers) ->
      NoDup (mat_id <$> listMaterials (getRoot doc)) ->
      distinctSemantics (getRoot doc) ->
      Forall2 (meshRefs (accessorIndexOf accessorLinks buffers)
                 (positionOf (mat_id <$> listMaterials (getRoot doc))))
        (listMeshes (getRoot doc)) (jarray "meshes" (json_of nd))).
Proof.
  intros accessorLinks buffers Hwrite.
  destruct (written_accessor_table _ _ _ _ Hwrite)
    as (materials & w & Hjson & Htable & Hdefs).
  rewrite Hjson, json_accessors, json_meshes, Hdefs, Htable.
  split; [apply stageDefs_describe|].
  intros Haccessors Hmaterials Hsemantics.
  apply Forall2_fmap_r, Forall_Forall2_diag, Forall_forall. intros mesh Hmesh.
  apply writeMesh_refs.
  - intros id. by apply getIndex_recorded.
  - intros id. by apply getIndex_positionOf.
  - intros primitive Hprimitive. by apply (Hsemantics mesh).
Qed.

Lemma accessor_references_resolved_witness :
  exists nd log,
    write sceneDocument glbOptions = Ok (nd, log)
    /\ packedAccessors (gatherAccessorLinks (getLinks sceneDocument))
         (listBuffers (getRoot sceneDocument))
       = [triangleIndices; positionAccessor; normalAccessor]
    /\ Forall2 describes
         (packedAccessors (gatherAccessorLinks (getLinks sceneDocument))
            (listBuffers (getRoot sceneDocument)))
         (jarray "accessors" (json_of nd))
    /\ Forall2 (meshRefs
                  (accessorIndexOf (gatherAccessorLinks (getLinks sceneDocument))
                     (listBuffers (getRoot sceneDocument)))
                  (positionOf (mat_id <$> listMaterials (getRoot sceneDocument))))
         (listMeshes (getRoot sceneDocument)) (jarray "meshes" (json_of nd))
    /\ accessorIndexOf (gatherAccessorLinks (getLinks sceneDocument))
         (listBuffers (getRoot sceneDocument)) <$> [3; 1; 2; 7]
       = [JInt 0; JInt 1; JInt 2; JUndefined].
Proof.
  assert (Hpacked : packedAccessors (gatherAccessorLinks (getLinks sceneDocument))
                      (listBuffers (getRoot sceneDocument))
                    = [triangleIndices; positionAccessor; normalAccessor])
    by (vm_compute; reflexivity).
  assert (H1 : NoDup (acc_id <$> packedAccessors
                        (gatherAccessorLinks (getLinks sceneDocument))
                        (listBuffers (getRoot sceneDocument)))).
  { rewrite Hpacked. apply (bool_decide_unpack _). vm_compute. exact I. }
  assert (H2 : NoDup (mat_id <$> listMaterials (getRoot sceneDocument))).
  { apply (bool_decide_unpack _). vm_compute. exact I. }
  assert (H3 : distinctSemantics (getRoot sceneDocument)).
  { intros mesh primitive Hmesh Hprimitive.
    apply list_elem_of_singleton in Hmesh as ->.
    apply list_elem_of_singleton in Hprimitive as ->.
    split; [apply (bool_decide_unpack _); vm_compute; exact I|].
    intros target Htarget. simpl in Htarget.
    apply elem_of_nil in Htarget. destruct Htarget. }
  destruct (write sceneDocument glbOptions) as [[nd log]|e] eqn:Hwrite;
    [|vm_compute in Hwrite; discriminate Hwrite].
  exists nd, log. split; [reflexivity|]. split; [exact Hpacked|].
  pose proof (accessor_references_resolved sceneDocument glbOptions nd log) as H.
  cbv zeta in H. destruct (H Hwrite) as [Hdefs Hmeshes].
  split; [exact Hdefs|]. split; [exact (Hmeshes H1 H2 H3)|].
  vm_compute. reflexivity.
Defined.

(** ** References of skins and animations *)

Lemma getIndexOf_refOf (table : gmap nat nat) (ref : nat -> json)
    (property : option nat) :
  (forall id, getIndex table id = ref id) ->
  getIndexOf table property = refOf ref property.
Proof. intros H. destruct property as [id|]; [apply H | done]. Qed.

Lemma writeSkin_accessor (accessors nodes : gmap nat nat) (ref : nat -> json)
    (skin : Skin) :
  (forall id, getIndex accessors id = ref id) ->
  skinAccessorRefs ref skin (writeSkin accessors nodes skin).
Proof.
  intros Href. unfold skinAccessorRefs, writeSkin.
  destruct (getInverseBindMatrices skin) as [ibm|], (getSkeleton skin) as [node|];
    cbn [fmap option_fmap option_map]; field_through; by rewrite Href.
Qed.

Lemma writeAnimation_refs (accessors nodes : gmap nat nat)
    (accessorOf nodeOf : nat -> json) (animation : Animation) :
  (forall id, getIndex accessors id = accessorOf id) ->
  (forall id, getIndex nodes id = nodeOf id) ->
  NoDup (sampler_id <$> listSamplers animation) ->
  animationRefs accessorOf nodeOf animation
    (writeAnimation accessors nodes animation).
Proof.
  intros Hacc Hnode Hsamplers. unfold animationRefs, writeAnimation.
  eexists _, _. split; [field_through|]. split; [field_through|].
  split.
  - apply Forall2_fmap_diag. intros sampler. unfold samplerRefs.
    split_and!; field_through;
      by rewrite (getIndexOf_refOf _ accessorOf).
  - apply Forall2_fmap_diag. intros channel. unfold channelRefs.
    split_and!; field_through.
    + rewrite (getIndexOf_refOf _
                 (positionOf (sampler_id <$> listSamplers animation))); [done|].
      intros id. by apply getIndex_positionOf.
    + by rewrite (getIndexOf_refOf _ nodeOf).
Qed.

(** X8. In a written document, when no accessor is packed twice and no node
    listed twice, a skin refers to the definition of its inverse bind
    matrices, an animation sampler to the definitions of its input and
    output accessors, and an animation channel to its target node by the
    node's place in the root's listing and to its sampler by the sampler's
    place among the samplers of the same animation. A sampler of another
    animation, an accessor of no buffer and an unlisted node are written as
    [undefined]. *)
Theorem animation_references_resolved (doc : Document) (options : WriterOptions)
    (nd : NativeDocument) (log : list string) :
  write doc options = Ok (nd, log) ->
  NoDup (acc_id <$> packedAccessors (gatherAccessorLinks (getLinks doc))
                      (listBuffers (getRoot doc))) ->
  NoDup (node_id <$> listNodes (getRoot doc)) ->
  Forall (fun animation => NoDup (sampler_id <$> listSamplers animation))
    (listAnimations (getRoot doc)) ->
  Forall2 (skinAccessorRefs
             (accessorIndexOf (gatherAccessorLinks (getLinks doc))
                (listBuffers (getRoot doc))))
    (listSkins (getRoot doc)) (jarray "skins" (json_of nd))
  /\ Forall2 (animationRefs
                (accessorIndexOf (gatherAccessorLinks (getLinks doc))
                   (listBuffers (getRoot doc)))
                (positionOf (node_id <$> listNodes (getRoot doc))))
       (listAnimations (getRoot doc)) (jarray "animations" (json_of nd)).
Proof.
  intros Hwrite Haccessors Hnodes Hsamplers.
  destruct (written_accessor_table _ _ _ _ Hwrite)
    as (materials & w & Hjson & Htable & _).
  rewrite Hjson, json_skins, json_animations, Htable.
  split.
  - apply Forall2_fmap_diag. intros skin. apply writeSkin_accessor.
    intros id. by apply getIndex_recorded.
  - apply Forall2_fmap_r, Forall_Forall2_diag.
    eapply Forall_impl; [exact Hsamplers|]. intros animation Hnodup.
    apply writeAnimation_refs; [| |done].
    + intros id. by apply getIndex_recorded.
    + intros id. by apply getIndex_positionOf.
Qed.

Lemma animation_references_resolved_witness :
  exists nd log,
    write animatedDocument glbOptions = Ok (nd, log)
    /\ Forall2 (skinAccessorRefs
                  (accessorIndexOf (gatherAccessorLinks (getLinks animatedDocument))
                     (listBuffers (getRoot animatedDocument))))
         (listSkins (getRoot animatedDocument)) (jarray "skins" (json_of nd))
    /\ Forall2 (animationRefs
                  (accessorIndexOf (gatherAccessorLinks (getLinks animatedDocument))
                     (listBuffers (getRoot animatedDocument)))
                  (positionOf (node_id <$> listNodes (getRoot animatedDocument))))
         (listAnimations (getRoot animatedDocument))
         (jarray "animations" (json_of nd))
    /\ accessorIndexOf (gatherAccessorLinks (getLinks animatedDocument))
         (listBuffers (getRoot animatedDocument)) <$> [1; 2; 3]
       = [JInt 0; JInt 1; JUndefined].
Proof.
  assert (H1 : NoDup (acc_id <$> packedAccessors
                        (gatherAccessorLinks (getLinks animatedDocument))
                        (listBuffers (getRoot animatedDocument))))
    by (apply (bool_decide_unpack _); vm_compute; exact I).
  assert (H2 : NoDup (node_id <$> listNodes (getRoot animatedDocument)))
    by (apply (bool_decide_unpack _); vm_compute; exact I).
  assert (H3 : Forall (fun animation => NoDup (sampler_id <$> listSamplers animation))
                 (listAnimations (getRoot animatedDocument))).
  { repeat constructor. intros H. by apply elem_of_nil in H. }
  destruct (write animatedDocument glbOptions) as [[nd log]|e] eqn:Hwrite;
    [|vm_compute in Hwrite; discriminate Hwrite].
  exists nd, log. split; [reflexivity|].
  destruct (animation_references_resolved animatedDocument glbOptions nd log
              Hwrite H1 H2 H3) as [Hskins Hanimations].
  split; [exact Hskins|]. split; [exact Hanimations|].
  vm_compute. reflexivity.
Defined.

(** ** Generated URIs *)

Lemma append_inv_head (a b c : string) : a +:+ b = a +:+ c -> b = c.
Proof.
  induction a as [|x a IH]; [done|]. rewrite !append_cons. intros H.
  injection H as H. by apply IH.
Qed.

Lemma pretty_nat_numeric (n : nat) : numeric (pretty n).
Proof. apply pretty_N_numeric. Qed.

(** The URI made for the counter [counter]. *)
Lemma createURI_generated (basename uri extension : string) (counter : nat) :
  truthy uri = false ->
  createURI true basename counter uri extension
  = (basename +:+ "_" +:+ pretty counter +:+ "." +:+ extension, S counter).
Proof. intros Huri. unfold createURI. by rewrite Huri. Qed.

Lemma generated_inj (basename extension extension' : string) (c c' : nat) :
  basename +:+ "_" +:+ pretty c +:+ "." +:+ extension
  = basename +:+ "_" +:+ pretty c' +:+ "." +:+ extension' ->
  c = c' /\ extension = extension'.
Proof.
  intros H. apply append_inv_head in H. rewrite !append_cons, !append_nil_l in H.
  injection H as H.
  apply numeric_split in H as [Hc He];
    [|done|apply pretty_nat_numeric..].
  split; [by apply (inj pretty) | done].
Qed.

Lemma createURIs_from (basename : string) (objects : list (string * string)) :
  Forall (fun object => truthy object.1 = false) objects ->
  forall counter uri,
    uri ∈ createURIs true basename counter objects ->
    exists c extension,
      counter <= c
      /\ uri = basename +:+ "_" +:+ pretty c +:+ "." +:+ extension.
Proof.
  induction 1 as [|o objects Ho _ IH]; intros counter uri Hin; cbn [createURIs] in Hin.
  - by apply elem_of_nil in Hin.
  - rewrite createURI_generated in Hin by done. cbn [fst snd] in Hin.
    apply elem_of_cons in Hin as [->|Hin]; [by exists counter, o.2|].
    destruct (IH _ _ Hin) as (c & extension & Hc & ->).
    exists c, extension. split; [lia | done].
Qed.

Lemma createURIs_NoDup_multiple (basename : string) (counter : nat)
    (objects : list (string * string)) :
  Forall (fun object => truthy object.1 = false) objects ->
  NoDup (createURIs true basename counter objects).
Proof.
  intros Hobjects. revert counter.
  induction Hobjects as [|o objects Ho Hobjects IH]; intros counter;
    cbn [createURIs].
  - constructor.
  - rewrite createURI_generated by done. cbn [fst snd].
    constructor; [|apply IH]. intros Hin.
    destruct (createURIs_from _ _ Hobjects _ _ Hin) as (c & extension & Hc & Heq).
    apply generated_inj in Heq as [-> _]. lia.
Qed.

(** X9. A generator for several objects gives the objects that have no URI
    of their own pairwise different URIs, whatever their extensions are and
    whatever its counter is when the first of them is reached. *)
Theorem createURIs_distinct (basename : string) (counter : nat)
    (objects : list (string * string)) :
  Forall (fun object => truthy object.1 = false) objects ->
  NoDup (createURIs true basename counter objects).
Proof. apply createURIs_NoDup_multiple. Qed.

Lemma createURIs_distinct_witness :
  createURIs true "scene" 1
    [(EmptyString, "png"); (EmptyString, "jpeg"); (EmptyString, "png")]
  = ["scene_1.png"; "scene_2.jpeg"; "scene_3.png"]
  /\ NoDup (createURIs true "scene" 1
              [(EmptyString, "png"); (EmptyString, "jpeg"); (EmptyString, "png")]).
Proof.
  split; [vm_compute; reflexivity|].
  apply (createURIs_distinct "scene" 1). repeat constructor.
Defined.

(** ** Sequential buffer views *)

Lemma concatLength_app (l1 l2 : list Accessor) :
  concatLength (l1 ++ l2) = concatLength l1 + concatLength l2.
Proof.
  induction l1 as [|a l1 IH]; [done|].
  rewrite <- app_comm_cons, !concatLength_cons, IH. lia.
Qed.

Lemma concatLength_divide (l : list Accessor) : (4 | concatLength l).
Proof. destruct (concatLength_multiple l) as [k ->]. exists k. lia. Qed.

Lemma lookup_concatDefs (bufferView : nat) (l : list Accessor) :
  forall (byteOffset k : nat) (a : Accessor),
    l !! k = Some a ->
    concatDefs bufferView byteOffset l !! k
    = Some (JObj (oset "byteOffset" (JNat (byteOffset + concatOffset l k))
                    (oset "bufferView" (JNat bufferView) (createAccessorDef a)))).
Proof.
  induction l as [|x l IH]; intros byteOffset k a Hk; [done|].
  destruct k as [|k]; cbn [concatDefs].
  - injection Hk as ->. unfold concatOffset, concatLength. simpl.
    by rewrite Nat.add_0_r.
  - simpl in Hk. cbn [lookup list_lookup]. rewrite (IH _ _ _ Hk).
    unfold concatOffset. cbn [take]. rewrite concatLength_cons.
    by rewrite Nat.add_assoc.
Qed.

Lemma slice_padded (l : list Accessor) (k : nat) (a : Accessor) :
  l !! k = Some a ->
  slice (concatOffset l k) (length (arrayBuffer a))
    (BufferUtils.concat (paddedArray <$> l))
  = arrayBuffer a.
Proof.
  intros Hk. rewrite <- (take_drop_middle l k a Hk) at 2.
  unfold BufferUtils.concat. rewrite fmap_app, fmap_cons, join_app.
  cbn [mjoin list_join]. unfold slice, concatOffset.
  rewrite drop_app_length'
    by (pose proof (length_concat_padded (take k l)) as H;
        unfold BufferUtils.concat in H; by rewrite H).
  unfold paddedArray at 1, BufferUtils.pad. rewrite <- !app_assoc.
  by rewrite take_app_length.
Qed.

Lemma slice_slice (o n x c : nat) (data buffer : list Z) :
  slice o n data = buffer -> x + c <= n ->
  slice (o + x) c data = slice x c buffer.
Proof.
  intros <- Hfit. unfold slice.
  rewrite skipn_firstn_comm, take_take, drop_drop.
  f_equal. lia.
Qed.

Lemma acc_array_lookup (a : Accessor) (q : nat) (v : Z) :
  acc_array a !! q = Some v ->
  q < ta_length (getArray a)
  /\ v = littleEndian
           (slice (ta_byteOffset (getArray a) + q * getComponentSize a)
              (getComponentSize a) (arrayBuffer a)).
Proof.
  unfold acc_array. rewrite list_lookup_fmap. intros Hq.
  destruct (seq 0 (ta_length (getArray a)) !! q) as [q'|] eqn:Hseq; [|done].
  apply lookup_seq in Hseq as [-> Hlt]. injection Hq as <-. done.
Qed.

(** Where the buffer of an accessor is, its elements are. *)
Lemma bufferAt_slice (a : Accessor) (byteOffset : nat) (data : list Z) :
  slice byteOffset (length (arrayBuffer a)) data = arrayBuffer a ->
  bufferAt a byteOffset data.
Proof.
  intros Hslice. split; [exact Hslice|].
  intros Hinside q v Hq. apply acc_array_lookup in Hq as [Hlt ->].
  rewrite <- Nat.add_assoc.
  rewrite (slice_slice _ _ _ _ _ _ Hslice); [done|].
  unfold insideBuffer in Hinside.
  assert (q * getComponentSize a + getComponentSize a
          <= ta_length (getArray a) * getComponentSize a) by nia.
  lia.
Qed.

Lemma concatOffset_fits (l : list Accessor) (k : nat) (a : Accessor) :
  l !! k = Some a ->
  concatOffset l k + length (arrayBuffer a) <= concatLength l.
Proof.
  intros Hk. rewrite <- (take_drop_middle l k a Hk) at 2.
  rewrite concatLength_app, concatLength_cons. unfold concatOffset, paddedArray.
  rewrite length_pad. pose proof (padNumber_ge (length (arrayBuffer a))). lia.
Qed.

(** X10. [concatAccessors] never fails, also on no accessors. It appends one
    buffer view of the padded lengths of all accessors, with a target only
    when a non-zero one is given, and one definition per accessor, which
    names that view and a byte offset that is a multiple of four. What lies
    at that offset, inside the view, is the buffer under the accessor's
    array, the whole of it: the elements of the array follow at the byte
    offset that the array has in its buffer, so that the definition points at
    the first element only when the array starts its buffer. *)
Theorem concatAccessors_layout (accessors : list Accessor)
    (bufferIndex bufferByteOffset : nat) (bufferViewTarget : option Z) (w : Writer) :
  concatLayout accessors bufferIndex bufferByteOffset bufferViewTarget w.
Proof.
  unfold concatLayout. eexists _, _.
  split; [apply concatAccessors_exact|].
  unfold packState. cbn [w_bufferViews w_accessors set_w_bufferViews
    set_w_accessors set_accessorIndexMap].
  split; [reflexivity|]. split_and!.
  - apply groupView_buffer.
  - unfold groupView. destruct bufferViewTarget as [t|]; [|done].
    destruct (decide (t = 0%Z)); [done|]. by rewrite oget_oset_ne.
  - unfold groupView. destruct bufferViewTarget as [t|]; [|done].
    destruct (decide (t = 0%Z)); [done|]. by rewrite oget_oset_ne.
  - unfold groupView. destruct bufferViewTarget as [t|]; [|done].
    destruct (decide (t = 0%Z)); [done|]. by rewrite oget_oset_eq.
  - by rewrite length_app, length_concatDefs.
  - intros k a Hk. eexists.
    split.
    { rewrite lookup_app_r by lia.
      replace (length (w_accessors w) + k - length (w_accessors w)) with k by lia.
      by apply lookup_concatDefs. }
    split; [by rewrite oget_oset_ne, oget_oset_eq|].
    split; [by rewrite oget_oset_eq|].
    split; [apply concatLength_divide|].
    split; [by apply concatOffset_fits | by apply bufferAt_slice, slice_padded].
Qed.

Lemma concatAccessors_layout_witness :
  concatLayout [viewAccessor] 0 0 (Some 34963%Z) initialWriter
  /\ acc_array viewAccessor = [1; 2; 3]%Z
  /\ insideBuffer viewAccessor
  /\ exists w',
       concatAccessors [viewAccessor] 0 0 (Some 34963%Z) initialWriter
       = Ok ({| res_byteLength := 12;
                res_buffers := [[9; 9; 9; 9; 1; 0; 2; 0; 3; 0; 0; 0]%Z] |}, w')
       /\ defField "byteOffset" <$> w_accessors w' = [Some (JNat 0)].
Proof.
  split; [exact (concatAccessors_layout [viewAccessor] 0 0 (Some 34963%Z)
                   initialWriter)|].
  split; [reflexivity|].
  split; [vm_compute; lia|].
  eexists. split; [vm_compute; reflexivity|]. reflexivity.
Defined.

(** ** Embedded images *)

Lemma lookup_placeView (i offset q : nat) (views : list json) :
  q ≠ i -> placeView i offset views !! q = views !! q.
Proof.
  intros Hne. unfold placeView.
  destruct (views !! i) as [[| | | | | | |view]|]; try done.
  by rewrite list_lookup_insert_ne.
Qed.

Lemma lookup_placeView_eq (i offset : nat) (views : list json) (view : object) :
  views !! i = Some (JObj view) ->
  placeView i offset views !! i
  = Some (JObj (oset "byteOffset" (JNat offset) view)).
Proof.
  intros Hview. unfold placeView. rewrite Hview.
  apply list_lookup_insert_eq. by eapply lookup_lt_Some.
Qed.

Lemma placeImages_outside (images : list (list Z)) :
  forall (i offset q : nat) (views : list json),
    q < i \/ i + length images <= q ->
    placeImages i offset images views !! q = views !! q.
Proof.
  induction images as [|data rest IH]; intros i offset q views Hq; [done|].
  cbn [placeImages]. cbn [length] in Hq.
  rewrite IH by lia. apply lookup_placeView. lia.
Qed.

Lemma placeImages_inside (images : list (list Z)) :
  forall (i offset j : nat) (views : list json) (view : object),
    j < length images ->
    views !! (i + j) = Some (JObj view) ->
    placeImages i offset images views !! (i + j)
    = Some (JObj (oset "byteOffset"
                    (JNat (offset + sum_list (length <$> take j images))) view)).
Proof.
  induction images as [|data rest IH]; intros i offset j views view Hj Hview;
    [simpl in Hj; lia|].
  cbn [placeImages]. destruct j as [|j].
  - rewrite Nat.add_0_r in *. rewrite placeImages_outside by lia.
    rewrite (lookup_placeView_eq _ _ _ _ Hview). simpl.
    by rewrite Nat.add_0_r.
  - replace (i + S j) with (S i + j) in * by lia.
    cbn [length] in Hj.
    rewrite (IH (S i) (offset + length data) j (placeView i offset views) view).
    + assert (offset + length data + sum_list (length <$> take j rest)
              = offset + sum_list (length <$> take (S j) (data :: rest))) as ->
        by (simpl; symmetry; apply Nat.add_assoc).
      done.
    + lia.
    + rewrite lookup_placeView by lia. done.
Qed.

Lemma bufferState_images (options : WriterOptions) (multiple : bool)
    (accessorLinks : gmap nat (list Link)) (b : Buffer) (w : Writer) :
  imageData (bufferState options multiple accessorLinks b w) = imageData w
  /\ w_images (bufferState options multiple accessorLinks b w) = w_images w
  /\ w_bufferViews (bufferState options multiple accessorLinks b w)
     = placeImages 0 (planLength (bufferGroups accessorLinks b)) (imageData w)
         (w_bufferViews w
          ++ planViews (length (w_buffers w)) 0 (bufferGroups accessorLinks b)).
Proof. unfold bufferState. by case_decide. Qed.

Lemma buffersState_images (options : WriterOptions) (multiple : bool)
    (accessorLinks : gmap nat (list Link)) (buffers : list Buffer) :
  forall w,
    imageData (buffersState options multiple accessorLinks buffers w) = imageData w
    /\ w_images (buffersState options multiple accessorLinks buffers w) = w_images w.
Proof.
  induction buffers as [|b bs IH]; intros w; [done|].
  unfold buffersState in *. cbn [foldl].
  destruct (IH (bufferState options multiple accessorLinks b w)) as [-> ->].
  by destruct (bufferState_images options multiple accessorLinks b w) as (-> & -> & _).
Qed.

(** The image views keep their shape through the buffers. *)
Lemma bufferState_imageView (options : WriterOptions) (multiple : bool)
    (accessorLinks : gmap nat (list Link)) (b : Buffer) (w : Writer)
    (i : nat) (texture : Texture) (byteOffset : json) :
  i < length (imageData w) ->
  w_bufferViews w !! i = Some (placedImageView byteOffset texture) ->
  w_bufferViews (bufferState options multiple accessorLinks b w) !! i
  = Some (placedImageView
            (JNat (imageOffset (bufferGroups accessorLinks b) (imageData w) i))
            texture).
Proof.
  intros Hi Hview.
  destruct (bufferState_images options multiple accessorLinks b w) as (_ & _ & ->).
  pose proof (placeImages_inside (imageData w) 0
                (planLength (bufferGroups accessorLinks b)) i
                (w_bufferViews w
                 ++ planViews (length (w_buffers w)) 0 (bufferGroups accessorLinks b))
                [("buffer", JInt 0); ("byteOffset", byteOffset);
                 ("byteLength", JNat (length (tex_image texture)))] Hi) as H.
  rewrite Nat.add_0_l in H. rewrite H; [done|].
  rewrite lookup_app_l by (by eapply lookup_lt_Some). exact Hview.
Qed.

Lemma buffersState_imageView (options : WriterOptions) (multiple : bool)
    (accessorLinks : gmap nat (list Link)) (buffers : list Buffer)
    (i : nat) (texture : Texture) :
  forall (w : Writer) (byteOffset : json),
    i < length (imageData w) ->
    w_bufferViews w !! i = Some (placedImageView byteOffset texture) ->
    exists byteOffset',
      w_bufferViews (buffersState options multiple accessorLinks buffers w) !! i
      = Some (placedImageView byteOffset' texture).
Proof.
  induction buffers as [|b bs IH]; intros w byteOffset Hi Hview; [by eexists|].
  unfold buffersState in *. cbn [foldl].
  eapply IH.
  - by destruct (bufferState_images options multiple accessorLinks b w) as (-> & _).
  - by eapply bufferState_imageView.
Qed.

Lemma slice_image (segments : list Z) (images : list (list Z)) (i : nat)
    (image : list Z) :
  images !! i = Some image ->
  slice (length segments + sum_list (length <$> take i images)) (length image)
    (segments ++ mjoin images)
  = image.
Proof.
  intros Hi. rewrite <- (take_drop_middle images i image Hi) at 2.
  rewrite join_app. cbn [mjoin list_join]. unfold slice.
  rewrite !app_assoc, <- (app_assoc _ image).
  rewrite drop_app_length' by (by rewrite length_app, length_join).
  by rewrite take_app_length.
Qed.

(** The writer after the images stage when the images are embedded. *)
Lemma writeImages_embedded_exact (options : WriterOptions) (root : Root)
    (w1 : Writer) :
  embedsImages options = true ->
  writeImages options root initialWriter = Ok (tt, w1) ->
  w_bufferViews w1 = imageView <$> listTextures root
  /\ imageData w1 = tex_image <$> listTextures root
  /\ w_resources w1 = ∅
  /\ w_buffers w1 = [].
Proof.
  intros Hembed. unfold writeImages. rewrite bind_run.
  destruct (writeImages_embedded options
              (bool_decide (1 < length (listTextures root)))
              (listTextures root) Hembed 0 initialWriter)
    as (images & table & -> & _).
  intros Hrun. by injection Hrun as <-.
Qed.

(** X11. When the images are embedded and the root lists a buffer, the view
    of every image is in buffer 0 and has the image's byte length, and its
    byte offset is where the image lies in the bytes packed for the last
    buffer of the listing, after that buffer's accessors and the images
    before it: the image is read back from those bytes. The image definition
    names the view, and in a GLB, unless they are empty, those bytes are the
    binary resource. *)
Theorem embedded_images_read_back (doc : Document) (options : WriterOptions)
    (nd : NativeDocument) (log : list string) (before : list Buffer) (b : Buffer)
    (i : nat) (texture : Texture) :
  write doc options = Ok (nd, log) ->
  embedsImages options = true ->
  listBuffers (getRoot doc) = before ++ [b] ->
  listTextures (getRoot doc) !! i = Some texture ->
  let gs := bufferGroups (gatherAccessorLinks (getLinks doc)) b in
  let images := tex_image <$> listTextures (getRoot doc) in
  (exists def,
     jarray "images" (json_of nd) !! i = Some (JObj def)
     /\ oget "bufferView" def = Some (JNat i))
  /\ jarray "bufferViews" (json_of nd) !! i
     = Some (placedImageView (JNat (imageOffset gs images i)) texture)
  /\ slice (imageOffset gs images i) (length (tex_image texture))
       (packedBytes gs images)
     = tex_image texture
  /\ (isGLB options = true -> embedded options = false ->
      packedBytes gs images ≠ [] ->
      resources_of nd !! GLB_BUFFER = Some (packedBytes gs images)).
Proof.
  intros Hwrite Hembed Hbuffers Htexture gs images.
  destruct (write_exact _ _ _ _ Hwrite)
    as (w1 & materials & Hok & Himages & Hstage & Hsame & Hjson & Hres & _).
  cbv zeta in Hsame, Hjson, Hres.
  destruct Hsame as (_ & HviewsS & HimagesS & _ & HresS & _).
  destruct (writeImages_embedded_exact _ _ _ Hembed Himages)
    as (Hviews1 & Hdata1 & Hres1 & Hbuf1).
  destruct Hstage as (Hplaced & _).
  rewrite Hjson, json_images, json_bufferViews, Hres, HimagesS, HviewsS, HresS.
  rewrite Hbuffers. unfold buffersState. rewrite foldl_app. cbn [foldl].
  fold (buffersState options (multipleBuffers (getRoot doc))
          (gatherAccessorLinks (getLinks doc)) before w1).
  set (w := buffersState options (multipleBuffers (getRoot doc))
              (gatherAccessorLinks (getLinks doc)) before w1).
  destruct (buffersState_images options (multipleBuffers (getRoot doc))
              (gatherAccessorLinks (getLinks doc)) before w1) as [Hdata Himgs].
  fold w in Hdata, Himgs.
  assert (Hi : i < length (imageData w1)).
  { rewrite Hdata1, length_fmap. by eapply lookup_lt_Some. }
  assert (Himage : images !! i = Some (tex_image texture)).
  { unfold images. by rewrite list_lookup_fmap, Htexture. }
  split_and!.
  - destruct (bufferState_images options (multipleBuffers (getRoot doc))
                (gatherAccessorLinks (getLinks doc)) b w) as (_ & -> & _).
    rewrite Himgs. destruct (Hplaced i Hi) as (def & view & Hdef & Hbv & _).
    by exists def.
  - destruct (buffersState_imageView options (multipleBuffers (getRoot doc))
                (gatherAccessorLinks (getLinks doc)) before i texture w1
                (JInt (-1))) as [byteOffset Hview]; [done| |].
    { by rewrite Hviews1, list_lookup_fmap, Htexture. }
    fold w in Hview.
    rewrite (bufferState_imageView _ _ _ _ _ _ texture byteOffset)
      by (by rewrite ?Hdata).
    by rewrite Hdata, Hdata1.
  - unfold imageOffset, packedBytes, BufferUtils.concat.
    rewrite join_app, <- length_segments. by apply slice_image.
  - intros Hglb Hnot Hdata'. unfold bufferState.
    rewrite Hdata, Hdata1. fold images. fold gs.
    destruct (decide (planLength gs + sum_list (length <$> images) = 0))
      as [Hzero|Hnz].
    + destruct Hdata'. apply nil_length_inv. by rewrite length_packedBytes.
    + proj_simpl. unfold storeEmitted, bufferURI. rewrite Hnot, Hglb.
      cbn [foldl em_buffer em_counter em_data fst]. apply lookup_insert_eq.
Qed.

Lemma embedded_images_read_back_witness :
  exists nd log,
    write twoImagesDocument glbOptions = Ok (nd, log)
    /\ jarray "bufferViews" (json_of nd) !! 1
       = Some (placedImageView (JNat 11) (pngTexture 2 "stone" [137; 80; 78; 71; 13]%Z))
    /\ slice 11 5 (packedBytes
                     (bufferGroups (gatherAccessorLinks (getLinks twoImagesDocument))
                        (bufferOf "geometry" [ParentAccessor triangleIndices]))
                     (tex_image <$> listTextures (getRoot twoImagesDocument)))
       = [137; 80; 78; 71; 13]%Z
    /\ resources_of nd !! GLB_BUFFER
       = Some [0; 0; 1; 0; 2; 0; 0; 0; 137; 80; 78; 137; 80; 78; 71; 13]%Z.
Proof.
  destruct (write twoImagesDocument glbOptions) as [[nd log]|e] eqn:Hwrite;
    [|vm_compute in Hwrite; discriminate Hwrite].
  exists nd, log. split; [reflexivity|].
  pose proof (embedded_images_read_back twoImagesDocument glbOptions nd log []
                (bufferOf "geometry" [ParentAccessor triangleIndices]) 1
                (pngTexture 2 "stone" [137; 80; 78; 71; 13]%Z)
                Hwrite eq_refl eq_refl eq_refl) as H.
  cbv zeta in H. destruct H as (_ & Hview & Hslice & Hglb).
  split; [exact Hview|]. split; [exact Hslice|].
  rewrite (Hglb eq_refl eq_refl); [vm_compute; reflexivity|].
  vm_compute. intros H. discriminate H.
Defined.

(** X12. When the images are embedded and the root lists no buffer, [write]
    returns, but the bytes of the images are nowhere: no buffer is emitted,
    no resource is stored, and every image view keeps the byte offset -1
    with which it was reserved. *)
Theorem embedded_images_need_a_buffer (doc : Document) (options : WriterOptions) :
  embedsImages options = true ->
  listBuffers (getRoot doc) = [] ->
  exists nd log,
    write doc options = Ok (nd, log)
    /\ resources_of nd = ∅
    /\ jarray "buffers" (json_of nd) = []
    /\ jarray "bufferViews" (json_of nd) = imageView <$> listTextures (getRoot doc)
    /\ log = [].
Proof.
  intros Hembed Hbuffers.
  destruct (write_returns doc options) as (nd & log & Hwrite).
  { unfold partitionsOk. rewrite Hbuffers. constructor. }
  exists nd, log. split; [exact Hwrite|].
  destruct (write_exact _ _ _ _ Hwrite)
    as (w1 & materials & _ & Himages & Hstage & Hsame & Hjson & Hres & Hlog & _).
  cbv zeta in Hsame, Hjson, Hres, Hlog. rewrite Hbuffers in Hsame, Hjson, Hres, Hlog.
  cbn [buffersState foldl] in Hsame, Hjson, Hres, Hlog.
  destruct Hsame as (_ & HviewsS & _ & HbufS & HresS & _ & _ & HlogS).
  destruct (writeImages_embedded_exact _ _ _ Hembed Himages)
    as (Hviews1 & _ & Hres1 & Hbuf1).
  destruct Hstage as (_ & _ & _ & _ & _ & _ & _ & _ & _ & Hlog1 & _).
  rewrite Hjson, json_buffers, json_bufferViews, Hres, Hlog.
  by rewrite HresS, HbufS, HviewsS, HlogS.
Qed.

Lemma embedded_images_need_a_buffer_witness :
  exists nd log,
    write {| getRoot := rootOf [] [pngTexture 1 "wood" [137; 80; 78]%Z] [];
             getLinks := [] |} glbOptions = Ok (nd, log)
    /\ resources_of nd = ∅
    /\ jarray "buffers" (json_of nd) = []
    /\ jarray "bufferViews" (json_of nd)
       = [JObj [("buffer", JInt 0); ("byteOffset", JInt (-1));
                ("byteLength", JInt 3)]]
    /\ log = [].
Proof.
  exact (embedded_images_need_a_buffer
           {| getRoot := rootOf [] [pngTexture 1 "wood" [137; 80; 78]%Z] [];
              getLinks := [] |} glbOptions eq_refl eq_refl).
Defined.

(** ** Stored files *)

Lemma storeAll_cons (file : string * list Z) (files : list (string * list Z))
    (resources : gmap string (list Z)) :
  storeAll (file :: files) resources
  = storeAll files (<[file.1 := file.2]> resources).
Proof. done. Qed.

Lemma storeAll_app (files1 files2 : list (string * list Z))
    (resources : gmap string (list Z)) :
  storeAll (files1 ++ files2) resources = storeAll files2 (storeAll files1 resources).
Proof. apply foldl_app. Qed.

Lemma storeAll_absent (files : list (string * list Z)) :
  forall (resources : gmap string (list Z)) (uri : string),
    uri ∉ files.*1 -> storeAll files resources !! uri = resources !! uri.
Proof.
  induction files as [|[u d] files IH]; intros resources uri Hnin; [done|].
  rewrite fmap_cons in Hnin. apply not_elem_of_cons in Hnin as [Hne Hnin].
  rewrite storeAll_cons, IH by done. cbn [fst snd]. by rewrite lookup_insert_ne.
Qed.

Lemma storeAll_lookup (files : list (string * list Z)) :
  NoDup files.*1 ->
  forall (resources : gmap string (list Z)) (uri : string) (data : list Z),
    (uri, data) ∈ files -> storeAll files resources !! uri = Some data.
Proof.
  induction files as [|[u d] files IH]; intros Hnodup resources uri data Hin.
  - by apply elem_of_nil in Hin.
  - rewrite fmap_cons in Hnodup. apply NoDup_cons in Hnodup as [Hu Hnodup].
    rewrite storeAll_cons. apply elem_of_cons in Hin as [Heq|Hin].
    + injection Heq as -> ->. rewrite storeAll_absent by done.
      cbn [fst snd]. apply lookup_insert_eq.
    + by apply IH.
Qed.

(** ** Names of the files *)

Lemma createURI_named (multiple : bool) (basename uri extension : string)
    (counter : nat) :
  truthy uri = false ->
  generatedName basename extension
    (createURI multiple basename counter uri extension).1.
Proof.
  intros Huri. unfold createURI, generatedName. rewrite Huri.
  destruct multiple; cbn [negb fst]; [right; by exists counter | by left].
Qed.

Lemma createURIs_names (multiple : bool) (basename : string)
    (objects : list (string * string)) :
  Forall (fun object => truthy object.1 = false) objects ->
  forall counter uri,
    uri ∈ createURIs multiple basename counter objects ->
    exists extension, extension ∈ objects.*2 /\ generatedName basename extension uri.
Proof.
  induction 1 as [|o objects Ho _ IH]; intros counter uri Hin; cbn [createURIs] in Hin.
  - by apply elem_of_nil in Hin.
  - apply elem_of_cons in Hin as [->|Hin].
    + exists o.2. split; [rewrite fmap_cons; apply list_elem_of_here|].
      by apply createURI_named.
    + destruct (IH _ _ Hin) as (extension & Hext & Hname).
      exists extension. split; [rewrite fmap_cons; by apply list_elem_of_further|done].
Qed.

Lemma generatedName_extension (basename extension extension' uri : string) :
  generatedName basename extension uri ->
  generatedName basename extension' uri ->
  extension = extension'.
Proof.
  intros [->|[c ->]] [H|[c' H]].
  - apply append_inv_head in H. by injection H.
  - apply append_inv_head in H. discriminate H.
  - apply append_inv_head in H. discriminate H.
  - by apply generated_inj in H as [_ ->].
Qed.

Lemma createURIs_NoDup (multiple : bool) (basename : string) (counter : nat)
    (objects : list (string * string)) :
  Forall (fun object => truthy object.1 = false) objects ->
  (multiple = false -> length objects <= 1) ->
  NoDup (createURIs multiple basename counter objects).
Proof.
  intros Hobjects Hlen. destruct multiple.
  - by apply createURIs_NoDup_multiple.
  - destruct objects as [|o [|o' objects]]; cbn [createURIs].
    + constructor.
    + apply NoDup_singleton.
    + specialize (Hlen eq_refl). simpl in Hlen. lia.
Qed.

Lemma storedImages_keys (options : WriterOptions) (multiple : bool)
    (textures : list Texture) :
  forall counter,
    (storedImages options multiple counter textures).*1
    = createURIs multiple (basename options) counter
        ((fun t => (tex_uri t, imageExtension t)) <$> textures).
Proof.
  induction textures as [|t textures IH]; intros counter; [done|].
  rewrite fmap_cons. cbn [storedImages createURIs fst snd].
  rewrite fmap_cons. cbn [fst]. by rewrite IH.
Qed.

Lemma storedImages_data (options : WriterOptions) (multiple : bool)
    (textures : list Texture) :
  forall counter,
    (storedImages options multiple counter textures).*2 = tex_image <$> textures.
Proof.
  induction textures as [|t textures IH]; intros counter; [done|].
  cbn [storedImages]. rewrite !fmap_cons. cbn [snd]. by rewrite IH.
Qed.

Lemma emittedFrom_buffers (options : WriterOptions) (multiple : bool)
    (accessorLinks : gmap nat (list Link)) (images : list (list Z))
    (buffers : list Buffer) :
  forall counter,
    em_buffer <$> emittedFrom options multiple accessorLinks images counter buffers
    = keptBuffers accessorLinks images buffers.
Proof.
  unfold keptBuffers.
  induction buffers as [|b buffers IH]; intros counter; [done|].
  cbn [emittedFrom]. rewrite filter_cons.
  destruct (isEmptyBuffer accessorLinks images b) eqn:Hempty.
  - rewrite decide_False by done. apply IH.
  - rewrite decide_True by done. rewrite fmap_cons. cbn [em_buffer]. by rewrite IH.
Qed.

Lemma emittedFrom_data (options : WriterOptions) (multiple : bool)
    (accessorLinks : gmap nat (list Link)) (images : list (list Z))
    (buffers : list Buffer) :
  forall counter,
    Forall (fun e => em_data e
                     = packedBytes (bufferGroups accessorLinks (em_buffer e)) images)
      (emittedFrom options multiple accessorLinks images counter buffers).
Proof.
  induction buffers as [|b buffers IH]; intros counter; [constructor|].
  cbn [emittedFrom]. destruct (isEmptyBuffer accessorLinks images b); [apply IH|].
  constructor; [done | apply IH].
Qed.

Lemma emittedFrom_keys (options : WriterOptions) (multiple : bool)
    (accessorLinks : gmap nat (list Link)) (images : list (list Z))
    (buffers : list Buffer) :
  isGLB options = false ->
  forall counter,
    (fun e => (bufferURI options multiple (em_counter e) (em_buffer e)).1)
      <$> emittedFrom options multiple accessorLinks images counter buffers
    = createURIs multiple (basename options) counter
        ((fun b => (buf_uri b, "bin")) <$> keptBuffers accessorLinks images buffers).
Proof.
  intros Hglb. unfold keptBuffers.
  induction buffers as [|b buffers IH]; intros counter; [done|].
  cbn [emittedFrom]. rewrite filter_cons.
  destruct (isEmptyBuffer accessorLinks images b) eqn:Hempty.
  - rewrite decide_False by done. apply IH.
  - rewrite decide_True by done. rewrite !fmap_cons.
    cbn [em_buffer em_counter createURIs fst snd]. rewrite IH.
    unfold bufferURI. by rewrite Hglb.
Qed.

(** ** The exact effect of the stages on the resources *)

Lemma writeImage_external_exact (options : WriterOptions) (multiple : bool) (i : nat)
    (texture : Texture) (w : Writer) :
  embedsImages options = false ->
  let r := createURI multiple (basename options) (imageURICounter w)
             (tex_uri texture) (imageExtension texture) in
  exists def,
    writeImage options multiple i texture w
    = Ok (JObj def,
          set_imageIndexMap (<[tex_id texture := i]> (imageIndexMap w))
            (set_w_resources (<[r.1 := tex_image texture]> (w_resources w))
               (set_imageURICounter r.2 w)))
    /\ oget "uri" def = Some (JStr r.1).
Proof.
  intros Hembed r. unfold writeImage. rewrite Hembed.
  eexists. split; [reflexivity|]. apply oget_oset_eq.
Qed.

Lemma writeImages_external_exact (options : WriterOptions) (multiple : bool)
    (textures : list Texture) :
  embedsImages options = false ->
  forall (i : nat) (w : Writer),
  exists images table counter,
    mapM (writeImage options multiple) i textures w
    = Ok (images,
          set_imageIndexMap table
            (set_w_resources
               (storeAll (storedImages options multiple (imageURICounter w) textures)
                  (w_resources w))
               (set_imageURICounter counter w)))
    /\ Forall2 (fun file def => defField "uri" def = Some (JStr file.1))
         (storedImages options multiple (imageURICounter w) textures) images.
Proof.
  intros Hembed. induction textures as [|t l IH]; intros i w.
  - exists [], (imageIndexMap w), (imageURICounter w). simpl.
    split; [by destruct w | constructor].
  - destruct (writeImage_external_exact options multiple i t w Hembed)
      as (def & Hrun & Huri).
    rewrite mapM_cons, Hrun.
    match goal with |- context [mapM _ (S i) l ?w1] =>
      destruct (IH (S i) w1) as (images & table & counter & Hrest & Hfiles)
    end.
    exists (JObj def :: images), table, counter. rewrite Hrest.
    split; [done|]. cbn [storedImages]. constructor; [exact Huri | exact Hfiles].
Qed.

Lemma bufferState_emitted (options : WriterOptions) (multiple : bool)
    (accessorLinks : gmap nat (list Link)) (b : Buffer) (w : Writer) :
  let emitted := emittedFrom options multiple accessorLinks (imageData w)
                   (bufferURICounter w) [b] in
  w_buffers (bufferState options multiple accessorLinks b w)
  = w_buffers w ++ (emittedDef options multiple <$> emitted)
  /\ w_resources (bufferState options multiple accessorLinks b w)
     = storeEmitted options multiple (w_resources w) emitted
  /\ bufferURICounter (bufferState options multiple accessorLinks b w)
     = if isEmptyBuffer accessorLinks (imageData w) b then bufferURICounter w
       else (bufferURI options multiple (bufferURICounter w) b).2.
Proof.
  unfold bufferState. cbn [emittedFrom]. unfold isEmptyBuffer, packedLength.
  destruct (decide (planLength (bufferGroups accessorLinks b)
                    + sum_list (length <$> imageData w) = 0)) as [Hzero|Hnz].
  - rewrite bool_decide_eq_true_2 by done. cbn [fmap list_fmap].
    rewrite app_nil_r. unfold storeEmitted. by destruct (embedded options).
  - rewrite bool_decide_eq_false_2 by done. done.
Qed.

Lemma buffersState_emitted (options : WriterOptions) (multiple : bool)
    (accessorLinks : gmap nat (list Link)) (buffers : list Buffer) :
  forall w,
    let emitted := emittedFrom options multiple accessorLinks (imageData w)
                     (bufferURICounter w) buffers in
    w_buffers (buffersState options multiple accessorLinks buffers w)
    = w_buffers w ++ (emittedDef options multiple <$> emitted)
    /\ w_resources (buffersState options multiple accessorLinks buffers w)
       = storeEmitted options multiple (w_resources w) emitted.
Proof.
  induction buffers as [|b bs IH]; intros w; cbv zeta.
  - cbn [buffersState foldl emittedFrom fmap list_fmap]. rewrite app_nil_r.
    unfold storeEmitted. by destruct (embedded options).
  - unfold buffersState in *. cbn [foldl].
    destruct (IH (bufferState options multiple accessorLinks b w)) as [-> ->].
    destruct (bufferState_emitted options multiple accessorLinks b w)
      as (-> & -> & ->).
    destruct (bufferState_images options multiple accessorLinks b w) as (-> & _).
    cbn [emittedFrom].
    destruct (isEmptyBuffer accessorLinks (imageData w) b).
    + cbn [fmap list_fmap]. rewrite app_nil_r. split; [done|].
      unfold storeEmitted. by destruct (embedded options).
    + rewrite storeEmitted_app, fmap_cons, <- app_assoc. done.
Qed.

Lemma storeEmitted_files (options : WriterOptions) (multiple : bool)
    (resources : gmap string (list Z)) (emitted : list Emitted) :
  embedded options = false ->
  storeEmitted options multiple resources emitted
  = storeAll ((fun e => ((bufferURI options multiple (em_counter e) (em_buffer e)).1,
                         em_data e)) <$> emitted) resources.
Proof.
  intros Hnot. unfold storeEmitted, storeAll. rewrite Hnot.
  revert resources. induction emitted as [|e emitted IH]; intros resources; [done|].
  rewrite fmap_cons. cbn [foldl fst snd]. apply IH.
Qed.

Lemma emittedDef_stored (options : WriterOptions) (multiple : bool) (e : Emitted) :
  isGLB options = false -> embedded options = false ->
  defField "uri" (emittedDef options multiple e)
  = Some (JStr (bufferURI options multiple (em_counter e) (em_buffer e)).1).
Proof.
  intros Hglb Hnot. unfold emittedDef, emittedBufferDef, defField.
  rewrite Hglb, Hnot. by rewrite oget_oset_ne, oget_oset_eq.
Qed.

Lemma files_stored (resources : gmap string (list Z))
    (all files : list (string * list Z)) (defs : list json) :
  NoDup all.*1 ->
  resources = storeAll all ∅ ->
  Forall (fun file => file ∈ all) files ->
  Forall2 (fun file def => defField "uri" def = Some (JStr file.1)) files defs ->
  Forall2 (fun file def => storedAs resources file.2 def) files defs.
Proof.
  intros Hnodup -> Hall Hfiles.
  induction Hfiles as [|[uri data] def files defs Huri Hfiles IH]; [constructor|].
  apply Forall_cons in Hall as [Hin Hall]. constructor; [|by apply IH].
  exists uri. split; [exact Huri|]. by apply storeAll_lookup.
Qed.

(** The resources of a document written with its files beside it. *)
Lemma written_files (doc : Document) (options : WriterOptions)
    (nd : NativeDocument) (log : list string) :
  write doc options = Ok (nd, log) ->
  isGLB options = false -> embedded options = false ->
  let root := getRoot doc in
  let accessorLinks := gatherAccessorLinks (getLinks doc) in
  let imageFiles :=
    storedImages options (bool_decide (1 < length (listTextures root))) 1
      (listTextures root) in
  let emitted :=
    emittedFrom options (multipleBuffers root) accessorLinks [] 1 (listBuffers root) in
  resources_of nd
  = storeAll (imageFiles
              ++ ((fun e => ((bufferURI options (multipleBuffers root)
                                (em_counter e) (em_buffer e)).1, em_data e))
                  <$> emitted)) ∅
  /\ Forall2 (fun file def => defField "uri" def = Some (JStr file.1))
       imageFiles (jarray "images" (json_of nd))
  /\ jarray "buffers" (json_of nd)
     = emittedDef options (multipleBuffers root) <$> emitted.
Proof.
  intros Hwrite Hglb Hnot root accessorLinks imageFiles emitted.
  assert (Hembed : embedsImages options = false)
    by (unfold embedsImages; by rewrite Hglb, Hnot).
  destruct (write_exact _ _ _ _ Hwrite)
    as (w1 & materials & _ & Himages & Hstage & Hsame & Hjson & Hres & _).
  cbv zeta in Hsame, Hjson, Hres.
  destruct Hsame as (_ & _ & HimagesS & HbufS & HresS & _).
  destruct (writeImages_untouched _ _ _ Himages) as (_ & Hcounter & _).
  destruct Hstage as (_ & Hdata & _ & _ & Hbuf1 & _).
  unfold stageImages in Hdata. rewrite Hembed in Hdata.
  unfold writeImages in Himages. rewrite bind_run in Himages.
  destruct (writeImages_external_exact options
              (bool_decide (1 < length (listTextures (getRoot doc))))
              (listTextures (getRoot doc)) Hembed 0 initialWriter)
    as (images & table & counter & Hrun & Hfiles).
  rewrite Hrun in Himages. injection Himages as Hw1.
  assert (Hres1 : w_resources w1 = storeAll imageFiles ∅) by (by subst w1).
  assert (Himg1 : w_images w1 = images) by (by subst w1).
  destruct (buffersState_emitted options (multipleBuffers (getRoot doc))
              (gatherAccessorLinks (getLinks doc)) (listBuffers (getRoot doc)) w1)
    as [Hbuf2 Hres2].
  destruct (buffersState_images options (multipleBuffers (getRoot doc))
              (gatherAccessorLinks (getLinks doc)) (listBuffers (getRoot doc)) w1)
    as [_ Himg2].
  rewrite Hdata, Hcounter in Hbuf2, Hres2. cbn [bufferURICounter initialWriter] in *.
  rewrite Hjson, json_images, json_buffers, Hres, HimagesS, HbufS, HresS.
  rewrite Hbuf2, Hres2, Himg2, Himg1, Hbuf1, Hres1, app_nil_l.
  rewrite storeEmitted_files, storeAll_app by done. done.
Qed.

(** X13. When a document is written with its files beside it and no texture
    and no buffer has a URI of its own, the generated URIs do not collide:
    every image definition names a URI under which the resources hold the
    bytes of its texture, and the definition of every buffer that is not
    skipped names a URI under which they hold the bytes packed for that
    buffer. *)
Theorem external_files_stored (doc : Document) (options : WriterOptions)
    (nd : NativeDocument) (log : list string) :
  write doc options = Ok (nd, log) ->
  isGLB options = false -> embedded options = false ->
  Forall (fun t => tex_uri t = EmptyString) (listTextures (getRoot doc)) ->
  Forall (fun b => buf_uri b = EmptyString) (listBuffers (getRoot doc)) ->
  Forall2 (fun t def => storedAs (resources_of nd) (tex_image t) def)
    (listTextures (getRoot doc)) (jarray "images" (json_of nd))
  /\ Forall2 (fun b def =>
                storedAs (resources_of nd)
                  (packedBytes
                     (bufferGroups (gatherAccessorLinks (getLinks doc)) b) []) def)
       (keptBuffers (gatherAccessorLinks (getLinks doc)) []
          (listBuffers (getRoot doc)))
       (jarray "buffers" (json_of nd)).
Proof.
  intros Hwrite Hglb Hnot Htextures Hbuffers.
  destruct (written_files _ _ _ _ Hwrite Hglb Hnot) as (Hres & Himages & Hdefs).
  set (imageFiles := storedImages options
                       (bool_decide (1 < length (listTextures (getRoot doc)))) 1
                       (listTextures (getRoot doc))) in *.
  set (emitted := emittedFrom options (multipleBuffers (getRoot doc))
                    (gatherAccessorLinks (getLinks doc)) [] 1
                    (listBuffers (getRoot doc))) in *.
  set (bufferFiles := (fun e => ((bufferURI options (multipleBuffers (getRoot doc))
                                    (em_counter e) (em_buffer e)).1, em_data e))
                      <$> emitted) in *.
  assert (HkeysI : imageFiles.*1
                   = createURIs (bool_decide (1 < length (listTextures (getRoot doc))))
                       (basename options) 1
                       ((fun t => (tex_uri t, imageExtension t))
                        <$> listTextures (getRoot doc)))
    by apply storedImages_keys.
  assert (HkeysB : bufferFiles.*1
                   = createURIs (multipleBuffers (getRoot doc)) (basename options) 1
                       ((fun b => (buf_uri b, "bin"))
                        <$> keptBuffers (gatherAccessorLinks (getLinks doc)) []
                              (listBuffers (getRoot doc)))).
  { unfold bufferFiles. rewrite <- list_fmap_compose.
    by rewrite <- (emittedFrom_keys options _ _ _ _ Hglb). }
  assert (HobjI : Forall (fun object : string * string => truthy object.1 = false)
                    ((fun t => (tex_uri t, imageExtension t))
                     <$> listTextures (getRoot doc))).
  { apply Forall_fmap. eapply Forall_impl; [exact Htextures|].
    intros t Ht. cbn. by rewrite Ht. }
  assert (HobjB : Forall (fun object : string * string => truthy object.1 = false)
                    ((fun b => (buf_uri b, "bin"))
                     <$> keptBuffers (gatherAccessorLinks (getLinks doc)) []
                           (listBuffers (getRoot doc)))).
  { apply Forall_fmap, Forall_forall. intros b Hb. unfold keptBuffers in Hb.
    apply list_elem_of_filter in Hb as [_ Hb].
    rewrite Forall_forall in Hbuffers. cbn. by rewrite (Hbuffers b Hb). }
  assert (Hnodup : NoDup (imageFiles ++ bufferFiles).*1).
  { rewrite fmap_app. apply NoDup_app. split_and!.
    - rewrite HkeysI. apply createURIs_NoDup; [done|].
      intros Hm. apply bool_decide_eq_false in Hm. rewrite length_fmap. lia.
    - intros uri HinI HinB. rewrite HkeysI in HinI. rewrite HkeysB in HinB.
      destruct (createURIs_names _ _ _ HobjI _ _ HinI) as (ext & Hext & Hname).
      destruct (createURIs_names _ _ _ HobjB _ _ HinB) as (ext' & Hext' & Hname').
      pose proof (generatedName_extension _ _ _ _ Hname Hname') as ->.
      rewrite <- list_fmap_compose in Hext. rewrite <- list_fmap_compose in Hext'.
      apply list_elem_of_fmap in Hext as (t & -> & _).
      apply list_elem_of_fmap in Hext' as (b & Hb & _).
      cbn in Hb. unfold imageExtension in Hb. by case_decide.
    - rewrite HkeysB. apply createURIs_NoDup; [done|].
      intros Hm. apply bool_decide_eq_false in Hm. rewrite length_fmap.
      unfold keptBuffers.
      pose proof (length_filter
                    (fun b => isEmptyBuffer (gatherAccessorLinks (getLinks doc)) [] b
                              = false) (listBuffers (getRoot doc))).
      lia. }
  split.
  - assert (Hdata : imageFiles.*2 = tex_image <$> listTextures (getRoot doc))
      by apply storedImages_data.
    apply (Forall2_fmap_l tex_image
             (fun data def => storedAs (resources_of nd) data def)).
    rewrite <- Hdata. apply Forall2_fmap_l.
    apply (files_stored _ (imageFiles ++ bufferFiles)); [done..| |done].
    apply Forall_forall. intros file Hin. apply elem_of_app. by left.
  - rewrite Hdefs, <- (emittedFrom_buffers options (multipleBuffers (getRoot doc))
                         (gatherAccessorLinks (getLinks doc)) [] (listBuffers (getRoot doc)) 1).
    fold emitted. apply Forall2_fmap, Forall_Forall2_diag, Forall_forall.
    intros e He.
    exists (bufferURI options (multipleBuffers (getRoot doc))
              (em_counter e) (em_buffer e)).1.
    split; [by apply emittedDef_stored|].
    pose proof (emittedFrom_data options (multipleBuffers (getRoot doc))
                  (gatherAccessorLinks (getLinks doc)) [] (listBuffers (getRoot doc)) 1)
      as Hdata.
    fold emitted in Hdata. rewrite Forall_forall in Hdata.
    rewrite <- (Hdata e He), Hres. apply storeAll_lookup; [done|].
    apply elem_of_app. right. unfold bufferFiles.
    apply list_elem_of_fmap. by exists e.
Qed.

Lemma external_files_stored_witness :
  exists nd log,
    write filesDocument externalOptions = Ok (nd, log)
    /\ Forall2 (fun t def => storedAs (resources_of nd) (tex_image t) def)
         (listTextures (getRoot filesDocument)) (jarray "images" (json_of nd))
    /\ Forall2 (fun b def =>
                  storedAs (resources_of nd)
                    (packedBytes
                       (bufferGroups (gatherAccessorLinks (getLinks filesDocument)) b)
                       []) def)
         (keptBuffers (gatherAccessorLinks (getLinks filesDocument)) []
            (listBuffers (getRoot filesDocument)))
         (jarray "buffers" (json_of nd))
    /\ resources_of nd !! "scene_2.jpeg" = Some [255; 216]%Z
    /\ resources_of nd !! "scene_1.bin" = Some [0; 0; 1; 0; 2; 0; 0; 0]%Z.
Proof.
  assert (H1 : Forall (fun t => tex_uri t = EmptyString)
                 (listTextures (getRoot filesDocument)))
    by (repeat constructor).
  assert (H2 : Forall (fun b => buf_uri b = EmptyString)
                 (listBuffers (getRoot filesDocument)))
    by (repeat constructor).
  destruct (write filesDocument externalOptions) as [[nd log]|e] eqn:Hwrite;
    [|vm_compute in Hwrite; discriminate Hwrite].
  exists nd, log. split; [reflexivity|].
  destruct (external_files_stored filesDocument externalOptions nd log
              Hwrite eq_refl eq_refl H1 H2) as [Himages Hbuffers].
  split; [exact Himages|]. split; [exact Hbuffers|].
  vm_compute in Hwrite. injection Hwrite as <- _.
  split; vm_compute; reflexivity.
Defined.

(** ** The keys of a written document *)

Lemma oget_elem (obj : object) (key : string) (value : json) :
  oget key obj = Some value -> (key, value) ∈ obj.
Proof.
  induction obj as [|[k v] obj IH]; [done|]. simpl.
  destruct (decide (k = key)) as [->|Hne].
  - intros [= ->]. apply list_elem_of_here.
  - intros H. apply list_elem_of_further. by apply IH.
Qed.

Lemma clean_array_key (obj : object) (key : string) (l : list json) :
  NoDup obj.*1 ->
  key ≠ "null" -> key ≠ EmptyString ->
  oget key obj = Some (JArr l) ->
  oget key (clean obj) = None <-> l = [].
Proof.
  intros Hnodup Hnull Hempty Hget. rewrite oget_clean.
  destruct (decide (key ∈ toPropertyKey <$> cleanUnused obj)) as [Hin|Hnin].
  - split; [intros _|done].
    apply list_elem_of_fmap in Hin as (v & Hkey & Hv).
    apply cleanUnused_spec in Hv as ([k value] & Hmem & Hcol).
    destruct Hcol as [[Hvalue ->]|[[Hvalue ->]|[Hvalue ->]]]; simpl in *; subst;
      [|done..].
    rewrite (oget_member _ _ _ Hnodup Hmem) in Hget. by injection Hget as <-.
  - rewrite Hget. split; [done|]. intros ->. destruct Hnin.
    apply list_elem_of_fmap. exists (JStr key). split; [done|].
    apply cleanUnused_spec. exists (key, JArr []).
    split; [by apply oget_elem|]. by left.
Qed.

Lemma root_key (root : Root) (materials : list json) (w : Writer) (key : string)
    (l : list json) :
  key ≠ "null" -> key ≠ EmptyString ->
  oget key (rootObject root materials w) = Some (JArr l) ->
  oget key (clean (rootObject root materials w)) = None <-> l = [].
Proof. intros. by apply clean_array_key; [apply rootObject_NoDup|..]. Qed.

Lemma fmap_nil_iff {A B : Type} (f : A -> B) (l : list A) : f <$> l = [] <-> l = [].
Proof. split; [apply fmap_nil_inv | by intros ->]. Qed.

Lemma length_nil_iff {A B : Type} (l : list A) (k : list B) :
  length l = length k -> l = [] <-> k = [].
Proof. destruct l, k; naive_solver. Qed.

(** X14. A written document has no member that is an empty array: the key
    of a collection is there exactly when the root lists a property of that
    kind, [accessors] when an accessor is packed, and [buffers] when a buffer
    is not skipped. *)
Theorem empty_collections_omitted (doc : Document) (options : WriterOptions)
    (nd : NativeDocument) (log : list string) :
  write doc options = Ok (nd, log) ->
  (forall key, oget key (json_of nd) ≠ Some (JArr []))
  /\ (oget "images" (json_of nd) = None <-> listTextures (getRoot doc) = [])
  /\ (oget "materials" (json_of nd) = None <-> listMaterials (getRoot doc) = [])
  /\ (oget "meshes" (json_of nd) = None <-> listMeshes (getRoot doc) = [])
  /\ (oget "cameras" (json_of nd) = None <-> listCameras (getRoot doc) = [])
  /\ (oget "nodes" (json_of nd) = None <-> listNodes (getRoot doc) = [])
  /\ (oget "skins" (json_of nd) = None <-> listSkins (getRoot doc) = [])
  /\ (oget "animations" (json_of nd) = None <-> listAnimations (getRoot doc) = [])
  /\ (oget "scenes" (json_of nd) = None <-> listScenes (getRoot doc) = [])
  /\ (oget "accessors" (json_of nd) = None
      <-> packedAccessors (gatherAccessorLinks (getLinks doc))
            (listBuffers (getRoot doc)) = [])
  /\ (oget "buffers" (json_of nd) = None
      <-> keptBuffers (gatherAccessorLinks (getLinks doc))
            (stageImages options (getRoot doc)) (listBuffers (getRoot doc)) = []).
Proof.
  intros Hwrite.
  destruct (write_exact _ _ _ _ Hwrite)
    as (w1 & materials & _ & Himages & Hstage & Hsame & Hjson & _ & _ & Hmaterials & _).
  cbv zeta in Hsame, Hjson.
  destruct Hsame as (HaccS & _ & HimagesS & HbufS & _).
  destruct Hstage as (_ & Hdata & Hlen & Hacc1 & Hbuf1 & _ & _ & _ & _ & _ & Hnames & _).
  destruct (writeImages_untouched _ _ _ Himages) as (_ & Hcounter & _).
  rewrite Hjson. split.
  { intros key Hget. rewrite oget_clean in Hget.
    destruct (decide (key ∈ toPropertyKey <$> cleanUnused
                              (rootObject (getRoot doc) materials
                                 (slotsRun (documentSlots (getRoot doc))
                                    (buffersState options (multipleBuffers (getRoot doc))
                                       (gatherAccessorLinks (getLinks doc))
                                       (listBuffers (getRoot doc)) w1)).2)))
      as [Hin|Hnin]; [done|].
    apply Hnin, list_elem_of_fmap. exists (JStr key). split; [done|].
    apply cleanUnused_spec. exists (key, JArr []).
    split; [by apply oget_elem | by left]. }
  split_and!.
  - rewrite (root_key _ _ _ "images" _ ltac:(done) ltac:(done) eq_refl).
    rewrite HimagesS.
    destruct (buffersState_images options (multipleBuffers (getRoot doc))
                (gatherAccessorLinks (getLinks doc)) (listBuffers (getRoot doc)) w1)
      as [_ ->].
    apply length_nil_iff. apply (f_equal length) in Hnames.
    by rewrite !length_fmap in Hnames.
  - rewrite (root_key _ _ _ "materials" _ ltac:(done) ltac:(done) eq_refl).
    by apply length_nil_iff.
  - rewrite (root_key _ _ _ "meshes" _ ltac:(done) ltac:(done) eq_refl).
    apply fmap_nil_iff.
  - rewrite (root_key _ _ _ "cameras" _ ltac:(done) ltac:(done) eq_refl).
    apply fmap_nil_iff.
  - rewrite (root_key _ _ _ "nodes" _ ltac:(done) ltac:(done) eq_refl).
    rewrite zip_with_fmap_r. apply fmap_nil_iff.
  - rewrite (root_key _ _ _ "skins" _ ltac:(done) ltac:(done) eq_refl).
    apply fmap_nil_iff.
  - rewrite (root_key _ _ _ "animations" _ ltac:(done) ltac:(done) eq_refl).
    apply fmap_nil_iff.
  - rewrite (root_key _ _ _ "scenes" _ ltac:(done) ltac:(done) eq_refl).
    apply fmap_nil_iff.
  - rewrite (root_key _ _ _ "accessors" _ ltac:(done) ltac:(done) eq_refl).
    rewrite HaccS.
    destruct (buffersState_accessors options (multipleBuffers (getRoot doc))
                (gatherAccessorLinks (getLinks doc)) (listBuffers (getRoot doc)) w1)
      as [_ ->].
    rewrite Hacc1, app_nil_l. symmetry. apply length_nil_iff.
    eapply Forall2_length, stageDefs_describe.
  - rewrite (root_key _ _ _ "buffers" _ ltac:(done) ltac:(done) eq_refl).
    rewrite HbufS.
    destruct (buffersState_emitted options (multipleBuffers (getRoot doc))
                (gatherAccessorLinks (getLinks doc)) (listBuffers (getRoot doc)) w1)
      as [-> _].
    rewrite Hbuf1, app_nil_l, Hdata, fmap_nil_iff.
    rewrite <- (emittedFrom_buffers options (multipleBuffers (getRoot doc))
                  (gatherAccessorLinks (getLinks doc))
                  (stageImages options (getRoot doc)) (listBuffers (getRoot doc))
                  (bufferURICounter w1)).
    symmetry. apply fmap_nil_iff.
Qed.

Lemma empty_collections_omitted_witness :
  exists nd log,
    write sceneDocument glbOptions = Ok (nd, log)
    /\ (forall key, oget key (json_of nd) ≠ Some (JArr []))
    /\ oget "skins" (json_of nd) = None
    /\ oget "images" (json_of nd) = None
    /\ is_Some (oget "nodes" (json_of nd))
    /\ is_Some (oget "buffers" (json_of nd)).
Proof.
  destruct (write sceneDocument glbOptions) as [[nd log]|e] eqn:Hwrite;
    [|vm_compute in Hwrite; discriminate Hwrite].
  exists nd, log. split; [reflexivity|].
  destruct (empty_collections_omitted sceneDocument glbOptions nd log Hwrite)
    as (Hnone & Himages & _ & _ & _ & Hnodes & Hskins & _ & _ & _ & Hbuffers).
  clear Hwrite.
  split; [exact Hnone|]. split; [apply Hskins; reflexivity|].
  split; [apply Himages; reflexivity|].
  split.
  - destruct (decide (oget "nodes" (json_of nd) = None)) as [Hget|Hget].
    + apply Hnodes in Hget. discriminate Hget.
    + destruct (oget "nodes" (json_of nd)); [by eexists | by destruct Hget].
  - destruct (decide (oget "buffers" (json_of nd) = None)) as [Hget|Hget].
    + apply Hbuffers in Hget. vm_compute in Hget. discriminate Hget.
    + destruct (oget "buffers" (json_of nd)); [by eexists | by destruct Hget].
Defined.

(** ** Where the bytes of an accessor are *)

Lemma slice_middle (pre mid post : list Z) (o n : nat) :
  o + n <= length mid ->
  slice (length pre + o) n (pre ++ mid ++ post) = slice o n mid.
Proof.
  intros Hfit. apply list_eq. intros q. rewrite !lookup_slice.
  destruct (decide (q < n)); [|done].
  rewrite lookup_app_r by lia. rewrite lookup_app_l by lia. f_equal. lia.
Qed.

Lemma length_groupDefs (bufferView : nat) (g : Group) :
  length (groupDefs bufferView g) = length (groupAccessors g).
Proof. destruct g; [apply length_concatDefs | apply length_interleaveDefs]. Qed.

Lemma lookup_planDefs (gs : list Group) (j k : nat) (g : Group) (a : Accessor) :
  gs !! j = Some g -> groupAccessors g !! k = Some a ->
  forall bufferView,
    planDefs bufferView gs !! (length (take j gs ≫= groupAccessors) + k)
    = groupDefs (bufferView + j) g !! k.
Proof.
  intros Hj Hk bufferView.
  assert (Hlen : length (take j gs) = j)
    by (apply length_take_le; apply lookup_lt_Some in Hj; lia).
  remember (take j gs) as before eqn:Hbefore.
  rewrite <- (take_drop_middle gs j g Hj), <- Hbefore.
  rewrite planDefs_app, lookup_app_r by (rewrite length_planDefs; lia).
  rewrite length_planDefs, Hlen.
  replace (length (before ≫= groupAccessors) + k
           - length (before ≫= groupAccessors)) with k by lia.
  cbn [planDefs]. apply lookup_app_l. rewrite length_groupDefs.
  by eapply lookup_lt_Some.
Qed.

Lemma lookup_planViews (gs : list Group) (j : nat) (g : Group) :
  gs !! j = Some g ->
  forall bufferIndex byteOffset,
    planViews bufferIndex byteOffset gs !! j
    = Some (JObj (groupView bufferIndex (byteOffset + planLength (take j gs)) g)).
Proof.
  intros Hj bufferIndex byteOffset.
  assert (Hlen : length (take j gs) = j)
    by (apply length_take_le; apply lookup_lt_Some in Hj; lia).
  remember (take j gs) as before eqn:Hbefore.
  rewrite <- (take_drop_middle gs j g Hj), <- Hbefore.
  rewrite planViews_app, lookup_app_r by (rewrite length_planViews; lia).
  by rewrite length_planViews, Hlen, Nat.sub_diag.
Qed.

Lemma length_stageDefs (accessorLinks : gmap nat (list Link)) (buffers : list Buffer)
    (bufferView : nat) :
  length (stageDefs accessorLinks bufferView buffers)
  = length (packedAccessors accessorLinks buffers).
Proof. symmetry. eapply Forall2_length, stageDefs_describe. Qed.

Lemma viewCount_app (accessorLinks : gmap nat (list Link)) (l1 l2 : list Buffer) :
  viewCount accessorLinks (l1 ++ l2)
  = viewCount accessorLinks l1 + viewCount accessorLinks l2.
Proof. unfold viewCount. by rewrite fmap_app, sum_list_with_app. Qed.

Lemma stageDefs_app (accessorLinks : gmap nat (list Link)) (l1 l2 : list Buffer) :
  forall bufferView,
    stageDefs accessorLinks bufferView (l1 ++ l2)
    = stageDefs accessorLinks bufferView l1
      ++ stageDefs accessorLinks (bufferView + viewCount accessorLinks l1) l2.
Proof.
  induction l1 as [|b l1 IH]; intros bufferView.
  - simpl. by rewrite Nat.add_0_r.
  - rewrite <- app_comm_cons. cbn [stageDefs]. rewrite IH, <- app_assoc.
    do 3 f_equal. unfold viewCount. rewrite fmap_cons. simpl. lia.
Qed.

Lemma packedAccessors_app (accessorLinks : gmap nat (list Link)) (l1 l2 : list Buffer) :
  packedAccessors accessorLinks (l1 ++ l2)
  = packedAccessors accessorLinks l1 ++ packedAccessors accessorLinks l2.
Proof. unfold packedAccessors. apply bind_app. Qed.

Lemma lookup_stageDefs (accessorLinks : gmap nat (list Link)) (buffers : list Buffer)
    (p m : nat) (b : Buffer) :
  buffers !! p = Some b ->
  m < length (bufferGroups accessorLinks b ≫= groupAccessors) ->
  forall bufferView,
    stageDefs accessorLinks bufferView buffers
      !! (length (packedAccessors accessorLinks (take p buffers)) + m)
    = planDefs (bufferView + viewCount accessorLinks (take p buffers))
        (bufferGroups accessorLinks b) !! m.
Proof.
  intros Hp Hm bufferView.
  remember (take p buffers) as before eqn:Hbefore.
  rewrite <- (take_drop_middle buffers p b Hp), <- Hbefore.
  rewrite stageDefs_app, lookup_app_r by (rewrite length_stageDefs; lia).
  rewrite length_stageDefs.
  replace (length (packedAccessors accessorLinks before) + m
           - length (packedAccessors accessorLinks before)) with m by lia.
  cbn [stageDefs]. apply lookup_app_l. by rewrite length_planDefs.
Qed.

Lemma lookup_stageViews (accessorLinks : gmap nat (list Link)) (images : list (list Z))
    (buffers : list Buffer) (p j : nat) (b : Buffer) :
  buffers !! p = Some b ->
  j < length (bufferGroups accessorLinks b) ->
  forall bufferIndex,
    stageViews accessorLinks images bufferIndex buffers
      !! (viewCount accessorLinks (take p buffers) + j)
    = planViews
        (bufferIndex + length (keptBuffers accessorLinks images (take p buffers))) 0
        (bufferGroups accessorLinks b) !! j.
Proof.
  intros Hp Hj bufferIndex.
  remember (take p buffers) as before eqn:Hbefore.
  rewrite <- (take_drop_middle buffers p b Hp), <- Hbefore.
  rewrite stageViews_app, lookup_app_r by (rewrite length_stageViews; lia).
  rewrite length_stageViews.
  replace (viewCount accessorLinks before + j
           - viewCount accessorLinks before) with j by lia.
  cbn [stageViews]. apply lookup_app_l. by rewrite length_planViews.
Qed.

Lemma lookup_bind_groups (gs : list Group) (j k : nat) (g : Group) (a : Accessor) :
  gs !! j = Some g -> groupAccessors g !! k = Some a ->
  (gs ≫= groupAccessors) !! (length (take j gs ≫= groupAccessors) + k) = Some a.
Proof.
  intros Hj Hk. remember (take j gs) as before eqn:Hbefore.
  rewrite <- (take_drop_middle gs j g Hj), <- Hbefore.
  rewrite bind_app, bind_cons, lookup_app_r by lia.
  replace (length (before ≫= groupAccessors) + k
           - length (before ≫= groupAccessors)) with k by lia.
  rewrite lookup_app_l by (by eapply lookup_lt_Some). done.
Qed.

Lemma lookup_packedAccessors (accessorLinks : gmap nat (list Link))
    (buffers : list Buffer) (p m : nat) (b : Buffer) (a : Accessor) :
  buffers !! p = Some b ->
  (bufferGroups accessorLinks b ≫= groupAccessors) !! m = Some a ->
  packedAccessors accessorLinks buffers
    !! (length (packedAccessors accessorLinks (take p buffers)) + m)
  = Some a.
Proof.
  intros Hp Hm. remember (take p buffers) as before eqn:Hbefore.
  rewrite <- (take_drop_middle buffers p b Hp), <- Hbefore.
  rewrite packedAccessors_app, lookup_app_r by lia.
  replace (length (packedAccessors accessorLinks before) + m
           - length (packedAccessors accessorLinks before)) with m by lia.
  unfold packedAccessors at 1. rewrite bind_cons.
  rewrite lookup_app_l by (by eapply lookup_lt_Some). done.
Qed.

Lemma positionOf_lookup (ids : list nat) (n id : nat) :
  NoDup ids -> ids !! n = Some id -> positionOf ids id = JNat n.
Proof.
  intros Hnodup Hn. rewrite <- getIndex_positionOf by done.
  by apply getIndex_listed.
Qed.

Lemma kept_lookup (accessorLinks : gmap nat (list Link)) (images : list (list Z))
    (buffers : list Buffer) (p : nat) (b : Buffer) :
  buffers !! p = Some b ->
  isEmptyBuffer accessorLinks images b = false ->
  keptBuffers accessorLinks images buffers
    !! length (keptBuffers accessorLinks images (take p buffers))
  = Some b.
Proof.
  intros Hp Hkept. remember (take p buffers) as before eqn:Hbefore.
  rewrite <- (take_drop_middle buffers p b Hp), <- Hbefore.
  unfold keptBuffers. rewrite filter_app, filter_cons, decide_True by done.
  rewrite lookup_app_r by lia. by rewrite Nat.sub_diag.
Qed.

(** The bytes of a group inside the bytes of its buffer. *)
Lemma slice_group (gs : list Group) (images : list (list Z)) (j : nat) (g : Group)
    (o n : nat) :
  gs !! j = Some g ->
  o + n <= length (mjoin (groupSegments g)) ->
  slice (planLength (take j gs) + o) n (packedBytes gs images)
  = slice o n (mjoin (groupSegments g)).
Proof.
  intros Hj Hfit. unfold packedBytes, BufferUtils.concat.
  remember (take j gs) as before eqn:Hbefore.
  rewrite <- (take_drop_middle gs j g Hj), <- Hbefore.
  rewrite bind_app, bind_cons, <- !app_assoc, !join_app, <- length_segments.
  by apply slice_middle.
Qed.

Lemma groupDefs_lookup (bufferView : nat) (g : Group) (k : nat) (a : Accessor) :
  groupAccessors g !! k = Some a ->
  exists accessorOffset,
    groupDefs bufferView g !! k
    = Some (JObj (oset "byteOffset" (JNat accessorOffset)
                    (oset "bufferView" (JNat bufferView) (createAccessorDef a))))
    /\ readsBack g a accessorOffset (mjoin (groupSegments g))
    /\ forall byteOffset data,
         (forall o n, o + n <= length (mjoin (groupSegments g)) ->
                      slice (byteOffset + o) n data
                      = slice o n (mjoin (groupSegments g))) ->
         readsBack g a (byteOffset + accessorOffset) data.
Proof.
  intros Hk. destruct g as [l t|l]; cbn [groupAccessors] in Hk.
  - exists (concatOffset l k). split; [|split].
    + cbn [groupDefs]. rewrite (lookup_concatDefs _ _ _ _ _ Hk). by rewrite Nat.add_0_l.
    + cbn [readsBack groupSegments]. by apply bufferAt_slice, slice_padded.
    + intros byteOffset data Hdata. cbn [readsBack]. apply bufferAt_slice.
      rewrite Hdata.
      * cbn [groupSegments]. by apply slice_padded.
      * cbn [groupSegments].
        pose proof (length_concat_padded l) as Hlen.
        unfold BufferUtils.concat in Hlen. rewrite Hlen.
        by apply concatOffset_fits.
  - exists (localOffset l k).
    destruct (interleave_spec l (vertexCountOf l)) as (buffer & Hbuf & Hlen & Hslots).
    assert (Hsegments : mjoin (groupSegments (InterleaveGroup l)) = buffer).
    { cbn [groupSegments]. rewrite Hbuf. cbn [mjoin list_join]. apply app_nil_r. }
    rewrite Hsegments. split; [|split].
    + cbn [groupDefs]. rewrite (interleaveDefs_lookup _ _ _ _ _ Hk).
      by rewrite Nat.add_0_l.
    + cbn [readsBack]. intros i j Hi Hj.
      replace (localOffset l k + i * byteStrideOf l + j * getComponentSize a)
        with (i * byteStrideOf l + localOffset l k + j * getComponentSize a)
        by lia.
      rewrite (Hslots i k a j Hi Hk Hj). apply scalarBytes_littleEndian.
    + intros byteOffset data Hdata. cbn [readsBack]. intros i j Hi Hj.
      replace (byteOffset + localOffset l k + i * byteStrideOf l
               + j * getComponentSize a)
        with (byteOffset + (i * byteStrideOf l + localOffset l k
                            + j * getComponentSize a)) by lia.
      rewrite Hdata.
      * rewrite (Hslots i k a j Hi Hk Hj). apply scalarBytes_littleEndian.
      * rewrite Hlen.
        pose proof (localOffset_bound l k a Hk) as Hbound.
        pose proof (elementSize_le_padded a) as Hsize.
        assert (j * getComponentSize a + getComponentSize a
                <= getElementSize a * getComponentSize a) by nia.
        assert (i * byteStrideOf l + byteStrideOf l
                <= vertexCountOf l * byteStrideOf l) by nia.
        lia.
Qed.

Lemma groupView_byteStride (bufferIndex byteOffset : nat) (g : Group) :
  oget "byteStride" (groupView bufferIndex byteOffset g) = JNat <$> groupStride g.
Proof.
  destruct g as [l [t|]|l]; unfold groupView; try done.
  destruct (decide (t = 0%Z)); [done|]. by rewrite oget_oset_ne.
Qed.

(** X15. In a written document in which no accessor is packed twice, the
    index under which an accessor is referred to leads to a definition of
    that accessor and on to its buffer view; the view is in the buffer that
    is defined at the place that counts the buffers kept before the
    accessor's own, and the bytes packed for the buffer hold the accessor's
    data at the byte offset of the view plus that of the accessor. In a
    sequential view the buffer under the accessor's array is there, the
    whole of it, with the elements of the array at the byte offset that the
    array has in its buffer. In an interleaved view each component of each
    vertex is there little-endian, at the view's stride: an integer with its
    bits, a number with its binary32 pattern, a NaN as a NaN. *)
Theorem accessor_bytes_read_back (doc : Document) (options : WriterOptions)
    (nd : NativeDocument) (log : list string) (p j k : nat) (b : Buffer) (g : Group)
    (a : Accessor) :
  write doc options = Ok (nd, log) ->
  NoDup (acc_id <$> packedAccessors (gatherAccessorLinks (getLinks doc))
                      (listBuffers (getRoot doc))) ->
  listBuffers (getRoot doc) !! p = Some b ->
  bufferGroups (gatherAccessorLinks (getLinks doc)) b !! j = Some g ->
  groupAccessors g !! k = Some a ->
  exists byteOffset,
    accessorAt (json_of nd)
      (accessorIndexOf (gatherAccessorLinks (getLinks doc))
         (listBuffers (getRoot doc)) (acc_id a))
      a
      (length (keptBuffers (gatherAccessorLinks (getLinks doc))
                 (stageImages options (getRoot doc))
                 (take p (listBuffers (getRoot doc)))))
      byteOffset (groupStride g)
    /\ readsBack g a byteOffset
         (packedBytes (bufferGroups (gatherAccessorLinks (getLinks doc)) b)
            (stageImages options (getRoot doc)))
    /\ (isEmptyBuffer (gatherAccessorLinks (getLinks doc))
          (stageImages options (getRoot doc)) b = false ->
        keptBuffers (gatherAccessorLinks (getLinks doc))
          (stageImages options (getRoot doc)) (listBuffers (getRoot doc))
          !! length (keptBuffers (gatherAccessorLinks (getLinks doc))
                       (stageImages options (getRoot doc))
                       (take p (listBuffers (getRoot doc))))
        = Some b).
Proof.
  intros Hwrite Hnodup Hp Hj Hk.
  set (accessorLinks := gatherAccessorLinks (getLinks doc)) in *.
  set (buffers := listBuffers (getRoot doc)) in *.
  set (images := stageImages options (getRoot doc)) in *.
  set (gs := bufferGroups accessorLinks b) in *.
  destruct (written_accessor_table _ _ _ _ Hwrite)
    as (materials & w & Hjson & _ & Hdefs).
  pose proof (written_document_views _ _ _ _ Hwrite) as Hviews.
  fold accessorLinks buffers images in Hdefs, Hviews.
  assert (Haccessors : jarray "accessors" (json_of nd)
                       = stageDefs accessorLinks (length images) buffers)
    by (by rewrite Hjson, json_accessors).
  pose proof (lookup_bind_groups gs j k g a Hj Hk) as Hm.
  set (m := length (take j gs ≫= groupAccessors) + k) in *.
  pose proof (lookup_packedAccessors accessorLinks buffers p m b a Hp Hm) as Hn.
  set (n := length (packedAccessors accessorLinks (take p buffers)) + m) in *.
  destruct (groupDefs_lookup
              (length images + viewCount accessorLinks (take p buffers) + j) g k a Hk)
    as (accessorOffset & Hdef & _ & Hreads).
  exists (planLength (take j gs) + accessorOffset). split; [|split].
  - eexists n, _, (length images + (viewCount accessorLinks (take p buffers) + j)),
      _, accessorOffset, (planLength (take j gs)).
    split_and!.
    + unfold accessorIndexOf. apply positionOf_lookup; [done|].
      by rewrite list_lookup_fmap, Hn.
    + rewrite Haccessors. unfold n.
      rewrite (lookup_stageDefs accessorLinks buffers p m b Hp)
        by (by eapply lookup_lt_Some).
      unfold m. fold gs. rewrite (lookup_planDefs gs j k g a Hj Hk). exact Hdef.
    + apply describes_def.
    + rewrite oget_oset_ne, oget_oset_eq by done. do 2 f_equal. lia.
    + apply oget_oset_eq.
    + rewrite <- lookup_drop, Hviews.
      rewrite (lookup_stageViews accessorLinks images buffers p j b Hp)
        by (by eapply lookup_lt_Some).
      fold gs. rewrite (lookup_planViews gs j g Hj). reflexivity.
    + apply groupView_buffer.
    + rewrite groupView_byteOffset. by rewrite Nat.add_0_l.
    + apply groupView_byteStride.
    + done.
  - apply Hreads. intros o len Hfit. by apply slice_group.
  - intros Hkept. by apply kept_lookup.
Qed.

Lemma accessor_bytes_read_back_witness :
  exists nd log byteOffset,
    write sceneDocument glbOptions = Ok (nd, log)
    /\ accessorAt (json_of nd) (JInt 2) normalAccessor 0 byteOffset (Some 24)
    /\ readsBack (InterleaveGroup [positionAccessor; normalAccessor]) normalAccessor
         byteOffset
         (packedBytes
            (bufferGroups (gatherAccessorLinks (getLinks sceneDocument))
               (bufferOf "geometry"
                  [ParentAccessor positionAccessor; ParentAccessor normalAccessor;
                   ParentAccessor triangleIndices]))
            [])
    /\ littleEndian
         (slice (byteOffset + 0 * 24 + 2 * 4) 4
            (packedBytes
               (bufferGroups (gatherAccessorLinks (getLinks sceneDocument))
                  (bufferOf "geometry"
                     [ParentAccessor positionAccessor;
                      ParentAccessor normalAccessor;
                      ParentAccessor triangleIndices]))
               []))
       = 1065353216%Z.
Proof.
  assert (H1 : NoDup (acc_id <$> packedAccessors
                        (gatherAccessorLinks (getLinks sceneDocument))
                        (listBuffers (getRoot sceneDocument))))
    by (apply (bool_decide_unpack _); vm_compute; exact I).
  destruct (write sceneDocument glbOptions) as [[nd log]|e] eqn:Hwrite;
    [|vm_compute in Hwrite; discriminate Hwrite].
  destruct (accessor_bytes_read_back sceneDocument glbOptions nd log 0 1 1
              (bufferOf "geometry"
                 [ParentAccessor positionAccessor; ParentAccessor normalAccessor;
                  ParentAccessor triangleIndices])
              (InterleaveGroup [positionAccessor; normalAccessor]) normalAccessor
              Hwrite H1 eq_refl eq_refl eq_refl)
    as (byteOffset & Hat & Hreads & _).
  exists nd, log, byteOffset. split; [reflexivity|].
  split; [exact Hat|]. split; [exact Hreads|].
  clear Hwrite Hat.
  assert (H0 : 0 < vertexCountOf [positionAccessor; normalAccessor])
    by (vm_compute; lia).
  assert (H2 : 2 < getElementSize normalAccessor) by (vm_compute; lia).
  destruct (Hreads 0 2 H0 H2) as (_ & _ & Hvalue).
  exact Hvalue.
Defined.

(** ** The image table *)

Lemma writeImage_table (options : WriterOptions) (multiple : bool) (i : nat)
    (texture : Texture) (w : Writer) :
  exists def w',
    writeImage options multiple i texture w = Ok (def, w')
    /\ imageIndexMap w' = <[tex_id texture := i]> (imageIndexMap w).
Proof.
  destruct (embedsImages options) eqn:Hembed.
  - destruct (writeImage_embedded options multiple i texture w Hembed)
      as (def & -> & _).
    by eexists _, _.
  - destruct (writeImage_external options multiple i texture w Hembed)
      as (def & uri & counter & -> & _).
    by eexists _, _.
Qed.

Lemma writeImages_table (options : WriterOptions) (multiple : bool)
    (textures : list Texture) :
  forall (i : nat) (w : Writer),
  exists images w',
    mapM (writeImage options multiple) i textures w = Ok (images, w')
    /\ imageIndexMap w' = recordIds (imageIndexMap w) i (tex_id <$> textures).
Proof.
  induction textures as [|t l IH]; intros i w.
  - by eexists _, _.
  - destruct (writeImage_table options multiple i t w) as (def & w1 & Hrun & Htable).
    rewrite mapM_cons, Hrun.
    destruct (IH (S i) w1) as (images & w' & Hrest & Htable').
    rewrite Hrest. eexists _, _. split; [done|].
    rewrite fmap_cons. cbn [recordIds]. by rewrite Htable', Htable.
Qed.

Lemma bufferState_imageTable (options : WriterOptions) (multiple : bool)
    (accessorLinks : gmap nat (list Link)) (b : Buffer) (w : Writer) :
  imageIndexMap (bufferState options multiple accessorLinks b w) = imageIndexMap w.
Proof. unfold bufferState. by case_decide. Qed.

Lemma buffersState_imageTable (options : WriterOptions) (multiple : bool)
    (accessorLinks : gmap nat (list Link)) (buffers : list Buffer) :
  forall w,
    imageIndexMap (buffersState options multiple accessorLinks buffers w)
    = imageIndexMap w.
Proof.
  induction buffers as [|b bs IH]; intros w; [done|].
  unfold buffersState in *. cbn [foldl]. by rewrite IH, bufferState_imageTable.
Qed.

(** X16. In a written document whose root lists no texture twice, every
    texture slot of a material has a texture info whose index leads to a
    texture definition, and the source of that definition is the place of
    the slot's texture in the root's listing, which is the place of its
    image definition; a texture that the root does not list is written as
    [undefined]. *)
Theorem texture_sources_resolved (doc : Document) (options : WriterOptions)
    (nd : NativeDocument) (log : list string) :
  write doc options = Ok (nd, log) ->
  NoDup (tex_id <$> listTextures (getRoot doc)) ->
  exists placed,
    slotsPlaced doc nd placed
    /\ Forall (fun p =>
         exists textureDef,
           jarray "textures" (json_of nd) !! pl_texture p = Some textureDef
           /\ defField "source" textureDef
              = Some (positionOf (tex_id <$> listTextures (getRoot doc))
                        (slot_texture (pl_slot p))))
         placed.
Proof.
  intros Hwrite Hnodup.
  destruct (write_exact _ _ _ _ Hwrite)
    as (w1 & materials & _ & Himages & _ & Hsame & Hjson & _ & _ & _ & _ & Hinfos
        & placed & Hslots & Hindex & Hrun).
  cbv zeta in Hsame, Hjson, Hinfos, Hindex, Hrun.
  destruct Hsame as (_ & _ & _ & _ & _ & _ & HtableS & _).
  assert (Htable : imageIndexMap w1
                   = recordIds ∅ 0 (tex_id <$> listTextures (getRoot doc))).
  { unfold writeImages in Himages. rewrite bind_run in Himages.
    destruct (writeImages_table options
                (bool_decide (1 < length (listTextures (getRoot doc))))
                (listTextures (getRoot doc)) 0 initialWriter)
      as (images & w' & Hmap & Htable).
    rewrite Hmap in Himages. injection Himages as <-. exact Htable. }
  destruct Hrun as (_ & _ & Hplaced & _).
  rewrite HtableS, buffersState_imageTable, Htable in Hplaced.
  exists placed. split.
  - unfold slotsPlaced. rewrite Hjson, json_materials, json_textures.
    split_and!; [done| |].
    + clear -Hindex Hinfos. revert Hindex Hinfos.
      generalize (slotsRun (documentSlots (getRoot doc))
                    (buffersState options (multipleBuffers (getRoot doc))
                       (gatherAccessorLinks (getLinks doc))
                       (listBuffers (getRoot doc)) w1)).1.
      generalize (materials ≫= textureInfos). intros defs infos Hindex.
      revert defs. induction Hindex as [|p info placed infos Hp _ IH];
        intros defs Hinfos; inversion Hinfos as [|? def ? defs' Hdef Hrest]; subst;
        constructor; [|by apply IH].
      destruct Hdef as (d & -> & Hd). unfold defField. by rewrite Hd.
    + eapply Forall_impl; [exact Hplaced|]. intros p [_ Ht].
      eexists. split; [exact Ht | reflexivity].
  - rewrite Hjson, json_textures.
    eapply Forall_impl; [exact Hplaced|]. intros p [_ Ht].
    eexists. split; [exact Ht|]. unfold defField, textureDefOf. cbn [oget].
    rewrite decide_True by done. by rewrite getIndex_recorded.
Qed.

Lemma texture_sources_resolved_witness :
  exists nd log placed,
    write texturedDocument glbOptions = Ok (nd, log)
    /\ slotsPlaced texturedDocument nd placed
    /\ Forall (fun p =>
         exists textureDef,
           jarray "textures" (json_of nd) !! pl_texture p = Some textureDef
           /\ defField "source" textureDef
              = Some (positionOf (tex_id <$> listTextures (getRoot texturedDocument))
                        (slot_texture (pl_slot p))))
         placed
    /\ positionOf (tex_id <$> listTextures (getRoot texturedDocument)) <$> [1; 2; 3]
       = [JInt 0; JInt 1; JUndefined].
Proof.
  assert (H1 : NoDup (tex_id <$> listTextures (getRoot texturedDocument)))
    by (apply (bool_decide_unpack _); vm_compute; exact I).
  destruct (write texturedDocument glbOptions) as [[nd log]|e] eqn:Hwrite;
    [|vm_compute in Hwrite; discriminate Hwrite].
  destruct (texture_sources_resolved texturedDocument glbOptions nd log Hwrite H1)
    as (placed & Hslots & Hsources).
  exists nd, log, placed. split; [reflexivity|]. split; [exact Hslots|].
  split; [exact Hsources|]. vm_compute. reflexivity.
Defined.

(** ** Material definitions *)

Lemma slotInfo_texCoord (slot : TextureSlot) (w : Writer) :
  oget "texCoord" (slotInfo slot w) = Some (JInt (getTexCoord (slot_info slot))).
Proof. by destruct (slotState_unfold slot w) as [_ ->]. Qed.

Lemma slotInfo_other (slot : TextureSlot) (w : Writer) (key : string) :
  key ≠ "index" -> key ≠ "texCoord" -> oget key (slotInfo slot w) = None.
Proof.
  intros Hindex Hcoord. destruct (slotState_unfold slot w) as [_ ->].
  cbn [oget]. by rewrite !decide_False by done.
Qed.

Lemma scaled_texCoord (slot : TextureSlot) (w : Writer) (b : bool) (key : string)
    (value : json) :
  key ≠ "texCoord" ->
  oget "texCoord" (if b then slotInfo slot w else oset key value (slotInfo slot w))
  = Some (JInt (getTexCoord (slot_info slot))).
Proof.
  intros Hne. destruct b; [|rewrite oget_oset_ne by done]; apply slotInfo_texCoord.
Qed.

Lemma scaled_scale (slot : TextureSlot) (w : Writer) (b : bool) (key : string)
    (value : json) :
  key ≠ "index" -> key ≠ "texCoord" ->
  oget key (if b then slotInfo slot w else oset key value (slotInfo slot w))
  = if b then None else Some value.
Proof.
  intros Hindex Hcoord. destruct b; [by apply slotInfo_other | apply oget_oset_eq].
Qed.

Local Opaque slotInfo slotState.

Ltac material_field :=
  oget_simpl;
  try (destruct (decide (getAlphaMode _ = "MASK")); oget_simpl);
  first [ apply createPropertyDef_name | reflexivity ].

Ltac material_texture :=
  eexists; split; [material_field|]; split;
  first [ apply slotInfo_texCoord | by apply scaled_texCoord
        | by apply slotInfo_other | by apply scaled_scale ].

Lemma writeMaterial_shows (material : Material) (w : Writer) :
  exists def w',
    writeMaterial material w = Ok (def, w') /\ materialShows material def.
Proof.
  unfold writeMaterial, materialShows, textureShown.
  destruct (baseColorTexture material) as [s1|],
           (emissiveTexture material) as [s2|],
           (normalTexture material) as [s3|],
           (occlusionTexture material) as [s4|],
           (metallicRoughnessTexture material) as [s5|];
    run_step;
    (eexists _, _; split; [reflexivity|]; eexists _, _; split; [reflexivity|];
     split_and!; first [ solve [material_field] | solve [material_texture] ]).
Qed.

Transparent slotInfo slotState.

Lemma writeMaterials_show (materials : list Material) :
  forall (i : nat) (w : Writer) (defs : list json) (w' : Writer),
    mapM (fun _ material => writeMaterial material) i materials w = Ok (defs, w') ->
    Forall2 materialShows materials defs.
Proof.
  induction materials as [|m l IH]; intros i w defs w' Hrun.
  - injection Hrun as <- _. constructor.
  - rewrite mapM_cons in Hrun.
    destruct (writeMaterial_shows m w) as (def & w1 & Hdef & Hshows).
    rewrite Hdef in Hrun.
    destruct (mapM (fun _ material => writeMaterial material) (S i) l w1)
      as [[ys w'']|e] eqn:Hrest; [|done].
    injection Hrun as <- _. constructor; [done | by eapply IH].
Qed.

(** X17. A written document has one definition for each material of the
    root, in order, which shows the material's name, alpha mode, sidedness
    and factors, the alpha cutoff only when the alpha mode is MASK, and a
    texture info exactly for the texture slots that are in use, each with
    the slot's texture coordinate; the scale of the normal texture and the
    strength of the occlusion texture are left out when they are 1. *)
Theorem materials_written (doc : Document) (options : WriterOptions)
    (nd : NativeDocument) (log : list string) :
  write doc options = Ok (nd, log) ->
  Forall2 materialShows (listMaterials (getRoot doc))
    (jarray "materials" (json_of nd)).
Proof.
  intros Hwrite.
  destruct (write_exact _ _ _ _ Hwrite)
    as (w1 & materials & _ & _ & _ & _ & Hjson & _ & _ & _ & Hrun & _).
  cbv zeta in Hjson, Hrun. rewrite Hjson, json_materials.
  by eapply writeMaterials_show.
Qed.

Lemma materials_written_witness :
  exists nd log,
    write texturedDocument glbOptions = Ok (nd, log)
    /\ Forall2 materialShows (listMaterials (getRoot texturedDocument))
         (jarray "materials" (json_of nd)).
Proof.
  destruct (write texturedDocument glbOptions) as [[nd log]|e] eqn:Hwrite;
    [|vm_compute in Hwrite; discriminate Hwrite].
  exists nd, log. split; [reflexivity|].
  exact (materials_written texturedDocument glbOptions nd log Hwrite).
Defined.

(** ** The buffer views of a buffer *)

Lemma groupView_byteLength (bufferIndex byteOffset : nat) (g : Group) :
  oget "byteLength" (groupView bufferIndex byteOffset g) = Some (JNat (groupLength g)).
Proof.
  destruct g as [l [t|]|l]; unfold groupView; try done.
  destruct (decide (t = 0%Z)); [done|]. by rewrite oget_oset_ne.
Qed.

Lemma planLength_take (gs : list Group) (j : nat) (g : Group) :
  gs !! j = Some g -> planLength (take j gs) + groupLength g <= planLength gs.
Proof.
  intros Hj. remember (take j gs) as before eqn:Hbefore.
  rewrite <- (take_drop_middle gs j g Hj), <- Hbefore, planLength_app.
  change (planLength (g :: drop (S j) gs))
    with (groupLength g + planLength (drop (S j) gs)).
  lia.
Qed.

(** X18. In a written document the views of the accessor groups of a buffer
    tile the front of the buffer: each begins where the views of the groups
    before it end, has the byte length of its group, and ends inside the
    byte length that the buffer's definition declares, which is the length
    of the bytes packed for the buffer. *)
Theorem views_tile_the_buffer (doc : Document) (options : WriterOptions)
    (nd : NativeDocument) (log : list string) (p j : nat) (b : Buffer) (g : Group) :
  write doc options = Ok (nd, log) ->
  listBuffers (getRoot doc) !! p = Some b ->
  bufferGroups (gatherAccessorLinks (getLinks doc)) b !! j = Some g ->
  isEmptyBuffer (gatherAccessorLinks (getLinks doc))
    (stageImages options (getRoot doc)) b = false ->
  exists view def,
    jarray "bufferViews" (json_of nd)
      !! (length (stageImages options (getRoot doc))
          + (viewCount (gatherAccessorLinks (getLinks doc))
               (take p (listBuffers (getRoot doc))) + j))
    = Some (JObj view)
    /\ oget "buffer" view
       = Some (JNat (length (keptBuffers (gatherAccessorLinks (getLinks doc))
                               (stageImages options (getRoot doc))
                               (take p (listBuffers (getRoot doc))))))
    /\ oget "byteOffset" view
       = Some (JNat (planLength
                       (take j (bufferGroups (gatherAccessorLinks (getLinks doc)) b))))
    /\ oget "byteLength" view = Some (JNat (groupLength g))
    /\ jarray "buffers" (json_of nd)
         !! length (keptBuffers (gatherAccessorLinks (getLinks doc))
                      (stageImages options (getRoot doc))
                      (take p (listBuffers (getRoot doc))))
       = Some def
    /\ defName def = propName (buf_property b)
    /\ defField "byteLength" def
       = Some (JNat (length (packedBytes
                               (bufferGroups (gatherAccessorLinks (getLinks doc)) b)
                               (stageImages options (getRoot doc)))))
    /\ planLength (take j (bufferGroups (gatherAccessorLinks (getLinks doc)) b))
       + groupLength g
       <= length (packedBytes (bufferGroups (gatherAccessorLinks (getLinks doc)) b)
                    (stageImages options (getRoot doc))).
Proof.
  intros Hwrite Hp Hj Hkept.
  set (accessorLinks := gatherAccessorLinks (getLinks doc)) in *.
  set (buffers := listBuffers (getRoot doc)) in *.
  set (images := stageImages options (getRoot doc)) in *.
  set (gs := bufferGroups accessorLinks b) in *.
  pose proof (written_document_views _ _ _ _ Hwrite) as Hviews.
  fold accessorLinks buffers images in Hviews.
  destruct (write_exact _ _ _ _ Hwrite)
    as (w1 & materials & _ & Himages & Hstage & Hsame & Hjson & _).
  cbv zeta in Hsame, Hjson.
  destruct Hsame as (_ & _ & _ & HbufS & _).
  destruct Hstage as (_ & Hdata & _ & _ & Hbuf1 & _).
  destruct (buffersState_emitted options (multipleBuffers (getRoot doc))
              accessorLinks buffers w1) as [Hbuf2 _].
  rewrite Hbuf1, app_nil_l, Hdata in Hbuf2. fold images in Hbuf2.
  pose proof (kept_lookup accessorLinks images buffers p b Hp Hkept) as Hb.
  rewrite <- (emittedFrom_buffers options (multipleBuffers (getRoot doc))
                accessorLinks images buffers (bufferURICounter w1)) in Hb.
  rewrite list_lookup_fmap in Hb.
  destruct (emittedFrom options (multipleBuffers (getRoot doc)) accessorLinks images
              (bufferURICounter w1) buffers
              !! length (keptBuffers accessorLinks images (take p buffers)))
    as [e|] eqn:He; [|done].
  injection Hb as Hb.
  pose proof (emittedFrom_data options (multipleBuffers (getRoot doc))
                accessorLinks images buffers (bufferURICounter w1)) as Hbytes.
  rewrite Forall_forall in Hbytes.
  pose proof (Hbytes e (list_elem_of_lookup_2 _ _ _ He)) as Hbytes_e.
  rewrite Hb in Hbytes_e. fold gs in Hbytes_e.
  subst gs images buffers accessorLinks.
  eexists _, (emittedDef options (multipleBuffers (getRoot doc)) e). split_and!.
  - rewrite <- lookup_drop, Hviews.
    rewrite (lookup_stageViews _ _ _ p j b Hp) by (by eapply lookup_lt_Some).
    rewrite (lookup_planViews _ j g Hj). reflexivity.
  - apply groupView_buffer.
  - rewrite groupView_byteOffset. by rewrite Nat.add_0_l.
  - apply groupView_byteLength.
  - rewrite Hjson, json_buffers, HbufS, Hbuf2, list_lookup_fmap, He. done.
  - by rewrite emittedDef_name, Hb.
  - by rewrite emittedDef_byteLength, Hbytes_e.
  - rewrite length_packedBytes. pose proof (planLength_take _ j g Hj). lia.
Qed.

Lemma views_tile_the_buffer_witness :
  exists nd log view def,
    write twoBuffersDocument externalOptions = Ok (nd, log)
    /\ jarray "bufferViews" (json_of nd) !! 1 = Some (JObj view)
    /\ oget "buffer" view = Some (JInt 1)
    /\ oget "byteOffset" view = Some (JInt 0)
    /\ oget "byteLength" view = Some (JInt 12)
    /\ jarray "buffers" (json_of nd) !! 1 = Some def
    /\ defName def = Some (JStr "second")
    /\ defField "byteLength" def = Some (JInt 12).
Proof.
  destruct (write twoBuffersDocument externalOptions) as [[nd log]|e] eqn:Hwrite;
    [|vm_compute in Hwrite; discriminate Hwrite].
  destruct (views_tile_the_buffer twoBuffersDocument externalOptions nd log 1 0
              (bufferOf "second" [ParentAccessor quadIndices])
              (ConcatGroup [quadIndices] (Some BufferViewTarget.ELEMENT_ARRAY_BUFFER))
              Hwrite eq_refl eq_refl eq_refl)
    as (view & def & Hview & Hbuffer & Hoffset & Hlength & Hdef & Hname & Hbytes & _).
  exists nd, log, view, def. split; [reflexivity|].
  split; [exact Hview|]. split; [exact Hbuffer|]. split; [exact Hoffset|].
  split; [exact Hlength|]. split; [exact Hdef|]. split; [exact Hname|]. exact Hbytes.
Defined.

(** * The statements on the whole document *)

(** ** The post-processor pass at the end of [write] *)

Lemma filter_agree {A : Type} (P Q : A -> Prop) `{!forall x, Decision (P x)}
    `{!forall x, Decision (Q x)} (l : list A) :
  (forall x, x ∈ l -> P x <-> Q x) -> filter P l = filter Q l.
Proof.
  induction l as [|x l IH]; intros Hall; [done|].
  rewrite !filter_cons.
  rewrite IH by (intros y Hy; by apply Hall, list_elem_of_further).
  pose proof (Hall x (list_elem_of_here _ _)) as Hx.
  destruct (decide (P x)), (decide (Q x)); tauto.
Qed.

(** On an object with no key twice, no [null] and no empty string, [clean]
    deletes the members that are empty arrays and no other. *)
Lemma clean_strips (obj : object) :
  NoDup obj.*1 ->
  Forall (fun member => member.2 ≠ JNull /\ member.2 ≠ JStr EmptyString) obj ->
  strippedOf obj (clean obj).
Proof.
  intros Hnodup Hvalues. unfold strippedOf, clean. rewrite deleted_filter.
  apply filter_agree. intros [k v] Hin. cbn [fst snd].
  rewrite Forall_forall in Hvalues.
  fold (deletedKeys obj). rewrite deletedKeys_spec. split.
  - intros Hkept. destruct v as [| |b|z|q|s|l|o]; try done.
    + destruct (Hvalues _ Hin) as [Hnull _]. by destruct Hnull.
    + cbn [isStripped]. apply bool_decide_eq_false. intros ->.
      destruct (Hvalues _ Hin) as [_ Hempty]. by destruct Hempty.
    + destruct l as [|x l]; [|done]. destruct Hkept. by left.
  - intros Hvalue [Harr|[[_ [k' Hnull]]|[_ [k' Hempty]]]].
    + assert (v = JArr []) as ->; [|done].
      pose proof (oget_member _ _ _ Hnodup Hin) as H1.
      pose proof (oget_member _ _ _ Hnodup Harr) as H2. congruence.
    + destruct (Hvalues _ Hnull) as [H _]. by destruct H.
    + destruct (Hvalues _ Hempty) as [_ H]. by destruct H.
Qed.

Lemma rootObject_values (root : Root) (materials : list json) (w : Writer) :
  Forall (fun member => member.2 ≠ JNull /\ member.2 ≠ JStr EmptyString)
    (rootObject root materials w).
Proof. unfold rootObject. repeat constructor; done. Qed.

(** The object that [write] hands to [clean] is the root object. *)
Lemma writeJSON_root (doc : Document) (options : WriterOptions)
    (root : object) (w : Writer) :
  writeJSON doc options initialWriter = Ok (root, w) ->
  exists materials, root = rootObject (getRoot doc) materials w.
Proof.
  unfold writeJSON. rewrite bind_run.
  destruct (writeImages options (getRoot doc) initialWriter) as [[[] w1]|e]; [|done].
  rewrite bind_run.
  destruct (writeBuffers options doc w1) as [[[] w2]|e]; [|done].
  rewrite bind_run.
  destruct (writeMaterials (getRoot doc) w2) as [[materials w3]|e]; [|done].
  intros Hrun. injection Hrun as <- <-. by exists materials.
Qed.

(** C1. When [write] returns, its document is the root JSON object, as the
    stages of the writer have filled it, after the post-processor pass: every
    top-level member whose value is an empty array, [null] or the empty
    string is gone, every other member is there, in its place and with the
    value it had, nested values included: the [asset] is the asset of the
    root, whatever it holds. *)
Theorem write_strips_empty_members (doc : Document) (options : WriterOptions)
    (nd : NativeDocument) (log : list string) :
  write doc options = Ok (nd, log) ->
  exists root w,
    writeJSON doc options initialWriter = Ok (root, w)
    /\ strippedOf root (json_of nd)
    /\ oget "asset" (json_of nd) = Some (JObj (getAsset (getRoot doc))).
Proof.
  intros Hwrite. unfold write in Hwrite.
  destruct (writeJSON doc options initialWriter) as [[root w]|e] eqn:Hjson; [|done].
  injection Hwrite as <- _. exists root, w. split; [done|].
  destruct (writeJSON_root _ _ _ _ Hjson) as [materials ->].
  pose proof (clean_strips _ (rootObject_NoDup (getRoot doc) materials w)
                (rootObject_values (getRoot doc) materials w)) as Hclean.
  split; [exact Hclean|]. cbn [json_of]. rewrite Hclean. reflexivity.
Qed.

Lemma write_strips_empty_members_witness :
  exists nd log root w,
    write sceneDocument glbOptions = Ok (nd, log)
    /\ writeJSON sceneDocument glbOptions initialWriter = Ok (root, w)
    /\ strippedOf root (json_of nd)
    /\ root.*1 = ["asset"; "accessors"; "bufferViews"; "samplers"; "textures";
                  "images"; "buffers"; "materials"; "meshes"; "cameras";
                  "nodes"; "skins"; "animations"; "scenes"]
    /\ oget "skins" root = Some (JArr [])
    /\ (json_of nd).*1 = ["asset"; "accessors"; "bufferViews"; "buffers";
                          "materials"; "meshes"; "cameras"; "nodes"; "scenes"].
Proof.
  destruct (write sceneDocument glbOptions) as [[nd log]|e] eqn:Hwrite;
    [|vm_compute in Hwrite; discriminate Hwrite].
  destruct (write_strips_empty_members sceneDocument glbOptions nd log Hwrite)
    as (root & w & Hjson & Hstrip & _).
  exists nd, log, root, w. split; [reflexivity|].
  split; [exact Hjson|]. split; [exact Hstrip|].
  clear Hstrip. vm_compute in Hjson. injection Hjson as <- <-.
  vm_compute in Hwrite. injection Hwrite as <- <-.
  split; [reflexivity|]. split; reflexivity.
Defined.

(** ** GLB mode and the [embedded] flag *)

(** The buffer definitions of a written document, and its resources when
    the images are embedded. *)
Lemma written_buffers (doc : Document) (options : WriterOptions)
    (nd : NativeDocument) (log : list string) :
  write doc options = Ok (nd, log) ->
  let root := getRoot doc in
  let emitted :=
    emittedFrom options (multipleBuffers root) (gatherAccessorLinks (getLinks doc))
      (stageImages options root) 1 (listBuffers root) in
  jarray "buffers" (json_of nd) = emittedDef options (multipleBuffers root) <$> emitted
  /\ (embedsImages options = true ->
      resources_of nd = storeEmitted options (multipleBuffers root) ∅ emitted).
Proof.
  intros Hwrite root emitted.
  destruct (write_exact _ _ _ _ Hwrite)
    as (w1 & materials & _ & Himages & Hstage & Hsame & Hjson & Hres & _).
  cbv zeta in Hsame, Hjson, Hres.
  destruct Hsame as (_ & _ & _ & HbufS & HresS & _).
  destruct (writeImages_untouched _ _ _ Himages) as (_ & Hcounter & _).
  destruct Hstage as (_ & Hdata & _ & _ & Hbuf1 & _ & _ & _ & _ & _ & _ & _ & Hres1).
  destruct (buffersState_emitted options (multipleBuffers (getRoot doc))
              (gatherAccessorLinks (getLinks doc)) (listBuffers (getRoot doc)) w1)
    as [Hbuf2 Hres2].
  rewrite Hdata, Hcounter in Hbuf2, Hres2. cbn [bufferURICounter initialWriter] in *.
  rewrite Hjson, json_buffers, Hres, HbufS, HresS, Hbuf2, Hres2, Hbuf1, app_nil_l.
  split; [done|]. intros Hembed. by rewrite (Hres1 Hembed).
Qed.

(** The definitions of the buffers that are kept, one for one. *)
Lemma emitted_defs (options : WriterOptions) (multiple : bool)
    (accessorLinks : gmap nat (list Link)) (images : list (list Z))
    (buffers : list Buffer) (P : Buffer -> json -> Prop) :
  (forall e, em_data e = packedBytes (bufferGroups accessorLinks (em_buffer e)) images ->
             P (em_buffer e) (emittedDef options multiple e)) ->
  Forall2 P (keptBuffers accessorLinks images buffers)
    (emittedDef options multiple
     <$> emittedFrom options multiple accessorLinks images 1 buffers).
Proof.
  intros HP. rewrite <- (emittedFrom_buffers options multiple accessorLinks images
                           buffers 1).
  apply Forall2_fmap, Forall_Forall2_diag.
  eapply Forall_impl; [apply emittedFrom_data|]. exact HP.
Qed.

Lemma glb_stored (doc : Document) (basename : string)
    (nd : NativeDocument) (log : list string) :
  write doc (glbWith basename false) = Ok (nd, log) -> glbStored doc nd.
Proof.
  intros Hwrite.
  destruct (written_buffers _ _ _ _ Hwrite) as [Hbuffers Hres].
  specialize (Hres eq_refl).
  change (stageImages (glbWith basename false) (getRoot doc))
    with (tex_image <$> listTextures (getRoot doc)) in Hbuffers, Hres.
  pose proof (emittedFrom_buffers (glbWith basename false)
                (multipleBuffers (getRoot doc)) (gatherAccessorLinks (getLinks doc))
                (tex_image <$> listTextures (getRoot doc))
                (listBuffers (getRoot doc)) 1) as Hkept.
  pose proof (emittedFrom_data (glbWith basename false)
                (multipleBuffers (getRoot doc)) (gatherAccessorLinks (getLinks doc))
                (tex_image <$> listTextures (getRoot doc))
                (listBuffers (getRoot doc)) 1) as Hdata.
  fold (glbKept doc) in Hkept.
  split; [|split].
  - rewrite Hbuffers. apply emitted_defs. intros e He.
    unfold emittedDef, emittedBufferDef, defField, glbBytes.
    cbn [isGLB embedded glbWith]. rewrite <- He. split.
    + rewrite oget_oset_ne by done. by apply createPropertyDef_other.
    + apply oget_oset_eq.
  - intros Hnone. rewrite Hnone in Hkept. apply fmap_nil_inv in Hkept.
    by rewrite Hres, Hkept.
  - intros b Hone. rewrite Hone in Hkept.
    destruct (emittedFrom _ _ _ _ _ _) as [|e [|e' rest]]; try done.
    injection Hkept as Hb. apply Forall_inv in Hdata.
    rewrite Hres. unfold storeEmitted, bufferURI, glbBytes.
    cbn [embedded isGLB glbWith foldl fst]. rewrite Hdata, Hb. apply insert_empty.
Qed.

Lemma glb_embedded (doc : Document) (basename : string)
    (nd : NativeDocument) (log : list string) :
  write doc (glbWith basename true) = Ok (nd, log) -> glbEmbedded doc nd.
Proof.
  intros Hwrite.
  destruct (written_buffers _ _ _ _ Hwrite) as [Hbuffers Hres].
  specialize (Hres eq_refl).
  change (stageImages (glbWith basename true) (getRoot doc))
    with (tex_image <$> listTextures (getRoot doc)) in Hbuffers, Hres.
  split; [|exact Hres].
  rewrite Hbuffers. apply emitted_defs. intros e He.
  unfold emittedDef, emittedBufferDef, defField, glbBytes.
  cbn [isGLB embedded glbWith]. rewrite <- He. split.
  - apply oget_oset_eq.
  - rewrite oget_oset_ne by done. apply oget_oset_eq.
Qed.

(** C3, as stated, fails twice. With [embedded] the buffer of
    [triangleDocument] goes into a data URI and nothing is stored under the
    sentinel. And of the two buffers of [twoBuffersDocument], each of which
    is stored under the sentinel in its turn, it is not buffer 0 that the
    sentinel holds in the end. *)
Lemma glb_claim_fails :
  ~ embeddedIgnored triangleDocument "scene"
  /\ ~ sentinelHoldsFirst twoBuffersDocument "scene".
Proof.
  split.
  - unfold embeddedIgnored. intros Hclaim.
    apply (f_equal (fun r => match r with
                             | Ok (nd, _) => resources_of nd !! GLB_BUFFER
                             | Throw _ => None
                             end)) in Hclaim.
    vm_compute in Hclaim. discriminate.
  - intros Hclaim.
    destruct (write twoBuffersDocument (glbWith "scene" false))
      as [[nd log]|e] eqn:Hwrite; [|vm_compute in Hwrite; discriminate Hwrite].
    pose proof (Hclaim nd log (bufferOf "first" [ParentAccessor triangleIndices])
                  [bufferOf "second" [ParentAccessor quadIndices]] Hwrite eq_refl)
      as Hfirst.
    vm_compute in Hwrite. injection Hwrite as <- <-.
    vm_compute in Hfirst. discriminate Hfirst.
Qed.

(** C3, amended. With [isGLB] the [embedded] flag is honoured. The writer
    returns for both values of the flag whenever it returns at all. Without
    the flag no definition of a buffer has a [uri], and the bytes packed for
    the buffer, its accessor views and then the images, are stored under the
    sentinel "@glb.bin" when the document keeps one buffer. With the flag
    every definition of a buffer carries those bytes in a base64 data URI and
    no resource is stored. So the two documents differ as soon as a buffer is
    kept. *)
Theorem glb_honours_embedded (doc : Document) (basename : string) :
  partitionsOk (gatherAccessorLinks (getLinks doc)) (listBuffers (getRoot doc)) ->
  embeddedHonoured doc basename
  /\ (glbKept doc ≠ [] -> ~ embeddedIgnored doc basename)
  /\ (forall b, glbKept doc = [b] -> sentinelHoldsFirst doc basename).
Proof.
  intros Hok.
  destruct (write_returns doc (glbWith basename false) Hok) as (stored & log & Hs).
  destruct (write_returns doc (glbWith basename true) Hok) as (embedded & log' & He).
  pose proof (glb_stored _ _ _ _ Hs) as Hstored.
  pose proof (glb_embedded _ _ _ _ He) as Hembedded.
  split; [by exists stored, log, embedded, log'|]. split.
  - intros Hkept Hclaim. unfold embeddedIgnored in Hclaim.
    rewrite Hs, He in Hclaim. injection Hclaim as -> _.
    destruct Hstored as [Hdefs _]. destruct Hembedded as [Hdefs' _].
    destruct Hdefs as [|b def kept defs [Huri _] _]; [done|].
    inversion Hdefs' as [|? ? ? ? [Huri' _] _]; subst. congruence.
  - intros b Hone nd log0 b' rest Hwrite Hkept.
    rewrite Hs in Hwrite. injection Hwrite as <- _.
    rewrite Hone in Hkept. injection Hkept as <- _.
    destruct Hstored as (_ & _ & Hres). rewrite (Hres b Hone).
    apply lookup_singleton_eq.
Qed.

Lemma glb_honours_embedded_witness :
  partitionsOk (gatherAccessorLinks (getLinks triangleDocument))
    (listBuffers (getRoot triangleDocument))
  /\ embeddedHonoured triangleDocument "scene"
  /\ ~ embeddedIgnored triangleDocument "scene"
  /\ sentinelHoldsFirst triangleDocument "scene"
  /\ glbKept triangleDocument = [bufferOf "geometry" [ParentAccessor triangleIndices]]
  /\ glbBytes triangleDocument (bufferOf "geometry" [ParentAccessor triangleIndices])
     = [0; 0; 1; 0; 2; 0; 0; 0; 137; 80; 78]%Z
  /\ exists stored log embedded log',
       write triangleDocument (glbWith "scene" false) = Ok (stored, log)
       /\ write triangleDocument (glbWith "scene" true) = Ok (embedded, log')
       /\ defField "uri" <$> jarray "buffers" (json_of stored) = [None]
       /\ resources_of stored
          = {[GLB_BUFFER := [0; 0; 1; 0; 2; 0; 0; 0; 137; 80; 78]%Z]}
       /\ defField "uri" <$> jarray "buffers" (json_of embedded)
          = [Some (JStr "data:application/octet-stream;base64,AAABAAIAAACJUE4=")]
       /\ resources_of embedded = ∅.
Proof.
  assert (Hok : partitionsOk (gatherAccessorLinks (getLinks triangleDocument))
                  (listBuffers (getRoot triangleDocument))).
  { repeat constructor; eexists; vm_compute; reflexivity. }
  assert (Hkept : glbKept triangleDocument
                  = [bufferOf "geometry" [ParentAccessor triangleIndices]])
    by (vm_compute; reflexivity).
  assert (Hne : glbKept triangleDocument ≠ [])
    by (rewrite Hkept; discriminate).
  destruct (glb_honours_embedded triangleDocument "scene" Hok)
    as (Hhonoured & Hdiffer & Hfirst).
  split; [exact Hok|]. split; [exact Hhonoured|].
  split; [exact (Hdiffer Hne)|].
  split; [exact (Hfirst _ Hkept)|].
  split; [exact Hkept|].
  split; [vm_compute; reflexivity|].
  destruct Hhonoured as (stored & log & embedded & log' & Hs & He & _ & _).
  exists stored, log, embedded, log'.
  split; [exact Hs|]. split; [exact He|].
  clear Hdiffer Hfirst.
  vm_compute in Hs. injection Hs as <- <-.
  vm_compute in He. injection He as <- <-.
  split; [reflexivity|]. split; [vm_compute; reflexivity|].
  split; [reflexivity|]. vm_compute. reflexivity.
Defined.

(** ** The order of the arrays, element by element *)

Lemma writeImage_def (options : WriterOptions) (multiple : bool) (i : nat)
    (texture : Texture) (rest : list Texture) (w : Writer) :
  exists def w',
    writeImage options multiple i texture w = Ok (def, w')
    /\ imageDefsFrom options multiple (length (w_bufferViews w)) (imageURICounter w)
         (texture :: rest)
       = def :: imageDefsFrom options multiple (length (w_bufferViews w'))
                  (imageURICounter w') rest.
Proof.
  unfold writeImage. cbn [imageDefsFrom]. unfold imageExtension.
  destruct (embedsImages options); eexists _, _; (split; [reflexivity|]).
  - cbn [w_bufferViews set_w_bufferViews set_imageIndexMap set_imageData
         imageURICounter].
    rewrite length_app. cbn [length]. by rewrite Nat.add_1_r.
  - reflexivity.
Qed.

Lemma mapM_imageDefs (options : WriterOptions) (multiple : bool)
    (textures : list Texture) :
  forall (i : nat) (w : Writer),
  exists w',
    mapM (writeImage options multiple) i textures w
    = Ok (imageDefsFrom options multiple (length (w_bufferViews w))
            (imageURICounter w) textures, w').
Proof.
  induction textures as [|t l IH]; intros i w.
  - by eexists.
  - destruct (writeImage_def options multiple i t l w) as (def & w1 & Hrun & ->).
    rewrite mapM_cons, Hrun.
    destruct (IH (S i) w1) as (w' & ->). by eexists.
Qed.

Lemma writeImages_defs (options : WriterOptions) (root : Root) (w1 : Writer) :
  writeImages options root initialWriter = Ok (tt, w1) ->
  w_images w1
  = imageDefsFrom options (bool_decide (1 < length (listTextures root))) 0 1
      (listTextures root).
Proof.
  unfold writeImages. rewrite bind_run.
  destruct (mapM_imageDefs options (bool_decide (1 < length (listTextures root)))
              (listTextures root) 0 initialWriter) as (w' & ->).
  intros Hrun. by injection Hrun as <-.
Qed.

(** The samplers and textures of a written document, with the table of the
    images as the images stage leaves it. *)
Lemma written_textures_exact (doc : Document) (options : WriterOptions)
    (nd : NativeDocument) (log : list string) :
  write doc options = Ok (nd, log) ->
  exists placed,
    writtenTextures doc nd placed
      (recordIds ∅ 0 (tex_id <$> listTextures (getRoot doc))).
Proof.
  intros Hwrite.
  destruct (written_textures _ _ _ _ Hwrite) as (placed0 & images0 & Hnames).
  destruct Hnames as (_ & Hnames & _).
  destruct (write_exact _ _ _ _ Hwrite)
    as (w1 & materials & _ & Himages & _ & Hsame & Hjson & _ & _ & _ & _ & Hinfos
        & placed & Hslots & Hindex & Hrun).
  cbv zeta in Hsame, Hjson, Hinfos, Hindex, Hrun.
  destruct Hsame as (_ & _ & _ & _ & _ & _ & HtableS & _).
  assert (Htable : imageIndexMap w1
                   = recordIds ∅ 0 (tex_id <$> listTextures (getRoot doc))).
  { unfold writeImages in Himages. rewrite bind_run in Himages.
    destruct (writeImages_table options
                (bool_decide (1 < length (listTextures (getRoot doc))))
                (listTextures (getRoot doc)) 0 initialWriter)
      as (images & w' & Hmap & Htable).
    rewrite Hmap in Himages. injection Himages as <-. exact Htable. }
  destruct Hrun as ((Hsamplers & Htextures) & _ & Hplaced & Hfirst & Hfirst').
  rewrite HtableS, buffersState_imageTable, Htable in Hplaced.
  exists placed. unfold writtenTextures.
  split; [exact Hslots|]. split; [exact Hnames|].
  rewrite Hjson, json_materials, json_samplers, json_textures.
  split_and!.
  - clear -Hindex Hinfos. revert Hindex Hinfos.
    generalize (slotsRun (documentSlots (getRoot doc))
                  (buffersState options (multipleBuffers (getRoot doc))
                     (gatherAccessorLinks (getLinks doc))
                     (listBuffers (getRoot doc)) w1)).1.
    generalize (materials ≫= textureInfos). intros defs infos Hindex.
    revert defs. induction Hindex as [|p info placed infos Hp _ IH];
      intros defs Hinfos; inversion Hinfos as [|? def ? defs' Hdef Hrest]; subst;
      constructor; [|by apply IH].
    destruct Hdef as (d & -> & Hd). unfold defField. by rewrite Hd.
  - by eapply keyed_NoDup.
  - by eapply keyed_NoDup.
  - eapply Forall_impl; [exact Hplaced|]. intros p [Hs Ht]. split; [|exact Ht].
    by apply Hsamplers.
  - exact Hfirst.
  - exact Hfirst'.
Qed.

(** The views of the embedded images are the first views, image by image. *)
Lemma written_image_views (doc : Document) (options : WriterOptions)
    (nd : NativeDocument) (log : list string) (i : nat) (texture : Texture) :
  write doc options = Ok (nd, log) ->
  embedsImages options = true ->
  listTextures (getRoot doc) !! i = Some texture ->
  exists byteOffset,
    jarray "bufferViews" (json_of nd) !! i = Some (placedImageView byteOffset texture).
Proof.
  intros Hwrite Hembed Htexture.
  destruct (write_exact _ _ _ _ Hwrite)
    as (w1 & materials & _ & Himages & _ & Hsame & Hjson & _).
  cbv zeta in Hsame, Hjson.
  destruct Hsame as (_ & HviewsS & _).
  destruct (writeImages_embedded_exact _ _ _ Hembed Himages)
    as (Hviews1 & Hdata1 & _).
  rewrite Hjson, json_bufferViews, HviewsS.
  eapply (buffersState_imageView _ _ _ _ _ _ _ (JInt (-1))).
  - rewrite Hdata1, length_fmap. by eapply lookup_lt_Some.
  - by rewrite Hviews1, list_lookup_fmap, Htexture.
Qed.

(** C4, as stated, fails: in GLB mode the view of the image of
    [triangleDocument] is buffer view 0 and the view of the indices is
    buffer view 1. *)
Lemma image_views_first : ~ imageViewsLast triangleDocument glbOptions.
Proof.
  intros Hclaim.
  destruct (write triangleDocument glbOptions) as [[nd log]|e] eqn:Hwrite;
    [|by vm_compute in Hwrite].
  assert (Hle : viewCount (gatherAccessorLinks (getLinks triangleDocument))
                  (listBuffers (getRoot triangleDocument)) <= 0).
  { apply (Hclaim nd log Hwrite
             (JObj [("name", JStr "wood"); ("mimeType", JStr "image/png");
                    ("bufferView", JInt 0)])); [|reflexivity].
    vm_compute in Hwrite. injection Hwrite as <- <-. apply list_elem_of_here. }
  vm_compute in Hle. lia.
Qed.

(** C4, amended. In every written document each array is what the loop of
    the writer makes of the listing, element by element: [images] of the
    textures, [materials] of the materials, [meshes], [cameras], [nodes],
    [skins], [animations] and [scenes] of the listings of the root with the
    tables of indices of the packed accessors and of the listings, and
    [buffers] of the buffers that are not skipped. [accessors] is in packing
    order: buffer by buffer, the index accessors, the attribute accessors of
    each primitive, the other accessors. [bufferViews] starts with the views
    of the embedded images, image by image, and goes on with the views of the
    accessor groups in packing order. [textures] and [samplers] are in order
    of first use by the texture slots of the materials, each slot with the
    texture of its own image and sampler. *)
Theorem emission_order (doc : Document) (options : WriterOptions)
    (nd : NativeDocument) (log : list string) :
  write doc options = Ok (nd, log) -> listingOrder doc options nd.
Proof.
  intros Hwrite.
  destruct (write_exact _ _ _ _ Hwrite)
    as (w1 & materials & _ & Himages & _ & Hsame & Hjson & _ & _ & _ & Hrun & _).
  cbv zeta in Hsame, Hjson, Hrun.
  destruct Hsame as (_ & _ & HimagesS & _).
  destruct (written_accessor_table _ _ _ _ Hwrite)
    as (materials' & w & Hjson' & Htable & Hdefs).
  unfold listingOrder. split_and!.
  - by eapply written_order.
  - rewrite Hjson, json_images, HimagesS.
    destruct (buffersState_images options (multipleBuffers (getRoot doc))
                (gatherAccessorLinks (getLinks doc)) (listBuffers (getRoot doc)) w1)
      as [_ ->].
    by apply writeImages_defs.
  - eexists w1, _. split; [exact Himages|].
    rewrite Hjson, json_materials. exact Hrun.
  - rewrite Hjson, json_materials. by eapply writeMaterials_show.
  - by rewrite Hjson', json_meshes, Htable.
  - by rewrite Hjson, json_cameras.
  - by rewrite Hjson, json_nodes, zip_with_fmap_r.
  - by rewrite Hjson', json_skins, Htable.
  - by rewrite Hjson', json_animations, Htable.
  - by rewrite Hjson, json_scenes.
  - by destruct (written_buffers _ _ _ _ Hwrite) as [-> _].
  - rewrite Hjson', json_accessors, Hdefs. apply stageDefs_describe.
  - intros i texture Hembed Htexture. by eapply written_image_views.
  - by eapply written_textures_exact.
Qed.

Lemma emission_order_witness :
  exists nd log,
    write texturedDocument glbOptions = Ok (nd, log)
    /\ listingOrder texturedDocument glbOptions nd
    /\ jarray "images" (json_of nd)
       = [JObj [("name", JStr "wood"); ("mimeType", JStr "image/png");
                ("bufferView", JInt 0)];
          JObj [("name", JStr "stone"); ("mimeType", JStr "image/png");
                ("bufferView", JInt 1)]]
    /\ defName <$> jarray "materials" (json_of nd)
       = [Some (JStr "bench"); Some (JStr "floor")]
    /\ jarray "textures" (json_of nd)
       = [JObj [("source", JInt 0); ("sampler", JInt 0)];
          JObj [("source", JInt 1); ("sampler", JInt 0)];
          JObj [("source", JInt 0); ("sampler", JInt 1)]]
    /\ defField "target" <$> jarray "bufferViews" (json_of nd)
       = [None; None; Some (JInt 34963)].
Proof.
  destruct (write texturedDocument glbOptions) as [[nd log]|e] eqn:Hwrite;
    [|vm_compute in Hwrite; discriminate Hwrite].
  exists nd, log. split; [reflexivity|].
  split; [exact (emission_order texturedDocument glbOptions nd log Hwrite)|].
  vm_compute in Hwrite. injection Hwrite as <- <-.
  split; [reflexivity|]. split; [reflexivity|]. split; reflexivity.
Defined.

(** ** Shared samplers and textures *)

(** C8. In every written document: two texture slots with the same sampler
    data have texture definitions with the same sampler index; two texture
    slots with the same image and the same sampler data have texture-info
    definitions with the same texture index; and [json.samplers] and
    [json.textures] hold exactly one entry for each canonical key: no key
    twice, no entry that no slot uses, and for every slot, at the slot's
    sampler index the key of its own sampler data and at its texture index
    the texture definition of its own image and that sampler index. *)
Theorem textures_and_samplers_shared (doc : Document) (options : WriterOptions)
    (nd : NativeDocument) (log : list string) :
  write doc options = Ok (nd, log) -> texturesShared doc nd.
Proof.
  intros Hwrite.
  destruct (written_textures_exact _ _ _ _ Hwrite) as (placed & Htextures).
  exists placed. split; [by eapply written_shared|].
  by destruct Htextures as (_ & _ & _ & _ & _ & Hplaced & _).
Qed.

Lemma textures_and_samplers_shared_witness :
  exists nd log,
    write texturedDocument glbOptions = Ok (nd, log)
    /\ texturesShared texturedDocument nd
    /\ length (documentSlots (getRoot texturedDocument)) = 4
    /\ jarray "textures" (json_of nd)
       = [JObj [("source", JInt 0); ("sampler", JInt 0)];
          JObj [("source", JInt 1); ("sampler", JInt 0)];
          JObj [("source", JInt 0); ("sampler", JInt 1)]]
    /\ jarray "samplers" (json_of nd)
       = [JObj (samplerDefOf linearSampler); JObj (samplerDefOf nearestSampler)]
    /\ defField "index" <$> (jarray "materials" (json_of nd) ≫= textureInfos)
       = [Some (JInt 0); Some (JInt 1); Some (JInt 0); Some (JInt 2)].
Proof.
  destruct (write texturedDocument glbOptions) as [[nd log]|e] eqn:Hwrite;
    [|vm_compute in Hwrite; discriminate Hwrite].
  exists nd, log. split; [reflexivity|].
  split; [exact (textures_and_samplers_shared texturedDocument glbOptions nd log
                   Hwrite)|].
  vm_compute in Hwrite. injection Hwrite as <- <-.
  split; [reflexivity|]. split; [reflexivity|]. split; reflexivity.
Defined.
